(* ===== verification/_CoqProject ===== *)
-Q . S2P
Prelude.v
MessageBuffer.v
Utf8.v
Containers.v
Strings.v
BigNumber.v
Srp6.v
Crypto.v
Timer.v
Enums.v
ByteBuffer.v
Dumps.v
Wire.v
Packets.v
Queues.v
Intrusive.v
Async.v
Socket.v
Session.v
DiscordSocket.v
Framing.v
Sending.v
Login.v
Scheduler.v
TaskContexts.v
World.v
Accounts.v
Network.v
Config.v
App.v
Statements.v
Variant.v
Query.v
Callbacks.v
Fields.v
Binds.v
Results.v
MySQL.v
Transactions.v
Pool.v
Storage.v
Files.v
Logging.v
LogRegistry.v
IPLocation.v
Fetcher.v
Updates.v
Updater.v
Channels.v
Bot.v
Relay.v
Desk.v
Main.v
