(* ===== verification/Prelude.v ===== *)
(** * WarheadDiscord: a verified model of the Discord relay server

    WarheadDiscord relays messages of game servers to Discord.  A game server
    opens a TCP connection, proves with SRP6 that it knows the key of an account,
    and then sends packets that a session turns into calls on a Discord bot.  The
    accounts, bans and statistics live in a MySQL database.  This library models
    the server's own code, under [src/src], and proves what the parts promise.

    ** The parts and how they depend on each other

    Common code ([src/src/common], and the bundled utf8cpp):
    - [MessageBuffer.v]: [Utilities/MessageBuffer.h], the window of bytes of a
      socket; it implements a queue of bytes inside its storage.
    - [Utf8.v], [Strings.v]: UTF-8 (utf8cpp [core.h], [checked.h]), [Util.cpp],
      [Tokenize.cpp], [StringConvert.h], [StringFormat.cpp].
    - [Containers.v]: [Utilities/Random.cpp] over a generator, [Containers.h] with
      its weighted choices, and the conversion of [Util.cpp] that writes into a
      buffer.
    - [BigNumber.v]: [Cryptography/BigNumber.cpp], on the class [OpenSSL];
      [Srp6.v]: [Cryptography/Authentication/SRP6.cpp].
    - [Crypto.v]: the other wrappers of OpenSSL in [Cryptography]: hashes, HMAC,
      key streams, authenticated encryption, the header cipher, one-time passwords.
    - [Timer.v]: [Utilities/Timer.h], [Timer.cpp].
    - [Enums.v]: the reflected enumerations ([EnumUtil], [shared]).
    - [Queues.v]: [Threading/PacketQueue.h], [PCQueue.h], [MPSCQueue.h];
      [Intrusive.v]: the intrusive queue of [MPSCQueue.h].
    - [Async.v]: [Utilities/AsyncCallbackProcessor.h], and the threads of
      [AsyncCallback/AsyncCallbackMgr.cpp].
    - [Scheduler.v]: [Utilities/TaskScheduler.cpp]; [TaskContexts.v]: the calls of
      [TaskContext] that reach a scheduler which may be gone, and the overloads of
      [TaskScheduler.h] with a random duration.
    - [Config.v]: [Configuration/Config.cpp] and the server's [DiscordConfig.cpp].
    - [Logging.v]: the channels of [Logging] and their patterns; [LogRegistry.v]:
      [Log.cpp] and [Logger.cpp], which message goes to which channel.
    - [IPLocation.v]: [IPLocation/IPLocation.cpp], the country of an address.

    Packets ([server/Server]):
    - [ByteBuffer.v]: the payload, its cursors and exceptions; [Dumps.v]: its three
      dumps for the log; [Wire.v]: the class [Wire], what a type of value promises
      to a packet; [Packets.v]: the headers, the table of opcodes and every packet.

    Connections ([shared/Network], [server/Server], [server/Handlers]):
    - [Socket.v]: [Network/Socket.h], the reads and the queue of writes.
    - [Session.v]: [DiscordSession.cpp] and the handlers; it sees its socket
      through the class [SessionSocket].
    - [DiscordSocket.v]: [DiscordSocket.cpp], on top of [Socket.v].  Its theorems
      are in [Framing.v] (packets of a stream), [Sending.v] (answers) and
      [Login.v] (who gets a session).
    - [Network.v]: [NetworkThread.h], [SocketMgr.h], [AsyncAcceptor.h]; sockets
      are any type with the class [NetSocket].

    The server ([server/Discord], [server/Account], [app]):
    - [World.v]: [Discord.cpp], the sessions and the shutdown; [Accounts.v]:
      [AccountMgr.cpp] and [BanMgr.cpp]; [App.v]: the loop of [Main.cpp], its
      detector of a stuck loop, and the clocks; [Main.v]: the tasks
      [SetInitialDiscordSettings] plans, and [main] itself.
    - [Bot.v]: [Bot/DiscordBot.cpp], the guilds the bot is in, its messages and
      hooks, and [ChatCommandHandler.cpp]; [Channels.v]: the channels of a guild;
      [Desk.v]: the slash commands, which work on [Bot.v] and [Accounts.v].
    - [Relay.v]: the parts together: the passes that take the bytes of a game
      server through [DiscordSocket.v] and [Session.v] to the calls of [Bot.v], for
      an account of [Accounts.v].

    The database ([src/src/database]):
    - [Statements.v]: [PreparedStatement.cpp], [MySQLPreparedStatement.cpp].
    - [Query.v]: [QueryCallback.cpp], [QueryHolder.cpp]; [Variant.v]: the unions a
      query callback is made of; [Callbacks.v]: the callbacks of [QueryHolder.cpp]
      and [Transaction.cpp] that poll one future.
    - [Fields.v], [Results.v]: [Field.cpp], [QueryResult.cpp]; [Binds.v]: the
      arrays a prepared statement and its results share.
    - [MySQL.v]: [MySQLConnection.cpp] and the statements of
      [Implementation/DiscordDatabase.cpp]; [Transactions.v]: [Transaction.cpp];
      [Pool.v]: [DatabaseWorkerPool.cpp], [DatabaseWorker.cpp],
      [AdhocStatement.cpp] and [DatabaseLoader.cpp].
    - [Storage.v]: an account on its way through [Statements.v], the tables of
      [sql/base/db_discord] and [Results.v] to the socket that asked for it.
    - [Files.v]: the update files in the source tree; [Fetcher.v]:
      [UpdateFetcher.cpp], which applies and records them, against the class
      [UpdateTarget]; [Updates.v]: its theorem, against the class [BookKeeping];
      [Updater.v]: [DBUpdater.cpp] with the client program, an instance of
      [UpdateTarget].

    This file is the prelude: outcomes, the state monad, machine integers, byte
    lists, their lemmas, tactics and hints.

    ** How C++ is modelled

    A method is a function from the state of its object to an [outcome] and the
    new state, of type [M E S A]: it returns ([Ret]), throws ([Throw], keeping the
    effects made so far), fails an [ASSERT] ([AssertFail], the end of the process)
    or has undefined behaviour ([UB]).  A theorem that an outcome is not [UB] is a
    theorem on memory safety.  Integers are of type [Z] with the wrap-around of
    their width written out ([u8], [u32], [u64], [wrap], [swrap]); a [std::string]
    is the list of its bytes; [unordered_map] is a [gmap], and where the program
    walks one the order is an argument (a class with the law that it lists each
    key once).  Pointers that the code shares become names in a store
    ([MPSCQueue], [Scheduler]) or offsets into a block ([Fields], [Results]).

    Threads take turns: an operation under a lock is one step; the lock-free
    queues take one step for each atomic access, and their theorems are about every
    interleaving of these.  Asynchronous work (a query, an answer of the bot, an
    accept) is a request recorded in the state and an event that answers it.

    Code outside the repository is a class with laws, and each class has an
    instance that computes, which the witnesses use: [OpenSSL] (SHA-1 and big
    numbers), the ciphers and hashes of [Crypto], [Generator] and [Doubles] (random
    numbers), [MySQL] and [MySQLTransactions] (the client library and the server),
    [Floats], [NetSocket], [FileSystem], [Client] (the MySQL client program),
    [LogHost] (fmt and the log files) with [FmtTimeLaws] (what fmt documents of its
    time conversions).  What an operating system, a clock or the
    library DPP says is an argument: a list of answers or readings; calls on DPP
    are recorded.

    ** What the theorems show

    - The relay as a whole: the key an account is registered with logs its game
      server in, in any case of letters and however the bytes are cut, and what the
      server says is said by the bot in the channels of the guild, in order
      ([Relay]); the account survives its way through the database, and every
      statement is given the arguments it was prepared for ([Storage]).
    - A byte stream is cut into the same packets however it arrives, and a
      session exists only when the bytes received contain an authentication whose
      account the database answered with, neither it nor the address is barred, and
      the key passes the check ([Framing], [Login]); answers that fit the buffer
      leave in order as frames a client can read ([Sending], [Socket]); packets reach the bot in order ([Session]).
    - Queues are first in, first out under every interleaving, and never touch
      freed memory ([Queues], [Intrusive]); the scheduler terminates, calls
      what is due and keeps its periods ([Scheduler]), and the server's own tasks are called at their times
      as long as it runs ([Main]); connections are spread evenly and counted exactly
      ([Network]).
    - Whatever fails at the start, the process ends what it started ([Main]).
    - Round trips: encrypted messages ([Crypto]), payloads and embeds ([Wire], [Packets]), registration and login
      ([Accounts]), configuration files ([Config]), arguments and columns of SQL
      ([Statements], [Fields]).
    - A hand-written union is a value of the kind its flag names, with neither a
      leak nor a second destruction ([Variant]); the arrays of a statement are freed
      once while nothing fails, and when something does they are not ([Binds]).
    - Bounds: the operations on a buffer stay in its storage, with the exceptions
      that are named ([ByteBuffer], [MessageBuffer]), and so do the writes into the
      block of a prepared result ([Results]).
    - A transaction on a connection that is not lost is applied as a whole or not
      at all, and its submitter learns which unless the server refuses the COMMIT,
      whose result the program does not look at ([Transactions]); operations are
      taken from the queue in order, each by one worker that then calls it once,
      and called in order by a single worker; chains of queries complete ([Pool],
      [Query]).
    - The cache of guilds and its table agree through whatever the bot hears, a
      check leaves exactly the guilds the bot is in ([Bot]), and what a guild's
      members may do with accounts ([Desk]).
    - An update file is applied once and recorded, and a second run finds nothing
      to do ([Updates]); the list of files is exact ([Files]).
    - A message is wanted exactly when the nearest logger says so, and reaches the
      channels it names, consoles and files that can be opened, once for each time
      one is named ([LogRegistry]); a pattern is formatted as the configuration file
      documents it but for five letters ([Logging]); an address gets the country of
      the range that has it unless it is the last of the range ([IPLocation]).
    - Every asynchronous callback runs once in its thread, and a callback that
      polls a future is called once with its answer ([Async], [Callbacks]).
    - Errors: what the code does where it does not do what it means to is proved
      as well ([MySQL], [Pool], [Channels], [Desk], [Storage], [Binds], and the
      examples beside the theorems).

    ** Fuel and bounds

    Loops that are not structural take fuel that is computed from the state and
    proved enough ([ReadHandler], [Tokenize], the reading of embeds, [Dispatch],
    the search for a logger and for an address, the lines of a file).
    Where the program itself may recurse without end (a query that loses its
    connection again and again, a field that reads itself) the parameter [stack]
    is how many nested calls there is room for, and running out of it is [UB].

    ** What is not modelled

    Crash reports, starting processes, locks of OpenSSL and the banner have no
    model; the order a shuffle leaves is an argument; values of floating-point types
    travel as bit patterns, over arithmetic that is an interface; the printers of calendar time,
    the Windows branches and the vendored libraries under [src/deps] (but the part
    of utf8cpp above) are left out. *)

From stdpp Require Export base numbers list gmap strings.
From Stdlib Require Export ZArith Lia Ascii.
From Stdlib Require String.

#[global] Set Default Proof Using "Type".
#[global] Open Scope Z_scope.

(** ** Outcomes of C++ code

    A call returns, throws, fails an [ASSERT] (which ends the process) or runs
    into undefined behaviour.  Throwing keeps the effects made before. *)

Inductive outcome (E A : Type) : Type :=
  | Ret (a : A)
  | Throw (e : E)
  | AssertFail
  | UB.
Arguments Ret {E A} a.
Arguments Throw {E A} e.
Arguments AssertFail {E A}.
Arguments UB {E A}.

#[global] Instance outcome_eq_dec {E A} `{EqDecision E, EqDecision A} :
  EqDecision (outcome E A).
Proof. solve_decision. Defined.

Definition is_UB {E A} (o : outcome E A) : bool :=
  match o with UB => true | _ => false end.

Definition is_AssertFail {E A} (o : outcome E A) : bool :=
  match o with AssertFail => true | _ => false end.

(** A computation over an object of type [S]: state in, outcome and state out. *)
Definition M (E S A : Type) : Type := S → outcome E A * S.

#[global] Instance M_ret {E S} : MRet (M E S) := λ A a s, (Ret a, s).

#[global] Instance M_bind {E S} : MBind (M E S) := λ A B f m s,
  match m s with
  | (Ret a, s') => f a s'
  | (Throw e, s') => (Throw e, s')
  | (AssertFail, s') => (AssertFail, s')
  | (UB, s') => (UB, s')
  end.

Definition throw {E S A} (e : E) : M E S A := λ s, (Throw e, s).
Definition assert_ {E S} (b : bool) : M E S () :=
  λ s, if b then (Ret (), s) else (AssertFail, s).
Definition undefined {E S A} : M E S A := λ s, (UB, s).
Definition gets {E S A} (f : S → A) : M E S A := λ s, (Ret (f s), s).
Definition modify {E S} (f : S → S) : M E S () := λ s, (Ret (), f s).
Definition skip {E S} : M E S () := λ s, (Ret (), s).

(** Run a computation on a part of a larger object. *)
Definition zoom {E S T A} (get : S → T) (put : T → S → S) (m : M E T A) : M E S A :=
  λ s, let '(o, t) := m (get s) in (o, put t s).

(** A call that only reads something else. *)
Definition lift {E S A} (o : outcome Empty_set A) : M E S A := λ s,
  (match o with
   | Ret a => Ret a
   | Throw e => match e with end
   | AssertFail => AssertFail
   | UB => UB
   end, s).

(** A range-based [for]. *)
Fixpoint for_each {E S A} (f : A → M E S ()) (l : list A) : M E S () :=
  match l with
  | [] => skip
  | x :: l => _ ← f x; for_each f l
  end.

(** The state after a run, and the value of a run that returned. *)
Definition exec {E S A} (m : M E S A) (s : S) : S := (m s).2.
Definition eval {E S A} (m : M E S A) (s : S) : outcome E A := (m s).1.

Section monad_laws.
Context {E S : Type}.

Lemma bind_ret_l {A B} (a : A) (f : A → M E S B) (s : S) :
  (mret a ≫= f) s = f a s.
Proof. reflexivity. Qed.

Lemma bind_ret_r {A} (m : M E S A) (s : S) : (m ≫= mret) s = m s.
Proof. unfold mbind, M_bind. by destruct (m s) as [[] ?]. Qed.

Lemma bind_assoc {A B C} (m : M E S A) (f : A → M E S B) (g : B → M E S C) s :
  ((m ≫= f) ≫= g) s = (m ≫= (λ a, f a ≫= g)) s.
Proof. unfold mbind, M_bind. by destruct (m s) as [[] ?]. Qed.

Lemma bind_run {A B} (m : M E S A) (f : A → M E S B) s a s' :
  m s = (Ret a, s') → (m ≫= f) s = f a s'.
Proof. intros H. unfold mbind, M_bind. by rewrite H. Qed.

Lemma bind_gets {A B} (f : S → A) (k : A → M E S B) s : (gets f ≫= k) s = k (f s) s.
Proof. reflexivity. Qed.

Lemma bind_modify {B} (f : S → S) (k : () → M E S B) s : (modify f ≫= k) s = k () (f s).
Proof. reflexivity. Qed.

Lemma bind_assert {B} (b : bool) (k : () → M E S B) s : b = true → (assert_ b ≫= k) s = k () s.
Proof. by intros ->. Qed.

Lemma bind_throw {A B} (m : M E S A) (f : A → M E S B) s e s' :
  m s = (Throw e, s') → (m ≫= f) s = (Throw e, s').
Proof. intros H. unfold mbind, M_bind. by rewrite H. Qed.

Lemma bind_ret_inv {A B} (m : M E S A) (f : A → M E S B) s b s'' :
  (m ≫= f) s = (Ret b, s'') →
  ∃ a s', m s = (Ret a, s') ∧ f a s' = (Ret b, s'').
Proof. unfold mbind, M_bind. destruct (m s) as [[] ?]; intros; simplify_eq; eauto. Qed.

Lemma for_each_app {A} (f : A → M E S ()) l k s :
  for_each f (l ++ k) s = (_ ← for_each f l; for_each f k) s.
Proof.
  revert s. induction l as [|x l IH]; intros s; [done|]. cbn [app for_each].
  rewrite bind_assoc. unfold mbind, M_bind. by destruct (f x s) as [[] ?].
Qed.

Lemma for_each_filter {A} (p : A → bool) (f : A → M E S ()) l s :
  for_each (λ x, if p x then f x else skip) l s = for_each f (List.filter p l) s.
Proof.
  revert s. induction l as [|x l IH]; intros s; [done|]. cbn [for_each List.filter].
  destruct (p x); cbn [for_each].
  - unfold mbind, M_bind. by destruct (f x s) as [[] ?].
  - rewrite (bind_run skip _ s () s) by done. apply IH.
Qed.

Lemma for_each_ext {A} (f g : A → M E S ()) l s :
  (∀ x s, f x s = g x s) → for_each f l s = for_each g l s.
Proof.
  intros H. revert s. induction l as [|x l IH]; intros s; [done|]. cbn [for_each].
  unfold mbind, M_bind. rewrite H. by destruct (g x s) as [[] ?].
Qed.
End monad_laws.

(** *** What a computation preserves

    [I] holds again after a run, however the run ends. *)

Section preserves.
Context {E S : Type} (I : S → Prop).

Definition preserves {A} (m : M E S A) : Prop := ∀ s, I s → I (m s).2.

Lemma preserves_bind {A B} (m : M E S A) (k : A → M E S B) :
  preserves m → (∀ a, preserves (k a)) → preserves (m ≫= k).
Proof.
  intros Hm Hk s Hs. specialize (Hm s Hs). unfold mbind, M_bind.
  destruct (m s) as [[a|e| |] s']; try done. by apply Hk.
Qed.

Lemma preserves_ret {A} (a : A) : preserves (mret a).
Proof. by intros s. Qed.
Lemma preserves_gets {A} (f : S → A) : preserves (gets f).
Proof. by intros s. Qed.
Lemma preserves_skip : preserves skip.
Proof. by intros s. Qed.
Lemma preserves_throw {A} (e : E) : preserves (throw e : M E S A).
Proof. by intros s. Qed.
Lemma preserves_undefined {A} : preserves (undefined : M E S A).
Proof. by intros s. Qed.
Lemma preserves_assert b : preserves (assert_ b).
Proof. intros s. unfold assert_. by destruct b. Qed.
Lemma preserves_lift {A} (o : outcome Empty_set A) : preserves (lift o).
Proof. by intros s. Qed.

Lemma preserves_modify (f : S → S) : (∀ s, I s → I (f s)) → preserves (modify f).
Proof. intros Hf s. apply Hf. Qed.

Lemma preserves_for_each {A} (f : A → M E S ()) (l : list A) :
  (∀ x, preserves (f x)) → preserves (for_each f l).
Proof.
  intros Hf. induction l as [|x l IH]; [apply preserves_skip|].
  cbn [for_each]. apply preserves_bind; [apply Hf|]. by intros [].
Qed.
End preserves.

Create HintDb preserves.
#[export] Hint Resolve preserves_ret preserves_gets preserves_skip preserves_throw
  preserves_undefined preserves_assert preserves_lift preserves_modify preserves_for_each : preserves.
#[export] Hint Extern 2 (preserves _ (_ ≫= _)) => (apply preserves_bind; [|intros ?]) : preserves.
#[export] Hint Extern 2 (preserves _ ?m) =>
  match m with match ?o with _ => _ end => destruct o end : preserves.

(** ** Machine integers

    Unsigned [w]-bit values are the integers of [0, 2^w); signed ones are read
    in two's complement. *)

Definition wrap (w z : Z) : Z := z mod 2 ^ w.
Definition swrap (w z : Z) : Z := (z + 2 ^ (w - 1)) mod 2 ^ w - 2 ^ (w - 1).

Abbreviation u8 := (wrap 8).
Abbreviation u16 := (wrap 16).
Abbreviation u32 := (wrap 32).
Abbreviation u64 := (wrap 64).
Abbreviation i8 := (swrap 8).
Abbreviation i16 := (swrap 16).
Abbreviation i32 := (swrap 32).
Abbreviation i64 := (swrap 64).

Lemma wrap_range w z : 0 <= w → 0 <= wrap w z < 2 ^ w.
Proof. intros. apply Z.mod_pos_bound. lia. Qed.

Lemma wrap_small w z : 0 <= z < 2 ^ w → wrap w z = z.
Proof. intros. by apply Z.mod_small. Qed.

Lemma wrap_wrap w z : wrap w (wrap w z) = wrap w z.
Proof. apply Zmod_mod. Qed.

Lemma swrap_small w z : 0 < w → - 2 ^ (w - 1) <= z < 2 ^ (w - 1) → swrap w z = z.
Proof.
  intros Hw Hz. unfold swrap. rewrite Z.mod_small; [lia|].
  replace (2 ^ w) with (2 * 2 ^ (w - 1)); [lia|].
  rewrite <- Z.pow_succ_r by lia. f_equal; lia.
Qed.

Lemma swrap_wrap w z : swrap w (wrap w z) = swrap w z.
Proof. unfold swrap, wrap. by rewrite Zplus_mod_idemp_l. Qed.

Lemma swrap_range w z : 0 < w → - 2 ^ (w - 1) <= swrap w z < 2 ^ (w - 1).
Proof.
  intros Hw. unfold swrap.
  assert (2 ^ w = 2 * 2 ^ (w - 1)) as E.
  { rewrite <- Z.pow_succ_r by lia. f_equal; lia. }
  pose proof (Z.mod_pos_bound (z + 2 ^ (w - 1)) (2 ^ w)). lia.
Qed.

(** ** Bit operations as arithmetic *)

Lemma land_ones_mod n v : 0 <= n → Z.land v (2 ^ n - 1) = v mod 2 ^ n.
Proof. intros. rewrite <- Z.land_ones by lia. by rewrite Z.ones_equiv. Qed.

Lemma land_low_high n a b : 0 <= n → 0 <= a < 2 ^ n → Z.land a (b * 2 ^ n) = 0.
Proof.
  intros Hn Ha. rewrite <- Z.shiftl_mul_pow2 by lia.
  apply Z.bits_inj'. intros i Hi. rewrite Z.land_spec, Z.bits_0.
  destruct (Z.lt_ge_cases i n) as [L|G].
  - rewrite Z.shiftl_spec_low by lia. apply andb_false_r.
  - destruct (Z.eq_dec a 0) as [->|]; [by rewrite Z.bits_0|].
    rewrite Z.bits_above_log2; [done|lia|].
    apply Z.log2_lt_pow2; [lia|].
    apply Z.lt_le_trans with (2 ^ n); [lia|]. apply Z.pow_le_mono_r; lia.
Qed.

Lemma lor_low_high n a b c :
  0 <= n → 0 <= a < 2 ^ n → c = b * 2 ^ n → Z.lor a c = a + c.
Proof.
  intros Hn Ha ->. pose proof (land_low_high n a b Hn Ha) as H.
  rewrite <- Z.lxor_lor by done. by rewrite Z.add_nocarry_lxor.
Qed.

Lemma lor_range n a b : 0 <= n → 0 <= a < 2 ^ n → 0 <= b < 2 ^ n → 0 <= Z.lor a b < 2 ^ n.
Proof.
  intros Hn Ha Hb. split; [apply Z.lor_nonneg; lia|].
  assert (Z.shiftr (Z.lor a b) n = 0) as E.
  { rewrite Z.shiftr_lor, !Z.shiftr_div_pow2, !Z.div_small by lia. done. }
  rewrite Z.shiftr_div_pow2 in E by lia.
  assert (0 <= Z.lor a b) by (apply Z.lor_nonneg; lia).
  apply Z.div_small_iff in E; lia.
Qed.

Lemma land_bit_test m i : 0 <= i → (Z.land m (Z.shiftl 1 i) =? 0) = negb (Z.testbit m i).
Proof.
  intros Hi. rewrite Z.shiftl_1_l. destruct (Z.testbit m i) eqn:E; cbn.
  - apply Z.eqb_neq. intros H. apply (f_equal (λ z, Z.testbit z i)) in H.
    rewrite Z.land_spec, E, Z.pow2_bits_true, Z.bits_0 in H by lia. done.
  - apply Z.eqb_eq. apply Z.bits_inj'. intros j Hj.
    rewrite Z.land_spec, Z.bits_0, Z.pow2_bits_eqb by lia.
    destruct (Z.eqb_spec i j) as [->|]; [by rewrite E|apply andb_false_r].
Qed.

Lemma split_low_byte g : g = Z.lor (Z.land g 255) (Z.shiftl (Z.shiftr g 8) 8).
Proof.
  change 255 with (2 ^ 8 - 1). rewrite land_ones_mod by lia.
  rewrite Z.shiftl_mul_pow2, Z.shiftr_div_pow2 by lia.
  rewrite (lor_low_high 8 _ (g / 2 ^ 8)); [|lia|apply Z.mod_pos_bound; lia|done].
  pose proof (Z.div_mod g (2 ^ 8)). lia.
Qed.

(** Division and remainder by constants, for [lia]. *)
Ltac divmod_lia := Z.to_euclidean_division_equations; lia.
Ltac list_eq_lia := repeat (apply (f_equal2 cons); [divmod_lia|]); try reflexivity.

(** ** Byte sequences

    A [std::string], a [std::vector<uint8>] and a memory block are lists of
    byte values; sizes and positions are [size_t], kept as integers. *)

Definition zlen {A} (l : list A) : Z := Z.of_nat (length l).
Definition ztake {A} (n : Z) (l : list A) : list A := take (Z.to_nat n) l.
Definition zdrop {A} (n : Z) (l : list A) : list A := drop (Z.to_nat n) l.

(** [n] elements of [l] from position [p]. *)
Definition slice {A} (p n : Z) (l : list A) : list A := ztake n (zdrop p l).

(** [memcpy] of [data] over the elements of [l] from position [p]. *)
Definition overwrite {A} (p : Z) (data l : list A) : list A :=
  ztake p l ++ data ++ zdrop (p + zlen data) l.

(** [vector::resize(n, x)] *)
Definition vresize {A} (n : Z) (x : A) (l : list A) : list A :=
  ztake n l ++ replicate (Z.to_nat (n - zlen l)) x.

(** A string literal as the bytes of a [char] array. *)
Definition str (s : string) : list Z :=
  map (λ c, Z.of_N (N_of_ascii c)) (String.list_ascii_of_string s).

Definition is_byte (b : Z) : Prop := 0 <= b < 256.

Definition all_bytes : list Z := map Z.of_nat (seq 0 256).

(** A boolean fact about every byte, by computation. *)
Lemma byte_forall (P : Z → bool) :
  forallb P all_bytes = true → ∀ b, is_byte b → P b = true.
Proof.
  intros H b Hb. rewrite forallb_forall in H. apply H.
  unfold all_bytes. apply in_map_iff. exists (Z.to_nat b).
  unfold is_byte in Hb. rewrite in_seq. lia.
Qed.

Section byte_lists.
Context {A : Type}.
Implicit Types l : list A.

Lemma zlen_nonneg l : 0 <= zlen l.
Proof. unfold zlen. lia. Qed.
Lemma zlen_nil : zlen (@nil A) = 0.
Proof. reflexivity. Qed.
Lemma zlen_cons x l : zlen (x :: l) = 1 + zlen l.
Proof. unfold zlen. cbn [length]. lia. Qed.
Lemma zlen_app l1 l2 : zlen (l1 ++ l2) = zlen l1 + zlen l2.
Proof. unfold zlen. rewrite length_app. lia. Qed.
Lemma zlen_0 l : zlen l = 0 → l = [].
Proof. destruct l; [done|]. rewrite zlen_cons. pose proof (zlen_nonneg l). lia. Qed.
Lemma zlen_rev l : zlen (rev l) = zlen l.
Proof. unfold zlen. by rewrite length_rev. Qed.
Lemma zlen_replicate n (x : A) : zlen (replicate n x) = Z.of_nat n.
Proof. unfold zlen. by rewrite length_replicate. Qed.
Lemma zlen_ztake n l : zlen (ztake n l) = Z.min (Z.max 0 n) (zlen l).
Proof. unfold zlen, ztake. rewrite length_take. lia. Qed.
Lemma zlen_zdrop n l : zlen (zdrop n l) = Z.max 0 (zlen l - Z.max 0 n).
Proof. unfold zlen, zdrop. rewrite length_drop. lia. Qed.
Lemma zlen_slice p n l :
  0 <= p → 0 <= n → p + n <= zlen l → zlen (slice p n l) = n.
Proof. intros. unfold slice. rewrite zlen_ztake, zlen_zdrop. lia. Qed.

Lemma ztake_all n l : zlen l <= n → ztake n l = l.
Proof. unfold zlen, ztake. intros. apply take_ge. lia. Qed.
Lemma zdrop_all n l : zlen l <= n → zdrop n l = [].
Proof. unfold zlen, zdrop. intros. apply drop_ge. lia. Qed.
Lemma ztake_0 n l : n <= 0 → ztake n l = [].
Proof. unfold ztake. intros. by replace (Z.to_nat n) with 0%nat by lia. Qed.
Lemma zdrop_0 n l : n <= 0 → zdrop n l = l.
Proof. unfold zdrop. intros. by replace (Z.to_nat n) with 0%nat by lia. Qed.
Lemma ztake_app_exact l1 l2 : ztake (zlen l1) (l1 ++ l2) = l1.
Proof. unfold ztake, zlen. rewrite Nat2Z.id. apply take_app_length. Qed.
Lemma zdrop_app_exact l1 l2 : zdrop (zlen l1) (l1 ++ l2) = l2.
Proof. unfold zdrop, zlen. rewrite Nat2Z.id. apply drop_app_length. Qed.
Lemma ztake_zdrop n l : ztake n l ++ zdrop n l = l.
Proof. apply take_drop. Qed.
Lemma zdrop_zdrop m n l : 0 <= m → 0 <= n → zdrop n (zdrop m l) = zdrop (m + n) l.
Proof. intros. unfold zdrop. rewrite drop_drop. f_equal. lia. Qed.
Lemma ztake_ztake m n l : 0 <= m → ztake n (ztake m l) = ztake (Z.min n m) l.
Proof. intros. unfold ztake. rewrite take_take. f_equal. lia. Qed.
Lemma ztake_app_le n l1 l2 : n <= zlen l1 → ztake n (l1 ++ l2) = ztake n l1.
Proof. unfold ztake, zlen. intros. rewrite take_app_le; [done|lia]. Qed.
Lemma zdrop_app_le n l1 l2 : n <= zlen l1 → zdrop n (l1 ++ l2) = zdrop n l1 ++ l2.
Proof. unfold zdrop, zlen. intros. rewrite drop_app_le; [done|lia]. Qed.
Lemma ztake_app_ge n l1 l2 :
  zlen l1 <= n → ztake n (l1 ++ l2) = l1 ++ ztake (n - zlen l1) l2.
Proof.
  unfold ztake, zlen. intros. rewrite take_app_ge by lia.
  do 2 f_equal. lia.
Qed.
Lemma zdrop_app_ge n l1 l2 :
  zlen l1 <= n → zdrop n (l1 ++ l2) = zdrop (n - zlen l1) l2.
Proof. unfold zdrop, zlen. intros. rewrite drop_app_ge by lia. f_equal. lia. Qed.
Lemma slice_split p n l :
  0 <= p → 0 <= n → p + n <= zlen l →
  zdrop p l = slice p n l ++ zdrop (p + n) l.
Proof.
  intros. unfold slice. rewrite <- (zdrop_zdrop p n) by lia.
  by rewrite ztake_zdrop.
Qed.
Lemma slice_app_mid l1 l2 l3 : slice (zlen l1) (zlen l2) (l1 ++ l2 ++ l3) = l2.
Proof. unfold slice. by rewrite zdrop_app_exact, ztake_app_exact. Qed.

Lemma zlen_overwrite p data l :
  0 <= p → p + zlen data <= zlen l → zlen (overwrite p data l) = zlen l.
Proof.
  intros. unfold overwrite. pose proof (zlen_nonneg data).
  rewrite !zlen_app, zlen_ztake, zlen_zdrop. lia.
Qed.
Lemma slice_overwrite p data l :
  0 <= p → p <= zlen l → slice p (zlen data) (overwrite p data l) = data.
Proof.
  intros. unfold overwrite.
  assert (zlen (ztake p l) = p) as E by (rewrite zlen_ztake; lia).
  rewrite <- E at 1. apply slice_app_mid.
Qed.
Lemma overwrite_end l x data :
  zlen x = zlen data → overwrite (zlen l) data (l ++ x) = l ++ data.
Proof.
  intros. unfold overwrite. rewrite ztake_app_exact.
  rewrite zdrop_app_ge by (pose proof (zlen_nonneg data); lia).
  rewrite zdrop_all by lia. by rewrite app_nil_r.
Qed.
Lemma zlen_vresize n x l : 0 <= n → zlen (vresize n x l) = n.
Proof.
  intros. unfold vresize. pose proof (zlen_nonneg l).
  rewrite zlen_app, zlen_ztake, zlen_replicate. lia.
Qed.
Lemma vresize_grow n x l :
  zlen l <= n → vresize n x l = l ++ replicate (Z.to_nat (n - zlen l)) x.
Proof. intros. unfold vresize. by rewrite ztake_all. Qed.
Lemma vresize_shrink n x l : n <= zlen l → vresize n x l = ztake n l.
Proof.
  intros. unfold vresize. replace (Z.to_nat (n - zlen l)) with 0%nat by lia.
  by rewrite app_nil_r.
Qed.

Lemma Forall_ztake (P : A → Prop) n l : Forall P l → Forall P (ztake n l).
Proof. apply Forall_take. Qed.
Lemma Forall_zdrop (P : A → Prop) n l : Forall P l → Forall P (zdrop n l).
Proof. apply Forall_drop. Qed.
Lemma Forall_slice (P : A → Prop) p n l : Forall P l → Forall P (slice p n l).
Proof. intros. by apply Forall_ztake, Forall_zdrop. Qed.
Lemma Forall_overwrite (P : A → Prop) p d l :
  Forall P d → Forall P l → Forall P (overwrite p d l).
Proof.
  intros. unfold overwrite. rewrite !Forall_app.
  eauto using Forall_ztake, Forall_zdrop.
Qed.
Lemma Forall_vresize (P : A → Prop) n x l :
  P x → Forall P l → Forall P (vresize n x l).
Proof.
  intros. unfold vresize. rewrite Forall_app.
  eauto using Forall_ztake, Forall_replicate.
Qed.
End byte_lists.

Lemma str_bytes s : Forall is_byte (str s).
Proof.
  unfold str. apply Forall_fmap, Forall_forall. intros c _. cbn.
  pose proof (N_ascii_bounded c). unfold is_byte. lia.
Qed.

Create HintDb wh.
#[export] Hint Resolve zlen_nonneg Forall_ztake Forall_zdrop Forall_slice
  Forall_overwrite Forall_vresize str_bytes : wh.
Create Rewrite HintDb zlen.
#[export] Hint Rewrite @zlen_nil @zlen_cons @zlen_app @zlen_ztake @zlen_zdrop
  @zlen_rev @zlen_replicate : zlen.

(** Lengths to linear arithmetic: rewrite them out, add that they are not
    negative, and call [lia]. *)
Ltac zlen_nonneg_all :=
  repeat match goal with
  | |- context [zlen ?l] =>
      lazymatch goal with
      | _ : 0 <= zlen l |- _ => fail
      | _ => pose proof (zlen_nonneg l)
      end
  | _ : context [zlen ?l] |- _ =>
      lazymatch goal with
      | _ : 0 <= zlen l |- _ => fail
      | _ => pose proof (zlen_nonneg l)
      end
  end.
Ltac zlen_lia := autorewrite with zlen in *; zlen_nonneg_all; lia.

(** ** Little-endian byte strings of integers *)

Fixpoint le_bytes (n : nat) (v : Z) : list Z :=
  match n with
  | O => []
  | S n => Z.land v 255 :: le_bytes n (Z.shiftr v 8)
  end.

Fixpoint le_value (l : list Z) : Z :=
  match l with
  | [] => 0
  | b :: l => b + 256 * le_value l
  end.

Lemma land_255 v : Z.land v 255 = v mod 256.
Proof. change 255 with (Z.ones 8). rewrite Z.land_ones by lia. done. Qed.

Lemma shiftr_8 v : Z.shiftr v 8 = v / 256.
Proof. rewrite Z.shiftr_div_pow2 by lia. done. Qed.

Lemma length_le_bytes n v : length (le_bytes n v) = n.
Proof. revert v; induction n; intros; cbn; auto. Qed.

Lemma zlen_le_bytes n v : zlen (le_bytes n v) = Z.of_nat n.
Proof. unfold zlen. by rewrite length_le_bytes. Qed.
#[export] Hint Rewrite zlen_le_bytes : zlen.

Lemma le_bytes_bytes n v : Forall is_byte (le_bytes n v).
Proof.
  revert v; induction n; intros; cbn; constructor; auto.
  rewrite land_255. unfold is_byte. pose proof (Z.mod_pos_bound v 256). lia.
Qed.
#[export] Hint Resolve le_bytes_bytes : wh.

Lemma pow2_8_S n : 2 ^ (8 * Z.of_nat (S n)) = 256 * 2 ^ (8 * Z.of_nat n).
Proof.
  replace (8 * Z.of_nat (S n)) with (8 + 8 * Z.of_nat n) by lia.
  rewrite Z.pow_add_r by lia. done.
Qed.

Lemma le_value_bytes n v : le_value (le_bytes n v) = wrap (8 * Z.of_nat n) v.
Proof.
  unfold wrap. revert v. induction n as [|n IH]; intros v.
  { cbn. by rewrite Z.mod_1_r. }
  cbn [le_bytes le_value]. rewrite IH, land_255, shiftr_8, pow2_8_S.
  rewrite (Z.rem_mul_r v 256) by lia. done.
Qed.

Lemma le_value_range l :
  Forall is_byte l → 0 <= le_value l < 2 ^ (8 * zlen l).
Proof.
  unfold zlen, is_byte. induction 1 as [|b l Hb _ IH]; [done|].
  cbn [le_value length]. rewrite pow2_8_S. lia.
Qed.

Lemma le_bytes_value l : Forall is_byte l → le_bytes (length l) (le_value l) = l.
Proof.
  unfold is_byte. induction 1 as [|b l Hb _ IH]; [done|].
  cbn [le_bytes le_value length]. rewrite land_255, shiftr_8.
  rewrite (Z.mul_comm 256), Z.mod_add, Z.div_add by lia.
  by rewrite Z.mod_small, Z.div_small, Z.add_0_l, IH by lia.
Qed.

(** ** Executions of a step relation *)

Lemma rtc_inv {S : Type} (step : S → S → Prop) (I : S → Prop) :
  (∀ s s', I s → step s s' → I s') →
  ∀ s s', rtc step s s' → I s → I s'.
Proof. intros Hstep s s' H. induction H; eauto. Qed.
