(* ===== verification/MessageBuffer.v ===== *)
(** * MessageBuffer: the socket's growable byte window

    Model of [src/src/common/Utilities/MessageBuffer.h].  The storage is a
    vector; [_rpos] and [_wpos] delimit its active part.  Positions are
    [size_t], so differences wrap. *)

From S2P Require Import Prelude.
Open Scope Z_scope.

Definition READ_BLOCK_SIZE : Z := 4096.

Record MessageBuffer := mkMB {
  mb_wpos : Z;
  mb_rpos : Z;
  mb_storage : list Z
}.

#[export] Instance MessageBuffer_eq_dec : EqDecision MessageBuffer.
Proof. solve_decision. Defined.

Module MB.

(** ** Operations *)

Definition new_default : MessageBuffer :=
  mkMB 0 0 (vresize READ_BLOCK_SIZE 0 []).

Definition new_sized (initialSize : Z) : MessageBuffer :=
  mkMB 0 0 (vresize initialSize 0 []).

Definition Reset (b : MessageBuffer) : MessageBuffer :=
  mkMB 0 0 (mb_storage b).

Definition Resize (bytes : Z) (b : MessageBuffer) : MessageBuffer :=
  mkMB (mb_wpos b) (mb_rpos b) (vresize bytes 0 (mb_storage b)).

Definition ReadCompleted (bytes : Z) (b : MessageBuffer) : MessageBuffer :=
  mkMB (mb_wpos b) (u64 (mb_rpos b + bytes)) (mb_storage b).

Definition WriteCompleted (bytes : Z) (b : MessageBuffer) : MessageBuffer :=
  mkMB (u64 (mb_wpos b + bytes)) (mb_rpos b) (mb_storage b).

Definition GetActiveSize (b : MessageBuffer) : Z := u64 (mb_wpos b - mb_rpos b).
Definition GetRemainingSpace (b : MessageBuffer) : Z :=
  u64 (zlen (mb_storage b) - mb_wpos b).
Definition GetBufferSize (b : MessageBuffer) : Z := zlen (mb_storage b).
Definition HasActiveSize (b : MessageBuffer) : bool := 0 <? GetActiveSize b.
Definition HasRemainingSpace (b : MessageBuffer) : bool := 0 <? GetRemainingSpace b.

(** The bytes at [GetReadPointer()] that the window owns. *)
Definition active (b : MessageBuffer) : list Z :=
  slice (mb_rpos b) (GetActiveSize b) (mb_storage b).

Definition Normalize (b : MessageBuffer) : MessageBuffer :=
  if mb_rpos b =? 0 then b
  else
    let st :=
      if mb_rpos b =? mb_wpos b then mb_storage b
      else overwrite 0 (active b) (mb_storage b) in
    mkMB (u64 (mb_wpos b - mb_rpos b)) 0 st.

Definition EnsureFreeSpace (b : MessageBuffer) : MessageBuffer :=
  if GetRemainingSpace b =? 0 then
    mkMB (mb_wpos b) (mb_rpos b)
      (vresize (u64 (zlen (mb_storage b) * 3) / 2) 0 (mb_storage b))
  else b.

(** [Write(data, size)]: [memcpy] to the write pointer.  Writing past the
    storage, or reading past [data], is undefined. *)
Definition Write (data : list Z) (size : Z) : M Empty_set MessageBuffer () := λ b,
  if size =? 0 then (Ret (), b)
  else if (mb_wpos b + size <=? zlen (mb_storage b)) && (size <=? zlen data) then
    (Ret (), mkMB (u64 (mb_wpos b + size)) (mb_rpos b)
               (overwrite (mb_wpos b) (ztake size data) (mb_storage b)))
  else (UB, b).

(** [Move()] leaves an empty vector behind. *)
Definition Move (b : MessageBuffer) : list Z * MessageBuffer :=
  (mb_storage b, mkMB 0 0 []).

(** [MessageBuffer(MessageBuffer&&)] and move assignment: the window is read
    before [Move] resets it. *)
Definition move_construct (right : MessageBuffer) : MessageBuffer * MessageBuffer :=
  let w := mb_wpos right in
  let r := mb_rpos right in
  let '(st, right') := Move right in (mkMB w r st, right').

(** ** Well-formedness *)

Record wf (b : MessageBuffer) : Prop := {
  wf_r : 0 <= mb_rpos b;
  wf_rw : mb_rpos b <= mb_wpos b;
  wf_ws : mb_wpos b <= zlen (mb_storage b);
  wf_s : zlen (mb_storage b) < 2 ^ 62
}.

Lemma active_size b : wf b → GetActiveSize b = mb_wpos b - mb_rpos b.
Proof. intros []. apply wrap_small. lia. Qed.

Lemma remaining_space b : wf b → GetRemainingSpace b = zlen (mb_storage b) - mb_wpos b.
Proof. intros []. apply wrap_small. lia. Qed.

Lemma zlen_active b : wf b → zlen (active b) = GetActiveSize b.
Proof.
  intros H. unfold active. rewrite (active_size _ H). destruct H.
  rewrite zlen_slice; lia.
Qed.

(** ** Each operation on the active bytes *)

Lemma active_mk w r st :
  wf (mkMB w r st) → active (mkMB w r st) = slice r (w - r) st.
Proof. intros H. unfold active. by rewrite (active_size _ H). Qed.

Lemma slice_overwrite_end (r w : Z) (d st : list Z) :
  0 <= r <= w → w + zlen d <= zlen st →
  slice r (w + zlen d - r) (overwrite w d st) = slice r (w - r) st ++ d.
Proof.
  intros Hr Hw. pose proof (zlen_nonneg d). unfold slice, overwrite.
  assert (zlen (ztake w st) = w) as Hw' by zlen_lia.
  rewrite zdrop_app_le by lia.
  rewrite <- (ztake_zdrop w st) at 3.
  rewrite zdrop_app_le by lia.
  assert (zlen (zdrop r (ztake w st)) = w - r) as Hm by zlen_lia.
  rewrite (ztake_app_le (w - r)) by lia.
  rewrite (ztake_all (w - r)) by lia.
  rewrite ztake_app_ge by lia. f_equal.
  rewrite ztake_app_ge by lia.
  rewrite (ztake_0 (_ - zlen d)) by lia. by rewrite app_nil_r.
Qed.

Lemma Write_spec data b :
  wf b → zlen data <= GetRemainingSpace b →
  ∃ b', Write data (zlen data) b = (Ret (), b') ∧ wf b' ∧
    active b' = active b ++ data ∧
    GetRemainingSpace b' = GetRemainingSpace b - zlen data ∧
    mb_rpos b' = mb_rpos b ∧ mb_wpos b' = mb_wpos b + zlen data ∧
    zlen (mb_storage b') = zlen (mb_storage b).
Proof.
  intros H Hfit. pose proof (zlen_nonneg data) as Hd.
  rewrite (remaining_space _ H) in *. unfold Write.
  destruct (Z.eqb_spec (zlen data) 0) as [E|E].
  { exists b. apply zlen_0 in E as ->. rewrite app_nil_r.
    rewrite (remaining_space _ H). change (zlen (@nil Z)) with 0.
    repeat split; try apply H; lia. }
  pose proof H as [].
  rewrite ztake_all by lia.
  rewrite (proj2 (Z.leb_le (mb_wpos b + zlen data) _)) by lia.
  rewrite Z.leb_refl. cbn.
  assert (wf (mkMB (u64 (mb_wpos b + zlen data)) (mb_rpos b)
    (overwrite (mb_wpos b) data (mb_storage b)))) as H'.
  { rewrite wrap_small by lia.
    split; cbn; rewrite ?zlen_overwrite; lia. }
  eexists; split; [done|]. split; [done|].
  rewrite wrap_small in * by lia.
  rewrite (remaining_space _ H'). cbn.
  rewrite zlen_overwrite by lia.
  split; [|repeat split; lia].
  rewrite active_mk by done. unfold active. rewrite (active_size _ H).
  apply slice_overwrite_end; lia.
Qed.

Lemma ReadCompleted_spec n b :
  wf b → 0 <= n <= GetActiveSize b →
  wf (ReadCompleted n b) ∧ active (ReadCompleted n b) = zdrop n (active b).
Proof.
  intros H Hn. rewrite (active_size _ H) in Hn. pose proof H as [].
  unfold ReadCompleted. rewrite wrap_small by lia.
  assert (wf (mkMB (mb_wpos b) (mb_rpos b + n) (mb_storage b))) as H'
    by (split; cbn; lia).
  split; [done|]. rewrite active_mk by done.
  unfold active. rewrite (active_size _ H). unfold slice.
  rewrite <- (zdrop_zdrop (mb_rpos b) n) by lia.
  set (l := zdrop (mb_rpos b) (mb_storage b)).
  unfold ztake, zdrop. rewrite skipn_firstn_comm. f_equal. lia.
Qed.

Lemma Normalize_spec b :
  wf b → wf (Normalize b) ∧ active (Normalize b) = active b ∧
    mb_rpos (Normalize b) = 0 ∧ mb_wpos (Normalize b) = GetActiveSize b ∧
    zlen (mb_storage (Normalize b)) = zlen (mb_storage b).
Proof.
  intros H. pose proof H as []. rewrite (active_size _ H).
  unfold Normalize. destruct (Z.eqb_spec (mb_rpos b) 0) as [E|E].
  { rewrite E. repeat split; try apply H; lia. }
  rewrite wrap_small by lia.
  set (st := if mb_rpos b =? mb_wpos b then _ else _).
  assert (zlen st = zlen (mb_storage b)) as Hst.
  { unfold st. destruct (_ =? _); [done|].
    rewrite zlen_overwrite; rewrite ?(zlen_active _ H), ?(active_size _ H); lia. }
  assert (wf (mkMB (mb_wpos b - mb_rpos b) 0 st)) as H' by (split; cbn; lia).
  split; [done|]. split; [|by repeat split].
  rewrite active_mk by done. rewrite Z.sub_0_r.
  unfold st. destruct (Z.eqb_spec (mb_rpos b) (mb_wpos b)) as [E'|E'].
  { rewrite E', Z.sub_diag. unfold active. rewrite (active_size _ H), E', Z.sub_diag.
    unfold slice. by rewrite !ztake_0. }
  rewrite <- (active_size _ H), <- (zlen_active _ H).
  apply slice_overwrite; lia.
Qed.

Lemma EnsureFreeSpace_spec b :
  wf b → zlen (mb_storage b) * 3 < 2 ^ 62 →
  wf (EnsureFreeSpace b) ∧ active (EnsureFreeSpace b) = active b ∧
    (2 <= zlen (mb_storage b) → 0 < GetRemainingSpace (EnsureFreeSpace b)).
Proof.
  intros H Hs. pose proof H as []. unfold EnsureFreeSpace.
  destruct (Z.eqb_spec (GetRemainingSpace b) 0) as [E|E].
  2:{ split; [done|]. split; [done|].
      rewrite (remaining_space _ H) in *. lia. }
  rewrite (remaining_space _ H) in E.
  pose proof (zlen_nonneg (mb_storage b)) as Hp.
  rewrite wrap_small by lia.
  set (n := zlen (mb_storage b) * 3 / 2).
  assert (zlen (mb_storage b) <= n /\ 2 * n <= zlen (mb_storage b) * 3 < 2 * n + 2) as [Hn Hn2].
  { unfold n. pose proof (Z.div_mod (zlen (mb_storage b) * 3) 2).
    pose proof (Z.mod_pos_bound (zlen (mb_storage b) * 3) 2). lia. }
  assert (wf (mkMB (mb_wpos b) (mb_rpos b) (vresize n 0 (mb_storage b)))) as H'
    by (split; cbn; rewrite ?zlen_vresize; lia).
  split; [done|]. split.
  - rewrite active_mk by done. unfold active. rewrite (active_size _ H).
    rewrite vresize_grow by lia. unfold slice.
    rewrite zdrop_app_le by lia. rewrite ztake_app_le; [done|].
    rewrite zlen_zdrop. lia.
  - intros. rewrite (remaining_space _ H'). cbn. rewrite zlen_vresize; lia.
Qed.

(** ** The window as a byte queue

    The client's view: bytes are written at the end and consumed at the front;
    compaction and growth are invisible. *)

Inductive op :=
  | OWrite (data : list Z)
  | OReadCompleted (n : Z)
  | ONormalize
  | OEnsureFreeSpace
  | OReset.

Definition run_op (o : op) : M Empty_set MessageBuffer () :=
  match o with
  | OWrite data => Write data (zlen data)
  | OReadCompleted n => modify (ReadCompleted n)
  | ONormalize => modify Normalize
  | OEnsureFreeSpace => modify EnsureFreeSpace
  | OReset => modify Reset
  end.

Fixpoint run_ops (os : list op) : M Empty_set MessageBuffer () :=
  match os with
  | [] => mret ()
  | o :: os => run_op o ;; run_ops os
  end.

(** What the caller has to respect, as the code's callers do. *)
Definition op_ok (b : MessageBuffer) (o : op) : Prop :=
  match o with
  | OWrite data => zlen data <= GetRemainingSpace b
  | OReadCompleted n => 0 <= n <= GetActiveSize b
  | OEnsureFreeSpace => zlen (mb_storage b) * 3 < 2 ^ 62
  | _ => True
  end.

Definition spec_op (o : op) (q : list Z) : list Z :=
  match o with
  | OWrite data => q ++ data
  | OReadCompleted n => zdrop n q
  | ONormalize | OEnsureFreeSpace => q
  | OReset => []
  end.

Fixpoint ops_ok (b : MessageBuffer) (os : list op) : Prop :=
  match os with
  | [] => True
  | o :: os => op_ok b o ∧ ops_ok (run_op o b).2 os
  end.

Lemma buffer_op_spec o b :
  wf b → op_ok b o →
  ∃ b', run_op o b = (Ret (), b') ∧ wf b' ∧ active b' = spec_op o (active b).
Proof.
  intros H Hok. destruct o; cbn in *.
  - destruct (Write_spec data b H Hok) as (b' & ? & ? & ? & _). eauto.
  - destruct (ReadCompleted_spec n b H Hok). eauto.
  - destruct (Normalize_spec b H) as (? & ? & _). eauto.
  - destruct (EnsureFreeSpace_spec b H Hok) as (? & ? & _). eauto.
  - eexists; split; [done|]. destruct H.
    split; [split; cbn; pose proof (zlen_nonneg (mb_storage b)); lia|].
    unfold active, slice. apply ztake_0. by vm_compute.
Qed.
(** C39: whatever sequence of writes, consumptions, compactions and growths the
    callers make within the space they checked, the buffer never leaves its
    storage, its window stays well formed, and its active bytes are those of the
    byte queue that got the same writes and consumptions. *)
Theorem message_buffer_is_queue (os : list op) (b : MessageBuffer) :
  wf b → ops_ok b os →
  ∃ b', run_ops os b = (Ret (), b') ∧ wf b' ∧
    active b' = fold_left (λ q o, spec_op o q) os (active b).
Proof.
  revert b. induction os as [|o os IH]; intros b Hwf Hok; [by exists b|].
  destruct Hok as [Ho Hos]. destruct (buffer_op_spec o b Hwf Ho) as (b1 & E & H1 & A1).
  cbn [run_ops fold_left]. rewrite E in Hos. cbn in Hos.
  erewrite bind_run by exact E. rewrite <- A1. by apply IH.
Qed.

Lemma message_buffer_is_queue_witness :
  ∃ b', run_ops [OWrite [1; 2; 3]; OReadCompleted 2; OWrite [4]; OEnsureFreeSpace; ONormalize;
                 OWrite [5; 6; 7; 8]] (new_sized 4) = (Ret (), b') ∧ wf b' ∧
    active b' = [3; 4; 5; 6; 7; 8].
Proof.
  apply (message_buffer_is_queue
    [OWrite [1; 2; 3]; OReadCompleted 2; OWrite [4]; OEnsureFreeSpace; ONormalize;
     OWrite [5; 6; 7; 8]] (new_sized 4)).
  - split; vm_compute; done.
  - vm_compute. repeat split; done.
Defined.
End MB.
