(* ===== verification/Utf8.v ===== *)
(** * Utf8: the UTF-8 checks and conversions the server relies on

    Model of [src/deps/utf8cpp/utf8/core.h] and [checked.h], the parts the
    server calls: validation, [distance], and the conversions between UTF-8 and
    UTF-16.  An iterator pair is the list of octets still to be read. *)

From S2P Require Import Prelude.
Open Scope Z_scope.

Module Utf8.

(** ** Code points and octets ([core.h]) *)

Definition LEAD_SURROGATE_MIN : Z := 0xd800.
Definition LEAD_SURROGATE_MAX : Z := 0xdbff.
Definition TRAIL_SURROGATE_MIN : Z := 0xdc00.
Definition TRAIL_SURROGATE_MAX : Z := 0xdfff.
Definition LEAD_OFFSET : Z := 0xd7c0.
Definition SURROGATE_OFFSET : Z := 0xfca02400.
Definition CODE_POINT_MAX : Z := 0x10ffff.

Definition mask8 (oc : Z) : Z := Z.land 0xff oc.
Definition mask16 (oc : Z) : Z := Z.land 0xffff oc.

Definition is_trail (oc : Z) : bool := Z.shiftr (mask8 oc) 6 =? 2.

Definition is_lead_surrogate (cp : Z) : bool :=
  (LEAD_SURROGATE_MIN <=? cp) && (cp <=? LEAD_SURROGATE_MAX).
Definition is_trail_surrogate (cp : Z) : bool :=
  (TRAIL_SURROGATE_MIN <=? cp) && (cp <=? TRAIL_SURROGATE_MAX).
Definition is_surrogate (cp : Z) : bool :=
  (LEAD_SURROGATE_MIN <=? cp) && (cp <=? TRAIL_SURROGATE_MAX).
Definition is_code_point_valid (cp : Z) : bool :=
  (cp <=? CODE_POINT_MAX) && negb (is_surrogate cp).

Definition sequence_length (oc : Z) : Z :=
  let lead := mask8 oc in
  if lead <? 0x80 then 1
  else if Z.shiftr lead 5 =? 0x6 then 2
  else if Z.shiftr lead 4 =? 0xe then 3
  else if Z.shiftr lead 3 =? 0x1e then 4
  else 0.

Definition is_overlong_sequence (cp length : Z) : bool :=
  if cp <? 0x80 then negb (length =? 1)
  else if cp <? 0x800 then negb (length =? 2)
  else if cp <? 0x10000 then negb (length =? 3)
  else false.

Inductive utf_error :=
  | NOT_ENOUGH_ROOM
  | INVALID_LEAD
  | INCOMPLETE_SEQUENCE
  | OVERLONG_SEQUENCE
  | INVALID_CODE_POINT.

#[export] Instance utf_error_eq_dec : EqDecision utf_error.
Proof. solve_decision. Defined.

(** The octet an iterator points to; the code reads it only before [end]. *)
Definition deref (it : list Z) : Z := default 0 (head it).

(** [++it], then the checks that an octet is there and is a trail octet. *)
Definition increase_safely (it : list Z) : utf_error + list Z :=
  match tail it with
  | [] => inl NOT_ENOUGH_ROOM
  | oc :: _ => if is_trail oc then inr (tail it) else inl INCOMPLETE_SEQUENCE
  end.

(** [get_sequence_x] leave the iterator on the last octet of the sequence. *)
Definition get_sequence_1 (it : list Z) : utf_error + Z * list Z :=
  match it with
  | [] => inl NOT_ENOUGH_ROOM
  | _ => inr (mask8 (deref it), it)
  end.

Definition get_sequence_2 (it : list Z) : utf_error + Z * list Z :=
  match it with
  | [] => inl NOT_ENOUGH_ROOM
  | _ =>
      let cp := mask8 (deref it) in
      match increase_safely it with
      | inl ret => inl ret
      | inr it => inr (Z.land (Z.shiftl cp 6) 0x7ff + Z.land (deref it) 0x3f, it)
      end
  end.

Definition get_sequence_3 (it : list Z) : utf_error + Z * list Z :=
  match it with
  | [] => inl NOT_ENOUGH_ROOM
  | _ =>
      let cp := mask8 (deref it) in
      match increase_safely it with
      | inl ret => inl ret
      | inr it =>
          let cp := Z.land (Z.shiftl cp 12) 0xffff +
                    Z.land (Z.shiftl (mask8 (deref it)) 6) 0xfff in
          match increase_safely it with
          | inl ret => inl ret
          | inr it => inr (cp + Z.land (deref it) 0x3f, it)
          end
      end
  end.

Definition get_sequence_4 (it : list Z) : utf_error + Z * list Z :=
  match it with
  | [] => inl NOT_ENOUGH_ROOM
  | _ =>
      let cp := mask8 (deref it) in
      match increase_safely it with
      | inl ret => inl ret
      | inr it =>
          let cp := Z.land (Z.shiftl cp 18) 0x1fffff +
                    Z.land (Z.shiftl (mask8 (deref it)) 12) 0x3ffff in
          match increase_safely it with
          | inl ret => inl ret
          | inr it =>
              let cp := cp + Z.land (Z.shiftl (mask8 (deref it)) 6) 0xfff in
              match increase_safely it with
              | inl ret => inl ret
              | inr it => inr (cp + Z.land (deref it) 0x3f, it)
              end
          end
      end
  end.

(** On success the code point and the iterator behind the sequence; on failure
    the iterator stays where it was. *)
Definition validate_next (it : list Z) : utf_error + Z * list Z :=
  match it with
  | [] => inl NOT_ENOUGH_ROOM
  | lead :: _ =>
      let length := sequence_length lead in
      let err :=
        if length =? 0 then inl INVALID_LEAD
        else if length =? 1 then get_sequence_1 it
        else if length =? 2 then get_sequence_2 it
        else if length =? 3 then get_sequence_3 it
        else get_sequence_4 it in
      match err with
      | inl err => inl err
      | inr (cp, it) =>
          if is_code_point_valid cp then
            if negb (is_overlong_sequence cp length) then inr (cp, tail it)
            else inl OVERLONG_SEQUENCE
          else inl INVALID_CODE_POINT
      end
  end.

(** The loop of [find_invalid]: what is left from the first invalid sequence
    on.  Every turn consumes an octet, so the length bounds the turns. *)
Fixpoint find_invalid_loop (fuel : nat) (result : list Z) : list Z :=
  match fuel, result with
  | S fuel, _ :: _ =>
      match validate_next result with
      | inl _ => result
      | inr (_, result) => find_invalid_loop fuel result
      end
  | _, _ => result
  end.

Definition find_invalid (start : list Z) : list Z :=
  find_invalid_loop (length start) start.

Definition is_valid (s : list Z) : bool :=
  match find_invalid s with [] => true | _ => false end.

(** ** Checked conversions ([checked.h])

    [None] is an exception derived from [std::exception]. *)

Definition append (cp : Z) : option (list Z) :=
  if negb (is_code_point_valid cp) then None
  else if cp <? 0x80 then Some [u8 cp]
  else if cp <? 0x800 then
    Some [u8 (Z.lor (Z.shiftr cp 6) 0xc0);
          u8 (Z.lor (Z.land cp 0x3f) 0x80)]
  else if cp <? 0x10000 then
    Some [u8 (Z.lor (Z.shiftr cp 12) 0xe0);
          u8 (Z.lor (Z.land (Z.shiftr cp 6) 0x3f) 0x80);
          u8 (Z.lor (Z.land cp 0x3f) 0x80)]
  else
    Some [u8 (Z.lor (Z.shiftr cp 18) 0xf0);
          u8 (Z.lor (Z.land (Z.shiftr cp 12) 0x3f) 0x80);
          u8 (Z.lor (Z.land (Z.shiftr cp 6) 0x3f) 0x80);
          u8 (Z.lor (Z.land cp 0x3f) 0x80)].

Definition next (it : list Z) : option (Z * list Z) :=
  match validate_next it with
  | inr r => Some r
  | inl _ => None
  end.

Fixpoint distance_loop (fuel : nat) (first : list Z) (dist : Z) : option Z :=
  match fuel, first with
  | S fuel, _ :: _ =>
      '(_, first) ← next first; distance_loop fuel first (dist + 1)
  | _, _ => Some dist
  end.

Definition distance (s : list Z) : option Z := distance_loop (length s) s 0.

Fixpoint utf8to16_loop (fuel : nat) (start result : list Z) : option (list Z) :=
  match fuel, start with
  | S fuel, _ :: _ =>
      '(cp, start) ← next start;
      if 0xffff <? cp then
        utf8to16_loop fuel start
          (result ++ [u16 (Z.shiftr cp 10 + LEAD_OFFSET);
                      u16 (Z.land cp 0x3ff + TRAIL_SURROGATE_MIN)])
      else utf8to16_loop fuel start (result ++ [u16 cp])
  | _, _ => Some result
  end.

Definition utf8to16 (s : list Z) : option (list Z) :=
  utf8to16_loop (length s) s [].

Fixpoint utf16to8_loop (start result : list Z) : option (list Z) :=
  match start with
  | [] => Some result
  | w :: start =>
      let cp := mask16 w in
      if is_lead_surrogate cp then
        match start with
        | [] => None
        | t :: start =>
            let trail_surrogate := mask16 t in
            if is_trail_surrogate trail_surrogate then
              os ← append (u32 (u32 (Z.shiftl cp 10) + trail_surrogate + SURROGATE_OFFSET));
              utf16to8_loop start (result ++ os)
            else None
        end
      else if is_trail_surrogate cp then None
      else os ← append cp; utf16to8_loop start (result ++ os)
  end.

Definition utf16to8 (s : list Z) : option (list Z) := utf16to8_loop s [].

(** ** The encoding, arithmetically *)

Definition valid_cp (cp : Z) : Prop :=
  0 <= cp < 0xd800 ∨ 0xe000 <= cp <= 0x10ffff.

Definition enc (cp : Z) : list Z :=
  if cp <? 0x80 then [cp]
  else if cp <? 0x800 then [0xc0 + cp / 64; 0x80 + cp mod 64]
  else if cp <? 0x10000 then
    [0xe0 + cp / 4096; 0x80 + (cp / 64) mod 64; 0x80 + cp mod 64]
  else [0xf0 + cp / 262144; 0x80 + (cp / 4096) mod 64;
        0x80 + (cp / 64) mod 64; 0x80 + cp mod 64].

Definition encode (cps : list Z) : list Z := concat (map enc cps).

Lemma code_point_valid cp : 0 <= cp → is_code_point_valid cp = true ↔ valid_cp cp.
Proof.
  unfold is_code_point_valid, is_surrogate, valid_cp, CODE_POINT_MAX,
    LEAD_SURROGATE_MIN, TRAIL_SURROGATE_MAX.
  rewrite andb_true_iff, negb_true_iff, andb_false_iff, Z.leb_le, !Z.leb_gt. lia.
Qed.

Lemma is_trail_spec b : is_byte b → is_trail b = (128 <=? b) && (b <? 192).
Proof.
  intros Hb. apply Bool.eqb_prop. revert b Hb.
  apply (byte_forall (λ b, Bool.eqb (is_trail b) _)). by vm_compute.
Qed.

Lemma sequence_length_spec b : is_byte b →
  sequence_length b =
    if b <? 128 then 1
    else if b <? 192 then 0
    else if b <? 224 then 2
    else if b <? 240 then 3
    else if b <? 248 then 4 else 0.
Proof.
  intros Hb. apply Z.eqb_eq. revert b Hb.
  apply (byte_forall (λ b, sequence_length b =? _)). by vm_compute.
Qed.

Lemma mask8_byte b : is_byte b → mask8 b = b.
Proof.
  intros Hb. unfold mask8. rewrite Z.land_comm. rewrite land_255.
  by apply Z.mod_small.
Qed.

Lemma land_3f b : Z.land b 0x3f = b mod 64.
Proof. exact (land_ones_mod 6 b ltac:(lia)). Qed.

Lemma lor_80 a : 0 <= a < 64 → Z.lor a 0x80 = 0x80 + a.
Proof. intros. rewrite (lor_low_high 6 a 2) by lia. lia. Qed.

Lemma append_enc cp : valid_cp cp → append cp = Some (enc cp).
Proof.
  intros H. unfold append. rewrite (proj2 (code_point_valid cp ltac:(unfold valid_cp in H; lia)) H).
  unfold enc. cbn [negb].
  repeat case_match; rewrite ?Z.ltb_lt, ?Z.ltb_ge in *; rewrite ?land_3f,
    ?Z.shiftr_div_pow2 by lia; unfold valid_cp in H.
  - rewrite wrap_small by lia. done.
  - change (2 ^ 6) with 64. rewrite (lor_low_high 5 (cp / 64) 6) by first [lia | divmod_lia].
    rewrite lor_80 by divmod_lia. rewrite !wrap_small by divmod_lia.
    f_equal; list_eq_lia.
  - change (2 ^ 6) with 64; change (2 ^ 12) with 4096.
    rewrite (lor_low_high 4 (cp / 4096) 14) by first [lia | divmod_lia].
    rewrite !lor_80 by divmod_lia. rewrite !wrap_small by divmod_lia.
    f_equal; list_eq_lia.
  - change (2 ^ 6) with 64; change (2 ^ 12) with 4096; change (2 ^ 18) with 262144.
    rewrite (lor_low_high 3 (cp / 262144) 30) by first [lia | divmod_lia].
    rewrite !lor_80 by divmod_lia. rewrite !wrap_small by divmod_lia.
    f_equal; list_eq_lia.
Qed.

Lemma increase_safely_trail b t rest :
  is_byte t → 128 <= t < 192 → increase_safely (b :: t :: rest) = inr (t :: rest).
Proof.
  intros Ht Hr. unfold increase_safely. cbn. rewrite is_trail_spec by done.
  rewrite (proj2 (Z.leb_le _ _)), (proj2 (Z.ltb_lt _ _)) by lia. done.
Qed.

Lemma increase_safely_inv it it' :
  Forall is_byte it → increase_safely it = inr it' →
  ∃ t rest, tail it = t :: rest ∧ it' = t :: rest ∧ 128 <= t < 192 ∧ Forall is_byte rest.
Proof.
  intros Hb. unfold increase_safely. destruct it as [|b [|t rest]]; cbn; try done.
  inversion_clear Hb as [|? ? _ Hb']. inversion_clear Hb' as [|? ? Ht Hr].
  rewrite is_trail_spec by done. case_match eqn:E; [|done].
  intros [= <-]. apply andb_true_iff in E as [?%Z.leb_le ?%Z.ltb_lt]. eauto 10.
Qed.

(** ** Validation inverts the encoding *)

Lemma enc_bytes cp : valid_cp cp → Forall is_byte (enc cp).
Proof.
  unfold valid_cp, enc, is_byte. intros H.
  repeat case_match; rewrite ?Z.ltb_lt, ?Z.ltb_ge in *;
    repeat constructor; divmod_lia.
Qed.

Lemma enc_nonempty cp : enc cp ≠ [].
Proof. unfold enc. by repeat case_match. Qed.

(** The octets a code point takes. *)
Definition enc_len (cp : Z) : Z :=
  if cp <? 0x80 then 1 else if cp <? 0x800 then 2 else if cp <? 0x10000 then 3 else 4.

Lemma enc_len_4 cp : 4 = enc_len cp → 0x10000 <= cp.
Proof. unfold enc_len. repeat case_match; rewrite ?Z.ltb_ge in *; lia. Qed.

Lemma overlong_false cp n :
  is_overlong_sequence cp n = false ↔ n = enc_len cp ∨ 0x10000 <= cp.
Proof.
  unfold is_overlong_sequence, enc_len.
  repeat case_match; rewrite ?Z.ltb_lt, ?Z.ltb_ge in *;
    rewrite ?negb_false_iff, ?Z.eqb_eq; intuition lia.
Qed.

Definition decoded (cp n : Z) (rest : list Z) : utf_error + Z * list Z :=
  if is_code_point_valid cp then
    if negb (is_overlong_sequence cp n) then inr (cp, rest) else inl OVERLONG_SEQUENCE
  else inl INVALID_CODE_POINT.

Lemma decoded_valid cp n rest :
  valid_cp cp → is_overlong_sequence cp n = false → decoded cp n rest = inr (cp, rest).
Proof.
  intros H Ho. unfold decoded. rewrite Ho.
  assert (0 <= cp) as Hcp by (unfold valid_cp in H; lia).
  by rewrite (proj2 (code_point_valid cp Hcp) H).
Qed.

Lemma decoded_inv cp n rest cp' rest' :
  0 <= cp → decoded cp n rest = inr (cp', rest') →
  cp' = cp ∧ rest' = rest ∧ valid_cp cp ∧ is_overlong_sequence cp n = false.
Proof.
  intros Hcp. unfold decoded. case_match eqn:E; [|done].
  apply code_point_valid in E; [|done]. case_match eqn:Eo; [|done].
  apply negb_true_iff in Eo. by intros [= <- <-].
Qed.

Ltac cp_shift :=
  rewrite ?mask8_byte, ?Z.shiftl_mul_pow2, ?land_3f by first [assumption | lia];
  rewrite ?(land_ones_mod 11), ?(land_ones_mod 16), ?(land_ones_mod 12),
    ?(land_ones_mod 21), ?(land_ones_mod 18) by lia.

Lemma get_sequence_2_ok b0 b1 rest :
  is_byte b0 → is_byte b1 → 128 <= b1 < 192 →
  get_sequence_2 (b0 :: b1 :: rest) =
    inr ((b0 * 64) mod 2048 + b1 mod 64, b1 :: rest).
Proof.
  intros. unfold get_sequence_2. rewrite increase_safely_trail by done. cbn [deref head default].
  change 0x7ff with (2 ^ 11 - 1). by cp_shift.
Qed.

Lemma get_sequence_3_ok b0 b1 b2 rest :
  is_byte b0 → is_byte b1 → is_byte b2 → 128 <= b1 < 192 → 128 <= b2 < 192 →
  get_sequence_3 (b0 :: b1 :: b2 :: rest) =
    inr ((b0 * 4096) mod 65536 + (b1 * 64) mod 4096 + b2 mod 64, b2 :: rest).
Proof.
  intros. unfold get_sequence_3. rewrite !increase_safely_trail by done.
  cbn [deref head default].
  change 0xffff with (2 ^ 16 - 1). change 0xfff with (2 ^ 12 - 1). by cp_shift.
Qed.

Lemma get_sequence_4_ok b0 b1 b2 b3 rest :
  is_byte b0 → is_byte b1 → is_byte b2 → is_byte b3 →
  128 <= b1 < 192 → 128 <= b2 < 192 → 128 <= b3 < 192 →
  get_sequence_4 (b0 :: b1 :: b2 :: b3 :: rest) =
    inr ((b0 * 262144) mod 2097152 + (b1 * 4096) mod 262144 + (b2 * 64) mod 4096
      + b3 mod 64, b3 :: rest).
Proof.
  intros. unfold get_sequence_4. rewrite !increase_safely_trail by done.
  cbn [deref head default].
  change 0x1fffff with (2 ^ 21 - 1). change 0x3ffff with (2 ^ 18 - 1).
  change 0xfff with (2 ^ 12 - 1). by cp_shift.
Qed.

(** [validate_next] by the range of the lead octet. *)
Lemma validate_next_cases b it :
  is_byte b →
  validate_next (b :: it) =
    let go n r := match r with
      | inl err => inl err
      | inr (cp, it) => decoded cp n (tail it)
      end in
    if b <? 128 then decoded b 1 it
    else if b <? 192 then inl INVALID_LEAD
    else if b <? 224 then go 2 (get_sequence_2 (b :: it))
    else if b <? 240 then go 3 (get_sequence_3 (b :: it))
    else if b <? 248 then go 4 (get_sequence_4 (b :: it))
    else inl INVALID_LEAD.
Proof.
  intros Hb. unfold validate_next. rewrite sequence_length_spec by done.
  unfold decoded. repeat case_match; cbn in *; simplify_eq; try done;
    rewrite mask8_byte in * by done; unfold deref in *; cbn in *; congruence.
Qed.

Ltac ltb_cases :=
  repeat match goal with
  | |- context [?a <? ?b] => destruct (Z.ltb_spec a b)
  end; try lia.

Lemma validate_next_enc cp rest :
  valid_cp cp → validate_next (enc cp ++ rest) = inr (cp, rest).
Proof.
  intros H. assert (∀ n rest, n = enc_len cp → decoded cp n rest = inr (cp, rest)) as Hd.
  { intros. apply decoded_valid; [done|]. apply overlong_false. by left. }
  unfold valid_cp in H. unfold enc, enc_len in *.
  destruct (Z.ltb_spec cp 0x80).
  { cbn [app]. rewrite validate_next_cases by (unfold is_byte; lia). cbn zeta.
    rewrite (proj2 (Z.ltb_lt cp 128)) by lia. by apply Hd. }
  destruct (Z.ltb_spec cp 0x800); [|destruct (Z.ltb_spec cp 0x10000)]; cbn [app];
    (rewrite validate_next_cases by (unfold is_byte; divmod_lia)); cbn zeta;
    ltb_cases; try divmod_lia.
  - rewrite get_sequence_2_ok by (unfold is_byte; divmod_lia). cbn [tail].
    replace (_ + _) with cp by divmod_lia. by apply Hd.
  - rewrite get_sequence_3_ok by (unfold is_byte; divmod_lia). cbn [tail].
    replace (_ + _ + _) with cp by divmod_lia. by apply Hd.
  - rewrite get_sequence_4_ok by (unfold is_byte; divmod_lia). cbn [tail].
    replace (_ + _ + _ + _) with cp by divmod_lia. by apply Hd.
Qed.

(** Decoded sequences are encodings: the three multi-octet shapes. *)
Lemma enc_2 b0 b1 :
  192 <= b0 < 224 → 128 <= b1 < 192 →
  let cp := (b0 * 64) mod 2048 + b1 mod 64 in
  enc_len cp = 2 → enc cp = [b0; b1].
Proof.
  cbn zeta. set (cp := _ + _). intros H0 H1.
  assert (cp = 64 * (b0 - 192) + (b1 - 128)) as -> by (unfold cp; divmod_lia).
  unfold enc_len, enc. ltb_cases. intros _. list_eq_lia.
Qed.

Lemma enc_3 b0 b1 b2 :
  224 <= b0 < 240 → 128 <= b1 < 192 → 128 <= b2 < 192 →
  let cp := (b0 * 4096) mod 65536 + (b1 * 64) mod 4096 + b2 mod 64 in
  enc_len cp = 3 → enc cp = [b0; b1; b2].
Proof.
  cbn zeta. set (cp := _ + _). intros H0 H1 H2.
  assert (cp = 4096 * (b0 - 224) + 64 * (b1 - 128) + (b2 - 128)) as ->
    by (unfold cp; divmod_lia).
  unfold enc_len, enc. ltb_cases. intros _. list_eq_lia.
Qed.

Lemma enc_4 b0 b1 b2 b3 :
  240 <= b0 < 248 → 128 <= b1 < 192 → 128 <= b2 < 192 → 128 <= b3 < 192 →
  let cp := (b0 * 262144) mod 2097152 + (b1 * 4096) mod 262144 + (b2 * 64) mod 4096
    + b3 mod 64 in
  0x10000 <= cp → enc cp = [b0; b1; b2; b3].
Proof.
  cbn zeta. set (cp := _ + _). intros H0 H1 H2 H3.
  assert (cp = 262144 * (b0 - 240) + 4096 * (b1 - 128) + 64 * (b2 - 128) + (b3 - 128)) as ->
    by (unfold cp; divmod_lia).
  unfold enc. ltb_cases. intros _. list_eq_lia.
Qed.

(** The octets behind a successful read of [n] octets. *)
Lemma get_sequence_2_inv b0 it cp it' :
  Forall is_byte (b0 :: it) → get_sequence_2 (b0 :: it) = inr (cp, it') →
  ∃ b1 rest, it = b1 :: rest ∧ 128 <= b1 < 192 ∧ it' = b1 :: rest ∧
    cp = (b0 * 64) mod 2048 + b1 mod 64.
Proof.
  intros Hb. unfold get_sequence_2.
  destruct (increase_safely (b0 :: it)) as [|it1] eqn:E; [done|].
  destruct (increase_safely_inv _ _ Hb E) as (b1 & rest & Hit & -> & Hr & Hb').
  cbn in Hit. subst it. intros H.
  exists b1, rest. inversion_clear Hb as [|? ? Hb0 Hb1]. inversion_clear Hb1 as [|? ? Hb1' ?].
  pose proof (get_sequence_2_ok b0 b1 rest Hb0 Hb1' Hr) as Hok.
  unfold get_sequence_2 in Hok. rewrite E in Hok. rewrite Hok in H.
  by simplify_eq.
Qed.

Lemma get_sequence_3_inv b0 it cp it' :
  Forall is_byte (b0 :: it) → get_sequence_3 (b0 :: it) = inr (cp, it') →
  ∃ b1 b2 rest, it = b1 :: b2 :: rest ∧ 128 <= b1 < 192 ∧ 128 <= b2 < 192 ∧
    it' = b2 :: rest ∧
    cp = (b0 * 4096) mod 65536 + (b1 * 64) mod 4096 + b2 mod 64.
Proof.
  intros Hb. unfold get_sequence_3.
  destruct (increase_safely (b0 :: it)) as [|it1] eqn:E; [done|].
  destruct (increase_safely_inv _ _ Hb E) as (b1 & r1 & Hit & -> & Hr1 & _).
  cbn in Hit. subst it. inversion_clear Hb as [|? ? Hb0 Hb'].
  destruct (increase_safely (b1 :: r1)) as [|it2] eqn:E2; [done|].
  destruct (increase_safely_inv _ _ Hb' E2) as (b2 & rest & Hit & -> & Hr2 & _).
  cbn in Hit. subst r1. intros H.
  inversion_clear Hb' as [|? ? Hb1 Hb2]. inversion_clear Hb2 as [|? ? Hb2' ?].
  pose proof (get_sequence_3_ok b0 b1 b2 rest Hb0 Hb1 Hb2' Hr1 Hr2) as Hok.
  unfold get_sequence_3 in Hok. rewrite E, E2 in Hok. rewrite Hok in H.
  exists b1, b2, rest. by simplify_eq.
Qed.

Lemma get_sequence_4_inv b0 it cp it' :
  Forall is_byte (b0 :: it) → get_sequence_4 (b0 :: it) = inr (cp, it') →
  ∃ b1 b2 b3 rest, it = b1 :: b2 :: b3 :: rest ∧
    128 <= b1 < 192 ∧ 128 <= b2 < 192 ∧ 128 <= b3 < 192 ∧ it' = b3 :: rest ∧
    cp = (b0 * 262144) mod 2097152 + (b1 * 4096) mod 262144 + (b2 * 64) mod 4096
      + b3 mod 64.
Proof.
  intros Hb. unfold get_sequence_4.
  destruct (increase_safely (b0 :: it)) as [|it1] eqn:E; [done|].
  destruct (increase_safely_inv _ _ Hb E) as (b1 & r1 & Hit & -> & Hr1 & _).
  cbn in Hit. subst it. inversion_clear Hb as [|? ? Hb0 Hb'].
  destruct (increase_safely (b1 :: r1)) as [|it2] eqn:E2; [done|].
  destruct (increase_safely_inv _ _ Hb' E2) as (b2 & r2 & Hit & -> & Hr2 & _).
  cbn in Hit. subst r1. inversion_clear Hb' as [|? ? Hb1 Hb2].
  destruct (increase_safely (b2 :: r2)) as [|it3] eqn:E3; [done|].
  destruct (increase_safely_inv _ _ Hb2 E3) as (b3 & rest & Hit & -> & Hr3 & _).
  cbn in Hit. subst r2. intros H.
  inversion_clear Hb2 as [|? ? Hb2' Hb3]. inversion_clear Hb3 as [|? ? Hb3' ?].
  pose proof (get_sequence_4_ok b0 b1 b2 b3 rest Hb0 Hb1 Hb2' Hb3' Hr1 Hr2 Hr3) as Hok.
  unfold get_sequence_4 in Hok. rewrite E, E2, E3 in Hok. rewrite Hok in H.
  exists b1, b2, b3, rest. by simplify_eq.
Qed.

Lemma validate_next_inv it cp rest :
  Forall is_byte it → validate_next it = inr (cp, rest) →
  valid_cp cp ∧ it = enc cp ++ rest.
Proof.
  destruct it as [|b it]; [done|]. intros Hb.
  pose proof (Forall_inv Hb) as Hb0. rewrite validate_next_cases by done.
  unfold is_byte in Hb0. cbn zeta. ltb_cases; try done; intros Hv.
  - apply decoded_inv in Hv as (-> & -> & Hcp & _); [|lia].
    split; [done|]. unfold enc. by rewrite (proj2 (Z.ltb_lt b 0x80)) by lia.
  - destruct (get_sequence_2 (b :: it)) as [|[c it1]] eqn:E; [done|].
    apply get_sequence_2_inv in E as (b1 & r & -> & ? & -> & Hc); [|done].
    apply decoded_inv in Hv as (-> & -> & Hcp & Ho); [|rewrite Hc; divmod_lia].
    split; [done|]. apply overlong_false in Ho. rewrite Hc in *.
    rewrite enc_2; [done|lia|lia|]. destruct Ho as [|]; [done|divmod_lia].
  - destruct (get_sequence_3 (b :: it)) as [|[c it1]] eqn:E; [done|].
    apply get_sequence_3_inv in E as (b1 & b2 & r & -> & ? & ? & -> & Hc); [|done].
    apply decoded_inv in Hv as (-> & -> & Hcp & Ho); [|rewrite Hc; divmod_lia].
    split; [done|]. apply overlong_false in Ho. rewrite Hc in *.
    rewrite enc_3; [done|lia..|]. destruct Ho as [|]; [done|divmod_lia].
  - destruct (get_sequence_4 (b :: it)) as [|[c it1]] eqn:E; [done|].
    apply get_sequence_4_inv in E as (b1 & b2 & b3 & r & -> & ? & ? & ? & -> & Hc); [|done].
    apply decoded_inv in Hv as (-> & -> & Hcp & Ho); [|rewrite Hc; divmod_lia].
    split; [done|]. apply overlong_false in Ho. rewrite Hc in *.
    rewrite enc_4; [done|lia..|]. destruct Ho as [Ho|]; [|done].
    by apply enc_len_4.
Qed.

(** ** Whole strings *)

Lemma encode_cons cp cps : encode (cp :: cps) = enc cp ++ encode cps.
Proof. reflexivity. Qed.

Lemma length_encode_cons cp cps :
  (S (length (encode cps)) <= length (encode (cp :: cps)))%nat.
Proof.
  rewrite encode_cons, length_app. pose proof (enc_nonempty cp).
  destruct (enc cp); [done|]. cbn. lia.
Qed.

Lemma encode_bytes cps : Forall valid_cp cps → Forall is_byte (encode cps).
Proof.
  induction 1; [constructor|]. rewrite encode_cons. apply Forall_app.
  split; [by apply enc_bytes|done].
Qed.

Lemma find_invalid_loop_encode cps fuel :
  (length (encode cps) <= fuel)%nat → Forall valid_cp cps →
  find_invalid_loop fuel (encode cps) = [].
Proof.
  intros Hf H. revert fuel Hf. induction H as [|cp cps Hcp _ IH]; intros fuel Hf.
  { by destruct fuel. }
  pose proof (length_encode_cons cp cps). destruct fuel as [|fuel]; [lia|].
  pose proof (validate_next_enc cp (encode cps) Hcp) as E.
  rewrite <- encode_cons in E. cbn [find_invalid_loop]. rewrite E.
  destruct (encode (cp :: cps)); [done|]. apply IH. lia.
Qed.

Lemma find_invalid_loop_inv fuel s :
  (length s <= fuel)%nat → Forall is_byte s → find_invalid_loop fuel s = [] →
  ∃ cps, Forall valid_cp cps ∧ s = encode cps.
Proof.
  revert s. induction fuel as [|fuel IH]; intros s Hf Hb.
  { destruct s; [|cbn in Hf; lia]. exists []. split; [constructor|done]. }
  destruct s as [|b s]; [exists []; split; [constructor|done]|].
  cbn [find_invalid_loop]. destruct (validate_next (b :: s)) as [|[cp rest]] eqn:E; [done|].
  intros H. apply validate_next_inv in E as [Hcp Hs]; [|done].
  rewrite Hs in Hb, Hf |- *. apply Forall_app in Hb as [_ Hb].
  rewrite length_app in Hf. pose proof (enc_nonempty cp).
  destruct (IH rest) as (cps & ? & ->); [|done..|].
  { destruct (enc cp); [done|]. cbn in Hf. lia. }
  exists (cp :: cps). split; [by constructor|done].
Qed.

(** A byte string passes validation exactly when it encodes Unicode scalar
    values. *)
Lemma is_valid_encode s :
  Forall is_byte s →
  is_valid s = true ↔ ∃ cps, Forall valid_cp cps ∧ s = encode cps.
Proof.
  intros Hb. unfold is_valid, find_invalid. split.
  - intros H. apply (find_invalid_loop_inv (length s)); [done..|].
    by destruct (find_invalid_loop _ _).
  - intros (cps & H & ->). by rewrite find_invalid_loop_encode.
Qed.

Lemma distance_loop_encode cps fuel dist :
  (length (encode cps) <= fuel)%nat → Forall valid_cp cps →
  distance_loop fuel (encode cps) dist = Some (dist + zlen cps).
Proof.
  intros Hf H. revert fuel dist Hf. induction H as [|cp cps Hcp _ IH]; intros fuel dist Hf.
  { rewrite zlen_nil, Z.add_0_r. by destruct fuel. }
  pose proof (length_encode_cons cp cps). destruct fuel as [|fuel]; [lia|].
  pose proof (validate_next_enc cp (encode cps) Hcp) as E. rewrite <- encode_cons in E.
  cbn [distance_loop]. unfold next. rewrite E.
  destruct (encode (cp :: cps)) eqn:E0; [cbn in *; lia|]. cbn [mbind option_bind].
  rewrite IH by lia. f_equal. rewrite zlen_cons. lia.
Qed.

Lemma distance_encode cps : Forall valid_cp cps → distance (encode cps) = Some (zlen cps).
Proof. intros. unfold distance. by rewrite distance_loop_encode. Qed.

Definition enc16 (cp : Z) : list Z :=
  if cp <? 0x10000 then [cp]
  else [0xd800 + (cp - 0x10000) / 1024; 0xdc00 + cp mod 1024].

Definition encode16 (cps : list Z) : list Z := concat (map enc16 cps).

Lemma utf8to16_loop_encode cps fuel acc :
  (length (encode cps) <= fuel)%nat → Forall valid_cp cps →
  utf8to16_loop fuel (encode cps) acc = Some (acc ++ encode16 cps).
Proof.
  intros Hf H. revert fuel acc Hf. induction H as [|cp cps Hcp _ IH]; intros fuel acc Hf.
  { unfold encode16. cbn. rewrite app_nil_r. by destruct fuel. }
  pose proof (length_encode_cons cp cps). destruct fuel as [|fuel]; [lia|].
  pose proof (validate_next_enc cp (encode cps) Hcp) as E. rewrite <- encode_cons in E.
  cbn [utf8to16_loop]. unfold next. rewrite E.
  destruct (encode (cp :: cps)) eqn:E0; [cbn in *; lia|]. cbn [mbind option_bind].
  change (encode16 (cp :: cps)) with (enc16 cp ++ encode16 cps).
  unfold enc16, valid_cp in *.
  destruct (Z.ltb_spec 0xffff cp), (Z.ltb_spec cp 0x10000); try lia;
    rewrite IH by lia; rewrite <- app_assoc; do 2 f_equal.
  - cbn [app]. unfold LEAD_OFFSET, TRAIL_SURROGATE_MIN.
    rewrite Z.shiftr_div_pow2 by lia. change 0x3ff with (2 ^ 10 - 1).
    rewrite land_ones_mod by lia. rewrite !wrap_small by divmod_lia. list_eq_lia.
  - rewrite wrap_small by lia. done.
Qed.

Lemma utf8to16_encode cps : Forall valid_cp cps → utf8to16 (encode cps) = Some (encode16 cps).
Proof. intros. unfold utf8to16. by rewrite utf8to16_loop_encode. Qed.

Lemma mask16_small w : 0 <= w < 0x10000 → mask16 w = w.
Proof.
  intros. unfold mask16. rewrite Z.land_comm. change 0xffff with (2 ^ 16 - 1).
  rewrite land_ones_mod by lia. by apply Z.mod_small.
Qed.

Lemma utf16to8_loop_encode cps acc :
  Forall valid_cp cps → utf16to8_loop (encode16 cps) acc = Some (acc ++ encode cps).
Proof.
  intros H. revert acc. induction H as [|cp cps Hcp _ IH]; intros acc.
  { cbn. by rewrite app_nil_r. }
  change (encode16 (cp :: cps)) with (enc16 cp ++ encode16 cps).
  rewrite encode_cons. pose proof (append_enc cp Hcp) as Ha. unfold valid_cp in Hcp.
  unfold enc16. destruct (Z.ltb_spec cp 0x10000); cbn [app utf16to8_loop].
  - rewrite !mask16_small by lia.
    unfold is_lead_surrogate, is_trail_surrogate, LEAD_SURROGATE_MIN, LEAD_SURROGATE_MAX,
      TRAIL_SURROGATE_MIN, TRAIL_SURROGATE_MAX.
    destruct (Z.leb_spec 0xd800 cp), (Z.leb_spec cp 0xdbff); cbn [andb]; try lia;
    destruct (Z.leb_spec 0xdc00 cp), (Z.leb_spec cp 0xdfff); cbn [andb]; try lia;
    rewrite Ha; cbn [mbind option_bind]; by rewrite IH, app_assoc.
  - set (l := 0xd800 + (cp - 0x10000) / 1024). set (t := 0xdc00 + cp mod 1024).
    assert (0xd800 <= l <= 0xdbff) by (unfold l; divmod_lia).
    assert (0xdc00 <= t <= 0xdfff) by (unfold t; divmod_lia).
    rewrite !mask16_small by lia.
    unfold is_lead_surrogate, is_trail_surrogate, LEAD_SURROGATE_MIN, LEAD_SURROGATE_MAX,
      TRAIL_SURROGATE_MIN, TRAIL_SURROGATE_MAX.
    rewrite (proj2 (Z.leb_le 0xd800 l)), (proj2 (Z.leb_le l 0xdbff)) by lia.
    rewrite (proj2 (Z.leb_le 0xdc00 t)), (proj2 (Z.leb_le t 0xdfff)) by lia.
    cbn [andb]. rewrite Z.shiftl_mul_pow2 by lia.
    replace (u32 _) with cp; [rewrite Ha; cbn [mbind option_bind]; by rewrite IH, app_assoc|].
    unfold wrap, SURROGATE_OFFSET, l, t. divmod_lia.
Qed.

Lemma utf16to8_encode cps : Forall valid_cp cps → utf16to8 (encode16 cps) = Some (encode cps).
Proof. intros. unfold utf16to8. by rewrite utf16to8_loop_encode. Qed.

(** Strings that are not valid are refused by every conversion. *)
Lemma utf8to16_loop_valid fuel s acc ws :
  (length s <= fuel)%nat → Forall is_byte s → utf8to16_loop fuel s acc = Some ws →
  find_invalid_loop fuel s = [].
Proof.
  revert s acc. induction fuel as [|fuel IH]; intros s acc Hf Hb.
  { destruct s; [done|cbn in Hf; lia]. }
  destruct s as [|b s]; [done|]. cbn [utf8to16_loop find_invalid_loop]. unfold next.
  destruct (validate_next (b :: s)) as [|[cp rest]] eqn:E; [done|].
  cbn [mbind option_bind]. apply validate_next_inv in E as [Hcp Hs]; [|done].
  rewrite Hs in Hb, Hf. apply Forall_app in Hb as [_ Hb]. rewrite length_app in Hf.
  pose proof (enc_nonempty cp).
  assert (length rest <= fuel)%nat by (destruct (enc cp); [done|cbn in Hf; lia]).
  case_match; intros ?; by eapply IH.
Qed.

Lemma utf8to16_valid s ws :
  Forall is_byte s → utf8to16 s = Some ws → is_valid s = true.
Proof.
  intros Hb H. unfold is_valid, find_invalid.
  by rewrite (utf8to16_loop_valid (length s) s [] ws).
Qed.
End Utf8.
