(* ===== verification/Containers.v ===== *)
(** * Containers: random numbers and algorithms on containers

    Model of [Random.h], [Random.cpp] and [Containers.h] under
    [src/src/common/Utilities].  What the distributions of the standard library
    draw from the generator is an interface: some number of the range asked for.
    Numbers of floating-point type are any type with the operations used. *)

From Stdlib Require Import Sorted.
From S2P Require Import Prelude Utf8.
Open Scope Z_scope.

(** ** Random numbers *)

(** [uniform_int_distribution] over a generator in state [G]. *)
Class Generator (G : Type) := { uniform : Z → Z → G → Z * G }.

Class GeneratorLaws (G : Type) {GG : Generator G} : Prop := {
  uniform_range min max g : min <= max → min <= (uniform min max g).1 <= max
}.

Module Random.
Section random.
Context {G : Type} {GG : Generator G}.

Definition draw (min max : Z) : M Empty_set G Z := λ g,
  let '(d, g) := uniform min max g in (Ret d, g).

Definition irand (min max : Z) : M Empty_set G Z :=
  _ ← assert_ (min <=? max);
  draw min max.

Definition urand (min max : Z) : M Empty_set G Z :=
  _ ← assert_ (min <=? max);
  draw min max.

Definition urandms (min max : Z) : M Empty_set G Z :=
  _ ← assert_ (max <=? (2 ^ 32 - 1) / 1000);
  urand (u32 (min * 1000)) (u32 (max * 1000)).

(** The difference is taken in 64 bits, and must fit 32. *)
Definition randtime (min max : Z) : M Empty_set G Z :=
  let diff := swrap 64 (max - min) in
  _ ← assert_ (0 <=? diff);
  _ ← assert_ (diff <=? 2 ^ 32 - 1);
  d ← urand 0 (u32 diff);
  mret (min + d).

Definition roll_chance_i (chance : Z) : M Empty_set G bool :=
  d ← irand 0 99;
  mret (d <? chance).

Context {Laws : GeneratorLaws G}.

Lemma urand_run min max g :
  min <= max → ∃ d g', urand min max g = (Ret d, g') ∧ min <= d <= max.
Proof using Laws.
  intros H. unfold urand. rewrite bind_assert by lia. unfold draw. pose proof (uniform_range min max g H) as R.
  destruct (uniform min max g) as [d g']. by exists d, g'.
Qed.

Lemma urand_empty min max g : max < min → urand min max g = (AssertFail, g).
Proof. intros H. unfold urand. rewrite (proj2 (Z.leb_gt _ _) H). reflexivity. Qed.

(** A random time is between its bounds, when these are at most 32 bits of
    milliseconds apart. *)
Lemma randtime_between min max g :
  0 <= max - min < 2 ^ 32 →
  ∃ d g', randtime min max g = (Ret d, g') ∧ min <= d <= max.
Proof using Laws.
  intros H. unfold randtime. rewrite swrap_small by lia.
  rewrite !bind_assert, wrap_small by lia.
  destruct (urand_run 0 (max - min) g ltac:(lia)) as (d & g' & E & R).
  exists (min + d), g'. split; [|lia]. by rewrite (bind_run _ _ _ _ _ E).
Qed.

(** A chance of 0 or less never comes up, one of 100 or more always does. *)
Lemma roll_chance_i_sure chance g :
  chance <= 0 ∨ 100 <= chance →
  ∃ g', roll_chance_i chance g = (Ret (100 <=? chance), g').
Proof using Laws.
  intros H. unfold roll_chance_i, irand, draw.
  pose proof (uniform_range 0 99 g ltac:(lia)) as R.
  unfold mbind, M_bind. cbn [assert_ Z.leb Z.compare]. destruct (uniform 0 99 g) as [d g'].
  exists g'. cbn [fst] in R. unfold mret, M_ret. do 2 f_equal.
  destruct (Z.ltb_spec d chance), (Z.leb_spec 100 chance); lia.
Qed.
End random.

(** A generator that draws the numbers of a list, moved into the range. *)
#[global] Instance draws : Generator (list Z) := {
  uniform min max l :=
    match l with
    | [] => (min, [])
    | d :: l => (Z.max min (Z.min d max), l)
    end
}.

#[global] Instance draws_laws : GeneratorLaws (list Z).
Proof. split. intros min max [|d l] H; cbn; lia. Qed.

Lemma urand_draws min max d l : min <= d <= max → urand min max (d :: l) = (Ret d, l).
Proof.
  intros H. unfold urand, draw. rewrite bind_assert by lia. cbn.
  by rewrite Z.min_l, Z.max_r by lia.
Qed.
End Random.

(** ** Algorithms *)

Module Containers.

(** *** RandomResize *)

Section random_resize.
Context {A G : Type} {GG : Generator G}.

(** The loop: [keepIt] and [curIt] are positions; a number that was not drawn
    leaves the element where it is.  What [std::move] leaves behind is not read
    again. *)
Fixpoint RandomResize_loop (elementsToProcess keepIt curIt : nat) (elementsToKeep : Z)
    (container : list A) : M Empty_set G (nat * list A) :=
  match elementsToProcess with
  | 0%nat => mret (keepIt, container)
  | S rest =>
      drawn ← Random.urand 1 (Z.of_nat elementsToProcess);
      if drawn <=? elementsToKeep then
        match container !! curIt with
        | None => undefined
        | Some x =>
            let container := if decide (keepIt = curIt) then container else <[keepIt := x]> container in
            RandomResize_loop rest (S keepIt) (S curIt) (u32 (elementsToKeep - 1)) container
        end
      else RandomResize_loop rest keepIt (S curIt) elementsToKeep container
  end.

Definition RandomResize (container : list A) (requestedSize : Z) : M Empty_set G (list A) :=
  if zlen container <=? requestedSize then mret container
  else
    '(keepIt, container) ←
      RandomResize_loop (Z.to_nat (u32 (zlen container))) 0 0 (u32 requestedSize) container;
    mret (take keepIt container).

(** Filtered first; here a size of 0 asks for no resizing. *)
Definition RandomResize_if (predicate : A → bool) (container : list A) (requestedSize : Z) :
    M Empty_set G (list A) :=
  let containerCopy := List.filter predicate container in
  if negb (requestedSize =? 0) then RandomResize containerCopy requestedSize
  else mret containerCopy.

(** The element is the one at a drawn position; past the end is undefined. *)
Definition SelectRandomContainerElement (container : list A) : M Empty_set G A :=
  i ← Random.urand 0 (u32 (u32 (zlen container) - 1));
  match container !! Z.to_nat i with
  | Some x => mret x
  | None => undefined
  end.

(** One round, of an element that is kept and of one that is not: [gap] is what
    lies between the two positions. *)
Lemma RandomResize_keep n k kept gap x rest :
  0 < k < 2 ^ 32 →
  ∃ gap', length gap' = length gap ∧ ∀ d g g',
    Random.urand 1 (Z.of_nat (S n)) g = (Ret d, g') → d <= k →
    RandomResize_loop (S n) (length kept) (length kept + length gap) k (kept ++ gap ++ x :: rest) g =
    RandomResize_loop n (length (kept ++ [x])) (length (kept ++ [x]) + length gap') (k - 1)
      ((kept ++ [x]) ++ gap' ++ rest) g'.
Proof.
  intros Hk. exists (match gap with [] => [] | _ :: gap => gap ++ [x] end).
  split; [destruct gap; [done|rewrite length_app; cbn; lia]|]. intros d g g' E Hd.
  cbn [RandomResize_loop]. rewrite (bind_run _ _ _ _ _ E).
  rewrite (proj2 (Z.leb_le _ _) Hd), wrap_small, length_app by lia.
  rewrite lookup_app_r, (Nat.add_comm (length kept) (length gap)), Nat.add_sub by lia.
  rewrite lookup_app_r, Nat.sub_diag by lia. cbn [lookup list_lookup].
  destruct gap as [|y gap].
  - rewrite decide_True by done. cbn [length app]. rewrite <- app_assoc, Nat.add_0_r.
    by rewrite Nat.add_1_r.
  - rewrite decide_False by (cbn; lia).
    rewrite insert_app_r_alt, Nat.sub_diag by lia. cbn [insert list_insert app length].
    rewrite <- !app_assoc, length_app. cbn [app length]. f_equal; lia.
Qed.

Lemma RandomResize_drop n k kept gap x rest d g g' :
  Random.urand 1 (Z.of_nat (S n)) g = (Ret d, g') → k < d →
  RandomResize_loop (S n) (length kept) (length kept + length gap) k (kept ++ gap ++ x :: rest) g =
  RandomResize_loop n (length kept) (length kept + length (gap ++ [x])) k
    (kept ++ (gap ++ [x]) ++ rest) g'.
Proof.
  intros E Hd. cbn [RandomResize_loop]. rewrite (bind_run _ _ _ _ _ E).
  rewrite (proj2 (Z.leb_gt _ _) Hd), length_app, <- app_assoc. cbn [length app].
  f_equal. lia.
Qed.

Context {Laws : GeneratorLaws G}.

(** Of [n] elements [k] are kept, whatever is drawn: once as many are left as
    have to be kept every draw keeps one. *)
Lemma RandomResize_loop_spec n : ∀ k kept gap rest g,
  length rest = n → 0 <= k <= Z.of_nat n → k < 2 ^ 32 →
  ∃ chosen gap' g',
    RandomResize_loop n (length kept) (length kept + length gap) k (kept ++ gap ++ rest) g =
      (Ret ((length kept + length chosen)%nat, kept ++ chosen ++ gap'), g') ∧
    chosen `sublist_of` rest ∧ zlen chosen = k.
Proof using Laws.
  induction n as [|n IH]; intros k kept gap rest g Hl Hk Hw.
  { apply nil_length_inv in Hl as ->. exists [], gap, g. cbn.
    rewrite Nat.add_0_r, app_nil_r. split; [done|]. split; [constructor|]. rewrite zlen_nil. lia. }
  destruct rest as [|x rest]; [done|]. injection Hl as Hl.
  destruct (Random.urand_run 1 (Z.of_nat (S n)) g ltac:(lia)) as (d & g1 & E & R).
  destruct (Z.leb_spec d k) as [Hd|Hd].
  - destruct (RandomResize_keep n k kept gap x rest ltac:(lia)) as (gap1 & L1 & Hk1).
    rewrite (Hk1 _ _ _ E Hd).
    destruct (IH (k - 1) (kept ++ [x]) gap1 rest g1 Hl ltac:(lia) ltac:(lia))
      as (chosen & gap' & g' & -> & Hs & Hlen).
    exists (x :: chosen), gap', g'. split; [|split; [by constructor|rewrite zlen_cons; lia]].
    rewrite length_app, <- app_assoc. cbn. do 3 f_equal. lia.
  - rewrite (RandomResize_drop n k kept gap x rest d g g1 E Hd).
    destruct (IH k kept (gap ++ [x]) rest g1 Hl ltac:(lia) Hw)
      as (chosen & gap' & g' & -> & Hs & Hlen).
    exists chosen, gap', g'. split; [done|]. split; [by constructor|done].
Qed.

Lemma RandomResize_exact container requestedSize g :
  zlen container < 2 ^ 32 → 0 <= requestedSize →
  ∃ chosen g', RandomResize container requestedSize g = (Ret chosen, g') ∧
    chosen `sublist_of` container ∧ zlen chosen = Z.min requestedSize (zlen container).
Proof using Laws.
  intros Hl Hr. unfold RandomResize. destruct (Z.leb_spec (zlen container) requestedSize) as [H|H].
  { exists container, g. split; [done|]. split; [done|lia]. }
  rewrite !wrap_small by (pose proof (zlen_nonneg container); lia).
  destruct (RandomResize_loop_spec (Z.to_nat (zlen container)) requestedSize [] [] container g)
    as (chosen & gap' & g' & E & Hs & Hlen); [unfold zlen in *; lia..|].
  cbn [length app] in E. exists chosen, g'. rewrite (bind_run _ _ _ _ _ E). cbn beta iota.
  split; [|split; [done|lia]]. do 2 f_equal. by rewrite Nat.add_0_l, take_app_length.
Qed.
End random_resize.

(** Any choice of that many elements can come out: the draw 1 keeps an element
    and the highest leaves it out. *)
Lemma RandomResize_loop_any {A} n : ∀ k (chosen kept gap rest : list A),
  length rest = n → chosen `sublist_of` rest → zlen chosen = k → k < 2 ^ 32 →
  ∃ draws gap',
    RandomResize_loop n (length kept) (length kept + length gap) k (kept ++ gap ++ rest) draws =
      (Ret ((length kept + length chosen)%nat, kept ++ chosen ++ gap'), []).
Proof.
  induction n as [|n IH]; intros k chosen kept gap rest Hl Hs Hk Hw.
  { apply nil_length_inv in Hl as ->. apply sublist_nil_r in Hs as ->. exists [], gap. cbn.
    by rewrite Nat.add_0_r, app_nil_r. }
  destruct rest as [|x rest]; [done|]. injection Hl as Hl.
  inversion Hs as [|? chosen' ? Hs'|? ? ? Hs']; subst.
  - rewrite zlen_cons in *. pose proof (zlen_nonneg chosen').
    destruct (RandomResize_keep (G := list Z) (length rest) (1 + zlen chosen') kept gap x rest
      ltac:(lia)) as (gap1 & L1 & Hk1).
    destruct (IH (zlen chosen') chosen' (kept ++ [x]) gap1 rest eq_refl Hs' eq_refl ltac:(lia))
      as (draws & gap' & E).
    exists (1 :: draws), gap'.
    rewrite (Hk1 1 (1 :: draws) draws) by (lia || (apply Random.urand_draws; lia)).
    rewrite Z.add_simpl_l, E, length_app, <- app_assoc. cbn. do 3 f_equal. lia.
  - destruct (IH (zlen chosen) chosen kept (gap ++ [x]) rest eq_refl Hs' eq_refl Hw)
      as (draws & gap' & E).
    exists (Z.of_nat (S (length rest)) :: draws), gap'.
    rewrite (RandomResize_drop _ _ kept gap x rest (Z.of_nat (S (length rest))) _ draws).
    + done.
    + apply Random.urand_draws. lia.
    + apply sublist_length in Hs'. unfold zlen. lia.
Qed.

Lemma sublist_full {A} (l k : list A) : l `sublist_of` k → (length k <= length l)%nat → l = k.
Proof.
  induction 1 as [|x l k H IH|x l k H IH]; cbn; intros Hl; [done|f_equal; apply IH; lia|].
  apply sublist_length in H. lia.
Qed.

(** Resizing keeps exactly the size asked for, or all when there are fewer, in
    their order, whatever is drawn; and no choice of that size is impossible. *)
Theorem random_resize {A G} {GG : Generator G} {Laws : GeneratorLaws G}
    (container : list A) (requestedSize : Z) (g : G) :
  zlen container < 2 ^ 32 → 0 <= requestedSize →
  (∃ chosen g', RandomResize container requestedSize g = (Ret chosen, g') ∧
    chosen `sublist_of` container ∧ zlen chosen = Z.min requestedSize (zlen container)) ∧
  (∀ chosen, chosen `sublist_of` container → zlen chosen = Z.min requestedSize (zlen container) →
    ∃ draws : list Z, RandomResize container requestedSize draws = (Ret chosen, [])).
Proof.
  intros Hl Hr. split; [by apply RandomResize_exact|]. intros chosen Hs Hc.
  unfold RandomResize. destruct (Z.leb_spec (zlen container) requestedSize) as [H|H].
  { exists []. rewrite (sublist_full chosen container); [done|done|]. unfold zlen in *. lia. }
  rewrite !wrap_small by (pose proof (zlen_nonneg container); lia).
  destruct (RandomResize_loop_any (Z.to_nat (zlen container)) requestedSize chosen [] [] container)
    as (draws & gap' & E); [unfold zlen; lia|done|lia|lia|].
  exists draws. cbn [length app] in E. rewrite (bind_run _ _ _ _ _ E). cbn beta iota.
  unfold mret, M_ret. do 2 f_equal. by rewrite Nat.add_0_l, take_app_length.
Qed.

(** Taking one element: any can come out, and never one past the end, unless
    there is none: then the position drawn from, modulo 2^32, is past the end. *)
Lemma select_random {A G} {GG : Generator G} {Laws : GeneratorLaws G} (container : list A) (g : G) :
  zlen container < 2 ^ 32 →
  (container ≠ [] → ∃ x g', SelectRandomContainerElement container g = (Ret x, g') ∧ x ∈ container) ∧
  (container = [] → (SelectRandomContainerElement container g).1 = UB).
Proof.
  intros Hl. unfold SelectRandomContainerElement. split.
  - intros Hn. assert (0 < zlen container) as H by (destruct container; [done|rewrite zlen_cons;
      pose proof (zlen_nonneg container); lia]).
    rewrite !wrap_small by (rewrite ?wrap_small by lia; lia).
    destruct (Random.urand_run 0 (zlen container - 1) g ltac:(lia)) as (d & g' & E & R).
    rewrite (bind_run _ _ _ _ _ E).
    destruct (lookup_lt_is_Some_2 container (Z.to_nat d)) as [x Ex]; [unfold zlen in *; lia|].
    rewrite Ex. exists x, g'. split; [done|]. by eapply list_elem_of_lookup_2.
  - intros ->. destruct (Random.urand_run 0 (u32 (u32 (zlen (@nil A)) - 1)) g) as (d & g' & E & R);
      [by vm_compute|]. by rewrite (bind_run _ _ _ _ _ E).
Qed.

(** *** Chances of floating-point type

    A [double] is a value of a type [D] with an order and an addition; what
    [uniform_real_distribution] and [discrete_distribution] draw is an interface: a
    number of the range, and the position of a chance that is not zero. *)

Class Doubles (D G : Type) := {
  d_zero : D;
  d_one : D;
  d_hundred : D;
  d_add : D → D → D;
  d_le : D → D → bool;
  d_lt : D → D → bool;
  uniform_real : D → D → G → D * G;
  discrete : list D → G → Z * G
}.

Section chances.
Context {D G : Type} {DD : Doubles D G}.

Definition chance_ok (w : D) : Prop := d_le d_zero w = true.
Definition positive (w : D) : Prop := chance_ok w ∧ d_le w d_zero = false.

Class DoublesLaws : Prop := {
  d_zero_le : d_le d_zero d_zero = true;
  d_one_positive : positive d_one;
  d_add_ok a b : chance_ok a → chance_ok b → chance_ok (d_add a b);
  d_add_zero a b : chance_ok a → chance_ok b → d_le (d_add a b) d_zero = d_le a d_zero && d_le b d_zero;
  d_lt_le_trans a b c : d_lt a b = true → d_le b c = true → d_lt a c = true;
  d_lt_irreflexive a : d_lt a a = false;
  uniform_real_range min max g : d_le min max = true →
    d_le min (uniform_real min max g).1 = true ∧ d_le (uniform_real min max g).1 max = true;
  discrete_range ws g : Forall chance_ok ws → Exists positive ws →
    ∃ w, ws !! Z.to_nat (discrete ws g).1 = Some w ∧ 0 <= (discrete ws g).1 ∧ positive w
}.

Definition draw_real (min max : D) : M Empty_set G D := λ g,
  let '(d, g) := uniform_real min max g in (Ret d, g).

Definition frand (min max : D) : M Empty_set G D :=
  _ ← assert_ (d_le min max);
  draw_real min max.

Definition rand_norm : M Empty_set G D := draw_real d_zero d_one.
Definition rand_chance : M Empty_set G D := draw_real d_zero d_hundred.

Definition roll_chance_f (chance : D) : M Empty_set G bool :=
  c ← rand_chance;
  mret (d_lt c chance).

Definition urandweighted (chances : list D) : M Empty_set G Z := λ g,
  let '(i, g) := discrete chances g in (Ret i, g).

(** The element is the one at the position drawn: the answer is that position. *)
Definition SelectRandomWeightedContainerElement {A} (container : list A) (weights : list D) :
    M Empty_set G Z :=
  i ← urandweighted weights;
  if zlen container <? i then undefined else mret i.

(** The loop collects the chances and their sum. *)
Fixpoint extract_weights {A} (weightExtractor : A → D) (container : list A) (weights : list D)
    (weightSum : D) : list D * D :=
  match container with
  | [] => (weights, weightSum)
  | val :: container =>
      let weight := weightExtractor val in
      extract_weights weightExtractor container (weights ++ [weight]) (d_add weightSum weight)
  end.

Definition SelectRandomWeightedContainerElement_by {A} (container : list A) (weightExtractor : A → D) :
    M Empty_set G Z :=
  let '(weights, weightSum) := extract_weights weightExtractor container [] d_zero in
  let weights := if d_le weightSum d_zero then replicate (length container) d_one else weights in
  SelectRandomWeightedContainerElement container weights.

Context {DL : DoublesLaws}.

Lemma extract_weights_spec {A} (f : A → D) container : ∀ weights sum,
  chance_ok sum → Forall (λ x, chance_ok (f x)) container →
  (extract_weights f container weights sum).1 = weights ++ map f container ∧
  (d_le (extract_weights f container weights sum).2 d_zero = true ↔
    d_le sum d_zero = true ∧ Forall (λ x, d_le (f x) d_zero = true) container).
Proof using DL.
  induction container as [|x container IH]; intros weights sum Hs Hf; cbn [extract_weights map fst snd].
  - rewrite app_nil_r. split; [done|]. split; [by intros H|by intros [H _]].
  - apply Forall_cons in Hf as [Hx Hf].
    destruct (IH (weights ++ [f x]) (d_add sum (f x)) (d_add_ok _ _ Hs Hx) Hf) as [-> E].
    rewrite <- app_assoc. split; [done|]. rewrite E, d_add_zero, andb_true_iff, Forall_cons by done.
    tauto.
Qed.

Lemma choose {A} (container : list A) (ws : list D) (g : G) :
  length ws = length container → Forall chance_ok ws → Exists positive ws →
  ∃ i x g', SelectRandomWeightedContainerElement container ws g = (Ret i, g') ∧ 0 <= i ∧
    container !! Z.to_nat i = Some x ∧ (∀ w, ws !! Z.to_nat i = Some w → positive w).
Proof using DL.
  intros Hl Hok Hp. destruct (discrete_range ws g Hok Hp) as (w & Ew & Hi & Hw).
  unfold SelectRandomWeightedContainerElement, urandweighted, mbind, M_bind.
  destruct (discrete ws g) as [i g']. cbn [fst] in *.
  pose proof (lookup_lt_Some _ _ _ Ew) as Hlt.
  destruct (lookup_lt_is_Some_2 container (Z.to_nat i)) as [x Ex]; [lia|].
  exists i, x, g'. rewrite (proj2 (Z.ltb_ge _ _)) by (unfold zlen; lia). do 3 (split; [done|]).
  intros w' Ew'. by simplify_eq.
Qed.

(** An element is chosen that has a chance, and when none has every one can be:
    never a position past the end. *)
Theorem select_weighted {A} (container : list A) (f : A → D) (g : G) :
  container ≠ [] → Forall (λ x, chance_ok (f x)) container →
  ∃ i x g', SelectRandomWeightedContainerElement_by container f g = (Ret i, g') ∧ 0 <= i ∧
    container !! Z.to_nat i = Some x ∧ (Exists (λ x, positive (f x)) container → positive (f x)).
Proof using DL.
  intros Hne Hf. unfold SelectRandomWeightedContainerElement_by.
  destruct (extract_weights_spec f container [] d_zero d_zero_le Hf) as [Ew Es].
  destruct (extract_weights f container [] d_zero) as [weights sum]. cbn [fst snd app] in *. subst weights.
  destruct (d_le sum d_zero) eqn:E.
  - destruct (proj1 Es eq_refl) as [_ Hz].
    destruct (choose container (replicate (length container) d_one) g) as (i & x & g' & Er & Hi & Ex & _).
    + by rewrite length_replicate.
    + apply Forall_replicate, d_one_positive.
    + destruct container; [done|]. left. apply d_one_positive.
    + exists i, x, g'. repeat (split; [done|]). intros [y [Hy [_ Hp]]]%Exists_exists.
      rewrite Forall_forall in Hz. by rewrite (Hz y Hy) in Hp.
  - assert (Exists (λ x, positive (f x)) container) as Hp.
    { destruct (decide (Forall (λ x, d_le (f x) d_zero = true) container)) as [Hz|Hz].
      - enough (false = true) by done. apply Es. by split; [apply d_zero_le|].
      - apply not_Forall_Exists, Exists_exists in Hz as [y [Hy Hn]]; [|apply _].
        apply Exists_exists. exists y. rewrite Forall_forall in Hf.
        split; [done|]. split; [by apply Hf|]. by apply not_true_is_false. }
    destruct (choose container (map f container) g) as (i & x & g' & Er & Hi & Ex & Hw).
    + apply length_map.
    + by apply Forall_map.
    + by apply Exists_map.
    + exists i, x, g'. repeat (split; [done|]). intros _. apply Hw.
      by rewrite list_lookup_fmap, Ex.
Qed.

(** A roll against a chance of zero or less never succeeds. *)
Lemma roll_chance_f_never chance g :
  d_le d_zero d_hundred = true → d_le chance d_zero = true → ∃ g', roll_chance_f chance g = (Ret false, g').
Proof using DL.
  intros Hh Hc. unfold roll_chance_f, rand_chance, draw_real, mbind, M_bind.
  destruct (uniform_real_range d_zero d_hundred g Hh) as [Hr _].
  destruct (uniform_real d_zero d_hundred g) as [c g']. cbn [fst] in Hr. exists g'.
  unfold mret, M_ret. do 2 f_equal. apply not_true_is_false. intros Hlt.
  pose proof (d_lt_le_trans _ _ _ (d_lt_le_trans _ _ _ Hlt Hc) Hr) as T. by rewrite d_lt_irreflexive in T.
Qed.
End chances.
Arguments DoublesLaws D G {DD}.

(** Chances that are integers, and draws that come from a list. *)
#[local] Instance toy_doubles : Doubles Z (list Z) := {
  d_zero := 0;
  d_one := 1;
  d_hundred := 100;
  d_add := Z.add;
  d_le := Z.leb;
  d_lt := Z.ltb;
  uniform_real min max := uniform min max;
  discrete ws g :=
    let candidates := List.filter (λ i, 0 <? default 0 (ws !! Z.to_nat i)) (seqZ 0 (zlen ws)) in
    match g with
    | [] => (default 0 (head candidates), [])
    | d :: g => (default (default 0 (head candidates)) (candidates !! Z.to_nat d), g)
    end
}.

#[local] Instance toy_doubles_laws : DoublesLaws Z (list Z).
Proof.
  split; unfold positive, chance_ok; cbn; try lia.
  - intros min max [|d g] Hm; cbn; lia.
  - intros ws g _ Hp. set (candidates := List.filter _ _).
    assert (∀ i, In i candidates → ∃ w, ws !! Z.to_nat i = Some w ∧ 0 <= i ∧ 0 < w) as Hc.
    { intros i Hin. apply filter_In in Hin as [Hi Hw]. revert Hw. apply list_elem_of_In, elem_of_seqZ in Hi.
      destruct (ws !! Z.to_nat i) as [w|]; [|done]. cbn. intros Hw. exists w. split; [done|lia]. }
    assert (∃ i rest, candidates = i :: rest) as (i0 & rest & E).
    { apply Exists_exists in Hp as (w & [n En]%list_elem_of_lookup_1 & Hw).
      assert (In (Z.of_nat n) candidates) as Hin.
      { apply filter_In. rewrite Nat2Z.id, En. split; [|cbn; lia].
        apply list_elem_of_In, elem_of_seqZ. apply lookup_lt_Some in En. unfold zlen. lia. }
      destruct candidates as [|i rest]; [done|]. by exists i, rest. }
    assert (In (match g with [] => (default 0 (head candidates), []) | d :: g =>
      (default (default 0 (head candidates)) (candidates !! Z.to_nat d), g) end).1 candidates) as Hin.
    { rewrite E in *. destruct g as [|d g]; [by left|]. cbn [fst head default].
      destruct ((i0 :: rest) !! Z.to_nat d) eqn:El; [|by left].
      by apply list_elem_of_In, (list_elem_of_lookup_2 _ (Z.to_nat d)). }
    destruct (Hc _ Hin) as (w & Ew & Hi & Hw). exists w. split; [done|]. split; [done|]. lia.
Qed.

(** With the chances 0, 5 and 2 the first is never chosen, with 0, 0 and 0 it is. *)
Example weighted_choices :
  map (λ d, (SelectRandomWeightedContainerElement_by [0; 5; 2] (λ w : Z, w) [d]).1) [0; 1; 2] =
    [Ret 1; Ret 2; Ret 1] ∧
  (SelectRandomWeightedContainerElement_by [0; 0; 0] (λ w : Z, w) [0]).1 = Ret 0.
Proof. by vm_compute. Qed.

(** *** EraseIf *)

Section erase.
Context {A : Type} (p : A → bool).

(** For elements that can be moved: those to keep are swapped to the front. *)
Fixpoint EraseIf_loop (n rpos wpos : nat) (c : list A) : option (nat * list A) :=
  match n with
  | 0%nat => Some (wpos, c)
  | S n =>
      x ← c !! rpos;
      if negb (p x) then
        y ← c !! wpos;
        let c := if decide (rpos = wpos) then c else <[wpos := x]> (<[rpos := y]> c) in
        EraseIf_loop n (S rpos) (S wpos) c
      else EraseIf_loop n (S rpos) wpos c
  end.

Definition EraseIf (c : list A) : option (list A) :=
  '(wpos, c) ← EraseIf_loop (length c) 0 0 c;
  Some (take wpos c).

(** For others: each is erased in its place. *)
Fixpoint EraseIf_list_loop (n it : nat) (c : list A) : option (list A) :=
  match n with
  | 0%nat => Some c
  | S n =>
      x ← c !! it;
      if p x then EraseIf_list_loop n it (delete it c) else EraseIf_list_loop n (S it) c
  end.

Definition EraseIf_list (c : list A) : option (list A) := EraseIf_list_loop (length c) 0 c.

Lemma EraseIf_loop_spec n kept gap rest :
  length rest = n →
  ∃ gap', EraseIf_loop n (length kept + length gap) (length kept) (kept ++ gap ++ rest) =
    Some (length (kept ++ List.filter (λ x, negb (p x)) rest),
          (kept ++ List.filter (λ x, negb (p x)) rest) ++ gap').
Proof.
  revert kept gap rest. induction n as [|n IH]; intros kept gap rest Hl.
  { apply nil_length_inv in Hl as ->. exists gap. cbn. by rewrite !app_nil_r. }
  destruct rest as [|x rest]; [done|]. injection Hl as Hl. cbn [EraseIf_loop List.filter].
  assert ((kept ++ gap ++ x :: rest) !! (length kept + length gap)%nat = Some x) as Hx.
  { rewrite app_assoc, lookup_app_r, length_app by (rewrite length_app; lia).
    by rewrite Nat.sub_diag. }
  rewrite Hx. cbn [mbind option_bind]. destruct (p x) eqn:Ep; cbn [negb].
  - destruct (IH kept (gap ++ [x]) rest Hl) as [gap' E]. exists gap'.
    rewrite length_app, <- app_assoc in E. cbn [length app] in E.
    by replace (S (length kept + length gap)) with (length kept + (length gap + 1))%nat by lia.
  - assert (∃ gap1 y, length gap1 = length gap ∧ (kept ++ gap ++ x :: rest) !! length kept = Some y ∧
      (if decide ((length kept + length gap)%nat = length kept) then kept ++ gap ++ x :: rest
       else <[length kept := x]> (<[(length kept + length gap)%nat := y]> (kept ++ gap ++ x :: rest)))
      = (kept ++ [x]) ++ gap1 ++ rest) as (gap1 & y & L1 & Ey & E1).
    { destruct gap as [|y gap].
      - exists [], x. rewrite Nat.add_0_r, decide_True, lookup_app_r, Nat.sub_diag by lia.
        by rewrite <- app_assoc.
      - exists (gap ++ [y]), y. rewrite lookup_app_r, Nat.sub_diag, decide_False by (cbn; lia).
        split; [rewrite length_app; cbn; lia|]. split; [done|].
        rewrite insert_app_r, insert_app_r_alt, Nat.sub_diag by lia.
        rewrite <- (Nat.add_0_r (length (y :: gap))), insert_app_r. cbn.
        by rewrite <- !app_assoc. }
    rewrite Ey. cbn [mbind option_bind]. rewrite E1.
    destruct (IH (kept ++ [x]) gap1 rest Hl) as [gap' E]. exists gap'.
    rewrite <- (app_assoc kept [x] (List.filter _ _)), (length_app kept [x]), L1 in E.
    cbn [length app] in E.
    replace (S (length kept + length gap)) with (length kept + 1 + length gap)%nat by lia.
    replace (S (length kept)) with (length kept + 1)%nat by lia.
    exact E.
Qed.

Lemma EraseIf_list_loop_spec n kept rest :
  length rest = n →
  EraseIf_list_loop n (length kept) (kept ++ rest) =
    Some (kept ++ List.filter (λ x, negb (p x)) rest).
Proof.
  revert kept rest. induction n as [|n IH]; intros kept rest Hl.
  { apply nil_length_inv in Hl as ->. done. }
  destruct rest as [|x rest]; [done|]. injection Hl as Hl. cbn [EraseIf_list_loop List.filter].
  rewrite lookup_app_r, Nat.sub_diag by lia. cbn [lookup list_lookup mbind option_bind].
  destruct (p x); cbn [negb].
  - rewrite delete_middle. by apply IH.
  - specialize (IH (kept ++ [x]) rest Hl). rewrite <- !app_assoc, length_app in IH.
    cbn in IH. by rewrite Nat.add_1_r in IH.
Qed.

(** Both forms of [EraseIf] leave exactly the elements that are not to go, in
    their order, and never touch one past the end. *)
Theorem erase_if_exact (c : list A) :
  EraseIf c = Some (List.filter (λ x, negb (p x)) c) ∧
  EraseIf_list c = Some (List.filter (λ x, negb (p x)) c).
Proof.
  split; [|by apply (EraseIf_list_loop_spec _ [])]. unfold EraseIf.
  destruct (EraseIf_loop_spec _ [] [] c eq_refl) as [gap' E]. cbn [length app Nat.add] in E.
  rewrite E. cbn [mbind option_bind]. by rewrite take_app_length.
Qed.
End erase.

(** *** Intersects *)

Section intersects.
Context {A : Type} (lt : A → A → bool).

Fixpoint Intersects (first1 : list A) : list A → bool :=
  fix inner (first2 : list A) : bool :=
    match first1, first2 with
    | x :: rest1, y :: rest2 =>
        if lt x y then Intersects rest1 first2
        else if lt y x then inner rest2
        else true
    | _, _ => false
    end.

Context (lt_irrefl : ∀ x, lt x x = false).
Context (lt_trans : ∀ x y z, lt x y = true → lt y z = true → lt x z = true).
Context (lt_total : ∀ x y, lt x y = false → lt y x = false → x = y).

Definition sorted (l : list A) : Prop := StronglySorted (λ x y, lt y x = false) l.

Lemma Intersects_unfold x l1 y l2 :
  Intersects (x :: l1) (y :: l2) =
  if lt x y then Intersects l1 (y :: l2) else if lt y x then Intersects (x :: l1) l2 else true.
Proof using. reflexivity. Qed.

(** An element below all of a sorted list is none of it. *)
Lemma below_none x y l : sorted (y :: l) → lt x y = true → x ∉ y :: l.
Proof using lt_irrefl lt_total lt_trans.
  intros [_ Hy]%StronglySorted_inv Hxy [->|Hx]%elem_of_cons; [congruence|].
  rewrite Forall_forall in Hy. specialize (Hy x Hx). cbn in Hy.
  congruence.
Qed.

(** On sorted ranges it finds out whether they have an element in common. *)
Lemma Intersects_exact l1 l2 :
  sorted l1 → sorted l2 → Intersects l1 l2 = true ↔ ∃ x, x ∈ l1 ∧ x ∈ l2.
Proof using lt_irrefl lt_total lt_trans.
  intros H1. revert l2. induction l1 as [|x l1 IH1]; intros l2 H2.
  { split; [by destruct l2|]. by intros (x & ?%elem_of_nil & _). }
  induction l2 as [|y l2 IH2].
  { split; [done|]. by intros (z & _ & ?%elem_of_nil). }
  rewrite Intersects_unfold. pose proof H1 as [H1' _]%StronglySorted_inv.
  pose proof H2 as [H2' _]%StronglySorted_inv.
  destruct (lt x y) eqn:Exy; [|destruct (lt y x) eqn:Eyx].
  - rewrite IH1 by done. pose proof (below_none _ _ _ H2 Exy).
    split; intros (z & Hz1 & Hz2); exists z; set_solver.
  - rewrite IH2 by done. pose proof (below_none _ _ _ H1 Eyx).
    split; intros (z & Hz1 & Hz2); exists z; set_solver.
  - split; [|done]. intros _. exists x. rewrite (lt_total _ _ Exy Eyx). split; left.
Qed.
End intersects.

(** *** Maps *)

(** The mapped value, or the null pointer. *)
Definition MapGetValuePtr {K V} `{Countable K} (map : gmap K V) (key : K) : option V := map !! key.

(** A multimap is the list of its pairs in the order of their keys. *)
Section multimap.
Context {K V : Type} `{EqDecision K, EqDecision V} (lt : K → K → bool).

(** [equal_range]: what lies before, in and after the range of a key. *)
Fixpoint equal_range (key : K) (multimap : list (K * V)) :
    list (K * V) * list (K * V) * list (K * V) :=
  match multimap with
  | [] => ([], [], [])
  | (k, v) :: rest =>
      if lt k key then
        let '(before, range, after) := equal_range key rest in ((k, v) :: before, range, after)
      else if lt key k then ([], [], (k, v) :: rest)
      else let '(before, range, after) := equal_range key rest in
           (before, (k, v) :: range, after)
  end.

Fixpoint erase_values (value : V) (range : list (K * V)) : list (K * V) :=
  match range with
  | [] => []
  | (k, v) :: range =>
      if decide (v = value) then erase_values value range else (k, v) :: erase_values value range
  end.

Definition MultimapErasePair (multimap : list (K * V)) (key : K) (value : V) : list (K * V) :=
  let '(before, range, after) := equal_range key multimap in
  before ++ erase_values value range ++ after.

Context (lt_irrefl : ∀ x, lt x x = false).
Context (lt_trans : ∀ x y z, lt x y = true → lt y z = true → lt x z = true).
Context (lt_total : ∀ x y, lt x y = false → lt y x = false → x = y).

Definition keep_pair (key : K) (value : V) (kv : K * V) : bool :=
  negb (bool_decide (kv = (key, value))).

Lemma filter_later (key : K) (value : V) l :
  Forall (λ kv : K * V, lt key kv.1 = true) l → List.filter (keep_pair key value) l = l.
Proof using lt_irrefl.
  induction 1 as [|[k v] l H _ IH]; [done|]. cbn [List.filter]. unfold keep_pair at 1.
  rewrite bool_decide_eq_false_2, IH; [done|]. intros [= -> _]. cbn in H. congruence.
Qed.

Lemma equal_range_first key l :
  Forall (λ kv : K * V, lt kv.1 key = false) l → (equal_range key l).1.1 = [].
Proof using.
  induction 1 as [|[k v] l Hk _ IH]; [done|]. cbn [equal_range fst] in *. rewrite Hk.
  destruct (lt key k); [done|]. by destruct (equal_range key l) as [[before range] after].
Qed.

(** Of the pairs of a multimap exactly those equal to the given one go. *)
Lemma MultimapErasePair_exact (multimap : list (K * V)) (key : K) (value : V) :
  StronglySorted (λ a b : K * V, lt b.1 a.1 = false) multimap →
  MultimapErasePair multimap key value = List.filter (keep_pair key value) multimap.
Proof using lt_irrefl lt_total lt_trans.
  unfold MultimapErasePair. induction 1 as [|[k v] rest Hs IH Hk]; [done|].
  cbn [equal_range List.filter]. unfold keep_pair at 1. cbn [fst] in *.
  destruct (lt k key) eqn:E1; [|destruct (lt key k) eqn:E2].
  - rewrite bool_decide_eq_false_2 by (intros [= -> _]; congruence). cbn [negb].
    destruct (equal_range key rest) as [[before range] after]. cbn. by rewrite IH.
  - rewrite bool_decide_eq_false_2 by (intros [= -> _]; congruence). cbn [negb app erase_values].
    rewrite filter_later; [done|]. eapply Forall_impl; [exact Hk|]. intros [k' v'] H. cbn in *.
    destruct (lt k k') eqn:E3; [by eapply lt_trans|]. by rewrite <- (lt_total _ _ E3 H).
  - pose proof (lt_total _ _ E1 E2) as ->.
    pose proof (equal_range_first key rest Hk) as Eb.
    destruct (equal_range key rest) as [[before range] after]. cbn in Eb. subst before.
    cbn [app erase_values] in *. destruct (decide (v = value)) as [->|Hv].
    + rewrite bool_decide_eq_true_2 by done. exact IH.
    + rewrite bool_decide_eq_false_2 by congruence. cbn [negb app]. by rewrite IH.
Qed.
End multimap.
End Containers.

(** ** Writing into a buffer of a given size *)

Module WideBuffer.

(** [CheckedBufferOutputIterator]: where it is, and where the buffer ends. *)
Record iterator := mkIt { it_buf : Z; it_end : Z }.

Inductive error :=
  | out_of_range          (** of the iterator *)
  | invalid_utf8.

Definition check (it : iterator) : outcome error () :=
  if negb (it_buf it <? it_end it) then Throw out_of_range else Ret ().

Definition remaining (it : iterator) : Z := it_end it - it_buf it.

(** [operator++(int)], the old value, and the store through it; the memory is
    as long as the caller's buffer. *)
Definition put (unit : Z) : M error (iterator * list Z) () := λ '(it, memory),
  match check it with
  | Ret _ =>
      match memory !! Z.to_nat (it_buf it) with
      | Some _ => (Ret (), (mkIt (it_buf it + 1) (it_end it), <[Z.to_nat (it_buf it) := unit]> memory))
      | None => (UB, (it, memory))
      end
  | _ => (Throw out_of_range, (it, memory))
  end.

(** [utf8::utf8to16] with the iterator as its destination. *)
Fixpoint utf8to16_into (fuel : nat) (start : list Z) : M error (iterator * list Z) () :=
  match fuel, start with
  | S fuel, _ :: _ =>
      match Utf8.next start with
      | None => throw invalid_utf8
      | Some (cp, start) =>
          if 0xffff <? cp then
            _ ← put (u16 (Z.shiftr cp 10 + Utf8.LEAD_OFFSET));
            _ ← put (u16 (Z.land cp 0x3ff + Utf8.TRAIL_SURROGATE_MIN));
            utf8to16_into fuel start
          else
            _ ← put (u16 cp);
            utf8to16_into fuel start
      end
  | _, _ => skip
  end.

Definition errorMessage : list Z := str "An error occurred converting string from UTF-8 to WStr".

(** A store of some units from a position on. *)
Definition store (position : Z) (units memory : list Z) : outcome error (list Z) :=
  if position + zlen units <=? zlen memory then Ret (overwrite position units memory) else UB.

(** [Utf8toWStr] into a buffer: success, the new [wsize] and the memory.  The
    memory at [wstr] is given; how much of it [wsize] stands for is up to the
    caller. *)
Definition Utf8toWStr_buffer (utf8str : list Z) (wsize : Z) (memory : list Z) :
    outcome error (bool * Z * list Z) :=
  match utf8to16_into (length utf8str) utf8str (mkIt 0 wsize, memory) with
  | (Ret _, (out, memory)) =>
      let wsize := wsize - remaining out in
      match store wsize [0] memory with
      | Ret memory => Ret (true, wsize, memory)
      | _ => UB
      end
  | (Throw _, (_, memory)) =>
      let errorMessageLength := zlen errorMessage in
      if errorMessageLength <=? wsize then
        match store 0 (errorMessage ++ [0]) memory with
        | Ret memory => Ret (false, errorMessageLength, memory)
        | _ => UB
        end
      else if 0 <? wsize then
        match store 0 [0] memory with
        | Ret memory => Ret (false, 0, memory)
        | _ => UB
        end
      else Ret (false, 0, memory)
  | _ => UB
  end.

Lemma insert_overwrite p u (l : list Z) :
  0 <= p < zlen l → <[Z.to_nat p := u]> l = overwrite p [u] l.
Proof.
  intros H. rewrite insert_take_drop by (unfold zlen in *; lia). unfold overwrite, ztake, zdrop.
  cbn [app]. change (zlen [u]) with 1. by replace (Z.to_nat (p + 1)) with (S (Z.to_nat p)) by lia.
Qed.

Lemma overwrite_nil p (l : list Z) : 0 <= p → overwrite p [] l = l.
Proof. intros H. unfold overwrite. rewrite zlen_nil, Z.add_0_r. apply ztake_zdrop. Qed.

Lemma overwrite_app p (a b l : list Z) :
  0 <= p → p + zlen (a ++ b) <= zlen l →
  overwrite (p + zlen a) b (overwrite p a l) = overwrite p (a ++ b) l.
Proof.
  intros Hp Hl. rewrite zlen_app in Hl. pose proof (zlen_nonneg a). pose proof (zlen_nonneg b).
  assert (overwrite p a l = (ztake p l ++ a) ++ zdrop (p + zlen a) l) as ->
    by (unfold overwrite; by rewrite app_assoc).
  unfold overwrite.
  assert (zlen (ztake p l ++ a) = p + zlen a) as E by (rewrite zlen_app, zlen_ztake; lia).
  assert (∀ r, ztake (p + zlen a) ((ztake p l ++ a) ++ r) = ztake p l ++ a) as T.
  { intros r. rewrite <- E at 1. apply ztake_app_exact. }
  rewrite T, <- !app_assoc. do 3 f_equal. rewrite app_assoc.
  rewrite zdrop_app_ge by lia. rewrite E, zdrop_zdrop by lia. rewrite zlen_app. f_equal. lia.
Qed.

Lemma put_run u p e (memory : list Z) :
  0 <= p → e <= zlen memory →
  put u (mkIt p e, memory) =
  if p <? e then (Ret (), (mkIt (p + 1) e, overwrite p [u] memory))
  else (Throw out_of_range, (mkIt p e, memory)).
Proof.
  intros Hp He. unfold put, check. cbn [it_buf it_end].
  destruct (Z.ltb_spec p e) as [H|H]; cbn [negb]; [|done].
  destruct (lookup_lt_is_Some_2 memory (Z.to_nat p)) as [x ->]; [unfold zlen in *; lia|].
  by rewrite insert_overwrite by lia.
Qed.

Lemma utf8to16_loop_acc fuel : ∀ start acc,
  Utf8.utf8to16_loop fuel start acc = (λ ws, acc ++ ws) <$> Utf8.utf8to16_loop fuel start [].
Proof.
  induction fuel as [|fuel IH]; intros start acc; cbn [Utf8.utf8to16_loop].
  { cbn. by rewrite app_nil_r. }
  destruct start as [|b start]; [cbn; by rewrite app_nil_r|].
  destruct (Utf8.next (b :: start)) as [[cp start']|]; [|done]. cbn [mbind option_bind].
  destruct (0xffff <? cp); rewrite (IH _ (acc ++ _)), (IH _ ([] ++ _));
    destruct (Utf8.utf8to16_loop fuel start' []); cbn; by rewrite <- ?app_assoc.
Qed.

(** Writing the units [us] one after the other. *)
Fixpoint puts (us : list Z) : M error (iterator * list Z) () :=
  match us with [] => skip | u :: us => _ ← put u; puts us end.

Lemma puts_run us : ∀ p e (memory : list Z),
  0 <= p <= e → e <= zlen memory →
  if p + zlen us <=? e
  then puts us (mkIt p e, memory) = (Ret (), (mkIt (p + zlen us) e, overwrite p us memory))
  else ∃ it memory', puts us (mkIt p e, memory) = (Throw out_of_range, (it, memory')) ∧
    zlen memory' = zlen memory.
Proof.
  induction us as [|u us IH]; intros p e memory Hp He; cbn [puts].
  { rewrite zlen_nil, Z.add_0_r, overwrite_nil by lia. by rewrite (proj2 (Z.leb_le _ _)) by lia. }
  rewrite zlen_cons. pose proof (zlen_nonneg us) as Hn. pose proof (put_run u p e memory) as E.
  destruct (Z.ltb_spec p e) as [H|H].
  - rewrite (bind_run _ _ _ _ _ (E ltac:(lia) He)).
    assert (zlen (overwrite p [u] memory) = zlen memory) as L.
    { apply zlen_overwrite; [lia|]. change (zlen [u]) with 1. lia. }
    specialize (IH (p + 1) e (overwrite p [u] memory) ltac:(lia) ltac:(lia)).
    replace (p + 1 + zlen us) with (p + (1 + zlen us)) in IH by lia.
    destruct (Z.leb_spec (p + (1 + zlen us)) e) as [H'|H'].
    + rewrite IH, (overwrite_app p [u] us); [done|lia|]. cbn [app]. rewrite zlen_cons. lia.
    + by rewrite L in IH.
  - rewrite (proj2 (Z.leb_gt _ _)) by lia.
    rewrite (bind_throw _ _ _ _ _ (E ltac:(lia) He)). eauto.
Qed.

(** [utf8to16] into a buffer fails where [utf8to16] does, and where the buffer is
    too short; otherwise the units are in it. *)
Lemma utf8to16_into_run fuel : ∀ start p e (memory : list Z),
  0 <= p <= e → e <= zlen memory →
  match Utf8.utf8to16_loop fuel start [] with
  | Some ws =>
      if p + zlen ws <=? e
      then utf8to16_into fuel start (mkIt p e, memory) =
        (Ret (), (mkIt (p + zlen ws) e, overwrite p ws memory))
      else ∃ it memory', utf8to16_into fuel start (mkIt p e, memory) =
        (Throw out_of_range, (it, memory')) ∧ zlen memory' = zlen memory
  | None => ∃ err it memory', utf8to16_into fuel start (mkIt p e, memory) =
      (Throw err, (it, memory')) ∧ zlen memory' = zlen memory
  end.
Proof.
  induction fuel as [|fuel IH]; intros start p e memory Hp He.
  { cbn. rewrite zlen_nil, Z.add_0_r, overwrite_nil by lia. by rewrite (proj2 (Z.leb_le _ _)) by lia. }
  destruct start as [|b start].
  { cbn. rewrite zlen_nil, Z.add_0_r, overwrite_nil by lia. by rewrite (proj2 (Z.leb_le _ _)) by lia. }
  cbn [Utf8.utf8to16_loop utf8to16_into].
  destruct (Utf8.next (b :: start)) as [[cp start']|]; cbn [mbind option_bind];
    [|by eexists _, _, memory].
  set (us := if 0xffff <? cp
             then [u16 (Z.shiftr cp 10 + Utf8.LEAD_OFFSET);
                   u16 (Z.land cp 0x3ff + Utf8.TRAIL_SURROGATE_MIN)]
             else [u16 cp]).
  assert (∀ s, (if 0xffff <? cp then
            _ ← put (u16 (Z.shiftr cp 10 + Utf8.LEAD_OFFSET));
            _ ← put (u16 (Z.land cp 0x3ff + Utf8.TRAIL_SURROGATE_MIN));
            utf8to16_into fuel start'
          else
            _ ← put (u16 cp);
            utf8to16_into fuel start') s = (_ ← puts us; utf8to16_into fuel start') s) as ->.
  { intros s. subst us. destruct (0xffff <? cp); cbn [puts]; rewrite ?bind_assoc;
      unfold mbind, M_bind; cbn; destruct (put _ s) as [[] ?]; try done.
    destruct (put _ _) as [[] ?]; done. }
  assert ((if 0xffff <? cp then Utf8.utf8to16_loop fuel start'
          ([] ++ [u16 (Z.shiftr cp 10 + Utf8.LEAD_OFFSET);
                      u16 (Z.land cp 0x3ff + Utf8.TRAIL_SURROGATE_MIN)])
      else Utf8.utf8to16_loop fuel start' ([] ++ [u16 cp]))
      = Utf8.utf8to16_loop fuel start' us) as -> by (by subst us; destruct (0xffff <? cp)).
  rewrite utf8to16_loop_acc. pose proof (puts_run us p e memory Hp He) as HP.
  pose proof (zlen_nonneg us) as Hn.
  destruct (Z.leb_spec (p + zlen us) e) as [H|H].
  - rewrite (bind_run _ _ _ _ _ HP).
    assert (zlen (overwrite p us memory) = zlen memory) as L by (apply zlen_overwrite; lia).
    specialize (IH start' (p + zlen us) e (overwrite p us memory) ltac:(lia) ltac:(lia)).
    rewrite L in IH. destruct (Utf8.utf8to16_loop fuel start' []) as [ws|]; cbn [fmap option_fmap option_map];
      [|exact IH].
    rewrite zlen_app, Z.add_assoc. destruct (Z.leb_spec (p + zlen us + zlen ws) e); [|exact IH].
    rewrite IH, overwrite_app; [done|lia|]. rewrite zlen_app. lia.
  - destruct HP as (it & memory' & E & L). rewrite (bind_throw _ _ _ _ _ E).
    destruct (Utf8.utf8to16_loop fuel start' []) as [ws|]; cbn [fmap option_fmap option_map]; [|eauto].
    rewrite zlen_app. pose proof (zlen_nonneg ws). rewrite (proj2 (Z.leb_gt _ _)) by lia. eauto.
Qed.

(** The units of a text that has some and fits the size given. *)
Definition fits (utf8str : list Z) (wsize : Z) : option (list Z) :=
  ws ← Utf8.utf8to16 utf8str; if zlen ws <=? wsize then Some ws else None.

Lemma store_run p us (memory : list Z) :
  store p us memory = if p + zlen us <=? zlen memory then Ret (overwrite p us memory) else UB.
Proof. done. Qed.

Lemma Utf8toWStr_buffer_run (utf8str memory : list Z) (wsize : Z) :
  0 <= wsize <= zlen memory →
  match fits utf8str wsize with
  | Some ws =>
      Utf8toWStr_buffer utf8str wsize memory =
      if zlen ws <? zlen memory
      then Ret (true, zlen ws, overwrite 0 (ws ++ [0]) memory) else UB
  | None => ∃ memory', zlen memory' = zlen memory ∧
      Utf8toWStr_buffer utf8str wsize memory =
      if zlen errorMessage <=? wsize then
        if zlen errorMessage <? zlen memory
        then Ret (false, zlen errorMessage, overwrite 0 (errorMessage ++ [0]) memory') else UB
      else Ret (false, 0, if 0 <? wsize then overwrite 0 [0] memory' else memory')
  end.
Proof.
  intros Hw. unfold Utf8toWStr_buffer, fits, Utf8.utf8to16.
  pose proof (utf8to16_into_run (length utf8str) utf8str 0 wsize memory ltac:(lia) ltac:(lia)) as E.
  assert (∀ err it memory', zlen memory' = zlen memory →
    utf8to16_into (length utf8str) utf8str (mkIt 0 wsize, memory) = (Throw err, (it, memory')) →
    ∃ memory', zlen memory' = zlen memory ∧
    match utf8to16_into (length utf8str) utf8str (mkIt 0 wsize, memory) with
    | (Ret _, (out, memory)) =>
        match store (wsize - remaining out) [0] memory with
        | Ret memory => Ret (true, wsize - remaining out, memory)
        | _ => UB
        end
    | (Throw _, (_, memory)) =>
        if zlen errorMessage <=? wsize then
          match store 0 (errorMessage ++ [0]) memory with
          | Ret memory => Ret (false, zlen errorMessage, memory)
          | _ => UB
          end
        else if 0 <? wsize then
          match store 0 [0] memory with Ret memory => Ret (false, 0, memory) | _ => UB end
        else Ret (false, 0, memory)
    | _ => UB
    end = (if zlen errorMessage <=? wsize then
        if zlen errorMessage <? zlen memory
        then Ret (false, zlen errorMessage, overwrite 0 (errorMessage ++ [0]) memory') else UB
      else Ret (false, 0, if 0 <? wsize then overwrite 0 [0] memory' else memory') : outcome error _))
    as Hfail.
  { intros err it memory' L ->. exists memory'. split; [done|]. rewrite !store_run, L, zlen_app.
    change (zlen [0]) with 1. destruct (Z.leb_spec (zlen errorMessage) wsize).
    - rewrite Z.add_0_l. destruct (Z.leb_spec (zlen errorMessage + 1) (zlen memory)),
        (Z.ltb_spec (zlen errorMessage) (zlen memory)); done || lia.
    - destruct (Z.ltb_spec 0 wsize); [|done]. by rewrite (proj2 (Z.leb_le _ _)) by lia. }
  cbn zeta.
  destruct (Utf8.utf8to16_loop _ _ []) as [ws|]; cbn [mbind option_bind].
  2:{ destruct E as (err & it & memory' & E & L). by eapply Hfail. }
  rewrite Z.add_0_l in E. destruct (Z.leb_spec (zlen ws) wsize) as [Hws|Hws].
  2:{ destruct E as (it & memory' & E & L). by eapply Hfail. }
  rewrite E. unfold remaining. cbn [it_buf it_end].
  replace (wsize - (wsize - zlen ws)) with (zlen ws) by lia.
  rewrite store_run. assert (zlen (overwrite 0 ws memory) = zlen memory) as L.
  { apply zlen_overwrite; lia. }
  rewrite L. change (zlen [0]) with 1.
  destruct (Z.leb_spec (zlen ws + 1) (zlen memory)), (Z.ltb_spec (zlen ws) (zlen memory)); try lia; [|done].
  rewrite <- (overwrite_app 0 ws [0]); [done|lia|]. rewrite zlen_app. change (zlen [0]) with 1. lia.
Qed.

(** With one unit more than [wsize] the call stays inside the buffer; told the
    whole size of it, as its declaration asks, it writes one past the end exactly
    when the text fills the buffer, or when it has to report an error that does. *)
Theorem wide_buffer (utf8str memory : list Z) (wsize : Z) :
  0 <= wsize <= zlen memory →
  (wsize < zlen memory → is_UB (Utf8toWStr_buffer utf8str wsize memory) = false) ∧
  (wsize = zlen memory →
   is_UB (Utf8toWStr_buffer utf8str wsize memory) = true ↔
   match fits utf8str wsize with
   | Some ws => zlen ws = wsize
   | None => zlen errorMessage = wsize
   end) ∧
  (∀ ws, fits utf8str wsize = Some ws → zlen ws < zlen memory →
   Utf8toWStr_buffer utf8str wsize memory =
     Ret (true, zlen ws, overwrite 0 (ws ++ [0]) memory)).
Proof.
  intros Hw. pose proof (Utf8toWStr_buffer_run utf8str memory wsize Hw) as E.
  destruct (fits utf8str wsize) as [ws|] eqn:F.
  - assert (zlen ws <= wsize) as L.
    { unfold fits in F. destruct (Utf8.utf8to16 utf8str) as [ws'|]; [|done].
      cbn [mbind option_bind] in F. destruct (Z.leb_spec (zlen ws') wsize); [|done]. by simplify_eq. }
    rewrite E. destruct (Z.ltb_spec (zlen ws) (zlen memory)); cbn [is_UB].
    + split; [done|]. split; [intros ->; split; [done|lia]|]. by intros ? [= ->].
    + split; [lia|]. split; [intros ->; split; [lia|done]|]. intros ? [= ->]. lia.
  - destruct E as (memory' & L & ->).
    destruct (Z.leb_spec (zlen errorMessage) wsize), (Z.ltb_spec (zlen errorMessage) (zlen memory));
      cbn [is_UB]; (split; [done || lia|]; split; [intros ->; split; done || lia|done]).
Qed.

(** A text of three letters into a buffer of three units. *)
Example text_fills_buffer :
  Utf8toWStr_buffer (str "abc") 3 [0; 0; 0] = UB ∧
  Utf8toWStr_buffer (str "abc") 3 [0; 0; 0; 7] = Ret (true, 3, [97; 98; 99; 0]).
Proof. by vm_compute. Qed.
End WideBuffer.

