(* ===== verification/Strings.v ===== *)
(** * Strings: text helpers

    Model of [Util.h]/[Util.cpp], [Tokenize.cpp], [StringConvert.h] and
    [StringFormat.cpp] under [src/src/common/Utilities].  A string is the list
    of its bytes; [wchar_t] strings are lists of UTF-16 units. *)

From S2P Require Import Prelude Utf8.
Open Scope Z_scope.

Module Strings.

(** ** Characters: the C locale's classification *)

Definition in_range (lo c hi : Z) : bool := (lo <=? c) && (c <=? hi).

Definition tolower (c : Z) : Z := if in_range 65 c 90 then c + 32 else c.
Definition toupper (c : Z) : Z := if in_range 97 c 122 then c - 32 else c.
Definition isspace (c : Z) : bool := (c =? 32) || in_range 9 c 13.
Definition isNumeric (c : Z) : bool := in_range 48 c 57.

(** ** Case-insensitive comparison *)

Definition GetLowerString (s : list Z) : list Z := map tolower s.

(** [std::equal] over two ranges of possibly different lengths. *)
Fixpoint StringEqualI (a b : list Z) : bool :=
  match a, b with
  | [], [] => true
  | c1 :: a, c2 :: b => (tolower c1 =? tolower c2) && StringEqualI a b
  | _, _ => false
  end.

Definition substr (pos n : nat) (s : list Z) : list Z := take n (drop pos s).

Definition StringStartsWith (haystack needle : list Z) : bool :=
  bool_decide (substr 0 (length needle) haystack = needle).

Definition StringStartsWithI (haystack needle : list Z) : bool :=
  StringEqualI (substr 0 (length needle) haystack) needle.

(** [std::search]: some suffix of the haystack starts with the needle. *)
Fixpoint StringContainsStringI_loop (haystack needle : list Z) : bool :=
  StringEqualI (take (length needle) haystack) needle ||
  match haystack with
  | [] => false
  | _ :: haystack => StringContainsStringI_loop haystack needle
  end.

(** The result compares the found position with [haystack.end()], where an empty
    needle in an empty haystack is found too. *)
Definition StringContainsStringI (haystack needle : list Z) : bool :=
  match haystack with
  | [] => false
  | _ => StringContainsStringI_loop haystack needle
  end.

(** [std::lexicographical_compare] of lower-cased [char]s, which are signed. *)
Fixpoint StringCompareLessI (a b : list Z) : bool :=
  match a, b with
  | _, [] => false
  | [], _ :: _ => true
  | c1 :: a, c2 :: b =>
      if tolower (i8 c1) <? tolower (i8 c2) then true
      else if tolower (i8 c2) <? tolower (i8 c1) then false
      else StringCompareLessI a b
  end.

(** ** Trimming *)

Fixpoint drop_spaces (s : list Z) : list Z :=
  match s with
  | c :: s' => if isspace c then drop_spaces s' else s
  | [] => []
  end.

Definition TrimRightInPlace (s : list Z) : list Z := rev (drop_spaces (rev s)).
Definition Trim (s : list Z) : list Z := rev (drop_spaces (rev (drop_spaces s))).

(** ** Tokenize *)

(** [str.find(sep, pos)]; [None] is [npos]. *)
Definition find_char (sep : Z) (s : list Z) (pos : nat) : option nat :=
  (λ p, (pos + p.1)%nat) <$> list_find (λ c, c = sep) (drop pos s).

(** The loop of [Tokenize]: [start] moves past a separator in every turn, so the
    length bounds the turns. *)
Fixpoint Tokenize_loop (fuel : nat) (s : list Z) (sep : Z) (keepEmpty : bool)
    (start : nat) (end_ : option nat) (tokens : list (list Z)) : nat * list (list Z) :=
  match fuel, end_ with
  | S fuel, Some e =>
      let tokens :=
        if keepEmpty || (start <? e)%nat then tokens ++ [substr start (e - start) s]
        else tokens in
      Tokenize_loop fuel s sep keepEmpty (S e) (find_char sep s (S e)) tokens
  | _, _ => (start, tokens)
  end.

Definition Tokenize (s : list Z) (sep : Z) (keepEmpty : bool) : list (list Z) :=
  let '(start, tokens) :=
    Tokenize_loop (S (length s)) s sep keepEmpty 0 (find_char sep s 0) [] in
  if keepEmpty || (start <? length s)%nat then tokens ++ [drop start s] else tokens.

(** ** Numbers as text *)

Definition digit_value (c : Z) : option Z :=
  if in_range 48 c 57 then Some (c - 48)
  else if in_range 97 c 122 then Some (c - 87)
  else if in_range 65 c 90 then Some (c - 55)
  else None.

(** The longest run of digits of a base: its value from [acc] on, how many
    digits, and what follows. *)
Fixpoint scan_digits (base : Z) (s : list Z) (acc : Z) (n : nat) : Z * nat * list Z :=
  match s with
  | c :: s' =>
      match digit_value c with
      | Some d => if d <? base then scan_digits base s' (acc * base + d) (S n) else (acc, n, s)
      | None => (acc, n, s)
      end
  | [] => (acc, n, [])
  end.

(** An integer type: signed or not, and its width in bits. *)
Record int_type := mkInt { int_signed : bool; int_width : Z }.

Definition int_min (T : int_type) : Z := if int_signed T then - 2 ^ (int_width T - 1) else 0.
Definition int_max (T : int_type) : Z :=
  if int_signed T then 2 ^ (int_width T - 1) - 1 else 2 ^ int_width T - 1.

(** [std::from_chars] over the whole of [s]: the value when it consumes
    everything and reports no error. *)
Definition from_chars_all (T : int_type) (base : Z) (s : list Z) : option Z :=
  let '(neg, ds) :=
    match s with
    | 45 :: s' => if int_signed T then (true, s') else (false, s)
    | _ => (false, s)
    end in
  let '(v, n, rest) := scan_digits base ds 0 0 in
  let val := if (neg : bool) then - v else v in
  match n, rest with
  | S _, [] => if (int_min T <=? val) && (val <=? int_max T) then Some val else None
  | _, _ => None
  end.

(** [For<T>::FromString] of an integral type. *)
Definition FromString_int (T : int_type) (s : list Z) (base : Z) : option Z :=
  if base =? 0 then
    let '(base, s) :=
      if StringEqualI (substr 0 2 s) (str "0x") then (16, drop 2 s)
      else if StringEqualI (substr 0 2 s) (str "0b") then (2, drop 2 s)
      else (10, s) in
    match s with
    | [] => None
    | _ => from_chars_all T base s
    end
  else from_chars_all T base s.

(** Decimal digits, least significant first, in at most [room] places. *)
Fixpoint digits_rev (room : nat) (v : Z) : option (list Z) :=
  match room with
  | O => None
  | S room =>
      if v <? 10 then Some [48 + v]
      else ds ← digits_rev room (v / 10); Some (48 + v mod 10 :: ds)
  end.

(** [std::to_chars] into a buffer of [room] characters. *)
Definition to_chars (room : nat) (v : Z) : option (list Z) :=
  if v <? 0 then
    match room with
    | O => None
    | S room => ds ← digits_rev room (- v); Some (45 :: rev ds)
    end
  else rev (A:=Z) <$> digits_rev room v.

Definition ToString_int (v : Z) : outcome Empty_set (list Z) :=
  match to_chars 20 v with
  | Some buf => Ret buf
  | None => AssertFail
  end.

Definition FromString_bool (s : list Z) (strict : bool) : option bool :=
  if strict then
    if bool_decide (s = str "1") then Some true
    else if bool_decide (s = str "0") then Some false
    else None
  else
    if bool_decide (s = str "1") || StringEqualI s (str "y") || StringEqualI s (str "on")
      || StringEqualI s (str "yes") || StringEqualI s (str "true") then Some true
    else if bool_decide (s = str "0") || StringEqualI s (str "n") || StringEqualI s (str "off")
      || StringEqualI s (str "no") || StringEqualI s (str "false") then Some false
    else None.

Definition ToString_bool (val : bool) : list Z := if val then str "1" else str "0".

(** The formats ["{}"], ["{:02}"] and ["{:04X}"] of an unsigned integer. *)
Definition fmt_dec (v : Z) : list Z := default [] (to_chars 20 v).
Definition pad_left (width : nat) (s : list Z) : list Z :=
  replicate (width - length s) 48 ++ s.
Definition hex_digit (d : Z) : Z := if d <? 10 then 48 + d else 55 + d.
Definition fmt_hex4 (v : Z) : list Z :=
  map (λ i, hex_digit (Z.land (Z.shiftr v (4 * i)) 15)) [3; 2; 1; 0].

(** ** Hexadecimal dumps *)

Definition hex_byte (b : Z) : list Z :=
  [hex_digit (Z.shiftr b 4); hex_digit (Z.land b 15)].

(** The index sequence of the loops: forwards or backwards. *)
Definition indices (n : nat) (reverse : bool) : list nat :=
  if reverse then rev (seq 0 n) else seq 0 n.

Definition ByteArrayToHexStr (bytes : list Z) (reverse : bool) : list Z :=
  concat (map (λ i, hex_byte (default 0 (bytes !! i))) (indices (length bytes) reverse)).

(** [strtoul(buffer, nullptr, 16)] *)
Definition strtoul16 (buffer : list Z) : Z :=
  let s := drop_spaces buffer in
  let '(neg, s) :=
    match s with
    | 45 :: s' => (true, s')
    | 43 :: s' => (false, s')
    | _ => (false, s)
    end in
  let s :=
    match s with
    | 48 :: (x :: d :: _) as s' =>
        if ((x =? 120) || (x =? 88)) && (match digit_value d with Some v => v <? 16 | None => false end)
        then tail s' else s
    | _ => s
    end in
  let '(v, _, _) := scan_digits 16 s 0 0 in
  let v := Z.min v (2 ^ 64 - 1) in
  if (neg : bool) then u64 (- v) else v.

Definition HexStrToByteArray (s : list Z) (outlen : nat) (reverse : bool)
  : outcome Empty_set (list Z) :=
  if negb (length s =? 2 * outlen)%nat then AssertFail
  else Ret (map (λ i, u8 (strtoul16 (substr (2 * i) 2 s))) (indices outlen reverse)).

(** ** UTF-8 and wide strings *)

Definition isBasicLatinCharacter (wchar : Z) : bool :=
  if in_range 97 wchar 122 then true
  else if in_range 65 wchar 90 then true
  else false.

Definition isNumericOrSpace (wchar : Z) : bool := isNumeric (i8 wchar) || (wchar =? 32).

Definition isBasicLatinString (wstr : list Z) (numericOrSpace : bool) : bool :=
  forallb (λ i, negb (negb (isBasicLatinCharacter i) &&
                      (negb numericOrSpace || negb (isNumericOrSpace i)))) wstr.

Definition wcharToUpper (wchar : Z) : Z :=
  if in_range 97 wchar 122 then u16 wchar - 0x20
  else if wchar =? 0xDF then 0x1E9E
  else if in_range 0xE0 wchar 0xF6 then u16 wchar - 0x20
  else if in_range 0xF8 wchar 0xFE then u16 wchar - 0x20
  else if in_range 0x101 wchar 0x12F && (wchar mod 2 =? 1) then u16 wchar - 1
  else if in_range 0x430 wchar 0x44F then u16 wchar - 0x20
  else if wchar =? 0x451 then 0x401
  else wchar.

Definition wcharToUpperOnlyLatin (wchar : Z) : Z :=
  if isBasicLatinCharacter wchar then wcharToUpper wchar else wchar.

(** [Utf8toWStr]: success, and the wide string (cleared on failure). *)
Definition Utf8toWStr (utf8str : list Z) : bool * list Z :=
  match Utf8.utf8to16 utf8str with
  | Some wstr => (true, wstr)
  | None => (false, [])
  end.

Definition WStrToUtf8 (wstr : list Z) : bool * list Z :=
  match Utf8.utf16to8 wstr with
  | Some s => (true, s)
  | None => (false, [])
  end.

(** The result and the string after the call. *)
Definition Utf8ToUpperOnlyLatin (utf8String : list Z) : bool * list Z :=
  let '(ok, wstr) := Utf8toWStr utf8String in
  if negb ok then (false, utf8String)
  else WStrToUtf8 (map wcharToUpperOnlyLatin wstr).

(** The length in code points; a string that is not UTF-8 is emptied. *)
Definition utf8length (utf8str : list Z) : Z * list Z :=
  match Utf8.distance utf8str with
  | Some n => (n, utf8str)
  | None => (0, [])
  end.

(** [utf8truncate]: [wstr] has room for as many units as there are code points,
    so a string with surrogate pairs is written past its end. *)
Definition utf8truncate (utf8str : list Z) (len : Z) : outcome Empty_set (list Z) :=
  match Utf8.distance utf8str with
  | None => Ret []
  | Some wlen =>
      if wlen <=? len then Ret utf8str
      else
        match Utf8.utf8to16 utf8str with
        | None => Ret []
        | Some units =>
            if zlen units <=? wlen then
              match Utf8.utf16to8 (ztake len units) with
              | Some s => Ret s
              | None => Ret []
              end
            else UB
        end
  end.

(** ** Comparing without regard to case *)

Lemma StringEqualI_lower a b :
  StringEqualI a b = bool_decide (map tolower a = map tolower b).
Proof.
  revert b. induction a as [|x a IH]; intros [|y b]; cbn [StringEqualI map];
    try (by rewrite bool_decide_eq_false_2). { by rewrite bool_decide_eq_true_2. }
  rewrite IH. destruct (Z.eqb_spec (tolower x) (tolower y)) as [E|E]; cbn [andb].
  - rewrite E. apply bool_decide_ext. split; [by intros ->|by intros [= ->]].
  - rewrite bool_decide_eq_false_2; [done|]. by intros [= ? _].
Qed.

(** ** Tokenizing is splitting

    The reference definition: cut at every separator. *)

Fixpoint split (sep : Z) (s : list Z) : list (list Z) :=
  match s with
  | [] => [[]]
  | c :: s =>
      if c =? sep then [] :: split sep s
      else match split sep s with
           | t :: ts => (c :: t) :: ts
           | [] => [[c]]
           end
  end.

(** Putting the separators back. *)
Fixpoint join (sep : Z) (ts : list (list Z)) : list Z :=
  match ts with
  | [] => []
  | [t] => t
  | t :: ts => t ++ sep :: join sep ts
  end.

Definition nonempty (t : list Z) : bool := match t with [] => false | _ => true end.

Definition keep (keepEmpty : bool) (ts : list (list Z)) : list (list Z) :=
  if keepEmpty then ts else List.filter nonempty ts.

Lemma split_nonempty sep s : split sep s ≠ [].
Proof. destruct s as [|c s]; cbn; [done|]. repeat case_match; done. Qed.

Lemma join_split sep s : join sep (split sep s) = s.
Proof.
  induction s as [|c s IH]; [done|]. cbn [split].
  pose proof (split_nonempty sep s). destruct (Z.eqb_spec c sep) as [->|].
  - destruct (split sep s); [done|]. cbn [join app] in *. by rewrite IH.
  - destruct (split sep s) as [|t [|t' ts]]; [done| |]; cbn [join app] in *; by rewrite IH.
Qed.

Lemma split_tokens sep s : Forall (λ t, sep ∉ t) (split sep s).
Proof.
  induction s as [|c s IH]; cbn [split]; [repeat constructor; set_solver|].
  destruct (Z.eqb_spec c sep); [constructor; [set_solver|done]|].
  destruct (split sep s) as [|t ts]; [repeat constructor; set_solver|].
  inversion IH; subst. constructor; [set_solver|done].
Qed.

Lemma split_alone sep t : sep ∉ t → split sep t = [t].
Proof.
  induction t as [|c t IH]; intros H; [done|]. cbn [split].
  rewrite not_elem_of_cons in H. destruct (Z.eqb_spec c sep); [naive_solver|].
  by rewrite IH by naive_solver.
Qed.

Lemma split_app sep t s : sep ∉ t → split sep (t ++ sep :: s) = t :: split sep s.
Proof.
  induction t as [|c t IH]; intros H; cbn [split app]; [by rewrite Z.eqb_refl|].
  rewrite not_elem_of_cons in H. destruct (Z.eqb_spec c sep); [naive_solver|].
  by rewrite IH by naive_solver.
Qed.

Lemma find_char_None sep s pos :
  find_char sep s pos = None → split sep (drop pos s) = [drop pos s].
Proof.
  unfold find_char. intros H. apply split_alone.
  destruct (list_find _ _) eqn:E; [done|]. apply list_find_None in E.
  rewrite list_elem_of_lookup. intros [i Hi]. rewrite Forall_forall in E.
  apply (E sep); [by eapply list_elem_of_lookup_2|done].
Qed.

Lemma find_char_Some sep s pos e :
  find_char sep s pos = Some e →
  (pos <= e < length s)%nat ∧
  split sep (drop pos s) = substr pos (e - pos) s :: split sep (drop (S e) s).
Proof.
  unfold find_char. intros H.
  destruct (list_find _ _) as [[i x]|] eqn:E; [|done]. cbn in H. simplify_eq.
  apply list_find_Some in E as (Hi & -> & Hlt).
  pose proof (lookup_lt_Some _ _ _ Hi) as L. rewrite length_drop in L.
  split; [lia|]. unfold substr. replace (pos + i - pos)%nat with i by lia.
  rewrite <- (take_drop i (drop pos s)) at 1.
  rewrite (drop_S _ sep i) by done. rewrite drop_drop.
  replace (pos + S i)%nat with (S (pos + i)) by lia. apply split_app.
  rewrite list_elem_of_lookup. intros [j Hj].
  rewrite lookup_take_Some in Hj. by apply (Hlt j sep); naive_solver.
Qed.

Lemma Tokenize_loop_spec fuel s sep k start tokens start' tokens' :
  (length s < fuel + start)%nat → (start <= length s)%nat →
  Tokenize_loop fuel s sep k start (find_char sep s start) tokens = (start', tokens') →
  (start' <= length s)%nat ∧
  tokens' ++ keep k [drop start' s] = tokens ++ keep k (split sep (drop start s)).
Proof.
  revert start tokens. induction fuel as [|fuel IH]; intros start tokens Hf Hs; [lia|].
  cbn [Tokenize_loop]. destruct (find_char sep s start) as [e|] eqn:E.
  - apply find_char_Some in E as [He ->]. intros H.
    apply IH in H as [Hs' ->]; [|lia..]. split; [done|].
    assert (length (substr start (e - start) s) = (e - start)%nat) as Hl.
    { unfold substr. rewrite length_take, length_drop. lia. }
    destruct k; cbn [orb keep]; [by rewrite <- app_assoc|]. cbn [List.filter].
    destruct (Nat.ltb_spec start e), (substr start (e - start) s);
      cbn in *; try lia; by rewrite <- ?app_assoc.
  - intros. simplify_eq. split; [done|]. by rewrite (find_char_None _ _ _ E).
Qed.

(** [Tokenize] is the split at every separator, with the empty tokens
    dropped unless they are asked for; the tokens hold no separator, and
    joining the full list gives the string back. *)
Theorem Tokenize_split (s : list Z) (sep : Z) (keepEmpty : bool) :
  Tokenize s sep keepEmpty = keep keepEmpty (split sep s) ∧
  Forall (λ t, sep ∉ t) (Tokenize s sep keepEmpty) ∧
  join sep (Tokenize s sep true) = s.
Proof.
  assert (∀ k, Tokenize s sep k = keep k (split sep s)) as E.
  { intros k. unfold Tokenize. destruct (Tokenize_loop _ _ _ _ _ _ _) as [start tokens] eqn:E.
    apply Tokenize_loop_spec in E as [Hs E]; [|lia..]. rewrite drop_0 in E. cbn [app] in E.
    rewrite <- E. destruct k; cbn [orb keep]; [done|].
    pose proof (length_drop s start). cbn [List.filter].
    destruct (Nat.ltb_spec start (length s)), (drop start s);
      cbn in *; try lia; by rewrite ?app_nil_r. }
  rewrite !E. split; [done|]. split; [|apply join_split].
  pose proof (split_tokens sep s) as H. destruct keepEmpty; [done|]. cbn [keep].
  rewrite Forall_forall in *. intros t Ht. apply H.
  apply list_elem_of_In, filter_In in Ht as [Ht _]. by apply list_elem_of_In.
Qed.

(** ** Numbers survive their text *)

Definition is_digit (c : Z) : Prop := 48 <= c <= 57.

(** The value of decimal digits read after [acc]. *)
Definition dec_value (ds : list Z) (acc : Z) : Z :=
  fold_left (λ a c : Z, a * 10 + (c - 48)) ds acc.

Lemma scan_digits_dec ds acc n :
  Forall is_digit ds →
  scan_digits 10 ds acc n = (dec_value ds acc, (n + length ds)%nat, []).
Proof.
  unfold is_digit. intros H. revert acc n.
  induction H as [|c ds Hc _ IH]; intros acc n; cbn [scan_digits length].
  { by rewrite Nat.add_0_r. }
  unfold digit_value, in_range.
  rewrite (proj2 (Z.leb_le 48 c)), (proj2 (Z.leb_le c 57)) by lia. cbn [andb].
  rewrite (proj2 (Z.ltb_lt _ _)) by lia. rewrite IH. cbn. do 2 f_equal. lia.
Qed.

Lemma digits_rev_spec room v :
  (0 < room)%nat → 0 <= v < 10 ^ Z.of_nat room →
  ∃ ds, digits_rev room v = Some ds ∧ ds ≠ [] ∧ Forall is_digit ds ∧
    dec_value (rev ds) 0 = v.
Proof.
  unfold is_digit. revert v. induction room as [|room IH]; intros v Hr Hv; [lia|].
  cbn [digits_rev]. destruct (Z.ltb_spec v 10).
  { exists [48 + v]. repeat constructor; try done; try lia. cbn. lia. }
  rewrite Nat2Z.inj_succ, Z.pow_succ_r in Hv by lia.
  assert (0 < room)%nat by (destruct room; [cbn in Hv; lia|lia]).
  destruct (IH (v / 10)) as (ds & -> & _ & Hds & Hval); [done|divmod_lia|].
  cbn [mbind option_bind]. eexists. split; [done|]. split; [done|].
  split; [constructor; [divmod_lia|done]|]. unfold dec_value in *. cbn [rev].
  rewrite fold_left_app, Hval. cbn [fold_left]. divmod_lia.
Qed.

Lemma from_chars_digits T (neg : bool) ds v :
  Forall is_digit ds → ds ≠ [] → dec_value ds 0 = v →
  (neg = true → int_signed T = true) →
  int_min T <= (if neg then - v else v) <= int_max T →
  from_chars_all T 10 (if neg then 45 :: ds else ds) = Some (if neg then - v else v).
Proof.
  intros Hds Hne Hv Hneg Hr. unfold from_chars_all.
  assert ((match (if neg then 45 :: ds else ds) with
    | 45 :: s' => if int_signed T then (true, s') else (false, if neg then 45 :: ds else ds)
    | _ => (false, if neg then 45 :: ds else ds)
    end) = (neg, ds)) as ->.
  { destruct neg; [by rewrite Hneg|]. destruct ds as [|c ds]; [done|].
    inversion Hds as [|? ? Hc]; subst. unfold is_digit in Hc.
    destruct (Z.eq_dec c 45); [lia|]. repeat case_match; try done; lia. }
  rewrite scan_digits_dec by done. rewrite Hv. cbn [plus].
  destruct (length ds) eqn:E; [by destruct ds|].
  rewrite (proj2 (Z.leb_le _ _)), (proj2 (Z.leb_le _ _)) by lia. done.
Qed.

(** With base 0, text of digits is decimal. *)
Lemma FromString_base_0 T (neg : bool) ds :
  Forall is_digit ds → ds ≠ [] →
  FromString_int T (if neg then 45 :: ds else ds) 0
  = from_chars_all T 10 (if neg then 45 :: ds else ds).
Proof.
  intros Hds Hne. unfold FromString_int. cbn [Z.eqb].
  set (s := if neg then 45 :: ds else ds).
  assert (∀ x, 58 <= tolower x →
    StringEqualI (substr 0 2 s) [48; x] = false) as Hno.
  { intros x Hx. unfold s, substr. rewrite drop_0.
    destruct neg; [done|]. destruct ds as [|c1 [|c2 ds]]; [done|by cbn; rewrite andb_false_r|].
    inversion Hds as [|? ? _ Hds']; subst. inversion Hds' as [|? ? Hc2]; subst.
    unfold is_digit in Hc2. cbn [take StringEqualI].
    assert (tolower c2 = c2) as ->.
    { unfold tolower, in_range. destruct (Z.leb_spec 65 c2); [lia|done]. }
    destruct (Z.eqb_spec c2 (tolower x)); [lia|]. by rewrite andb_false_r. }
  change (str "0x") with [48; 120]. change (str "0b") with [48; 98].
  rewrite !Hno by (vm_compute; done).
  unfold s. destruct neg; [done|]. by destruct ds.
Qed.

(** The text of an integer: digits, and a sign if need be. *)
Lemma int_text (T : int_type) (v : Z) :
  0 < int_width T <= 64 → int_min T <= v <= int_max T →
  ∃ buf, ToString_int v = Ret buf ∧
    FromString_int T buf 10 = Some v ∧ FromString_int T buf 0 = Some v ∧
    Forall (λ c, c = 45 ∨ is_digit c) buf ∧ buf ≠ [].
Proof.
  intros Hw Hv.
  assert (int_signed T = true → int_width T - 1 <= 63) as Hs by lia.
  assert (2 ^ (int_width T - 1) <= 2 ^ 63) by (apply Z.pow_le_mono_r; lia).
  assert (2 ^ int_width T <= 2 ^ 64) by (apply Z.pow_le_mono_r; lia).
  set (neg := v <? 0). set (a := if neg then - v else v).
  assert (∃ ds, to_chars 20 v = Some (if neg then 45 :: ds else ds) ∧
    Forall is_digit ds ∧ ds ≠ [] ∧ dec_value ds 0 = a) as (ds & Hc & Hds & Hne & Hval).
  { unfold to_chars, a, neg, int_min, int_max in *.
    destruct (Z.ltb_spec v 0).
    - destruct (digits_rev_spec 19 (- v)) as (ds & -> & Hne & Hds & Hval); [lia| |].
      { destruct (int_signed T); lia. }
      cbn [mbind option_bind]. exists (rev ds). split; [done|].
      split; [by apply Forall_rev|]. split; [|done].
      intros E. apply (f_equal (@length Z)) in E. rewrite length_rev in E. by destruct ds.
    - destruct (digits_rev_spec 20 v) as (ds & -> & Hne & Hds & Hval); [lia| |].
      { destruct (int_signed T); lia. }
      cbn [fmap option_fmap option_map]. exists (rev ds). split; [done|].
      split; [by apply Forall_rev|]. split; [|done].
      intros E. apply (f_equal (@length Z)) in E. rewrite length_rev in E. by destruct ds. }
  unfold ToString_int. rewrite Hc. eexists. split; [done|].
  assert (v = if neg then - a else a) as Hva.
  { unfold a. destruct neg; lia. }
  assert (from_chars_all T 10 (if neg then 45 :: ds else ds) = Some v) as E.
  { rewrite Hva. apply from_chars_digits; try done; [|rewrite <- Hva; lia].
    intros Hn. unfold neg in Hn. apply Z.ltb_lt in Hn.
    unfold int_min in Hv. destruct (int_signed T); [done|lia]. }
  split; [done|]. split; [by rewrite FromString_base_0|].
  split; [|by destruct neg].
  assert (Forall (λ c, c = 45 ∨ is_digit c) ds) by (eapply Forall_impl; [done|]; auto).
  destruct neg; [constructor; auto|done].
Qed.

(** The text fmt makes of an integer. *)
Lemma fmt_dec_text (T : int_type) (v : Z) :
  0 < int_width T <= 64 → int_min T <= v <= int_max T →
  FromString_int T (fmt_dec v) 10 = Some v ∧ ∀ c, c ∈ fmt_dec v → c = 45 ∨ 48 <= c <= 57.
Proof.
  intros Hw Hv. destruct (int_text T v Hw Hv) as (buf & E & F & _ & D & _).
  unfold ToString_int in E. unfold fmt_dec. destruct (to_chars 20 v) as [b|]; [|done].
  injection E as ->. split; [done|]. by apply Forall_forall.
Qed.

(** The text of an integer of any type of up to 64 bits fits the 20
    characters [ToString] gives it, so its assertion holds, and [FromString]
    reads the integer back, in base 10 and when it guesses the base. *)
Theorem ToString_FromString (T : int_type) (v : Z) :
  0 < int_width T <= 64 → int_min T <= v <= int_max T →
  ∃ buf, ToString_int v = Ret buf ∧
    FromString_int T buf 10 = Some v ∧ FromString_int T buf 0 = Some v.
Proof. intros Hw Hv. destruct (int_text T v Hw Hv) as (buf & ? & ? & ? & _). by exists buf. Qed.

Lemma ToString_FromString_witness :
  ∃ buf, ToString_int (- 2 ^ 63) = Ret buf ∧
    FromString_int (mkInt true 64) buf 10 = Some (- 2 ^ 63) ∧
    FromString_int (mkInt true 64) buf 0 = Some (- 2 ^ 63).
Proof. apply (ToString_FromString (mkInt true 64)); vm_compute; done. Defined.

(** ** Hexadecimal dumps *)

Lemma strtoul16_hex_byte b : is_byte b → u8 (strtoul16 (hex_byte b)) = b.
Proof.
  intros Hb. apply Z.eqb_eq.
  by apply (byte_forall (λ b, u8 (strtoul16 (hex_byte b)) =? b)).
Qed.

Definition hex (bytes : list Z) : list Z := concat (map hex_byte bytes).

Lemma length_hex bytes : length (hex bytes) = (2 * length bytes)%nat.
Proof.
  induction bytes as [|b bytes IH]; [done|]. unfold hex in *. cbn [map concat].
  rewrite length_app, IH. cbn. lia.
Qed.

Lemma hex_substr bytes i b :
  bytes !! i = Some b → substr (2 * i) 2 (hex bytes) = hex_byte b.
Proof.
  revert i. induction bytes as [|c bytes IH]; intros i; [done|].
  destruct i as [|i]; cbn [lookup list_lookup]; [by intros [= ->]|].
  intros H. rewrite <- (IH i) by done. unfold substr.
  replace (2 * S i)%nat with (2 + 2 * i)%nat by lia. by rewrite <- drop_drop.
Qed.

Lemma read_indices (l : list Z) : map (λ i, default 0 (l !! i)) (seq 0 (length l)) = l.
Proof.
  apply list_eq. intros i. rewrite list_lookup_fmap.
  destruct (decide (i < length l)%nat) as [L|L].
  - rewrite lookup_seq_lt by done. cbn. by destruct (lookup_lt_is_Some_2 l i L) as [x ->].
  - rewrite lookup_seq_ge, lookup_ge_None_2 by lia. done.
Qed.

Lemma ByteArrayToHexStr_spec bytes reverse :
  ByteArrayToHexStr bytes reverse = hex (if reverse then rev bytes else bytes).
Proof.
  unfold ByteArrayToHexStr, hex, indices. f_equal.
  destruct reverse; rewrite <- (read_indices bytes) at 2; rewrite <- ?map_rev; by rewrite map_map.
Qed.

(** [HexStrToByteArray] reads back what [ByteArrayToHexStr] wrote, in
    either direction, and its length assertion holds for that text. *)
Theorem hex_roundtrip (bytes : list Z) (reverse : bool) :
  Forall is_byte bytes →
  HexStrToByteArray (ByteArrayToHexStr bytes reverse) (length bytes) reverse = Ret bytes.
Proof.
  intros Hb. unfold HexStrToByteArray. rewrite ByteArrayToHexStr_spec, length_hex.
  set (l := if reverse then rev bytes else bytes).
  assert (length l = length bytes) as Hl by (unfold l; destruct reverse; by rewrite ?length_rev).
  rewrite Hl, Nat.eqb_refl. cbn [negb]. f_equal.
  assert (map (λ i, u8 (strtoul16 (substr (2 * i) 2 (hex l)))) (seq 0 (length bytes)) = l) as E.
  { rewrite <- Hl. transitivity (map (λ i, default 0 (l !! i)) (seq 0 (length l)));
      [|apply read_indices]. apply map_ext_in.
    intros i Hi%in_seq. destruct (lookup_lt_is_Some_2 l i) as [b E]; [lia|].
    rewrite (hex_substr _ _ b), E by done. apply strtoul16_hex_byte.
    assert (Forall is_byte l) as Hl' by (unfold l; destruct reverse; [by apply Forall_rev|done]).
    by eapply Forall_lookup_1. }
  unfold indices. destruct reverse; [rewrite map_rev, E; apply rev_involutive|done].
Qed.

Lemma hex_roundtrip_witness :
  Forall is_byte [0; 171; 255] ∧ ByteArrayToHexStr [0; 171; 255] true = str "FFAB00" ∧
  HexStrToByteArray (ByteArrayToHexStr [0; 171; 255] true) 3 true = Ret [0; 171; 255].
Proof.
  assert (Forall is_byte [0; 171; 255]) as H by (unfold is_byte; repeat constructor; lia).
  split; [exact H|]. split; [by vm_compute|]. apply (hex_roundtrip _ true H).
Defined.

(** ** Upper case of UTF-8 text *)

Lemma upper_small c : 0 <= c → wcharToUpperOnlyLatin c = toupper c.
Proof.
  intros Hc. unfold wcharToUpperOnlyLatin, isBasicLatinCharacter, wcharToUpper, toupper, in_range.
  destruct (Z.leb_spec 97 c), (Z.leb_spec c 122); cbn [andb]; try lia;
    [rewrite wrap_small; lia|..];
    destruct (Z.leb_spec 65 c), (Z.leb_spec c 90); cbn [andb]; try lia; try done;
    repeat (rewrite (proj2 (Z.leb_gt _ c)) by lia; cbn [andb]);
    by repeat (rewrite (proj2 (Z.eqb_neq _ _)) by lia).
Qed.

Lemma upper_big c : 122 < c → wcharToUpperOnlyLatin c = c.
Proof.
  intros. unfold wcharToUpperOnlyLatin, isBasicLatinCharacter, in_range.
  by rewrite !(proj2 (Z.leb_gt c _)), !andb_false_r by lia.
Qed.

Lemma toupper_big c : 122 < c → toupper c = c.
Proof.
  intros. unfold toupper, in_range. by rewrite (proj2 (Z.leb_gt c 122)), andb_false_r by lia.
Qed.

Lemma toupper_range c : 0 <= c < 0x80 → 0 <= toupper c < 0x80.
Proof. intros. unfold toupper, in_range. destruct (Z.leb_spec 97 c); case_match; lia. Qed.

Lemma upper_enc16 cp :
  Utf8.valid_cp cp →
  Utf8.valid_cp (toupper cp) ∧
  map wcharToUpperOnlyLatin (Utf8.enc16 cp) = Utf8.enc16 (toupper cp) ∧
  Utf8.enc (toupper cp) = map toupper (Utf8.enc cp).
Proof.
  intros H. assert (0 <= cp) as H0 by (unfold Utf8.valid_cp in H; lia).
  unfold Utf8.enc16, Utf8.enc. destruct (Z.ltb_spec cp 0x80) as [L|L].
  - pose proof (toupper_range cp ltac:(lia)) as Hr.
    repeat (rewrite (proj2 (Z.ltb_lt _ _)) by lia).
    split; [unfold Utf8.valid_cp; lia|]. cbn [map]. by rewrite upper_small.
  - rewrite toupper_big by lia. split; [done|].
    unfold Utf8.valid_cp in H. split.
    + destruct (Z.ltb_spec cp 0x10000); cbn [map]; by rewrite !upper_big by divmod_lia.
    + rewrite (proj2 (Z.ltb_ge cp 0x80)) by lia.
      destruct (Z.ltb_spec cp 0x800); [|destruct (Z.ltb_spec cp 0x10000)];
        cbn [map]; by rewrite !toupper_big by divmod_lia.
Qed.

Lemma upper_encode cps :
  Forall Utf8.valid_cp cps →
  Forall Utf8.valid_cp (map toupper cps) ∧
  map wcharToUpperOnlyLatin (Utf8.encode16 cps) = Utf8.encode16 (map toupper cps) ∧
  Utf8.encode (map toupper cps) = map toupper (Utf8.encode cps).
Proof.
  unfold Utf8.encode, Utf8.encode16.
  induction 1 as [|cp cps Hcp _ (IH1 & IH2 & IH3)]; [by repeat constructor|].
  destruct (upper_enc16 cp Hcp) as (H1 & H2 & H3). cbn [map concat].
  rewrite !map_app, H2, H3, IH2, IH3. split_and!; [by constructor|done..].
Qed.

Lemma Utf8ToUpperOnlyLatin_cases (s : list Z) :
  Forall is_byte s →
  Utf8ToUpperOnlyLatin s =
    if Utf8.is_valid s then (true, map toupper s) else (false, s).
Proof.
  intros Hb. unfold Utf8ToUpperOnlyLatin, Utf8toWStr, WStrToUtf8.
  destruct (Utf8.is_valid s) eqn:E.
  - apply Utf8.is_valid_encode in E as (cps & Hcps & ->); [|done].
    destruct (upper_encode cps Hcps) as (H1 & H2 & H3).
    rewrite Utf8.utf8to16_encode by done. cbn [negb].
    by rewrite H2, Utf8.utf16to8_encode, H3.
  - destruct (Utf8.utf8to16 s) eqn:Eu; [|done].
    apply Utf8.utf8to16_valid in Eu; [congruence|done].
Qed.

(** [Utf8ToUpperOnlyLatin] succeeds exactly on valid UTF-8; then it
    upper-cases the ASCII letters and changes no other byte (through the UTF-16
    conversion and back); an invalid string is left as it was. *)
Theorem Utf8ToUpperOnlyLatin_spec (s : list Z) :
  Forall is_byte s →
  Utf8ToUpperOnlyLatin s =
    if Utf8.is_valid s then (true, map toupper s) else (false, s).
Proof. apply Utf8ToUpperOnlyLatin_cases. Qed.

Lemma Utf8ToUpperOnlyLatin_spec_witness :
  Forall is_byte [97; 195; 169; 122] ∧
  Utf8ToUpperOnlyLatin [97; 195; 169; 122] = (true, [65; 195; 169; 90]).
Proof.
  assert (Forall is_byte [97; 195; 169; 122]) as H by (unfold is_byte; repeat constructor; lia).
  split; [exact H|]. rewrite (Utf8ToUpperOnlyLatin_spec _ H). by vm_compute.
Defined.

(** Four bytes of one code point beyond the BMP: [utf8truncate] writes two units
    into room for one. *)
Example utf8truncate_overflow : utf8truncate [240; 159; 152; 128] 0 = UB.
Proof. by vm_compute. Qed.

End Strings.
