(* ===== verification/BigNumber.v ===== *)
(** * BigNumber: the numbers of OpenSSL

    Model of [src/src/common/Cryptography/BigNumber.h]/[.cpp].  OpenSSL is the
    environment: a [BIGNUM] is the integer it stands for, a function of the library
    that writes into one is the value it leaves there, and what the code relies on
    is in [OpenSSLLaws].  A method that changes its object is a function from the
    value of the object to the new one. *)

From S2P Require Import Prelude.
Open Scope Z_scope.

Class OpenSSL := {
  BN_set_word : Z → Z;
  BN_set_negative : Z → bool → Z;
  BN_add_word : Z → Z → Z;
  BN_add : Z → Z → Z;
  BN_sub : Z → Z → Z;
  BN_mul : Z → Z → Z;
  BN_div : Z → Z → Z;
  BN_mod : Z → Z → Z;
  BN_exp : Z → Z → Z;
  BN_mod_exp : Z → Z → Z → Z;
  BN_lshift : Z → Z → Z;
  BN_cmp : Z → Z → Z;
  BN_is_zero : Z → bool;
  BN_is_negative : Z → bool;
  BN_get_word : Z → Z;
  BN_bin2bn : list Z → Z;
  BN_lebin2bn : list Z → Z;
  BN_num_bytes : Z → Z;
  (** the bytes it needs; those of a number that fits, else the call fails with -1 *)
  BN_bn2bin : Z → list Z;
  BN_bn2lebinpad : Z → Z → option (list Z);
  BN_bn2binpad : Z → Z → option (list Z);
  (** the number left and the characters used *)
  BN_hex2bn : Z → list Z → Z * Z;
  BN_bn2hex : Z → list Z;
  BN_bn2dec : Z → list Z;
  SHA1 : list Z → list Z
}.

Class OpenSSLLaws (O : OpenSSL) : Prop := {
  BN_set_word_spec w : 0 <= w < 2 ^ 64 → BN_set_word w = w;
  BN_set_negative_spec a : BN_set_negative a true = - Z.abs a;
  BN_add_word_spec a w : 0 <= w < 2 ^ 64 → BN_add_word a w = a + w;
  BN_add_spec a b : BN_add a b = a + b;
  BN_sub_spec a b : BN_sub a b = a - b;
  BN_mul_spec a b : BN_mul a b = a * b;
  BN_div_spec a b : b ≠ 0 → BN_div a b = Z.quot a b;
  BN_mod_spec a b : b ≠ 0 → BN_mod a b = Z.rem a b;
  BN_exp_spec a p : 0 <= p → BN_exp a p = a ^ p;
  BN_mod_exp_spec a p m : 0 <= a → 0 <= p → 0 < m → BN_mod_exp a p m = a ^ p mod m;
  BN_lshift_spec a n : 0 <= n → BN_lshift a n = a * 2 ^ n;
  BN_cmp_spec a b : Z.sgn (BN_cmp a b) = Z.sgn (a - b);
  BN_is_zero_spec a : BN_is_zero a = (a =? 0);
  BN_is_negative_spec a : BN_is_negative a = (a <? 0);
  BN_get_word_spec a : BN_get_word a = if Z.abs a <? 2 ^ 64 then Z.abs a else 2 ^ 64 - 1;
  BN_bin2bn_spec bs : BN_bin2bn bs = le_value (rev bs);
  BN_lebin2bn_spec bs : BN_lebin2bn bs = le_value bs;
  BN_num_bytes_spec a n : 0 <= n → BN_num_bytes a <= n ↔ Z.abs a < 2 ^ (8 * n);
  BN_num_bytes_nonneg a : 0 <= BN_num_bytes a;
  BN_bn2bin_spec a : BN_bn2bin a = rev (le_bytes (Z.to_nat (BN_num_bytes a)) (Z.abs a));
  BN_bn2lebinpad_spec v n : 0 <= n →
    BN_bn2lebinpad v n = if Z.abs v <? 2 ^ (8 * n) then Some (le_bytes (Z.to_nat n) (Z.abs v)) else None;
  BN_bn2binpad_spec v n : 0 <= n → BN_bn2binpad v n = @rev Z <$> BN_bn2lebinpad v n;
  BN_bn2hex_text a : BN_bn2hex a ≠ [];
  BN_hex2bn_spec a b : BN_hex2bn b (BN_bn2hex a) = (a, zlen (BN_bn2hex a));
  SHA1_bytes l : Forall is_byte (SHA1 l);
  SHA1_length l : zlen (SHA1 l) = 20
}.

Module BigNumber.
Section bignumber.
Context {O : OpenSSL}.

(** ** Setting a number *)

Definition SetDword (val : Z) : Z := BN_set_word val.

(** The overload for [int32]; [std::abs] of the least one overflows. *)
Definition SetDword_int32 (val : Z) : outcome Empty_set Z :=
  if val =? - 2 ^ 31 then UB
  else
    let bn := SetDword (u32 (Z.abs val)) in
    Ret (if val <? 0 then BN_set_negative bn true else bn).

Definition SetQword (val : Z) : Z :=
  let bn := BN_set_word (u32 (Z.shiftr val 32)) in
  let bn := BN_lshift bn 32 in
  BN_add_word bn (u32 (Z.land val 0xFFFFFFFF)).

Definition SetBinary (bytes : list Z) (littleEndian : bool) : Z :=
  if littleEndian then BN_lebin2bn bytes else BN_bin2bn bytes.

(** What the code does with an OpenSSL older than 1.1. *)
Definition SetBinary_1_0 (bytes : list Z) (littleEndian : bool) : Z :=
  if littleEndian then
    let len := zlen bytes in
    BN_bin2bn (map (λ i, default 0 (bytes !! Z.to_nat (len - 1 - i))) (seqZ 0 len))
  else BN_bin2bn bytes.

(** [SetHexStr]: the answer, and the number it leaves of what was there. *)
Definition SetHexStr (text : list Z) (a : Z) : bool * Z :=
  let '(bn, n) := BN_hex2bn a text in (0 <? n, bn).

(** ** Arithmetic: [operator+=] and the like, and with a copy [operator+] *)

Definition add (a b : Z) : Z := BN_add a b.
Definition sub (a b : Z) : Z := BN_sub a b.
Definition mul (a b : Z) : Z := BN_mul a b.
Definition div (a b : Z) : Z := BN_div a b.
Definition modulo (a b : Z) : Z := BN_mod a b.
Definition shl (a n : Z) : Z := BN_lshift a n.
Definition Exp (a e : Z) : Z := BN_exp a e.
Definition ModExp (a e m : Z) : Z := BN_mod_exp a e m.

(** ** Comparing *)

Definition CompareTo (a b : Z) : Z := BN_cmp a b.
Definition le (a b : Z) : bool := CompareTo a b <=? 0.
Definition eq (a b : Z) : bool := CompareTo a b =? 0.
Definition ge (a b : Z) : bool := 0 <=? CompareTo a b.
Definition lt (a b : Z) : bool := CompareTo a b <? 0.
Definition gt (a b : Z) : bool := 0 <? CompareTo a b.
Definition IsZero (a : Z) : bool := BN_is_zero a.
Definition IsNegative (a : Z) : bool := BN_is_negative a.

(** ** Getting at a number *)

Definition GetNumBytes (a : Z) : Z := BN_num_bytes a.
Definition AsDword (a : Z) : Z := u32 (BN_get_word a).
Definition AsHexStr (a : Z) : list Z := BN_bn2hex a.
Definition AsDecStr (a : Z) : list Z := BN_bn2dec a.

(** The library answers with the bytes it wrote, or -1; the assertion wants more
    than none. *)
Definition GetBytes (bufsize : Z) (littleEndian : bool) (a : Z) : outcome Empty_set (list Z) :=
  match (if littleEndian then BN_bn2lebinpad a bufsize else BN_bn2binpad a bufsize) with
  | Some buf => if 0 <? zlen buf then Ret buf else AssertFail
  | None => AssertFail
  end.

(** With an OpenSSL older than 1.1: the bytes at the end of a buffer of zeros, and
    the whole turned around. *)
Definition GetBytes_1_0 (bufsize : Z) (littleEndian : bool) (a : Z) : outcome Empty_set (list Z) :=
  let nBytes := GetNumBytes a in
  if negb (0 <=? nBytes) then AssertFail
  else if negb (nBytes <=? bufsize) then AssertFail
  else
    let buf := replicate (Z.to_nat (bufsize - nBytes)) 0 ++ BN_bn2bin a in
    Ret (if littleEndian then rev buf else buf).

Definition ToByteArray (size : Z) (littleEndian : bool) (a : Z) : outcome Empty_set (list Z) :=
  GetBytes size littleEndian a.

Definition ToByteVector (minSize : Z) (littleEndian : bool) (a : Z) : outcome Empty_set (list Z) :=
  let length := Z.max (GetNumBytes a) minSize in
  GetBytes length littleEndian a.

(** ** What they compute *)

Context {L : OpenSSLLaws O}.

Lemma SetBinary_le l : SetBinary l true = le_value l.
Proof using L. apply BN_lebin2bn_spec. Qed.

Lemma SetBinary_be l : SetBinary l false = le_value (rev l).
Proof using L. apply BN_bin2bn_spec. Qed.

Lemma IsZero_spec a : IsZero a = (a =? 0).
Proof using L. apply BN_is_zero_spec. Qed.

Lemma modulo_spec a m : 0 <= a → 0 < m → modulo a m = a mod m.
Proof using L. intros. unfold modulo. rewrite BN_mod_spec, Z.rem_mod_nonneg by lia. done. Qed.

(** The bytes of a number, for a buffer that has room and is not empty. *)
Lemma GetBytes_fits n littleEndian a :
  0 < n → Z.abs a < 2 ^ (8 * n) →
  let l := le_bytes (Z.to_nat n) (Z.abs a) in
  GetBytes n littleEndian a = Ret (if littleEndian then l else rev l).
Proof using L.
  intros Hn Ha. cbn zeta. unfold GetBytes. rewrite BN_bn2binpad_spec, BN_bn2lebinpad_spec by lia.
  rewrite (proj2 (Z.ltb_lt _ _)) by done.
  assert (zlen (le_bytes (Z.to_nat n) (Z.abs a)) = n) as El by (rewrite zlen_le_bytes; lia).
  destruct littleEndian; cbn [fmap option_fmap option_map]; unfold zlen in *; rewrite ?length_rev, El;
    by rewrite (proj2 (Z.ltb_lt _ _)).
Qed.

Lemma GetBytes_too_long n littleEndian a :
  0 <= n → 2 ^ (8 * n) <= Z.abs a → GetBytes n littleEndian a = AssertFail.
Proof using L.
  intros Hn Ha. unfold GetBytes. rewrite BN_bn2binpad_spec, BN_bn2lebinpad_spec by done.
  rewrite (proj2 (Z.ltb_ge _ _)) by done. by destruct littleEndian.
Qed.

(** Zero has no bytes, and a buffer of none fails the assertion. *)
Lemma ToByteVector_zero minSize littleEndian :
  minSize <= 0 → ToByteVector minSize littleEndian 0 = AssertFail.
Proof using L.
  intros Hm. unfold ToByteVector, GetNumBytes.
  assert (BN_num_bytes 0 = 0) as -> by (pose proof (BN_num_bytes_nonneg 0);
    pose proof (proj2 (BN_num_bytes_spec 0 0 ltac:(done)) ltac:(done)); lia).
  rewrite Z.max_l by done. unfold GetBytes.
  rewrite BN_bn2binpad_spec, BN_bn2lebinpad_spec by done. by destruct littleEndian.
Qed.

(** The bytes of a number as a vector are exactly so many as it needs, or as were
    asked for, and give back its magnitude. *)
Lemma ToByteVector_exact minSize littleEndian a :
  let n := Z.max (GetNumBytes a) minSize in
  0 < n →
  ∃ v, ToByteVector minSize littleEndian a = Ret v ∧ zlen v = n ∧ Forall is_byte v ∧
    SetBinary v littleEndian = Z.abs a.
Proof using L.
  intros n Hn. assert (Z.abs a < 2 ^ (8 * n)) as Ha
    by (apply BN_num_bytes_spec; [lia|unfold n, GetNumBytes; lia]).
  eexists. split; [by apply GetBytes_fits|].
  assert (le_value (le_bytes (Z.to_nat n) (Z.abs a)) = Z.abs a) as Ev.
  { rewrite le_value_bytes, Z2Nat.id by lia. apply wrap_small. lia. }
  destruct littleEndian.
  - split; [rewrite zlen_le_bytes; lia|]. split; [apply le_bytes_bytes|]. by rewrite SetBinary_le.
  - split; [unfold zlen; rewrite length_rev, length_le_bytes; lia|].
    split; [apply Forall_rev, le_bytes_bytes|]. by rewrite SetBinary_be, rev_involutive.
Qed.

(** The two versions of the code set and get the same bytes, but for a buffer of
    none, which the older one fills with the bytes of zero. *)
Lemma le_bytes_0 k : le_bytes k 0 = replicate k 0.
Proof. induction k as [|k IH]; [done|]. cbn. by rewrite <- IH. Qed.

Lemma le_bytes_zeros n k v :
  0 <= v < 2 ^ (8 * Z.of_nat n) → le_bytes (n + k) v = le_bytes n v ++ replicate k 0.
Proof.
  revert v. induction n as [|n IH]; intros v Hv.
  - assert (v = 0) as -> by (change (2 ^ (8 * Z.of_nat 0)) with 1 in Hv; lia).
    apply le_bytes_0.
  - cbn [Nat.add le_bytes app]. rewrite IH; [done|]. rewrite pow2_8_S in Hv.
    rewrite shiftr_8. split; [apply Z.div_pos; lia|apply Z.div_lt_upper_bound; lia].
Qed.

Lemma rev_zeros n : rev (replicate n 0) = replicate n 0.
Proof. rewrite rev_alt. apply reverse_replicate. Qed.

Lemma GetBytes_versions n littleEndian a :
  0 < n → GetBytes_1_0 n littleEndian a = GetBytes n littleEndian a.
Proof using L.
  intros Hn. unfold GetBytes_1_0, GetNumBytes. pose proof (BN_num_bytes_nonneg a) as H0.
  pose proof (BN_num_bytes_spec a n ltac:(lia)) as Hf.
  set (m := BN_num_bytes a) in *. rewrite (proj2 (Z.leb_le 0 m)) by done. cbn [negb].
  destruct (Z.leb_spec m n) as [Hm|Hm]; cbn [negb].
  - rewrite GetBytes_fits by (done || by apply Hf). rewrite BN_bn2bin_spec. fold m.
    replace (Z.to_nat n) with (Z.to_nat m + Z.to_nat (n - m))%nat by lia.
    rewrite le_bytes_zeros.
    + by destruct littleEndian; rewrite rev_app_distr, rev_zeros, ?rev_involutive.
    + split; [lia|]. rewrite Z2Nat.id by done. apply (BN_num_bytes_spec a m); lia.
  - rewrite GetBytes_too_long; [done|lia|]. apply Z.nlt_ge. intros Ha%Hf. lia.
Qed.

Lemma from_the_back (l : list Z) :
  map (λ i, default 0 (l !! Z.to_nat (zlen l - 1 - i))) (seqZ 0 (zlen l)) = rev l.
Proof.
  rewrite rev_alt. change (rev_append l []) with (reverse l). apply list_eq. intros i.
  unfold seqZ, zlen. rewrite Nat2Z.id, map_map, list_lookup_fmap.
  destruct (decide (i < length l)%nat) as [Hi|Hi].
  - rewrite lookup_seq_lt, reverse_lookup by done. cbn [fmap option_fmap option_map].
    replace (Z.to_nat _) with (length l - S i)%nat by lia.
    destruct (lookup_lt_is_Some_2 l (length l - S i)) as [x ->]; [lia|done].
  - rewrite lookup_seq_ge, lookup_ge_None_2 by (rewrite ?length_reverse; lia). done.
Qed.

Lemma SetBinary_versions bytes littleEndian :
  SetBinary_1_0 bytes littleEndian = SetBinary bytes littleEndian.
Proof using L.
  destruct littleEndian; [|done]. unfold SetBinary_1_0. cbn zeta.
  by rewrite from_the_back, SetBinary_le, BN_bin2bn_spec, rev_involutive.
Qed.

(** Numbers of machine width. *)
Lemma SetQword_value val : 0 <= val < 2 ^ 64 → SetQword val = val.
Proof using L.
  intros Hv. unfold SetQword. rewrite Z.shiftr_div_pow2 by done.
  change 0xFFFFFFFF with (Z.ones 32). rewrite Z.land_ones by done.
  assert (0 <= val / 2 ^ 32 < 2 ^ 32) by (split; [apply Z.div_pos; lia|apply Z.div_lt_upper_bound; lia]).
  pose proof (Z.mod_pos_bound val (2 ^ 32) ltac:(done)).
  rewrite !wrap_small by lia. rewrite BN_set_word_spec, BN_lshift_spec, BN_add_word_spec by lia.
  pose proof (Z.div_mod val (2 ^ 32)). lia.
Qed.

(** The overload for [int32] keeps the value and its sign; [AsDword] forgets it. *)
Lemma SetDword_int32_value val :
  - 2 ^ 31 < val < 2 ^ 31 → SetDword_int32 val = Ret val ∧ AsDword val = Z.abs val.
Proof using L.
  intros Hv. unfold SetDword_int32, SetDword, AsDword. rewrite (proj2 (Z.eqb_neq _ _)) by lia.
  rewrite wrap_small, BN_set_word_spec, BN_get_word_spec by lia.
  rewrite (proj2 (Z.ltb_lt (Z.abs val) _)), wrap_small by lia. split; [|done]. f_equal.
  destruct (Z.ltb_spec val 0); [rewrite BN_set_negative_spec|]; lia.
Qed.

Lemma SetDword_int32_least : SetDword_int32 (- 2 ^ 31) = UB.
Proof. done. Qed.

(** Hexadecimal text is read back, whatever the number was. *)
Lemma SetHexStr_AsHexStr a b : SetHexStr (AsHexStr a) b = (true, a).
Proof using L.
  unfold SetHexStr, AsHexStr. rewrite BN_hex2bn_spec. f_equal. apply Z.ltb_lt.
  pose proof (BN_bn2hex_text a). unfold zlen. destruct (BN_bn2hex a); [done|]. cbn [length]. lia.
Qed.

(** The comparisons decide the order of the integers. *)
Lemma comparisons a b :
  le a b = (a <=? b) ∧ eq a b = (a =? b) ∧ ge a b = (b <=? a) ∧ lt a b = (a <? b) ∧ gt a b = (b <? a).
Proof using L.
  unfold le, eq, ge, lt, gt, CompareTo. pose proof (BN_cmp_spec a b) as E.
  repeat split; apply eq_true_iff_eq; rewrite ?Z.leb_le, ?Z.eqb_eq, ?Z.ltb_lt; lia.
Qed.

(** Quotient and remainder belong together, and the remainder has the sign of the
    dividend. *)
Lemma division a b :
  b ≠ 0 → a = add (mul b (div a b)) (modulo a b) ∧ Z.abs (modulo a b) < Z.abs b ∧ 0 <= a * modulo a b.
Proof using L.
  intros Hb. unfold add, mul, div, modulo. rewrite BN_add_spec, BN_mul_spec, BN_div_spec, BN_mod_spec by done.
  split; [by apply Z.quot_rem'|]. split; [by apply Z.rem_bound_abs|].
  rewrite Z.mul_comm. by apply Z.rem_sign_mul.
Qed.
End bignumber.
End BigNumber.
