(* ===== verification/Srp6.v ===== *)
(** * Srp6: password verifiers

    Model of [src/src/common/Cryptography/Authentication/SRP6.h]/[.cpp], on the
    numbers of [BigNumber.v]. *)

From Stdlib Require Import Znumtheory Zpow_facts.
From S2P Require Import Prelude Strings BigNumber.
Open Scope Z_scope.

Module SRP6.
Section srp6.
Context {O : OpenSSL}.
Import BigNumber.

Definition SALT_LENGTH : Z := 32.
Definition VERIFIER_LENGTH : Z := 32.
Definition EPHEMERAL_KEY_LENGTH : Z := 32.

Definition g : list Z := [7].
Definition N : list Z :=
  match Strings.HexStrToByteArray
    (str "894B645E89E1535BBDAD5B8B290650530801B18EBFBF5E8FAB3C82872A3E9BB7") 32 true with
  | Ret l => l
  | _ => []
  end.
Definition _g : Z := SetBinary g true.
Definition _N : Z := SetBinary N true.

(** [SHA1::GetDigestOf] of several arguments hashes their concatenation. *)
Definition GetDigestOf (parts : list (list Z)) : list Z := SHA1 (concat parts).

Definition bytes32 (v : Z) : list Z :=
  match ToByteArray 32 true v with Ret l => l | _ => [] end.

Definition CalculateVerifier (username password salt : list Z) : outcome Empty_set (list Z) :=
  ToByteArray 32 true
    (ModExp _g
       (SetBinary (GetDigestOf [salt; GetDigestOf [username; str ":"; password]]) true) _N).

(** The salt is random. *)
Definition MakeRegistrationData (random username password : list Z)
  : outcome Empty_set (list Z * list Z) :=
  match CalculateVerifier username password random with
  | Ret verifier => Ret (random, verifier)
  | AssertFail => AssertFail
  | Throw e => Throw e
  | UB => UB
  end.

Definition CheckLogin (username password salt verifier : list Z) : outcome Empty_set bool :=
  match CalculateVerifier username password salt with
  | Ret v => Ret (bool_decide (verifier = v))
  | AssertFail => AssertFail
  | Throw e => Throw e
  | UB => UB
  end.

(** [SHA1Interleave] *)
Fixpoint evens (l : list Z) : list Z :=
  match l with
  | x :: _ :: l => x :: evens l
  | [x] => [x]
  | [] => []
  end.

Definition odds (l : list Z) : list Z := evens (tail l).

Fixpoint leading_zeros (l : list Z) : Z :=
  match l with
  | x :: l => if x =? 0 then 1 + leading_zeros l else 0
  | [] => 0
  end.

Fixpoint interleave (a b : list Z) : list Z :=
  match a, b with
  | x :: a, y :: b => x :: y :: interleave a b
  | _, _ => []
  end.

Definition SHA1Interleave (key : list Z) : list Z :=
  let buf0 := evens key in
  let buf1 := odds key in
  let p := leading_zeros key in
  let p := if negb (Z.land p 1 =? 0) then p + 1 else p in
  let p := p / 2 in
  interleave (SHA1 (zdrop p buf0)) (SHA1 (zdrop p buf1)).

(** The verifying object; [b] is random. *)
Record t := mk {
  srp_used : bool;
  srp_I : list Z;
  srp_b : Z;
  srp_v : Z;
  srp_s : list Z;
  srp_B : list Z
}.

Definition _B (b v : Z) : list Z :=
  bytes32 (modulo (add (ModExp _g b _N) (mul v 3)) (SetBinary N true)).

Definition new (random username salt verifier : list Z) : t :=
  let b := SetBinary random true in
  let v := SetBinary verifier true in
  mk false (GetDigestOf [username]) b v salt (_B b v).

Definition xor_bytes (a b : list Z) : list Z := zip_with Z.lxor a b.

Definition VerifyChallengeResponse (A clientM : list Z) : M Empty_set t (option (list Z)) := λ s,
  if srp_used s then (AssertFail, s)
  else
    let s := mk true (srp_I s) (srp_b s) (srp_v s) (srp_s s) (srp_B s) in
    let _A := SetBinary A true in
    if IsZero (modulo _A _N) then (Ret None, s)
    else
      let u := SetBinary (GetDigestOf [A; srp_B s]) true in
      let key := bytes32 (ModExp (mul _A (ModExp (srp_v s) u _N)) (srp_b s) (SetBinary N true)) in
      let K := SHA1Interleave key in
      let NgHash := xor_bytes (GetDigestOf [N]) (GetDigestOf [g]) in
      let ourM := GetDigestOf [NgHash; srp_I s; srp_s s; A; srp_B s; K] in
      (Ret (if bool_decide (ourM = clientM) then Some K else None), s).

Definition GetSessionVerifier (A clientM K : list Z) : list Z := GetDigestOf [A; clientM; K].

(** ** The group *)

Context {L : OpenSSLLaws O}.

Lemma _g_value : _g = 7.
Proof using L. unfold _g. by rewrite SetBinary_le. Qed.

Definition modulus : Z := 0x894B645E89E1535BBDAD5B8B290650530801B18EBFBF5E8FAB3C82872A3E9BB7.

Lemma _N_value : _N = modulus.
Proof using L. unfold _N. rewrite SetBinary_le. by vm_compute. Qed.

Lemma le_value_nonneg l : Forall is_byte l → 0 <= le_value l.
Proof. intros H. pose proof (le_value_range l H). lia. Qed.

(** Numbers below the modulus fit 32 bytes. *)
Lemma bytes32_mod v :
  ToByteArray 32 true (v mod modulus) = Ret (le_bytes 32 (v mod modulus)).
Proof using L.
  assert (modulus < 2 ^ (8 * 32)) by (by vm_compute).
  pose proof (Z.mod_pos_bound v modulus ltac:(done)).
  unfold ToByteArray. rewrite GetBytes_fits by (try apply Z.abs_lt; lia). by rewrite Z.abs_eq by lia.
Qed.

Lemma le_value_bytes32_mod v : le_value (le_bytes 32 (v mod modulus)) = v mod modulus.
Proof.
  rewrite le_value_bytes. apply wrap_small.
  assert (modulus < 2 ^ (8 * Z.of_nat 32)) by (by vm_compute).
  pose proof (Z.mod_pos_bound v modulus). unfold modulus in *. lia.
Qed.

(** The private key a password and salt give. *)
Definition private_key (username password salt : list Z) : Z :=
  le_value (GetDigestOf [salt; GetDigestOf [username; str ":"; password]]).

Lemma private_key_nonneg u p s : 0 <= private_key u p s.
Proof using L. apply le_value_nonneg, SHA1_bytes. Qed.

Lemma CalculateVerifier_spec u p s :
  CalculateVerifier u p s = Ret (le_bytes 32 (7 ^ private_key u p s mod modulus)).
Proof using L.
  unfold CalculateVerifier, ModExp. rewrite _g_value, _N_value, SetBinary_le.
  rewrite BN_mod_exp_spec; [|lia|apply private_key_nonneg|by vm_compute].
  apply bytes32_mod.
Qed.

Lemma CheckLogin_registered random u p :
  ∃ verifier, MakeRegistrationData random u p = Ret (random, verifier) ∧
    zlen verifier = VERIFIER_LENGTH ∧ CheckLogin u p random verifier = Ret true.
Proof using L.
  unfold MakeRegistrationData, CheckLogin. rewrite CalculateVerifier_spec.
  eexists. split; [done|]. split; [apply zlen_le_bytes|]. by rewrite bool_decide_eq_true_2.
Qed.
Lemma generator_power_unit a : 0 <= a → 7 ^ a mod modulus ≠ 0.
Proof.
  intros Ha E. assert (rel_prime (7 ^ a) modulus) as H.
  { apply rel_prime_sym, rel_prime_Zpower_r; [done|]. apply Zgcd_1_rel_prime. by vm_compute. }
  apply Z.mod_divide in E; [|done]. apply rel_prime_sym in H.
  assert (Z.divide modulus 1) as D.
  { destruct H as [_ _ H]. apply H; [apply Z.divide_refl|done]. }
  apply Z.divide_1_r_nonneg in D; [|by vm_compute]. by vm_compute in D.
Qed.

(** ** The client's side of the exchange *)

(** What the client computes from its password (through [x]), its secret [a]
    and the server's public value [B]. *)
Definition client_A (a : Z) : list Z := le_bytes 32 (7 ^ a mod modulus).

Definition client_key (a x : Z) (A B : list Z) : list Z :=
  let u := le_value (GetDigestOf [A; B]) in
  le_bytes 32 (((le_value B - 3 * 7 ^ x) mod modulus) ^ (a + u * x) mod modulus).

Definition proof_of (username salt A B K : list Z) : list Z :=
  GetDigestOf [xor_bytes (GetDigestOf [N]) (GetDigestOf [g]); GetDigestOf [username];
               salt; A; B; K].

Lemma new_B random username salt x :
  0 <= x → Forall is_byte random →
  let b := le_value random in
  srp_B (new random username salt (le_bytes 32 (7 ^ x mod modulus)))
  = le_bytes 32 ((7 ^ b mod modulus + 7 ^ x mod modulus * 3) mod modulus).
Proof using L.
  intros Hx Hr. cbn zeta. unfold new. cbn [srp_B]. unfold _B, bytes32, add, mul, ModExp.
  rewrite !SetBinary_le, le_value_bytes32_mod, BN_add_spec, BN_mul_spec.
  pose proof (le_value_nonneg _ Hr). change (SetBinary N true) with _N.
  rewrite _g_value, _N_value, BN_mod_exp_spec by (done || lia).
  pose proof (Z.mod_pos_bound (7 ^ le_value random) modulus ltac:(done)).
  pose proof (Z.mod_pos_bound (7 ^ x) modulus ltac:(done)).
  rewrite modulo_spec by (done || lia). by rewrite bytes32_mod.
Qed.

(** The server's computation, given the number it gets as the shared key. *)
Lemma VerifyChallengeResponse_key s A M key :
  srp_used s = false → IsZero (modulo (SetBinary A true) _N) = false →
  bytes32 (ModExp (mul (SetBinary A true) (ModExp (srp_v s)
    (SetBinary (GetDigestOf [A; srp_B s]) true) _N)) (srp_b s) (SetBinary N true)) = key →
  VerifyChallengeResponse A M s =
    (Ret (if bool_decide (GetDigestOf [xor_bytes (GetDigestOf [N]) (GetDigestOf [g]); srp_I s;
            srp_s s; A; srp_B s; SHA1Interleave key] = M)
          then Some (SHA1Interleave key) else None),
     mk true (srp_I s) (srp_b s) (srp_v s) (srp_s s) (srp_B s)).
Proof.
  intros Hu Hz <-. unfold VerifyChallengeResponse. rewrite Hu.
  cbn [srp_used srp_I srp_b srp_v srp_s srp_B]. by rewrite Hz.
Qed.

(** Both sides raise the generator to the same power. *)
Lemma shared_exponent a b u x :
  0 <= a → 0 <= b → 0 <= u → 0 <= x →
  (7 ^ a mod modulus * ((7 ^ x mod modulus) ^ u mod modulus)) ^ b mod modulus =
  (((7 ^ b mod modulus + 7 ^ x mod modulus * 3) mod modulus - 3 * 7 ^ x) mod modulus)
    ^ (a + u * x) mod modulus.
Proof.
  intros. assert (modulus ≠ 0) by done. assert (0 < modulus) by done.
  generalize dependent modulus. intros m Hm Hm0.
  assert (((7 ^ b mod m + 7 ^ x mod m * 3) mod m - 3 * 7 ^ x) mod m = 7 ^ b mod m) as ->.
  { rewrite Zminus_mod_idemp_l.
    rewrite (Z.mul_comm (7 ^ x mod m)), <- Zminus_mod_idemp_r, <- (Zmult_mod_idemp_r (7 ^ x)).
    rewrite Zminus_mod_idemp_r.
    replace (7 ^ b mod m + 3 * (7 ^ x mod m) - 3 * (7 ^ x mod m)) with (7 ^ b mod m) by lia.
    by rewrite Z.mod_mod. }
  rewrite <- (Zpower_mod (7 ^ x) u), <- (Zpower_mod (7 ^ b)) by done.
  rewrite (Zpower_mod (_ * _) b), <- Zmult_mod, <- Zpower_mod by done. f_equal.
  rewrite <- (Z.pow_mul_r 7 x u), <- (Z.pow_add_r 7 a), <- !Z.pow_mul_r by nia.
  f_equal. lia.
Qed.

(** The server's shared key is the client's. *)
Lemma server_key s A a x :
  0 <= a → 0 <= x → 0 <= srp_b s →
  SetBinary A true = 7 ^ a mod modulus → srp_v s = 7 ^ x mod modulus →
  srp_B s = le_bytes 32 ((7 ^ srp_b s mod modulus + 7 ^ x mod modulus * 3) mod modulus) →
  bytes32 (ModExp (mul (SetBinary A true) (ModExp (srp_v s)
    (SetBinary (GetDigestOf [A; srp_B s]) true) _N)) (srp_b s) (SetBinary N true))
  = client_key a x A (srp_B s).
Proof using L.
  intros Ha Hx Hb HA Hv HB. unfold client_key. change (SetBinary N true) with _N.
  rewrite (SetBinary_le (GetDigestOf _)). set (u := le_value (GetDigestOf [A; srp_B s])).
  assert (0 <= u) as Hu by apply le_value_nonneg, SHA1_bytes.
  rewrite HA, Hv, _N_value. unfold ModExp, mul.
  pose proof (Z.mod_pos_bound (7 ^ x) modulus ltac:(done)).
  pose proof (Z.mod_pos_bound (7 ^ a) modulus ltac:(done)).
  rewrite BN_mul_spec, (BN_mod_exp_spec (7 ^ x mod modulus)) by (done || lia).
  pose proof (Z.mod_pos_bound ((7 ^ x mod modulus) ^ u) modulus ltac:(done)).
  rewrite BN_mod_exp_spec by (done || (apply Z.mul_nonneg_nonneg; lia)).
  unfold bytes32. rewrite bytes32_mod. f_equal.
  rewrite HB at 1. rewrite le_value_bytes32_mod. by apply shared_exponent.
Qed.

(** C40: a client that knows the password of a registered account and follows
    the protocol ends with the same session key as the server, whose check of
    the client's proof accepts it; a proof that is not this one is refused, and
    a second use of the object fails its assertion. *)
Theorem srp6_agreement (username password salt random : list Z) (a : Z) (verifier : list Z) :
  0 <= a → Forall is_byte random →
  CalculateVerifier username password salt = Ret verifier →
  let s := new random username salt verifier in
  let x := private_key username password salt in
  let A := client_A a in
  let K := SHA1Interleave (client_key a x A (srp_B s)) in
  let M := proof_of username salt A (srp_B s) K in
  eval (VerifyChallengeResponse A M) s = Ret (Some K) ∧
  (∀ M', M' ≠ M → eval (VerifyChallengeResponse A M') s = Ret None) ∧
  (∀ A' M', eval (VerifyChallengeResponse A' M') (exec (VerifyChallengeResponse A M) s)
            = AssertFail).
Proof using L.
  intros Ha Hr Hv. rewrite CalculateVerifier_spec in Hv.
  assert (verifier = le_bytes 32 (7 ^ private_key username password salt mod modulus)) as ->
    by congruence.
  clear Hv. cbn zeta. set (x := private_key username password salt).
  assert (0 <= x) as Hx by apply private_key_nonneg.
  pose proof (new_B random username salt x Hx Hr) as HB. cbn zeta in HB.
  assert (∃ s, s = new random username salt (le_bytes 32 (7 ^ x mod modulus))) as [s Hs] by eauto.
  rewrite <- Hs in *.
  assert (srp_used s = false ∧ srp_I s = GetDigestOf [username] ∧ srp_s s = salt ∧
    srp_b s = le_value random ∧ srp_v s = 7 ^ x mod modulus) as (Hu & HI & Hsalt & Hb & Hv).
  { rewrite Hs. unfold new. cbn [srp_used srp_I srp_s srp_b srp_v].
    rewrite !SetBinary_le, le_value_bytes32_mod. done. }
  clear Hs. rewrite <- Hb in HB. pose proof (le_value_nonneg _ Hr) as Hb0. rewrite <- Hb in Hb0.
  assert (SetBinary (client_A a) true = 7 ^ a mod modulus) as HA.
  { rewrite SetBinary_le. apply le_value_bytes32_mod. }
  pose proof (Z.mod_pos_bound (7 ^ a) modulus ltac:(done)) as RA.
  assert (IsZero (modulo (SetBinary (client_A a) true) _N) = false) as Hnz.
  { rewrite IsZero_spec, HA, _N_value, modulo_spec, Z.mod_mod by (done || lia).
    apply Z.eqb_neq. by apply generator_power_unit. }
  pose proof (server_key s (client_A a) a x Ha Hx Hb0 HA Hv HB) as Hkey.
  unfold eval, exec, proof_of. rewrite <- HI, <- Hsalt.
  split; [|split].
  - rewrite (VerifyChallengeResponse_key _ _ _ _ Hu Hnz Hkey). cbn [fst].
    by rewrite bool_decide_eq_true_2.
  - intros M' HM. rewrite (VerifyChallengeResponse_key _ _ _ _ Hu Hnz Hkey). cbn [fst].
    by rewrite bool_decide_eq_false_2.
  - intros A' M'. by rewrite (VerifyChallengeResponse_key _ _ _ _ Hu Hnz Hkey).
Qed.
End srp6.

(** An OpenSSL of our own, for the examples: exact arithmetic, and a hash of 20
    bytes. *)
Definition toy_hash (l : list Z) : list Z :=
  le_bytes 20 (fold_left (λ h c : Z, (h * 31 + c + 1) mod 2 ^ 160) l 7).

(** Square and multiply. *)
Fixpoint pow_mod_pos (a : Z) (p : positive) (m : Z) : Z :=
  match p with
  | xH => a mod m
  | xO p => let r := pow_mod_pos a p m in (r * r) mod m
  | xI p => let r := pow_mod_pos a p m in ((r * r) mod m * a) mod m
  end.

Definition pow_mod (a p m : Z) : Z :=
  match p with Z.pos p => pow_mod_pos a p m | Z0 => 1 mod m | Z.neg _ => 0 end.

Lemma pow_mod_pos_spec a p m : pow_mod_pos a p m = a ^ Z.pos p mod m.
Proof.
  induction p as [p IH|p IH|]; cbn [pow_mod_pos]; rewrite ?IH.
  - rewrite Pos2Z.inj_xI, Z.pow_add_r, Z.pow_1_r, (Z.mul_comm 2), Z.pow_mul_r, Z.pow_2_r by lia.
    by rewrite <- Zmult_mod, Zmult_mod_idemp_l.
  - rewrite Pos2Z.inj_xO, (Z.mul_comm 2), Z.pow_mul_r, Z.pow_2_r by lia. by rewrite <- Zmult_mod.
  - by rewrite Z.pow_1_r.
Qed.

Definition toy_num_bytes (v : Z) : Z := if v =? 0 then 0 else (Z.log2 (Z.abs v) + 8) / 8.
Definition toy_bytes (v n : Z) : option (list Z) :=
  if Z.abs v <? 2 ^ (8 * n) then Some (le_bytes (Z.to_nat n) (Z.abs v)) else None.

(** Text of our own: the sign and a unary magnitude. *)
Definition toy_text (v : Z) : list Z :=
  (if v <? 0 then 45 else 43) :: replicate (Z.to_nat (Z.abs v)) 49.
Definition toy_read (old : Z) (text : list Z) : Z * Z :=
  match text with
  | sign :: ones => ((if sign =? 45 then - zlen ones else zlen ones), zlen text)
  | [] => (old, 0)
  end.

Definition toy_openssl : OpenSSL := {|
  BN_set_word w := w;
  BN_set_negative a (negative : bool) := if negative then - Z.abs a else Z.abs a;
  BN_add_word := Z.add;
  BN_add := Z.add;
  BN_sub := Z.sub;
  BN_mul := Z.mul;
  BN_div := Z.quot;
  BN_mod := Z.rem;
  BN_exp := Z.pow;
  BN_mod_exp := pow_mod;
  BN_lshift a n := a * 2 ^ n;
  BN_cmp a b := Z.sgn (a - b);
  BN_is_zero a := a =? 0;
  BN_is_negative a := a <? 0;
  BN_get_word a := if Z.abs a <? 2 ^ 64 then Z.abs a else 2 ^ 64 - 1;
  BN_bin2bn l := le_value (rev l);
  BN_lebin2bn := le_value;
  BN_num_bytes := toy_num_bytes;
  BN_bn2bin v := rev (le_bytes (Z.to_nat (toy_num_bytes v)) (Z.abs v));
  BN_bn2lebinpad := toy_bytes;
  BN_bn2binpad v n := @rev Z <$> toy_bytes v n;
  BN_hex2bn := toy_read;
  BN_bn2hex := toy_text;
  BN_bn2dec := toy_text;
  SHA1 := toy_hash
|}.

Lemma toy_num_bytes_spec a n : 0 <= n → toy_num_bytes a <= n ↔ Z.abs a < 2 ^ (8 * n).
Proof.
  intros Hn. unfold toy_num_bytes. destruct (Z.eqb_spec a 0) as [->|Ha].
  - pose proof (Z.pow_pos_nonneg 2 (8 * n)). cbn [Z.abs]. lia.
  - rewrite Z.log2_lt_pow2 by lia. pose proof (Z.div_mod (Z.log2 (Z.abs a) + 8) 8 ltac:(done)).
    pose proof (Z.mod_pos_bound (Z.log2 (Z.abs a) + 8) 8 ltac:(done)). lia.
Qed.

Lemma toy_read_text a b : toy_read b (toy_text a) = (a, zlen (toy_text a)).
Proof.
  unfold toy_read, toy_text. f_equal. unfold zlen. rewrite length_replicate.
  destruct (Z.ltb_spec a 0); cbn [Z.eqb Pos.eqb]; lia.
Qed.

#[export] Instance toy_openssl_laws : OpenSSLLaws toy_openssl.
Proof.
  split; try done.
  - intros a p m Ha Hp Hm. destruct p; [done|apply pow_mod_pos_spec|lia].
  - intros a b. apply Z.sgn_sgn.
  - apply toy_num_bytes_spec.
  - intros a. cbn. unfold toy_num_bytes. destruct (a =? 0); [done|]. apply Z.div_pos; [|done].
    pose proof (Z.log2_nonneg (Z.abs a)). lia.
  - apply toy_read_text.
  - intros l. apply le_bytes_bytes.
Qed.

Lemma srp6_agreement_witness :
  let _ := toy_openssl in
  let user := str "USER" in
  let salt := [1; 2; 3] in
  let random := [9; 8; 7] in
  let x := private_key user (str "SECRET") salt in
  let s := new random user salt (le_bytes 32 (7 ^ x mod modulus)) in
  let A := client_A 12 in
  let K := SHA1Interleave (client_key 12 x A (srp_B s)) in
  let M := proof_of user salt A (srp_B s) K in
  eval (VerifyChallengeResponse A M) s = Ret (Some K) ∧
  (∀ M', M' ≠ M → eval (VerifyChallengeResponse A M') s = Ret None) ∧
  (∀ A' M', eval (VerifyChallengeResponse A' M') (exec (VerifyChallengeResponse A M) s)
            = AssertFail).
Proof.
  cbn zeta.
  apply (@srp6_agreement toy_openssl toy_openssl_laws (str "USER") (str "SECRET") [1; 2; 3]
    [9; 8; 7] 12).
  - lia.
  - unfold is_byte. repeat constructor; lia.
  - apply CalculateVerifier_spec.
Defined.
End SRP6.
