(* ===== verification/Crypto.v ===== *)
(** * Crypto: digests, stream and block ciphers, one-time passwords

    Model of [CryptoHash.h], [HMAC.h], [CryptoGenerics.h], [AES.h]/[.cpp],
    [ARC4.cpp], [AuthCrypt.cpp], [SessionKeyGenerator.h] and [TOTP.cpp] under
    [src/src/common/Cryptography].  OpenSSL's primitives are interfaces with what
    its manual says of them as laws. *)

From S2P Require Import Prelude Strings BigNumber Srp6.
Open Scope Z_scope.

(** ** Digests *)

Module GenericHash.
Section hash.

(** The algorithm, of what was fed to a context; and the [DIGEST_LENGTH] the
    template was given. *)
Context (algorithm : list Z → list Z) (DIGEST_LENGTH : Z).

(** [_ctx], with the bytes it was fed, until it is finalized; and [_digest]. *)
Record t := mk { ctx : option (list Z); digest : list Z }.

Definition new : t := mk (Some []) (replicate (Z.to_nat DIGEST_LENGTH) 0).

Definition UpdateData (data : list Z) : M Empty_set t () := λ h,
  match ctx h with
  | Some fed => (Ret (), mk (Some (fed ++ data)) (digest h))
  | None => (UB, h)
  end.

Definition Finalize : M Empty_set t () := λ h,
  match ctx h with
  | Some fed =>
      if zlen (algorithm fed) =? DIGEST_LENGTH then (Ret (), mk None (algorithm fed))
      else (AssertFail, h)
  | None => (UB, h)
  end.

Definition GetDigest (h : t) : list Z := digest h.

(** [GetDigestOf] of one piece or several. *)
Definition GetDigestOf (parts : list (list Z)) : outcome Empty_set (list Z) :=
  eval (_ ← for_each UpdateData parts; _ ← Finalize; gets GetDigest) new.

(** Feeding pieces is feeding what they make together. *)
Lemma for_each_UpdateData parts fed d :
  for_each UpdateData parts (mk (Some fed) d) = (Ret (), mk (Some (fed ++ concat parts)) d).
Proof.
  revert fed. induction parts as [|p parts IH]; intros fed; cbn [for_each concat].
  { by rewrite app_nil_r. }
  rewrite (bind_run _ _ _ () (mk (Some (fed ++ p)) d)) by done. by rewrite IH, app_assoc.
Qed.

Lemma GetDigestOf_concat parts :
  zlen (algorithm (concat parts)) = DIGEST_LENGTH →
  GetDigestOf parts = Ret (algorithm (concat parts)).
Proof.
  intros L. unfold GetDigestOf, eval, new.
  rewrite (bind_run _ _ _ _ _ (for_each_UpdateData parts [] _)).
  unfold mbind, M_bind, Finalize. cbn [ctx app]. by rewrite (proj2 (Z.eqb_eq _ _) L).
Qed.
End hash.
End GenericHash.

(** [GenericHMAC] is the same over an algorithm that was given a seed. *)

Module GenericHMAC.
Section hmac.
Context (algorithm : list Z → list Z → list Z) (DIGEST_LENGTH : Z).

Definition new : GenericHash.t := GenericHash.new DIGEST_LENGTH.
Definition UpdateData (data : list Z) : M Empty_set GenericHash.t () := GenericHash.UpdateData data.
Definition Finalize (seed : list Z) : M Empty_set GenericHash.t () :=
  GenericHash.Finalize (algorithm seed) DIGEST_LENGTH.
Definition GetDigestOf (seed : list Z) (parts : list (list Z)) : outcome Empty_set (list Z) :=
  eval (_ ← for_each UpdateData parts; _ ← Finalize seed; gets GenericHash.GetDigest) new.

Lemma HMAC_GetDigestOf_concat seed parts :
  zlen (algorithm seed (concat parts)) = DIGEST_LENGTH →
  GetDigestOf seed parts = Ret (algorithm seed (concat parts)).
Proof. intros L. by apply (GenericHash.GetDigestOf_concat (algorithm seed)). Qed.
End hmac.
End GenericHMAC.

(** ** Session keys *)

Module SessionKeyGenerator.
Section generator.

(** A hash with digests of one length. *)
Context (hash : list Z → list Z) (DIGEST_LENGTH : nat).

Record t := mk { o0 : list Z; o1 : list Z; o2 : list Z; o0it : nat }.

Definition refill (o1 o0 o2 : list Z) : list Z := hash (o1 ++ o0 ++ o2).

Definition new (buf : list Z) : t :=
  let halflen := (length buf / 2)%nat in
  let o1 := hash (take halflen buf) in
  let o2 := hash (drop halflen buf) in
  let o0 := replicate DIGEST_LENGTH 0 in
  mk (refill o1 o0 o2) o1 o2 0.

(** The loop of [Generate] over the bytes asked for. *)
Fixpoint Generate (sz : nat) : M Empty_set t (list Z) := λ g,
  match sz with
  | 0%nat => (Ret [], g)
  | S sz =>
      let g := if decide (o0it g = length (o0 g))
               then mk (refill (o1 g) (o0 g) (o2 g)) (o1 g) (o2 g) 0 else g in
      match o0 g !! o0it g with
      | None => (UB, g)
      | Some b =>
          match Generate sz (mk (o0 g) (o1 g) (o2 g) (S (o0it g))) with
          | (Ret rest, g) => (Ret (b :: rest), g)
          | (o, g) => (o, g)
          end
      end
  end.

(** Several calls. *)
Fixpoint Generates (sizes : list nat) : M Empty_set t (list Z) :=
  match sizes with
  | [] => mret []
  | sz :: sizes =>
      out ← Generate sz;
      rest ← Generates sizes;
      mret (out ++ rest)
  end.

(** The specification: the blocks after a first one. *)
Fixpoint blocks (n : nat) (o1 o0 o2 : list Z) : list Z :=
  match n with
  | 0%nat => []
  | S n => let next := refill o1 o0 o2 in next ++ blocks n o1 next o2
  end.

Context (hash_length : ∀ l, length (hash l) = DIGEST_LENGTH) (length_pos : (0 < DIGEST_LENGTH)%nat).

Definition wf (g : t) : Prop := length (o0 g) = DIGEST_LENGTH ∧ (o0it g <= DIGEST_LENGTH)%nat.

Lemma generator_wf buf : wf (new buf).
Proof using hash_length length_pos. split; [apply hash_length|cbn; lia]. Qed.

(** A call never reads past a block, and asking for bytes in one call or in two
    is the same. *)
Lemma Generate_app a b g :
  wf g →
  ∃ x g', Generate a g = (Ret x, g') ∧ length x = a ∧ wf g' ∧
    Generate (a + b) g =
      match Generate b g' with (Ret y, g'') => (Ret (x ++ y), g'') | r => r end.
Proof using hash_length length_pos.
  revert g. induction a as [|a IH]; intros g Hw.
  { exists [], g. split; [done|]. split; [done|]. split; [done|]. cbn [Nat.add app].
    by destruct (Generate b g) as [[] ?]. }
  cbn [Generate Nat.add].
  set (g1 := if decide (o0it g = length (o0 g)) then _ else g).
  assert (wf g1 ∧ (o0it g1 < DIGEST_LENGTH)%nat) as [Hw1 Hi].
  { destruct Hw as [H1 H2]. unfold g1. rewrite H1. case_decide.
    - split; [|cbn; lia]. split; [apply hash_length|cbn; lia].
    - split; [done|lia]. }
  clearbody g1. destruct Hw1 as [H1 H2].
  destruct (lookup_lt_is_Some_2 (o0 g1) (o0it g1)) as [c ->]; [lia|].
  destruct (IH (mk (o0 g1) (o1 g1) (o2 g1) (S (o0it g1)))) as (x & g' & E & L & Hw' & E').
  { split; [done|cbn; lia]. }
  rewrite E. exists (c :: x), g'. split; [done|]. split; [cbn; by rewrite L|]. split; [done|].
  rewrite E'. by destruct (Generate b g') as [[] ?].
Qed.

Lemma Generate_within n i blk a b :
  length blk = DIGEST_LENGTH → (i + n <= DIGEST_LENGTH)%nat →
  Generate n (mk blk a b i) = (Ret (take n (drop i blk)), mk blk a b (i + n)).
Proof using length_pos.
  revert i. induction n as [|n IH]; intros i L H; cbn [Generate].
  { by rewrite Nat.add_0_r, take_0. }
  cbn [o0 o0it o1 o2]. rewrite L, decide_False by lia. cbn [o0 o0it o1 o2].
  destruct (lookup_lt_is_Some_2 blk i) as [c Ec]; [lia|]. rewrite Ec, IH by (done || lia).
  rewrite (drop_S blk c i) by done. cbn [take]. do 2 f_equal. lia.
Qed.

Lemma Generate_blocks n blk a b :
  length blk = DIGEST_LENGTH →
  (Generate (n * DIGEST_LENGTH) (mk blk a b DIGEST_LENGTH)).1 = Ret (blocks n a blk b).
Proof using hash_length length_pos.
  revert blk. induction n as [|n IH]; intros blk L; [done|]. cbn [Nat.mul blocks].
  destruct (Generate_app DIGEST_LENGTH (n * DIGEST_LENGTH) (mk blk a b DIGEST_LENGTH))
    as (x & g' & E & _ & _ & ->); [by split|].
  assert (Generate DIGEST_LENGTH (mk blk a b DIGEST_LENGTH) =
    (Ret (refill a blk b), mk (refill a blk b) a b DIGEST_LENGTH)) as E1.
  { rewrite <- (Nat.succ_pred_pos _ length_pos) at 1. cbn [Generate o0 o0it o1 o2].
    rewrite L, decide_True by done. cbn [o0 o0it o1 o2].
    assert (length (refill a blk b) = DIGEST_LENGTH) as Lr by apply hash_length.
    revert Lr. generalize (refill a blk b) as r. intros r Lr.
    destruct r as [|c r]; [cbn in Lr; lia|]. cbn [lookup list_lookup].
    cbn [length] in Lr. rewrite <- Nat.sub_1_r, (Generate_within _ 1 (c :: r)) by (done || lia).
    cbn [drop]. rewrite drop_0, take_ge by lia. do 2 f_equal. lia. }
  rewrite E1 in E. injection E as <- <-. specialize (IH (refill a blk b) (hash_length _)).
  destruct (Generate _ _) as [o g'']. cbn in IH. by rewrite IH.
Qed.

Lemma Generates_sum sizes g :
  wf g → (Generates sizes g).1 = (Generate (foldr Nat.add 0%nat sizes) g).1.
Proof using hash_length length_pos.
  revert g. induction sizes as [|sz sizes IH]; intros g Hw; [done|]. cbn [Generates foldr].
  destruct (Generate_app sz (foldr Nat.add 0%nat sizes) g Hw) as (x & g' & E & _ & Hw' & ->).
  rewrite (bind_run _ _ _ _ _ E). specialize (IH g' Hw'). unfold mbind, M_bind.
  destruct (Generates sizes g') as [o g2], (Generate _ g') as [o' g3]. cbn in IH. subst o'.
  by destruct o.
Qed.

(** The bytes a generator gives out, however they are asked for, are those of the
    sequence of digests, each of the two halves' digests with the digest before it
    between them. *)
Theorem generate_stream (buf : list Z) (sizes : list nat) (n : nat) :
  let g := new buf in
  (foldr Nat.add 0 sizes <= S n * DIGEST_LENGTH)%nat →
  (Generates sizes g).1 =
    Ret (take (foldr Nat.add 0%nat sizes) (o0 g ++ blocks n (o1 g) (o0 g) (o2 g))).
Proof using hash_length length_pos.
  intros g Hs. pose proof (generator_wf buf) as Hw. change (new buf) with g in Hw.
  assert (o0it g = 0%nat) as H0 by done. clearbody g. rewrite Generates_sum by done.
  set (total := foldr Nat.add 0%nat sizes) in *.
  assert ((Generate (S n * DIGEST_LENGTH) g).1 = Ret (o0 g ++ blocks n (o1 g) (o0 g) (o2 g))) as E.
  { cbn [Nat.mul]. destruct (Generate_app DIGEST_LENGTH (n * DIGEST_LENGTH) g Hw)
      as (x & g' & E & _ & _ & ->).
    destruct Hw as [L _]. destruct g as [blk a b i]. cbn [o0 o1 o2 o0it] in *. subst i.
    rewrite Generate_within, drop_0, take_ge in E by lia. injection E as <- <-.
    pose proof (Generate_blocks n blk a b L) as E.
    destruct (Generate _ (mk _ _ _ _)) as [o g']. cbn in E. by rewrite E. }
  destruct (Generate_app total (S n * DIGEST_LENGTH - total) g Hw) as (x & g' & E1 & L & _ & E2).
  replace (total + (S n * DIGEST_LENGTH - total))%nat with (S n * DIGEST_LENGTH)%nat in E2 by lia.
  rewrite E2 in E. rewrite E1. cbn [fst] in *.
  destruct (Generate _ g') as [[y| | |] ?]; try done. cbn in E. injection E as E.
  rewrite <- E. f_equal. rewrite <- L. by rewrite take_app_length.
Qed.
End generator.
End SessionKeyGenerator.

(** ** Authenticated encryption *)

(** The calls on an [EVP_CIPHER_CTX] for AES-128 in GCM; a call that fails gives
    nothing. *)
Class Evp := {
  EVP_CIPHER_CTX : Type;
  EVP_CipherInit : bool → option EVP_CIPHER_CTX;
  EVP_set_key : EVP_CIPHER_CTX → list Z → option EVP_CIPHER_CTX;
  EVP_set_iv : EVP_CIPHER_CTX → list Z → option EVP_CIPHER_CTX;
  EVP_CipherUpdate : EVP_CIPHER_CTX → list Z → option (list Z * EVP_CIPHER_CTX);
  EVP_SET_TAG : EVP_CIPHER_CTX → list Z → option EVP_CIPHER_CTX;
  EVP_CipherFinal : EVP_CIPHER_CTX → option (list Z * EVP_CIPHER_CTX);
  EVP_GET_TAG : EVP_CIPHER_CTX → Z → option (list Z)
}.

(** What a sequence of calls comes to: encryption gives a text of the same length
    and a tag of the length asked for, decryption undoes it, and its last call
    fails exactly when the tag is not that of the text. *)
Class EvpLaws (E : Evp) := {
  seal : list Z → list Z → list Z → list Z;
  unseal : list Z → list Z → list Z → list Z;
  auth : list Z → list Z → list Z → list Z;
  seal_length key iv data : length (seal key iv data) = length data;
  auth_length key iv text : length (auth key iv text) = 12%nat;
  seal_unseal key iv text : seal key iv (unseal key iv text) = text;
  unseal_seal key iv data : unseal key iv (seal key iv data) = data;
  encrypts key iv data : zlen key = 16 → zlen iv = 12 →
    ∃ c0 c1 c2 c3 c4,
      EVP_CipherInit true = Some c0 ∧ EVP_set_key c0 key = Some c1 ∧
      EVP_set_iv c1 iv = Some c2 ∧ EVP_CipherUpdate c2 data = Some (seal key iv data, c3) ∧
      EVP_CipherFinal c3 = Some ([], c4) ∧
      EVP_GET_TAG c4 12 = Some (auth key iv (seal key iv data));
  decrypts key iv text tag : zlen key = 16 → zlen iv = 12 → zlen tag = 12 →
    ∃ c0 c1 c2 c3 c4,
      EVP_CipherInit false = Some c0 ∧ EVP_set_key c0 key = Some c1 ∧
      EVP_set_iv c1 iv = Some c2 ∧ EVP_CipherUpdate c2 text = Some (unseal key iv text, c3) ∧
      EVP_SET_TAG c3 tag = Some c4 ∧
      (if bool_decide (tag = auth key iv text)
       then ∃ c5, EVP_CipherFinal c4 = Some ([], c5)
       else EVP_CipherFinal c4 = None)
}.

Module AES.
Section aes.
Context {E : Evp}.

Definition IV_SIZE_BYTES : Z := 12.
Definition KEY_SIZE_BYTES : Z := 16.
Definition TAG_SIZE_BYTES : Z := 12.

Record t := mk { _ctx : EVP_CIPHER_CTX; _encrypting : bool }.

Definition assert_some {A} (o : option A) : outcome Empty_set A :=
  match o with Some a => Ret a | None => AssertFail end.

Definition new (encrypting : bool) : outcome Empty_set t :=
  match EVP_CipherInit encrypting with
  | Some ctx => Ret (mk ctx encrypting)
  | None => AssertFail
  end.

Definition Init (key : list Z) (a : t) : outcome Empty_set t :=
  match EVP_set_key (_ctx a) key with
  | Some ctx => Ret (mk ctx (_encrypting a))
  | None => AssertFail
  end.

(** The data in place, and the tag, which is read or written.  What has been
    decrypted stays in [data] even when the tag turns out wrong. *)
Definition Process (iv data tag : list Z) (a : t) : outcome Empty_set (bool * list Z * list Z) :=
  if negb (zlen data <=? 2 ^ 31 - 1) then AssertFail
  else
    match EVP_set_iv (_ctx a) iv with
    | None => Ret (false, data, tag)
    | Some c =>
        match EVP_CipherUpdate c data with
        | None => Ret (false, data, tag)
        | Some (out, c) =>
            let len := zlen data - zlen out in
            let data := overwrite 0 out data in
            match (if _encrypting a then Some c else EVP_SET_TAG c tag) with
            | None => Ret (false, data, tag)
            | Some c =>
                match EVP_CipherFinal c with
                | None => Ret (false, data, tag)
                | Some (last, c) =>
                    let data := overwrite (zlen out) last data in
                    if negb (len =? zlen last) then AssertFail
                    else if _encrypting a then
                      match EVP_GET_TAG c (zlen tag) with
                      | None => Ret (false, data, tag)
                      | Some tag => Ret (true, data, tag)
                      end
                    else Ret (true, data, tag)
                end
            end
        end
    end.
End aes.
End AES.

Module CryptoGenerics.
Section generics.
Context {E : Evp}.

Definition AppendToBack (data tail : list Z) : list Z := data ++ tail.

(** The loop: [tail[N - i]] from the back of [data], for [i] from 1. *)
Fixpoint SplitFromBack_loop (n : nat) (data tail : list Z) : outcome Empty_set (list Z * list Z) :=
  match n with
  | 0%nat => Ret (data, tail)
  | S n =>
      match last data with
      | None => UB
      | Some x => SplitFromBack_loop n (removelast data) (<[n := x]> tail)
      end
  end.

Definition SplitFromBack (data tail : list Z) : outcome Empty_set (list Z * list Z) :=
  if negb (zlen tail <=? zlen data) then AssertFail
  else SplitFromBack_loop (length tail) data tail.

(** [RAND_bytes] must succeed, and gives the bytes of the [IV]. *)
Definition GenerateRandomIV (random : option (list Z)) : outcome Empty_set (list Z) :=
  AES.assert_some random.

(** [tag] is an array that nobody has written yet. *)
Definition AEEncryptWithRandomIV (random : option (list Z)) (tag data key : list Z) :
    outcome Empty_set (list Z) :=
  match GenerateRandomIV random with
  | Ret iv =>
      match AES.new true with
      | Ret cipher =>
          match AES.Init key cipher with
          | Ret cipher =>
              match AES.Process iv data tag cipher with
              | Ret (true, data, tag) => Ret (AppendToBack (AppendToBack data iv) tag)
              | Ret (false, _, _) => AssertFail
              | o => AssertFail
              end
          | o => AssertFail
          end
      | o => AssertFail
      end
  | o => AssertFail
  end.

(** [iv] and [tag] are arrays of their sizes that nobody has written yet. *)
Definition AEDecrypt (iv tag data key : list Z) : outcome Empty_set (bool * list Z) :=
  match SplitFromBack data tag with
  | Ret (data, tag) =>
      match SplitFromBack data iv with
      | Ret (data, iv) =>
          match AES.new false with
          | Ret cipher =>
              match AES.Init key cipher with
              | Ret cipher =>
                  match AES.Process iv data tag cipher with
                  | Ret (ok, data, _) => Ret (ok, data)
                  | _ => AssertFail
                  end
              | _ => AssertFail
              end
          | _ => AssertFail
          end
      | UB => UB
      | _ => AssertFail
      end
  | UB => UB
  | _ => AssertFail
  end.

(** With the key as a number. *)
Context {O : OpenSSL}.

Definition AEEncryptWithRandomIV_number (random : option (list Z)) (tag data : list Z) (key : Z) :
    outcome Empty_set (list Z) :=
  match BigNumber.ToByteArray AES.KEY_SIZE_BYTES true key with
  | Ret key => AEEncryptWithRandomIV random tag data key
  | _ => AssertFail
  end.
Definition AEDecrypt_number (iv tag data : list Z) (key : Z) : outcome Empty_set (bool * list Z) :=
  match BigNumber.ToByteArray AES.KEY_SIZE_BYTES true key with
  | Ret key => AEDecrypt iv tag data key
  | _ => AssertFail
  end.

(** ** What was encrypted is read back, and nothing else is accepted *)

Lemma SplitFromBack_loop_app n front back junk rest :
  length back = n → length junk = n →
  SplitFromBack_loop n (front ++ back) (junk ++ rest) = Ret (front, back ++ rest).
Proof.
  revert back junk rest. induction n as [|n IH]; intros back junk rest Hb Hj.
  { apply nil_length_inv in Hb as ->, Hj as ->. cbn. by rewrite app_nil_r. }
  destruct (exists_last (l := back)) as (back' & x & ->); [by destruct back|].
  destruct (exists_last (l := junk)) as (junk' & y & ->); [by destruct junk|].
  rewrite length_app in Hb, Hj. cbn [length] in Hb, Hj. cbn [SplitFromBack_loop].
  rewrite app_assoc, last_snoc, removelast_last, <- app_assoc.
  rewrite insert_app_r_alt by lia. replace (n - length junk')%nat with 0%nat by lia. cbn.
  rewrite IH by lia. by rewrite <- app_assoc.
Qed.

Lemma SplitFromBack_app front back tail :
  zlen back = zlen tail → SplitFromBack (front ++ back) tail = Ret (front, back).
Proof.
  intros L. unfold SplitFromBack. pose proof (zlen_nonneg front).
  rewrite (proj2 (Z.leb_le _ _)) by (rewrite zlen_app; lia). cbn [negb].
  rewrite <- (app_nil_r tail) at 2. rewrite SplitFromBack_loop_app by (unfold zlen in L; lia).
  by rewrite app_nil_r.
Qed.

Context {Laws : EvpLaws E}.

Definition short_enough (data : list Z) : Prop := zlen data <= 2 ^ 31 - 1.

Lemma overwrite_all (a b : list Z) : zlen a = zlen b → overwrite 0 a b = a.
Proof.
  intros L. unfold overwrite. rewrite ztake_0 by lia. rewrite zdrop_all by lia. apply app_nil_r.
Qed.

Lemma overwrite_last (a : list Z) : overwrite (zlen a) [] a = a.
Proof.
  unfold overwrite. rewrite zlen_nil, Z.add_0_r, ztake_all, zdrop_all by lia. apply app_nil_r.
Qed.

Lemma AEEncrypt_run iv tag data key :
  short_enough data → zlen key = 16 → zlen iv = 12 → zlen tag = 12 →
  AEEncryptWithRandomIV (Some iv) tag data key =
    Ret (seal key iv data ++ iv ++ auth key iv (seal key iv data)).
Proof using Laws.
  intros Hd Hk Hi Ht. destruct (encrypts key iv data Hk Hi)
    as (c0 & c1 & c2 & c3 & c4 & E0 & E1 & E2 & E3 & E4 & E5).
  unfold AEEncryptWithRandomIV, GenerateRandomIV, AES.assert_some, AES.new. rewrite E0.
  unfold AES.Init. cbn [AES._ctx AES._encrypting]. rewrite E1. unfold AES.Process.
  rewrite (proj2 (Z.leb_le _ _) Hd). cbn [negb AES._ctx AES._encrypting]. rewrite E2, E3, E4, Ht, E5.
  assert (zlen (seal key iv data) = zlen data) as L by (unfold zlen; by rewrite seal_length).
  rewrite L, Z.sub_diag. change (zlen []) with 0. cbn [Z.eqb negb].
  rewrite overwrite_all, <- L, overwrite_last by done. unfold AppendToBack.
  by rewrite <- app_assoc.
Qed.

Lemma AEDecrypt_run iv tag text iv' tag' key :
  short_enough text → zlen key = 16 → zlen iv = 12 → zlen tag = 12 →
  zlen iv' = 12 → zlen tag' = 12 →
  AEDecrypt iv' tag' (text ++ iv ++ tag) key =
    Ret (bool_decide (tag = auth key iv text), unseal key iv text).
Proof using Laws.
  intros Hd Hk Hi Ht Hi' Ht'. destruct (decrypts key iv text tag Hk Hi Ht)
    as (c0 & c1 & c2 & c3 & c4 & E0 & E1 & E2 & E3 & E4 & E5).
  unfold AEDecrypt. rewrite app_assoc, SplitFromBack_app by congruence.
  rewrite SplitFromBack_app by congruence. unfold AES.new. rewrite E0.
  unfold AES.Init. cbn [AES._ctx AES._encrypting]. rewrite E1. unfold AES.Process.
  rewrite (proj2 (Z.leb_le _ _) Hd). cbn [negb AES._ctx AES._encrypting]. rewrite E2, E3, E4.
  assert (zlen (unseal key iv text) = zlen text) as L.
  { unfold zlen. by rewrite <- (seal_length key iv (unseal key iv text)), seal_unseal. }
  rewrite overwrite_all by done.
  destruct (bool_decide (tag = auth key iv text)).
  - destruct E5 as [c5 ->]. rewrite L, Z.sub_diag. change (zlen []) with 0. cbn [Z.eqb negb].
    by rewrite <- L, overwrite_last.
  - by rewrite E5.
Qed.

(** C25: a message that was encrypted is decrypted to what it was.  A message is
    accepted exactly when encrypting the result with the vector it carries gives
    that message; one that is too short for vector and tag fails an assertion. *)
Theorem encrypted_read_back (key iv tag iv' tag' : list Z) :
  zlen key = 16 → zlen iv = 12 → zlen tag = 12 → zlen iv' = 12 → zlen tag' = 12 →
  (∀ data, short_enough data →
    ∃ message, AEEncryptWithRandomIV (Some iv) tag data key = Ret message ∧
      zlen message = zlen data + 24 ∧ AEDecrypt iv' tag' message key = Ret (true, data)) ∧
  (∀ message, 24 <= zlen message → short_enough message →
    ∃ ok data, AEDecrypt iv' tag' message key = Ret (ok, data) ∧
      (ok = true ↔
       AEEncryptWithRandomIV (Some (slice (zlen message - 24) 12 message)) tag data key
         = Ret message)) ∧
  (∀ message, zlen message < 24 → AEDecrypt iv' tag' message key = AssertFail).
Proof using Laws.
  intros Hk Hi Ht Hi' Ht'. split; [|split].
  - intros data Hd. eexists. split; [by apply AEEncrypt_run|]. split.
    + rewrite !zlen_app, Hi. unfold zlen. rewrite seal_length, auth_length. lia.
    + rewrite AEDecrypt_run; try done.
      * by rewrite bool_decide_eq_true_2, unseal_seal by done.
      * unfold short_enough, zlen in *. by rewrite seal_length.
      * unfold zlen. by rewrite auth_length.
  - intros message Hm Hs.
    set (text := ztake (zlen message - 24) message).
    set (iv1 := slice (zlen message - 24) 12 message).
    set (tag1 := zdrop (zlen message - 12) message).
    assert (message = text ++ iv1 ++ tag1) as Em.
    { unfold text, iv1, tag1. replace (zlen message - 12) with (zlen message - 24 + 12) by lia.
      by rewrite <- slice_split, ztake_zdrop by lia. }
    assert (zlen iv1 = 12) as Li by (unfold iv1; rewrite zlen_slice; lia).
    assert (zlen tag1 = 12) as Lt by (unfold tag1; rewrite zlen_zdrop; lia).
    assert (short_enough text) as Hst by (unfold short_enough, text in *; rewrite zlen_ztake; lia).
    clearbody text iv1 tag1. subst message. rewrite AEDecrypt_run by done.
    eexists _, _. split; [done|].
    assert (short_enough (unseal key iv1 text)) as Hsu.
    { unfold short_enough, zlen in *. by rewrite <- (seal_length key iv1), seal_unseal. }
    rewrite AEEncrypt_run, seal_unseal, bool_decide_eq_true by done.
    split; [by intros ->|]. intros [= E']. by apply app_inv_head, app_inv_head in E'.
  - intros message Hm. unfold AEDecrypt. destruct (Z.leb_spec 12 (zlen message)) as [H|H].
    + rewrite <- (ztake_zdrop (zlen message - 12) message).
      rewrite SplitFromBack_app by (rewrite zlen_zdrop; lia).
      unfold SplitFromBack. rewrite (proj2 (Z.leb_gt _ _)); [done|]. rewrite zlen_ztake. lia.
    + unfold SplitFromBack. by rewrite (proj2 (Z.leb_gt _ _)) by lia.
Qed.
End generics.
End CryptoGenerics.

(** ** A stream cipher, and the encryption of game headers *)

(** The calls on an [EVP_CIPHER_CTX] for RC4. *)
Class Rc4 := {
  RC4_CTX : Type;
  RC4_new : option RC4_CTX;
  RC4_set_key : RC4_CTX → list Z → option RC4_CTX;
  EVP_EncryptUpdate : RC4_CTX → list Z → option (list Z * RC4_CTX);
  EVP_EncryptFinal : RC4_CTX → option RC4_CTX
}.

(** A context that was given a key, and where it is in its key stream: data are
    combined with the stream byte by byte, and the final call does nothing. *)
Class Rc4Laws (R : Rc4) := {
  keyed : RC4_CTX → list Z → nat → Prop;
  key_byte : list Z → nat → Z;
  new_ctx : is_Some RC4_new;
  set_key c seed : RC4_new = Some c → (1 <= length seed <= 256)%nat →
    ∃ c', RC4_set_key c seed = Some c' ∧ keyed c' seed 0;
  update c seed n data : keyed c seed n →
    ∃ c', EVP_EncryptUpdate c data = Some (imap (λ i x, Z.lxor x (key_byte seed (n + i))) data, c') ∧
      keyed c' seed (n + length data);
  final c seed n : keyed c seed n → ∃ c', EVP_EncryptFinal c = Some c' ∧ keyed c' seed n
}.

Module ARC4.
Section arc4.
Context {R : Rc4}.

Definition new : outcome Empty_set RC4_CTX := AES.assert_some RC4_new.
Definition Init (seed : list Z) (c : RC4_CTX) : outcome Empty_set RC4_CTX :=
  AES.assert_some (RC4_set_key c seed).

Definition UpdateData (data : list Z) : M Empty_set RC4_CTX (list Z) := λ c,
  match EVP_EncryptUpdate c data with
  | None => (AssertFail, c)
  | Some (out, c) =>
      match EVP_EncryptFinal c with
      | None => (AssertFail, c)
      | Some c => (Ret out, c)
      end
  end.

Context {Laws : Rc4Laws R}.

(** Data combined with the key stream from a position on. *)
Definition combined (seed : list Z) (n : nat) (data : list Z) : list Z :=
  imap (λ i x, Z.lxor x (key_byte seed (n + i))) data.

Lemma UpdateData_run c seed n data :
  keyed c seed n →
  ∃ c', UpdateData data c = (Ret (combined seed n data), c') ∧ keyed c' seed (n + length data).
Proof.
  intros K. unfold UpdateData. destruct (update c seed n data K) as (c1 & -> & K1).
  destruct (final _ _ _ K1) as (c2 & -> & K2). by exists c2.
Qed.

Lemma combined_app seed n a b :
  combined seed n (a ++ b) = combined seed n a ++ combined seed (n + length a) b.
Proof.
  unfold combined. rewrite imap_app. f_equal. apply imap_ext. intros i x _. cbn.
  by rewrite Nat.add_assoc.
Qed.

(** Combining twice gives the data back. *)
Lemma combined_twice seed n data : combined seed n (combined seed n data) = data.
Proof.
  revert n. induction data as [|x data IH]; intros n; [done|].
  assert (∀ y l, combined seed n (y :: l) = Z.lxor y (key_byte seed n) :: combined seed (S n) l) as C.
  { intros y l. unfold combined. rewrite imap_cons, Nat.add_0_r. f_equal. apply imap_ext.
    intros i z _. cbn. by rewrite Nat.add_succ_r. }
  by rewrite !C, IH, Z.lxor_assoc, Z.lxor_nilpotent, Z.lxor_0_r.
Qed.

Lemma length_combined seed n data : length (combined seed n data) = length data.
Proof. apply length_imap. Qed.
End arc4.
End ARC4.

Module AuthCrypt.
Section auth_crypt.
Context {R : Rc4}.

(** [HMAC_SHA1] of a seed and data. *)
Context (HMAC : list Z → list Z → list Z).

Record t := mk { _clientDecrypt : RC4_CTX; _serverEncrypt : RC4_CTX; _initialized : bool }.

Definition new : outcome Empty_set t :=
  match ARC4.new, ARC4.new with
  | Ret d, Ret e => Ret (mk d e false)
  | _, _ => AssertFail
  end.

Definition ServerEncryptionKey : list Z :=
  [0xCC; 0x98; 0xAE; 0x04; 0xE8; 0x97; 0xEA; 0xCA; 0x12; 0xDD; 0xC0; 0x93; 0x42; 0x91; 0x53; 0x57].
Definition ServerDecryptionKey : list Z :=
  [0xC2; 0xB3; 0x72; 0x3C; 0xC6; 0xAE; 0xD9; 0xB5; 0x34; 0x3C; 0x53; 0xEE; 0x2F; 0x43; 0x67; 0xCE].

Definition set_encrypt (c : RC4_CTX) (a : t) : t := mk (_clientDecrypt a) c (_initialized a).
Definition set_decrypt (c : RC4_CTX) (a : t) : t := mk c (_serverEncrypt a) (_initialized a).

Definition encrypting : M Empty_set RC4_CTX (list Z) → M Empty_set t (list Z) :=
  zoom _serverEncrypt set_encrypt.
Definition decrypting : M Empty_set RC4_CTX (list Z) → M Empty_set t (list Z) :=
  zoom _clientDecrypt set_decrypt.

Definition keyed_with (key K : list Z) (c : RC4_CTX) : M Empty_set t RC4_CTX :=
  lift (ARC4.Init (HMAC key K) c).

(** The content of [syncBuf] is whatever the stack held. *)
Definition Init (K syncBuf : list Z) : M Empty_set t () :=
  a ← gets id;
  e ← keyed_with ServerEncryptionKey K (_serverEncrypt a);
  _ ← modify (set_encrypt e);
  d ← keyed_with ServerDecryptionKey K (_clientDecrypt a);
  _ ← modify (set_decrypt d);
  syncBuf ← encrypting (ARC4.UpdateData syncBuf);
  _ ← decrypting (ARC4.UpdateData syncBuf);
  modify (λ a, mk (_clientDecrypt a) (_serverEncrypt a) true).

Definition DecryptRecv (data : list Z) : M Empty_set t (list Z) :=
  a ← gets id;
  _ ← assert_ (_initialized a);
  decrypting (ARC4.UpdateData data).

Definition EncryptSend (data : list Z) : M Empty_set t (list Z) :=
  a ← gets id;
  _ ← assert_ (_initialized a);
  encrypting (ARC4.UpdateData data).

Definition IsInitialized (a : t) : bool := _initialized a.

(** Several buffers after each other. *)
Fixpoint each (f : list Z → M Empty_set t (list Z)) (buffers : list (list Z)) :
    M Empty_set t (list Z) :=
  match buffers with
  | [] => mret []
  | b :: buffers => out ← f b; rest ← each f buffers; mret (out ++ rest)
  end.

Context {Laws : Rc4Laws R}.

(** Where both streams are. *)
Record at_ (K : list Z) (d e : nat) (a : t) : Prop := {
  at_initialized : _initialized a = true;
  at_decrypt : keyed (_clientDecrypt a) (HMAC ServerDecryptionKey K) d;
  at_encrypt : keyed (_serverEncrypt a) (HMAC ServerEncryptionKey K) e
}.

Lemma EncryptSend_run K d e a data :
  at_ K d e a →
  ∃ a', EncryptSend data a = (Ret (ARC4.combined (HMAC ServerEncryptionKey K) e data), a') ∧
    at_ K d (e + length data) a'.
Proof.
  intros [Hi Hd He]. unfold EncryptSend. rewrite bind_gets, bind_assert by done.
  unfold encrypting, zoom. destruct (ARC4.UpdateData_run _ _ _ data He) as (c & -> & Kc).
  eexists. split; [done|]. by split.
Qed.

Lemma DecryptRecv_run K d e a data :
  at_ K d e a →
  ∃ a', DecryptRecv data a = (Ret (ARC4.combined (HMAC ServerDecryptionKey K) d data), a') ∧
    at_ K (d + length data) e a'.
Proof.
  intros [Hi Hd He]. unfold DecryptRecv. rewrite bind_gets, bind_assert by done.
  unfold decrypting, zoom. destruct (ARC4.UpdateData_run _ _ _ data Hd) as (c & -> & Kc).
  eexists. split; [done|]. by split.
Qed.

Lemma each_EncryptSend K d buffers : ∀ e a,
  at_ K d e a →
  ∃ a', each EncryptSend buffers a =
      (Ret (ARC4.combined (HMAC ServerEncryptionKey K) e (concat buffers)), a') ∧
    at_ K d (e + length (concat buffers)) a'.
Proof.
  induction buffers as [|b buffers IH]; intros e a Ha; cbn [each concat].
  { exists a. by rewrite Nat.add_0_r. }
  destruct (EncryptSend_run _ _ _ _ b Ha) as (a1 & E1 & H1).
  destruct (IH _ _ H1) as (a2 & E2 & H2).
  rewrite (bind_run _ _ _ _ _ E1), (bind_run _ _ _ _ _ E2), ARC4.combined_app, length_app.
  exists a2. rewrite Nat.add_assoc. by split.
Qed.

Lemma each_DecryptRecv K e buffers : ∀ d a,
  at_ K d e a →
  ∃ a', each DecryptRecv buffers a =
      (Ret (ARC4.combined (HMAC ServerDecryptionKey K) d (concat buffers)), a') ∧
    at_ K (d + length (concat buffers)) e a'.
Proof.
  induction buffers as [|b buffers IH]; intros d a Ha; cbn [each concat].
  { exists a. by rewrite Nat.add_0_r. }
  destruct (DecryptRecv_run _ _ _ _ b Ha) as (a1 & E1 & H1).
  destruct (IH _ _ H1) as (a2 & E2 & H2).
  rewrite (bind_run _ _ _ _ _ E1), (bind_run _ _ _ _ _ E2), ARC4.combined_app, length_app.
  exists a2. rewrite Nat.add_assoc. by split.
Qed.

Context (HMAC_length : ∀ key data, length (HMAC key data) = 20%nat).

Lemma Init_run K syncBuf a0 :
  new = Ret a0 → length syncBuf = 1024%nat →
  ∃ a, Init K syncBuf a0 = (Ret (), a) ∧ at_ K 1024 1024 a.
Proof using HMAC_length.
  unfold new, ARC4.new. destruct RC4_new as [c|] eqn:Ec; [|done]. intros [= <-] Ls.
  destruct (set_key c (HMAC ServerEncryptionKey K) Ec) as (ce & Ee & Ke); [rewrite HMAC_length; lia|].
  destruct (set_key c (HMAC ServerDecryptionKey K) Ec) as (cd & Ed & Kd); [rewrite HMAC_length; lia|].
  destruct (ARC4.UpdateData_run _ _ _ syncBuf Ke) as (ce' & Ee' & Ke').
  destruct (ARC4.UpdateData_run _ _ _
    (ARC4.combined (HMAC ServerEncryptionKey K) 0 syncBuf) Kd) as (cd' & Ed' & Kd').
  unfold Init. rewrite bind_gets. cbn [id _serverEncrypt _clientDecrypt].
  unfold keyed_with, ARC4.Init. rewrite Ee, Ed. cbn [AES.assert_some].
  unfold encrypting, decrypting, zoom, mbind, M_bind, modify, lift.
  cbn [set_encrypt set_decrypt _serverEncrypt _clientDecrypt _initialized].
  rewrite Ee'. cbn [set_encrypt set_decrypt _serverEncrypt _clientDecrypt _initialized].
  rewrite Ed'. cbn [set_encrypt set_decrypt _serverEncrypt _clientDecrypt _initialized].
  eexists. split; [done|]. rewrite ARC4.length_combined, Ls in Kd'. rewrite Ls in Ke'. by split.
Qed.

(** Once initialized, either direction combines its bytes with the key stream of
    its key from byte 1024 on, however they are cut into buffers and whatever goes
    the other way meanwhile; so a client at the same places of the two streams
    reads what was sent, and sends what is read.  Before that, an assertion fails. *)
Theorem header_crypt (K syncBuf : list Z) (sent received : list (list Z)) (a0 : t) :
  new = Ret a0 → length syncBuf = 1024%nat →
  ∃ a1 a2 a3,
    Init K syncBuf a0 = (Ret (), a1) ∧
    each EncryptSend sent a1 =
      (Ret (ARC4.combined (HMAC ServerEncryptionKey K) 1024 (concat sent)), a2) ∧
    ARC4.combined (HMAC ServerEncryptionKey K) 1024
      (ARC4.combined (HMAC ServerEncryptionKey K) 1024 (concat sent)) = concat sent ∧
    each DecryptRecv received a2 =
      (Ret (ARC4.combined (HMAC ServerDecryptionKey K) 1024 (concat received)), a3) ∧
    (∀ data, eval (EncryptSend data) a0 = AssertFail ∧ eval (DecryptRecv data) a0 = AssertFail).
Proof using HMAC_length.
  intros H0 Ls. destruct (Init_run K syncBuf a0 H0 Ls) as (a1 & E1 & H1).
  destruct (each_EncryptSend K 1024 sent 1024 a1 H1) as (a2 & E2 & H2).
  destruct (each_DecryptRecv K _ received 1024 a2 H2) as (a3 & E3 & _).
  exists a1, a2, a3. do 2 (split; [done|]). split; [apply ARC4.combined_twice|].
  split; [done|]. intros data. unfold new in H0. destruct ARC4.new; [|done..]. by injection H0 as <-.
Qed.
End auth_crypt.
End AuthCrypt.

(** ** One-time passwords *)

Module TOTP.
Section totp.

(** [HMAC] with SHA-1, of a secret and eight bytes. *)
Context (HMAC : list Z → list Z → list Z).

Definition TOTP_INTERVAL : Z := 30.

(** The loop from the last byte to the first; [timestamp] is a 64-bit integer,
    shifted arithmetically. *)
Fixpoint fill_challenge (i : nat) (timestamp : Z) (challenge : list Z) : list Z :=
  match i with
  | 0%nat => challenge
  | S i => fill_challenge i (Z.shiftr timestamp 8) (<[i := u8 timestamp]> challenge)
  end.

Definition byte_at (digest : list Z) (i : Z) : outcome Empty_set Z :=
  match digest !! Z.to_nat i with Some b => Ret b | None => UB end.

Definition GenerateToken (secret : list Z) (timestamp : Z) : outcome Empty_set Z :=
  let timestamp := Z.quot timestamp TOTP_INTERVAL in
  let challenge := fill_challenge 8 timestamp (replicate 8 0) in
  let digest := HMAC secret challenge in
  match byte_at digest 19 with
  | Ret b =>
      let offset := Z.land b 0xF in
      match byte_at digest offset, byte_at digest (offset + 1), byte_at digest (offset + 2),
            byte_at digest (offset + 3) with
      | Ret a, Ret b, Ret c, Ret d =>
          let truncated :=
            Z.lor (Z.lor (Z.lor (Z.shiftl a 24) (Z.shiftl b 16)) (Z.shiftl c 8)) d in
          Ret (Z.land (u32 truncated) 0x7FFFFFFF mod 1000000)
      | _, _, _, _ => UB
      end
  | _ => UB
  end.

(** At a reading of the clock. *)
Definition ValidateToken (secret : list Z) (token now : Z) : outcome Empty_set bool :=
  match GenerateToken secret (now - TOTP_INTERVAL) with
  | Ret t1 =>
      if token =? t1 then Ret true
      else
        match GenerateToken secret now with
        | Ret t2 =>
            if token =? t2 then Ret true
            else
              match GenerateToken secret (now + TOTP_INTERVAL) with
              | Ret t3 => Ret (token =? t3)
              | _ => UB
              end
        | _ => UB
        end
  | _ => UB
  end.

(** *** The specification: RFC 4226 and 6238 *)

(** A number in eight bytes, the highest first; and the value of such bytes. *)
Definition be_bytes8 (v : Z) : list Z := rev (le_bytes 8 v).
Definition be_value (l : list Z) : Z := le_value (rev l).

Definition DT (digest : list Z) : Z :=
  let offset := default 0 (last digest) mod 16 in
  be_value (slice offset 4 digest) mod 2 ^ 31.

Definition HOTP (secret : list Z) (counter : Z) : Z :=
  DT (HMAC secret (be_bytes8 counter)) mod 10 ^ 6.

Context (HMAC_length : ∀ k d, length (HMAC k d) = 20%nat).
Context (HMAC_bytes : ∀ k d, Forall is_byte (HMAC k d)).

Lemma fill_challenge_spec i v c :
  (i <= length c)%nat → fill_challenge i v c = rev (le_bytes i v) ++ drop i c.
Proof using.
  revert v c. induction i as [|i IH]; intros v c H; [done|]. cbn [fill_challenge le_bytes rev].
  rewrite IH by (rewrite length_insert; lia). rewrite <- app_assoc. f_equal.
  destruct (lookup_lt_is_Some_2 c i) as [x Ex]; [lia|].
  rewrite (drop_S _ (u8 v) i) by (rewrite list_lookup_insert_eq; [done|lia]).
  cbn [app]. f_equal; [by rewrite land_255|]. apply drop_insert_lt. lia.
Qed.

Lemma challenge_bytes v : fill_challenge 8 v (replicate 8 0) = be_bytes8 v.
Proof using. rewrite fill_challenge_spec by done. apply app_nil_r. Qed.

Lemma truncated_value a b c d :
  is_byte a → is_byte b → is_byte c → is_byte d →
  Z.lor (Z.lor (Z.lor (Z.shiftl a 24) (Z.shiftl b 16)) (Z.shiftl c 8)) d =
  be_value [a; b; c; d].
Proof using.
  unfold is_byte. intros Ha Hb Hc Hd. cbn [be_value rev app le_value].
  rewrite !Z.shiftl_mul_pow2 by lia.
  assert (Z.lor (a * 2 ^ 24) (b * 2 ^ 16) = (a * 256 + b) * 2 ^ 16) as ->
    by (rewrite Z.lor_comm, (lor_low_high 24 _ a); lia).
  assert (Z.lor ((a * 256 + b) * 2 ^ 16) (c * 2 ^ 8) = ((a * 256 + b) * 256 + c) * 2 ^ 8) as ->
    by (rewrite Z.lor_comm, (lor_low_high 16 _ (a * 256 + b)); lia).
  rewrite Z.lor_comm, (lor_low_high 8 _ ((a * 256 + b) * 256 + c)) by lia. lia.
Qed.

Lemma byte_at_lookup l i :
  0 <= i < zlen l → ∃ b, l !! Z.to_nat i = Some b ∧ byte_at l i = Ret b.
Proof using.
  intros H. destruct (lookup_lt_is_Some_2 l (Z.to_nat i)) as [b E]; [unfold zlen in H; lia|].
  exists b. unfold byte_at. by rewrite E.
Qed.

(** The token of a time is the HOTP value of the half minutes that have passed. *)
Lemma GenerateToken_HOTP secret timestamp :
  GenerateToken secret timestamp = Ret (HOTP secret (Z.quot timestamp 30)).
Proof using HMAC_length HMAC_bytes.
  unfold GenerateToken, HOTP. rewrite challenge_bytes.
  change (Z.quot timestamp TOTP_INTERVAL) with (Z.quot timestamp 30).
  pose proof (HMAC_length secret (be_bytes8 (Z.quot timestamp 30))) as L.
  pose proof (HMAC_bytes secret (be_bytes8 (Z.quot timestamp 30))) as B.
  revert L B. generalize (HMAC secret (be_bytes8 (Z.quot timestamp 30))) as digest.
  intros digest L B. assert (zlen digest = 20) as Lz by (unfold zlen; lia).
  destruct (byte_at_lookup digest 19) as (x & Ex & ->); [lia|].
  change 0xF with (2 ^ 4 - 1). rewrite land_ones_mod by lia. unfold DT. cbv zeta.
  assert (last digest = Some x) as -> by (rewrite last_lookup, L; exact Ex). cbn [default id].
  change (2 ^ 4) with 16. pose proof (Z.mod_pos_bound x 16 ltac:(lia)) as Hm.
  set (offset := x mod 16) in *. clearbody offset.
  destruct (byte_at_lookup digest offset) as (a & Ea & ->); [lia|].
  destruct (byte_at_lookup digest (offset + 1)) as (b & Eb & ->); [lia|].
  destruct (byte_at_lookup digest (offset + 2)) as (c & Ec & ->); [lia|].
  destruct (byte_at_lookup digest (offset + 3)) as (d & Ed & ->); [lia|].
  assert (slice offset 4 digest = [a; b; c; d]) as ->.
  { unfold slice, ztake, zdrop.
    rewrite (drop_S _ a) by done. rewrite (drop_S _ b) by (rewrite <- Eb; f_equal; lia).
    rewrite (drop_S _ c) by (rewrite <- Ec; f_equal; lia).
    rewrite (drop_S _ d) by (rewrite <- Ed; f_equal; lia). done. }
  rewrite Forall_lookup in B. pose proof (B _ _ Ea) as Ba. pose proof (B _ _ Eb) as Bb.
  pose proof (B _ _ Ec) as Bc. pose proof (B _ _ Ed) as Bd.
  rewrite truncated_value by done.
  rewrite wrap_small by (cbn; unfold is_byte in *; lia).
  change 0x7FFFFFFF with (2 ^ 31 - 1). rewrite land_ones_mod by lia. done.
Qed.

(** A token has six digits; it is the HOTP value of RFC 4226 on the time step of
    RFC 6238; and it is accepted exactly when it is that of the current step or a
    neighbour, so in particular half a minute before and after its time. *)
Theorem token_accepted (secret : list Z) (token now : Z) :
  30 <= now →
  0 <= HOTP secret (now / 30) < 10 ^ 6 ∧
  GenerateToken secret now = Ret (HOTP secret (now / 30)) ∧
  (∃ accepted, ValidateToken secret token now = Ret accepted ∧
     (accepted = true ↔
      ∃ step, now / 30 - 1 <= step <= now / 30 + 1 ∧ token = HOTP secret step)) ∧
  (∀ t, 0 <= t → now - 30 <= t <= now + 30 → GenerateToken secret t = Ret token →
     ValidateToken secret token now = Ret true).
Proof using HMAC_length HMAC_bytes.
  intros Hn.
  assert (∃ accepted, ValidateToken secret token now = Ret accepted ∧
     (accepted = true ↔
      ∃ step, now / 30 - 1 <= step <= now / 30 + 1 ∧ token = HOTP secret step)) as HV.
  { unfold ValidateToken, TOTP_INTERVAL. rewrite !GenerateToken_HOTP, !Z.quot_div_nonneg by lia.
    assert ((now - 30) / 30 = now / 30 - 1) as ->
      by (replace (now - 30) with (now + (-1) * 30) by lia; rewrite Z.div_add by lia; lia).
    assert ((now + 30) / 30 = now / 30 + 1) as ->
      by (replace (now + 30) with (now + 1 * 30) by lia; rewrite Z.div_add by lia; lia).
    set (s := now / 30).
    assert (∀ step, s - 1 <= step <= s + 1 → step = s - 1 ∨ step = s ∨ step = s + 1) as C by lia.
    destruct (Z.eqb_spec token (HOTP secret (s - 1))) as [E|N1].
    { exists true. split; [done|]. split; [|done]. intros _. exists (s - 1). split; [lia|done]. }
    destruct (Z.eqb_spec token (HOTP secret s)) as [E|N2].
    { exists true. split; [done|]. split; [|done]. intros _. exists s. split; [lia|done]. }
    exists (token =? HOTP secret (s + 1)). split; [done|]. rewrite Z.eqb_eq. split.
    - intros E. exists (s + 1). split; [lia|done].
    - intros (step & [-> | [-> | ->]]%C & ->); done. }
  split; [apply Z.mod_pos_bound; lia|].
  split; [by rewrite GenerateToken_HOTP, Z.quot_div_nonneg by lia|]. split; [exact HV|].
  intros t Ht Hr E. destruct HV as (accepted & -> & HA). f_equal. apply HA. exists (t / 30).
  rewrite GenerateToken_HOTP, Z.quot_div_nonneg in E by lia. injection E as <-. split; [|done].
  assert ((now - 30) / 30 <= t / 30) by (apply Z.div_le_mono; lia).
  assert (t / 30 <= (now + 30) / 30) by (apply Z.div_le_mono; lia).
  replace (now - 30) with (now + (-1) * 30) in * by lia.
  replace (now + 30) with (now + 1 * 30) in * by lia. rewrite Z.div_add in * by lia. lia.
Qed.
End totp.
End TOTP.

(** ** A cipher that keeps the laws

    Each byte is combined with a byte of the key, and the tag is a sum. *)

Module ToyCipher.

Record ctx := mkCtx { x_enc : bool; x_key : list Z; x_iv : list Z; x_text : list Z; x_tag : list Z }.

Definition mask (key : list Z) (data : list Z) : list Z :=
  imap (λ i x, Z.lxor x (nth (i mod 16) key 0)) data.

Definition sum_tag (key iv text : list Z) : list Z :=
  replicate 12 (foldr Z.add 0 (key ++ iv ++ text) mod 256).

#[global] Instance toy_evp : Evp := {
  EVP_CIPHER_CTX := ctx;
  EVP_CipherInit enc := Some (mkCtx enc [] [] [] []);
  EVP_set_key c key := Some (mkCtx (x_enc c) key [] [] []);
  EVP_set_iv c iv := Some (mkCtx (x_enc c) (x_key c) iv [] []);
  EVP_CipherUpdate c data :=
    let out := mask (x_key c) data in
    Some (out, mkCtx (x_enc c) (x_key c) (x_iv c) (if x_enc c then out else data) []);
  EVP_SET_TAG c tag := Some (mkCtx (x_enc c) (x_key c) (x_iv c) (x_text c) tag);
  EVP_CipherFinal c :=
    if x_enc c || bool_decide (x_tag c = sum_tag (x_key c) (x_iv c) (x_text c))
    then Some ([], c) else None;
  EVP_GET_TAG c n := Some (sum_tag (x_key c) (x_iv c) (x_text c))
}.

Lemma mask_twice key data : mask key (mask key data) = data.
Proof.
  unfold mask. apply list_eq. intros i. rewrite !list_lookup_imap.
  destruct (data !! i) as [x|]; [|done]. cbn.
  by rewrite Z.lxor_assoc, Z.lxor_nilpotent, Z.lxor_0_r.
Qed.

#[global] Instance toy_evp_laws : EvpLaws toy_evp.
Proof.
  refine {| seal key iv := mask key; unseal key iv := mask key; auth := sum_tag |}.
  - intros. apply length_imap.
  - intros. apply length_replicate.
  - intros. apply mask_twice.
  - intros. apply mask_twice.
  - intros key iv data _ _. do 5 eexists. repeat split.
  - intros key iv text tag _ _ _. do 5 eexists. repeat split. cbn [EVP_CipherFinal toy_evp x_enc orb].
    cbn. case_bool_decide; [by eexists|done].
Defined.
End ToyCipher.

Lemma encrypted_read_back_witness :
  let key := map Z.of_nat (seq 1 16) in
  let iv := map Z.of_nat (seq 100 12) in
  let zeros := replicate 12 0 in
  zlen key = 16 ∧
  ∃ message, CryptoGenerics.AEEncryptWithRandomIV (Some iv) zeros (str "hello") key = Ret message ∧
    zlen message = zlen (str "hello") + 24 ∧
    CryptoGenerics.AEDecrypt zeros zeros message key = Ret (true, str "hello").
Proof.
  intros key iv zeros. split; [done|].
  exact (proj1 (CryptoGenerics.encrypted_read_back key iv zeros zeros zeros
    eq_refl eq_refl eq_refl eq_refl eq_refl) (str "hello")
    (proj1 (Z.leb_le (zlen (str "hello")) (2 ^ 31 - 1)) eq_refl)).
Defined.

(** A digest of twenty bytes that depends on its input. *)
Definition toy_hmac (key data : list Z) : list Z :=
  replicate 20 (foldr Z.add 0 (key ++ data) mod 256).

Lemma token_accepted_witness :
  30 <= 1000 ∧
  (∃ accepted, TOTP.ValidateToken toy_hmac [1; 2; 3] 555819 1000 = Ret accepted ∧
     (accepted = true ↔
      ∃ step, 1000 / 30 - 1 <= step <= 1000 / 30 + 1 ∧ 555819 = TOTP.HOTP toy_hmac [1; 2; 3] step)).
Proof.
  assert (30 <= 1000) as H by done. split; [exact H|].
  refine (proj1 (proj2 (proj2 (TOTP.token_accepted toy_hmac _ _ [1; 2; 3] 555819 1000 H)))).
  - intros. apply length_replicate.
  - intros k d. apply Forall_replicate. unfold is_byte. apply Z.mod_pos_bound. lia.
Defined.
