(* ===== verification/Timer.v ===== *)
(** * Timer: clocks, tickers and durations as text

    Model of [src/src/common/Utilities/Timer.h] and [Timer.cpp].  The clocks and
    the C library's calendar are arguments; [time_t] and the counts of durations
    are signed 64-bit integers. *)

From S2P Require Import Prelude Utf8 Strings.
Open Scope Z_scope.

(** Calendar time as the C library breaks it down. *)
Record tm := mkTm {
  tm_sec : Z; tm_min : Z; tm_hour : Z; tm_mday : Z;
  tm_mon : Z; tm_year : Z; tm_wday : Z
}.

#[export] Instance tm_eq_dec : EqDecision tm.
Proof. solve_decision. Defined.

Inductive TimeFormat := FullText | ShortText | Numeric.

Module Time.

(** [localtime] is the C library's [localtime_r]; [now] the epoch time. *)
Definition TimeBreakdown (localtime : Z → tm) (now time : Z) : tm :=
  localtime (if time =? 0 then now else time).

Definition LocalTimeToUTCTime (timezone time : Z) : Z := time + timezone.

Definition GetLocalHourTimestamp (localtime : Z → tm) (mktime : tm → Z) (now time hour : Z)
    (onlyAfterTime : bool) : Z :=
  let timeLocal := TimeBreakdown localtime now time in
  let midnightLocal := mktime (mkTm 0 0 0 (tm_mday timeLocal) (tm_mon timeLocal)
                                 (tm_year timeLocal) (tm_wday timeLocal)) in
  let hourLocal := midnightLocal + hour * 3600 in
  if onlyAfterTime && (hourLocal <=? time) then hourLocal + 86400 else hourLocal.

(** *** Millisecond clocks *)

Definition GetMSTimeDiff (oldMSTime newMSTime : Z) : Z :=
  if newMSTime <? oldMSTime then oldMSTime - newMSTime else newMSTime - oldMSTime.

Definition getMSTime (elapsed : Z) : Z := u32 elapsed.

Definition getMSTimeDiff (oldMSTime newMSTime : Z) : Z :=
  if newMSTime <? oldMSTime then u32 (u32 (0xFFFFFFFF - oldMSTime) + newMSTime)
  else newMSTime - oldMSTime.

Definition GetMSTimeDiffToNow32 (elapsed oldMSTime : Z) : Z :=
  getMSTimeDiff oldMSTime (getMSTime elapsed).
Definition GetMSTimeDiffToNow (elapsed oldMSTime : Z) : Z := GetMSTimeDiff oldMSTime elapsed.

(** *** Durations as text *)

Definition MILLISECONDS : Z := 1000.
Definition SECONDS : Z := 1000 * MILLISECONDS.
Definition MINUTES : Z := 60 * SECONDS.
Definition HOURS : Z := 60 * MINUTES.
Definition DAYS : Z := 24 * HOURS.
Definition YEARS : Z := 365 * DAYS.

(** The units of a duration, the largest first.  The divisors are unsigned, which
    makes the count unsigned; only the microseconds keep its sign until the end. *)
Definition units (durationTime : Z) : list Z :=
  let count := u64 durationTime in
  [ count / YEARS; count / DAYS mod 365; count / HOURS mod 24; count / MINUTES mod 60;
    count / SECONDS mod 60; count / MILLISECONDS mod 1000; u64 (Z.rem durationTime 1000) ].

(** The text written so far and the number of units in it; a unit is the first
    when there is none. *)
Definition AddOutNumerlic (outCount : Z) (st : list Z * Z) (time : Z) : list Z * Z :=
  let '(out, count) := st in
  if outCount <=? count then st
  else
    (out ++ (if count =? 0 then Strings.fmt_dec time else Strings.pad_left 2 (Strings.fmt_dec time))
         ++ str ":", u8 (count + 1)).

Definition AddOut (timeFormat : TimeFormat) (outCount : Z) (st : list Z * Z)
    (u : Z * (list Z * (list Z * list Z))) : list Z * Z :=
  let '(out, count) := st in
  let '(time, (shortText, (fullText1, fullText))) := u in
  if outCount <=? count then st
  else
    let timeCount := u32 time in
    (out ++ Strings.fmt_dec timeCount ++
       match timeFormat with
       | ShortText => shortText
       | FullText => if timeCount =? 1 then fullText1 else fullText
       | Numeric => str "<Unknown time format>"
       end, u8 (count + 1)).

Definition names : list (list Z * (list Z * list Z)) :=
  [ (str "y ", (str " Year ", str " Years ")); (str "d ", (str " Day ", str " Days "));
    (str "h ", (str " Hour ", str " Hours ")); (str "m ", (str " Minute ", str " Minutes "));
    (str "s ", (str " Second ", str " Seconds "));
    (str "ms ", (str " Millisecond ", str " Milliseconds "));
    (str "us ", (str " Microsecond ", str " Microseconds ")) ].

(** Only the units that are not zero are written. *)
Definition ToTimeString (durationTime outCount : Z) (timeFormat : TimeFormat) : list Z :=
  match timeFormat with
  | Numeric =>
      let '(out, _) := fold_left (AddOutNumerlic outCount)
                         (filter (λ u, u ≠ 0) (units durationTime)) ([], 0) in
      match out with [] => out | _ => removelast out end
  | _ =>
      let '(out, _) := fold_left (AddOut timeFormat outCount)
                         (filter (λ u, u.1 ≠ 0) (zip (units durationTime) names)) ([], 0) in
      Strings.TrimRightInPlace out
  end.
End Time.

(** ** Tickers

    Signed overflow is undefined. *)

Definition checked (w v : Z) : option Z :=
  if (- 2 ^ (w - 1) <=? v) && (v <? 2 ^ (w - 1)) then Some v else None.

Record IntervalTimer := mkInterval { it_interval : Z; it_current : Z }.

Module Interval.
Definition new : IntervalTimer := mkInterval 0 0.

Definition Update (diff : Z) : M Empty_set IntervalTimer () := λ s,
  match checked 64 (it_current s + diff) with
  | None => (UB, s)
  | Some current => (Ret (), mkInterval (it_interval s) (if current <? 0 then 0 else current))
  end.

Definition Passed (s : IntervalTimer) : bool := it_interval s <=? it_current s.

Definition Reset : M Empty_set IntervalTimer () := λ s,
  if it_interval s <=? it_current s then
    if it_interval s =? 0 then (UB, s)
    else (Ret (), mkInterval (it_interval s) (Z.rem (it_current s) (it_interval s)))
  else (Ret (), s).

Definition SetCurrent (current : Z) (s : IntervalTimer) : IntervalTimer :=
  mkInterval (it_interval s) current.
Definition SetInterval (interval : Z) (s : IntervalTimer) : IntervalTimer :=
  mkInterval interval (it_current s).
Definition GetInterval (s : IntervalTimer) : Z := it_interval s.
Definition GetCurrent (s : IntervalTimer) : Z := it_current s.
End Interval.

Record TimeTracker := mkTracker { i_expiryTime : Z }.

Definition elapse (w diff : Z) : M Empty_set TimeTracker () := λ s,
  match checked w (i_expiryTime s - diff) with
  | None => (UB, s)
  | Some v => (Ret (), mkTracker v)
  end.

Module Tracker.
Definition new (expiry : Z) : TimeTracker := mkTracker expiry.
Definition Update (diff : Z) : M Empty_set TimeTracker () := elapse 64 diff.
Definition Passed (s : TimeTracker) : bool := i_expiryTime s <=? 0.
Definition Reset (interval : Z) (s : TimeTracker) : TimeTracker := mkTracker interval.
Definition GetExpiry (s : TimeTracker) : Z := i_expiryTime s.
End Tracker.

(** [TimeTrackerSmall] keeps an [int32] that is set from a [uint32]. *)
Module TrackerSmall.
Definition new (expiry : Z) : TimeTracker := mkTracker (i32 expiry).
Definition Update (diff : Z) : M Empty_set TimeTracker () := elapse 32 diff.
Definition Passed (s : TimeTracker) : bool := i_expiryTime s <=? 0.
Definition Reset (interval : Z) (s : TimeTracker) : TimeTracker := mkTracker (i32 interval).
Definition GetExpiry (s : TimeTracker) : Z := i_expiryTime s.
End TrackerSmall.

Record PeriodicTimer := mkPeriodic { i_period : Z; i_expireTime : Z }.

Module Periodic.
Definition new (period start_time : Z) : PeriodicTimer := mkPeriodic period start_time.

(** [diff] is a [uint32]: the sums are reckoned unsigned and stored signed. *)
Definition Update (diff : Z) : M Empty_set PeriodicTimer bool := λ s,
  let expire := i32 (i_expireTime s - diff) in
  if 0 <? expire then (Ret false, mkPeriodic (i_period s) expire)
  else
    let add := if i32 diff <? i_period s then u32 (i_period s) else diff in
    (Ret true, mkPeriodic (i_period s) (i32 (expire + add))).

Definition SetPeriodic (period start_time : Z) (s : PeriodicTimer) : PeriodicTimer :=
  mkPeriodic period start_time.

Definition TUpdate (diff : Z) : M Empty_set PeriodicTimer () := λ s,
  match checked 32 (i_expireTime s - diff) with
  | None => (UB, s)
  | Some v => (Ret (), mkPeriodic (i_period s) v)
  end.
Definition TPassed (s : PeriodicTimer) : bool := i_expireTime s <=? 0.
Definition TReset (diff period : Z) : M Empty_set PeriodicTimer () := λ s,
  match checked 32 (i_expireTime s + (if diff <? period then period else diff)) with
  | None => (UB, s)
  | Some v => (Ret (), mkPeriodic (i_period s) v)
  end.
End Periodic.

(** ** A duration is read back from its text *)

(** The part of a duration in a unit, and the unit. *)
Definition unit_values : list Z :=
  [Time.YEARS; Time.DAYS; Time.HOURS; Time.MINUTES; Time.SECONDS; Time.MILLISECONDS; 1].

Definition suffixes : list (list Z * Z) :=
  zip [str "y"; str "d"; str "h"; str "m"; str "s"; str "ms"; str "us"] unit_values.

Definition unit_of (suffix : list Z) : option Z :=
  snd <$> List.find (λ p, bool_decide (p.1 = suffix)) suffixes.

Definition read_token (t : list Z) : option Z :=
  let '(v, n, rest) := Strings.scan_digits 10 t 0 0 in
  match n with O => None | _ => u ← unit_of rest; Some (v * u) end.

(** The reader: the sum of the parts, such as [1h 5m 3s]. *)
Definition read_time (s : list Z) : option Z :=
  match s with
  | [] => Some 0
  | _ => foldr Z.add 0 <$> mapM read_token (Strings.split 32 s)
  end.

(** The parts that are not zero, as a count and the suffix and value of the unit. *)
Definition parts (durationTime : Z) : list (Z * (list Z * Z)) :=
  filter (λ p, p.1 ≠ 0) (zip (Time.units durationTime) suffixes).

Definition value (ps : list (Z * (list Z * Z))) : Z :=
  foldr Z.add 0 (map (λ p, p.1 * p.2.2) ps).

Definition token (p : Z * (list Z * Z)) : list Z := Strings.fmt_dec p.1 ++ p.2.1.

Lemma fold_AddOut outCount us out count :
  0 <= count → count + zlen us < 256 → Forall (λ u, 0 <= u.1 < 2 ^ 32) us →
  (fold_left (Time.AddOut ShortText outCount) us (out, count)).1 =
    out ++ concat (map (λ u : Z * (list Z * (list Z * list Z)), Strings.fmt_dec u.1 ++ u.2.1)
             (ztake (outCount - count) us)).
Proof.
  revert out count. induction us as [|[v [a [b c]]] us IH]; intros out count Hc Hl Hu.
  { unfold ztake. by rewrite take_nil, app_nil_r. }
  inversion Hu as [|? ? Hv Hu']; subst. cbn in Hv. rewrite zlen_cons in Hl. cbn [fold_left].
  unfold Time.AddOut at 2. destruct (Z.leb_spec outCount count) as [Hle|Hlt].
  - rewrite (IH out count) by (done || lia). by rewrite !ztake_0 by lia.
  - pose proof (zlen_nonneg us). rewrite !wrap_small by lia. rewrite IH by (done || lia).
    unfold ztake. replace (Z.to_nat (outCount - count)) with (S (Z.to_nat (outCount - (count + 1)))) by lia.
    cbn. by rewrite <-!app_assoc.
Qed.

(** *** The parts *)

Lemma value_cons p ps : value (p :: ps) = p.1 * p.2.2 + value ps.
Proof. done. Qed.

Lemma value_app ps qs : value (ps ++ qs) = value ps + value qs.
Proof. induction ps as [|p ps IH]; [done|]. cbn [app]. rewrite !value_cons, IH. lia. Qed.

Lemma value_filter ps : value (filter (λ p, p.1 ≠ 0) ps) = value ps.
Proof.
  induction ps as [|p ps IH]; [done|]. rewrite filter_cons, value_cons.
  destruct (decide (p.1 ≠ 0)) as [|E]; [rewrite value_cons; lia|].
  rewrite IH. assert (p.1 = 0) by lia. lia.
Qed.

(** What is left below each unit is less than the unit. *)
Fixpoint tight (ps : list (Z * (list Z * Z))) : Prop :=
  match ps with [] => True | p :: ps => value ps < p.2.2 ∧ tight ps end.

Lemma tight_filter ps : tight ps → tight (filter (λ p, p.1 ≠ 0) ps).
Proof.
  induction ps as [|p ps IH]; [done|]. intros [H1 H2]. rewrite filter_cons.
  destruct (decide (p.1 ≠ 0)); [|by apply IH]. split; [by rewrite value_filter|by apply IH].
Qed.

Lemma tight_take n ps p :
  tight ps → last (take n ps) = Some p → value (drop n ps) < p.2.2.
Proof.
  revert n. induction ps as [|q ps IH]; intros [|n] H E; [done..|]. destruct H as [H1 H2]. cbn in *.
  destruct (take n ps) as [|q' ps'] eqn:Et.
  - injection E as <-. destruct n; [by rewrite drop_0|]. by destruct ps.
  - apply (IH n H2). by rewrite Et.
Qed.

Section duration.
Context (d : Z) (Hd : 0 <= d < 2 ^ 63).

Lemma units_nonneg :
  Time.units d = [ d / Time.YEARS; d / Time.DAYS mod 365; d / Time.HOURS mod 24;
    d / Time.MINUTES mod 60; d / Time.SECONDS mod 60; d / Time.MILLISECONDS mod 1000; d mod 1000 ].
Proof using Hd.
  unfold Time.units. rewrite (wrap_small 64 d) by lia. rewrite Z.rem_mod_nonneg by lia.
  rewrite (wrap_small 64 (d mod 1000)); [done|divmod_lia].
Qed.

Lemma units_range : Forall (λ u, 0 <= u < 2 ^ 32) (Time.units d).
Proof using Hd.
  rewrite units_nonneg.
  unfold Time.YEARS, Time.DAYS, Time.HOURS, Time.MINUTES, Time.SECONDS, Time.MILLISECONDS.
  repeat constructor; divmod_lia.
Qed.

Lemma units_value : value (zip (Time.units d) suffixes) = d ∧ tight (zip (Time.units d) suffixes).
Proof using Hd.
  rewrite units_nonneg. unfold suffixes, unit_values, value. cbn [zip zip_with map foldr fst snd tight].
  unfold value. cbn [map foldr fst snd].
  set (q1 := d / 1000). set (q2 := q1 / 1000). set (q3 := q2 / 60). set (q4 := q3 / 60).
  set (q5 := q4 / 24).
  change (d / Time.MILLISECONDS) with q1.
  assert (d / Time.SECONDS = q2) as -> by (subst q2 q1; by rewrite Z.div_div).
  assert (d / Time.MINUTES = q3) as -> by (subst q3 q2 q1; by rewrite !Z.div_div).
  assert (d / Time.HOURS = q4) as -> by (subst q4 q3 q2 q1; by rewrite !Z.div_div).
  assert (d / Time.DAYS = q5) as -> by (subst q5 q4 q3 q2 q1; by rewrite !Z.div_div).
  assert (d / Time.YEARS = q5 / 365) as -> by (subst q5 q4 q3 q2 q1; by rewrite !Z.div_div).
  unfold Time.YEARS, Time.DAYS, Time.HOURS, Time.MINUTES, Time.SECONDS, Time.MILLISECONDS.
  rewrite !Z.mul_1_r. subst q1 q2 q3 q4 q5. split_and!; try done; divmod_lia.
Qed.

Lemma parts_value : value (parts d) = d ∧ tight (parts d).
Proof using Hd.
  destruct units_value as [Hv Ht]. unfold parts.
  split; [by rewrite value_filter|by apply tight_filter].
Qed.

(** A part is written as the digits of its count and the suffix of its unit. *)
Lemma parts_written p :
  p ∈ parts d → 0 <= p.1 < 2 ^ 32 ∧ p.2 ∈ suffixes.
Proof using Hd.
  unfold parts. rewrite list_elem_of_filter. intros [_ Hp]. destruct p as [v u].
  split; [|by apply elem_of_zip_r in Hp].
  pose proof units_range as H. rewrite Forall_forall in H. apply H. by apply elem_of_zip_l in Hp.
Qed.
End duration.

Lemma fmt_dec_digits v : 0 <= v < 2 ^ 64 →
  Strings.fmt_dec v ≠ [] ∧ Forall Strings.is_digit (Strings.fmt_dec v) ∧
  Strings.dec_value (Strings.fmt_dec v) 0 = v.
Proof.
  intros Hv. unfold Strings.fmt_dec, Strings.to_chars. replace (v <? 0) with false by lia.
  destruct (Strings.digits_rev_spec 20 v) as (ds & -> & Hne & Hd & E); [lia|lia|]. cbn.
  split; [|by split; [apply Forall_rev|]].
  intros H. apply (f_equal (@length Z)) in H. rewrite length_rev in H. by destruct ds.
Qed.

Lemma scan_digits_stop ds rest acc n :
  Forall Strings.is_digit ds →
  match rest with c :: _ => match Strings.digit_value c with Some v => 10 <= v | None => True end
  | [] => True end →
  Strings.scan_digits 10 (ds ++ rest) acc n = (Strings.dec_value ds acc, (n + length ds)%nat, rest).
Proof.
  intros H Hr. revert acc n. induction H as [|c ds Hc _ IH]; intros acc n; cbn [app length].
  { rewrite Nat.add_0_r. destruct rest as [|c rest]; cbn; [done|].
    destruct (Strings.digit_value c) as [v|]; [|done]. by replace (v <? 10) with false by lia. }
  cbn [Strings.scan_digits]. unfold Strings.digit_value, Strings.in_range, Strings.is_digit in *.
  replace ((48 <=? c) && (c <=? 57)) with true by lia. replace (c - 48 <? 10) with true by lia.
  rewrite IH. cbn. do 2 f_equal. lia.
Qed.

Lemma read_token_token p : 0 <= p.1 < 2 ^ 32 → p.2 ∈ suffixes → read_token (token p) = Some (p.1 * p.2.2).
Proof.
  destruct p as [v [s u]]. cbn [fst snd]. intros Hv Hs. destruct (fmt_dec_digits v) as (Hne & Hd & E); [lia|].
  unfold read_token, token. cbn [fst snd].
  assert (Hu : unit_of s = Some u ∧
    match s with c :: _ => match Strings.digit_value c with Some v => 10 <= v | None => True end
    | [] => True end).
  { clear -Hs. unfold suffixes in Hs. cbn [zip zip_with unit_values] in Hs.
    repeat (apply elem_of_cons in Hs as [Hs|Hs]; [injection Hs as -> ->; by vm_compute|]).
    by apply elem_of_nil in Hs. }
  rewrite scan_digits_stop by (done || apply Hu). rewrite E. cbn [plus].
  destruct (length (Strings.fmt_dec v)) eqn:El; [by apply nil_length_inv in El|].
  by rewrite (proj1 Hu).
Qed.

Lemma suffix_unit s : s ∈ suffixes → 0 < s.2.
Proof.
  intros Hs. unfold suffixes in Hs. cbn [zip zip_with unit_values] in Hs.
  repeat (apply elem_of_cons in Hs as [->|Hs]; [by vm_compute|]). by apply elem_of_nil in Hs.
Qed.

(** A token has no space in it. *)
Lemma token_no_space p :
  0 <= p.1 < 2 ^ 32 → p.2 ∈ suffixes → token p ≠ [] ∧ Forall (λ c, Strings.isspace c = false) (token p).
Proof.
  destruct p as [v [s u]]. cbn [fst snd]. intros Hv Hs. destruct (fmt_dec_digits v) as (Hne & Hd & _); [lia|].
  unfold token. cbn [fst snd]. split; [by destruct (Strings.fmt_dec v)|].
  apply Forall_app. split.
  - eapply Forall_impl; [done|]. unfold Strings.is_digit, Strings.isspace, Strings.in_range. lia.
  - clear -Hs. unfold suffixes in Hs. cbn [zip zip_with unit_values] in Hs.
    repeat (apply elem_of_cons in Hs as [Hs|Hs]; [injection Hs as -> ->; by repeat constructor|]).
    by apply elem_of_nil in Hs.
Qed.

Lemma TrimRight_concat (ts : list (list Z)) :
  Forall (λ t, t ≠ [] ∧ Forall (λ c, Strings.isspace c = false) t) ts →
  Strings.TrimRightInPlace (concat (map (λ t, t ++ [32]) ts)) = Strings.join 32 ts.
Proof.
  intros H. unfold Strings.TrimRightInPlace.
  assert (E : ts ≠ [] → concat (map (λ t, t ++ [32]) ts) = Strings.join 32 ts ++ [32] ∧
              Strings.drop_spaces (rev (Strings.join 32 ts)) = rev (Strings.join 32 ts)).
  { induction H as [|t ts [Hne Ht] Hts IH]; intros Hn; [done|]. destruct ts as [|t' ts].
    - cbn. rewrite app_nil_r. split; [done|].
      destruct t as [|c t _] using rev_ind; [done|]. rewrite rev_app_distr. cbn.
      apply Forall_app in Ht as [_ Hc]. inversion Hc as [|? ? E _]; subst. by rewrite E.
    - destruct IH as [E1 E2]; [done|]. cbn [map concat] in *. rewrite E1.
      change (Strings.join 32 (t :: t' :: ts)) with (t ++ 32 :: Strings.join 32 (t' :: ts)).
      split; [by rewrite <-!app_assoc|].
      destruct (Strings.join 32 (t' :: ts)) as [|c j _] using rev_ind.
      { exfalso. inversion Hts as [|? ? [Hne' _] _]; subst. apply (f_equal (@length Z)) in E1.
        rewrite app_length in E1. cbn in E1. rewrite !length_app in E1. cbn in E1.
        destruct t'; [done|cbn in E1; lia]. }
      rewrite rev_app_distr in E2. cbn in E2. destruct (Strings.isspace c) eqn:Ec.
      + exfalso. apply (f_equal (@length Z)) in E2. cbn in E2.
        assert (length (Strings.drop_spaces (rev j)) <= length (rev j))%nat; [|lia].
        clear. induction (rev j) as [|x l IH]; cbn; [lia|]. case_match; cbn; lia.
      + rewrite app_comm_cons, app_assoc, rev_app_distr. cbn. by rewrite Ec. }
  destruct ts as [|t ts]; [done|]. destruct E as [-> E2]; [done|].
  rewrite rev_app_distr. change (Strings.drop_spaces (rev [32] ++ ?l)) with (Strings.drop_spaces l).
  by rewrite E2, rev_involutive.
Qed.

Lemma split_join (sep : Z) (ts : list (list Z)) :
  ts ≠ [] → Forall (λ t, sep ∉ t) ts → Strings.split sep (Strings.join sep ts) = ts.
Proof.
  intros Hne H. induction H as [|t ts Ht Hts IH]; [done|]. destruct ts as [|t' ts].
  - by apply Strings.split_alone.
  - change (Strings.join sep (t :: t' :: ts)) with (t ++ sep :: Strings.join sep (t' :: ts)).
    rewrite Strings.split_app by done. by rewrite IH.
Qed.

(** [ToTimeString] writes the tokens of the parts it shows, with a space between. *)
Lemma ToTimeString_tokens (d outCount : Z) :
  0 <= d < 2 ^ 63 →
  Time.ToTimeString d outCount ShortText = Strings.join 32 (map token (ztake outCount (parts d))).
Proof.
  intros Hd. unfold Time.ToTimeString.
  set (us := filter (λ u, u.1 ≠ 0) (zip (Time.units d) Time.names)).
  assert (Hrel : Forall2 (λ (u : Z * (list Z * (list Z * list Z))) p,
             u.1 = p.1 ∧ u.2.1 = p.2.1 ++ [32]) us (parts d)).
  { subst us. unfold parts.
    assert (Hn : Forall2 (λ (n : list Z * (list Z * list Z)) (p : list Z * Z), n.1 = p.1 ++ [32])
                   Time.names suffixes) by (repeat constructor).
    revert Hn. generalize Time.names suffixes (Time.units d). intros ns ss vs Hn. revert vs.
    induction Hn as [|n p ns ss E _ IH]; intros [|v vs]; try constructor.
    cbn [zip zip_with]. rewrite !filter_cons. cbn [fst snd].
    destruct (decide (v ≠ 0)); [constructor; [done|apply IH]|apply IH]. }
  assert (Hr : Forall (λ u : Z * (list Z * (list Z * list Z)), 0 <= u.1 < 2 ^ 32) us).
  { subst us. apply Forall_forall. intros [v n] Hin. apply list_elem_of_filter in Hin as [_ Hin].
    pose proof (units_range d Hd) as H. rewrite Forall_forall in H. apply H. by apply elem_of_zip_l in Hin. }
  assert (Hl : zlen us < 256).
  { subst us. unfold zlen. pose proof (length_filter (λ u : Z * (list Z * (list Z * list Z)), u.1 ≠ 0)
      (zip (Time.units d) Time.names)) as H.
    change (length (zip (Time.units d) Time.names)) with 7%nat in H. lia. }
  pose proof (fold_AddOut outCount us [] 0) as HF.
  destruct (fold_left (Time.AddOut ShortText outCount) us ([], 0)) as [out count].
  cbn [fst] in HF. rewrite HF by (done || lia). rewrite Z.sub_0_r, app_nil_l.
  assert (E : map (λ u : Z * (list Z * (list Z * list Z)), Strings.fmt_dec u.1 ++ u.2.1) (ztake outCount us) =
              map (λ t, t ++ [32]) (map token (ztake outCount (parts d)))).
  { unfold ztake. generalize (Z.to_nat outCount). clear -Hrel. intros n. revert n.
    induction Hrel as [|u p us ps [E1 E2] _ IH]; intros [|n]; cbn; [done..|].
    unfold token at 1. by rewrite IH, E1, E2, <-app_assoc. }
  rewrite E. apply TrimRight_concat. apply Forall_map, Forall_forall. intros p Hp.
  unfold ztake in Hp. apply elem_of_take in Hp as (i & Hi & _). apply list_elem_of_lookup_2 in Hi.
  destruct (parts_written d Hd p Hi). by apply token_no_space.
Qed.

(** The text of a duration says what it is: reading it back gives the duration
    when all seven units may be shown, and with fewer it is never more than the
    duration and less by less than one of the smallest unit shown. *)
Theorem time_string_read_back (d outCount : Z) :
  0 <= d < 2 ^ 63 →
  ∃ rest, read_time (Time.ToTimeString d outCount ShortText) = Some (d - rest) ∧ 0 <= rest ∧
    (7 <= outCount → rest = 0) ∧
    ∀ p, last (ztake outCount (parts d)) = Some p → rest < p.2.2.
Proof.
  intros Hd. destruct (parts_value d Hd) as [Hv Ht].
  assert (Hw : ∀ p, p ∈ ztake outCount (parts d) → 0 <= p.1 < 2 ^ 32 ∧ p.2 ∈ suffixes).
  { intros p Hp. apply elem_of_take in Hp as (i & Hi & _). apply list_elem_of_lookup_2 in Hi.
    by apply (parts_written d Hd). }
  exists (value (zdrop outCount (parts d))).
  assert (Hsum : value (ztake outCount (parts d)) = d - value (zdrop outCount (parts d))).
  { rewrite <-Hv at 2. rewrite <-(ztake_zdrop outCount (parts d)) at 2. rewrite value_app. lia. }
  split_and!.
  - rewrite ToTimeString_tokens by done. rewrite <-Hsum. clear -Hw.
    destruct (ztake outCount (parts d)) as [|p ps] eqn:E; [done|]. rewrite <-E in *.
    assert (Hne : map token (ztake outCount (parts d)) ≠ []) by by rewrite E.
    assert (Hj : Strings.join 32 (map token (ztake outCount (parts d))) ≠ []).
    { rewrite E. cbn [map]. destruct (token_no_space p) as [Hp _]; [apply Hw; rewrite E; left..|].
      destruct (token p) as [|c t] eqn:Et; [done|]. by destruct (map token ps). }
    unfold read_time. destruct (Strings.join 32 _) as [|c j] eqn:Ej; [done|]. rewrite <-Ej.
    rewrite split_join; [|done|].
    + clear -Hw. revert Hw. generalize (ztake outCount (parts d)). intros ps Hw.
      assert (Hm : mapM read_token (map token ps) = Some (map (λ p, p.1 * p.2.2) ps)); [|by rewrite Hm].
      induction ps as [|p ps IH]; [done|]. cbn.
      rewrite read_token_token by (apply Hw; left). cbn. rewrite IH; [done|].
      intros q Hq. apply Hw. by right.
    + apply Forall_map, Forall_forall. intros q Hq. destruct (Hw q Hq) as [Hq1 Hq2].
      destruct (token_no_space q Hq1 Hq2) as [_ Hn]. intros Hin.
      by apply (proj1 (Forall_forall _ _) Hn) in Hin.
  - assert (Hall : ∀ ps, (∀ p, p ∈ ps → 0 <= p.1 ∧ p.2 ∈ suffixes) → 0 <= value ps).
    { induction ps as [|p ps IH]; intros H; [done|]. rewrite value_cons.
      destruct (H p) as [H1 H2]; [left|]. specialize (IH (λ q Hq, H q ltac:(by right))).
      assert (0 <= p.2.2) by (apply suffix_unit in H2; lia). nia. }
    apply Hall. intros p Hp. unfold zdrop in Hp. apply list_elem_of_lookup in Hp as [i Hi].
    rewrite lookup_drop in Hi. apply list_elem_of_lookup_2 in Hi. destruct (parts_written d Hd p Hi). split; [lia|done].
  - intros Hn. rewrite zdrop_all; [done|]. unfold zlen, parts.
    pose proof (length_filter (λ p : Z * (list Z * Z), p.1 ≠ 0) (zip (Time.units d) suffixes)) as H.
    change (length (zip (Time.units d) suffixes)) with 7%nat in H. lia.
  - intros p Hp. by apply (tight_take (Z.to_nat outCount)).
Qed.

Lemma time_string_read_back_witness :
  Time.ToTimeString 90061000000 3 ShortText = str "1d 1h 1m" ∧
  ∃ rest, read_time (Time.ToTimeString 90061000000 3 ShortText) = Some (90061000000 - rest) ∧
    0 <= rest.
Proof.
  split; [by vm_compute|].
  destruct (time_string_read_back 90061000000 3) as (rest & H1 & H2 & _); [lia|].
  exists rest. split; [exact H1|exact H2].
Defined.

(** ** Interval timers *)

(** The use of an interval timer: after each update, do the work and reset it if the
    interval has passed. *)
Fixpoint ticks (diffs : list Z) : M Empty_set IntervalTimer (list bool) :=
  match diffs with
  | [] => mret []
  | diff :: diffs =>
      Interval.Update diff ;;
      passed ← gets Interval.Passed;
      (if (passed : bool) then Interval.Reset else mret ()) ;;
      rest ← ticks diffs;
      mret (passed :: rest)
  end.

(** Whether a multiple of the interval was crossed in each step, from time [c] on. *)
Fixpoint crossings (interval c : Z) (diffs : list Z) : list bool :=
  match diffs with
  | [] => []
  | diff :: diffs =>
      (c / interval <? (c + diff) / interval) :: crossings interval (c + diff) diffs
  end.

Lemma crossings_shift interval k c diffs :
  0 < interval → crossings interval (c + k * interval) diffs = crossings interval c diffs.
Proof.
  intros Hi. revert c. induction diffs as [|d diffs IH]; intros c; [done|]. cbn.
  replace (c + k * interval + d) with (c + d + k * interval) by lia.
  rewrite IH, !Z.div_add by lia. f_equal. lia.
Qed.

(** An interval timer fires in exactly the updates in which the total time
    crosses a multiple of the interval, and carries the remainder over, so no time
    is lost; nothing overflows while the total fits 64 bits. *)
Theorem interval_timer_exact (interval current : Z) (diffs : list Z) :
  0 < interval < 2 ^ 63 → 0 <= current < interval → Forall (Z.le 0) diffs →
  interval + fold_right Z.add 0 diffs < 2 ^ 63 →
  ticks diffs (mkInterval interval current) =
    (Ret (crossings interval current diffs),
     mkInterval interval ((current + fold_right Z.add 0 diffs) mod interval)).
Proof.
  intros Hi. revert current. induction diffs as [|d diffs IH]; intros c Hc Hd Hs; cbn [ticks fold_right].
  { rewrite Z.add_0_r, Z.mod_small by done. done. }
  inversion Hd as [|? ? Hd1 Hd2]; subst. cbn [fold_right] in Hs.
  assert (Hsum : 0 <= fold_right Z.add 0 diffs) by (clear -Hd2; induction Hd2; cbn; lia).
  assert (EU : Interval.Update d (mkInterval interval c) = (Ret (), mkInterval interval (c + d))).
  { unfold Interval.Update, checked. cbn [it_current it_interval].
    replace (- 2 ^ (64 - 1) <=? c + d) with true by lia. replace (c + d <? 2 ^ (64 - 1)) with true by lia.
    cbn [andb]. by replace (c + d <? 0) with false by lia. }
  rewrite (bind_run _ _ _ _ _ EU), bind_gets. cbn [crossings].
  set (p := Interval.Passed (mkInterval interval (c + d))).
  assert (Hp : (c / interval <? (c + d) / interval) = p).
  { subst p. unfold Interval.Passed. cbn. rewrite (Z.div_small c) by done.
    destruct (Z.leb_spec interval (c + d)); [|by rewrite Z.div_small by lia].
    assert (1 <= (c + d) / interval) by (apply Z.div_le_lower_bound; lia). lia. }
  assert (EM : c + d = (c + d) mod interval + (c + d) / interval * interval)
    by (pose proof (Z.div_mod (c + d) interval); lia).
  pose proof (Z.mod_pos_bound (c + d) interval).
  assert (ER : (if p then Interval.Reset else mret ()) (mkInterval interval (c + d)) =
               (Ret (), mkInterval interval ((c + d) mod interval))).
  { subst p. unfold Interval.Passed, Interval.Reset. cbn [it_interval it_current].
    destruct (Z.leb_spec interval (c + d)); [|by rewrite Z.mod_small by lia].
    cbn [it_interval it_current]. replace (interval <=? c + d) with true by lia.
    replace (interval =? 0) with false by lia. by rewrite (Z.rem_mod_nonneg (c + d) interval) by lia. }
  rewrite (bind_run _ _ _ _ _ ER).
  assert (EI := IH ((c + d) mod interval) ltac:(lia) Hd2 ltac:(lia)).
  assert (E1 : crossings interval ((c + d) mod interval) diffs = crossings interval (c + d) diffs).
  { rewrite EM at 2. by rewrite crossings_shift by lia. }
  assert (E2 : ((c + d) mod interval + foldr Z.add 0 diffs) mod interval =
               (c + (d + foldr Z.add 0 diffs)) mod interval).
  { rewrite Zplus_mod_idemp_l. f_equal. lia. }
  rewrite (bind_run _ _ _ _ _ EI), E1, E2, Hp. done.
Qed.

Lemma interval_timer_exact_witness :
  ticks [60; 30; 15; 200] (mkInterval 100 5) =
    (Ret (crossings 100 5 [60; 30; 15; 200]), mkInterval 100 10) ∧
  crossings 100 5 [60; 30; 15; 200] = [false; false; true; true].
Proof.
  split; [|by vm_compute].
  apply (interval_timer_exact 100 5 [60; 30; 15; 200]); [lia|lia|repeat constructor; lia|by vm_compute].
Defined.

(** An interval that was never set divides by zero. *)
Example interval_never_set : eval Interval.Reset Interval.new = UB.
Proof. by vm_compute. Qed.

(** When the 32-bit clock wraps around, a millisecond is lost. *)
Example wrapped_clock_loses_one : Time.getMSTimeDiff (2 ^ 32 - 1) 0 = 0.
Proof. by vm_compute. Qed.
