(* ===== verification/Enums.v ===== *)
(** * Enums: the protocol's enumerations and their reflection

    Model of [src/src/shared/DiscordSharedDefines.h], of the generated
    [enuminfo_DiscordSharedDefines.cpp], and of [EnumUtil/SmartEnum.h] and
    [EnumUtil/EnumFlag.h] under [src/src/common].  A value of an enumeration
    type in C++ is any value of the underlying integer type, named or not: the
    reflection functions take that integer. *)

From S2P Require Import Prelude.
Open Scope Z_scope.

(** ** The enumerations *)

Module DiscordCode.

Inductive t :=
  | CLIENT_SEND_HELLO
  | CLIENT_AUTH_SESSION
  | CLIENT_SEND_MESSAGE
  | CLIENT_SEND_MESSAGE_EMBED
  | CLIENT_SEND_PING
  | SERVER_SEND_AUTH_RESPONSE
  | SERVER_SEND_PONG
  | MAX_DISCORD_CODE.

#[export] Instance t_eq_dec : EqDecision t.
Proof. solve_decision. Defined.

Definition value (c : t) : Z :=
  match c with
  | CLIENT_SEND_HELLO => 1
  | CLIENT_AUTH_SESSION => 2
  | CLIENT_SEND_MESSAGE => 3
  | CLIENT_SEND_MESSAGE_EMBED => 4
  | CLIENT_SEND_PING => 5
  | SERVER_SEND_AUTH_RESPONSE => 6
  | SERVER_SEND_PONG => 7
  | MAX_DISCORD_CODE => 8
  end.
End DiscordCode.

Definition NUM_DISCORD_CODE_HANDLERS : Z := DiscordCode.value DiscordCode.MAX_DISCORD_CODE.
Definition NULL_DISCORD_CODE : Z := 0x0000.

Module DiscordAuthResponseCodes.

Inductive t :=
  | Ok
  | Failed
  | IncorrectKey
  | UnknownAccount
  | BannedAccount
  | BannedIP
  | BannedPermanentlyAccount
  | BannedPermanentlyIP
  | ServerOffline
  | BotNotFound
  | ChannelsNotFound
  | ChannelsIncorrect.

#[export] Instance t_eq_dec : EqDecision t.
Proof. solve_decision. Defined.

Definition value (c : t) : Z :=
  match c with
  | Ok => 0 | Failed => 1 | IncorrectKey => 2 | UnknownAccount => 3
  | BannedAccount => 4 | BannedIP => 5 | BannedPermanentlyAccount => 6
  | BannedPermanentlyIP => 7 | ServerOffline => 8 | BotNotFound => 9
  | ChannelsNotFound => 10 | ChannelsIncorrect => 11
  end.
End DiscordAuthResponseCodes.

Module AccountResponceResult.

Inductive t := Ok | LongName | LongKey | NameAlreadyExist | NameNotExist | DBError.

#[export] Instance t_eq_dec : EqDecision t.
Proof. solve_decision. Defined.

Definition value (c : t) : Z :=
  match c with
  | Ok => 0 | LongName => 1 | LongKey => 2 | NameAlreadyExist => 3
  | NameNotExist => 4 | DBError => 5
  end.
End AccountResponceResult.

Module DiscordMessageColor.

Inductive t := Blue | Red | Orange | Purple | Indigo | Yellow | Teal | Cyan | Gray | White.

Definition value (c : t) : Z :=
  match c with
  | Blue => 0x28a745 | Red => 0xdc3545 | Orange => 0xfd7e14 | Purple => 0x6f42c1
  | Indigo => 0x6610f2 | Yellow => 0xffc107 | Teal => 0x20c997 | Cyan => 0x17a2b8
  | Gray => 0xadb5bd | White => 0xffffff
  end.
End DiscordMessageColor.

Module DiscordChannelType.

Inductive t :=
  | ServerStatus | Commands | ChatSay | ChatChannel | LoginPlayer | LoginGM | LoginAdmin
  | MaxType.

Definition value (c : t) : Z :=
  match c with
  | ServerStatus => 0 | Commands => 1 | ChatSay => 2 | ChatChannel => 3
  | LoginPlayer => 4 | LoginGM => 5 | LoginAdmin => 6 | MaxType => 7
  end.
End DiscordChannelType.

Definition DEFAULT_CHANNELS_COUNT : Z := DiscordChannelType.value DiscordChannelType.MaxType.

Definition WARHEAD_DISCORD_VERSION : Z := 100000.
Definition GetVersionMajor : Z := WARHEAD_DISCORD_VERSION / 100000.
Definition GetVersionMinor : Z := (WARHEAD_DISCORD_VERSION / 100) mod 1000.
Definition GetVersionPatch : Z := WARHEAD_DISCORD_VERSION mod 100.

(** ** Reflection *)

Record EnumText := mkText { Constant : string; Title : string; Description : string }.

(** What the generated code gives for one enumeration: [ToString] and [ToIndex]
    throw [std::out_of_range] on a value without a name, [FromIndex] on an
    index from [Count] on. *)
Record EnumUtils := mkEnum {
  enum_Count : Z;
  enum_ToString : Z → option EnumText;
  enum_FromIndex : Z → option Z;
  enum_ToIndex : Z → option Z
}.

Definition same (name : string) : option EnumText := Some (mkText name name "").

Definition EnumUtils_DiscordCode : EnumUtils := {|
  enum_Count := 8;
  enum_ToString value :=
    match value with
    | 1 => same "CLIENT_SEND_HELLO"
    | 2 => same "CLIENT_AUTH_SESSION"
    | 3 => same "CLIENT_SEND_MESSAGE"
    | 4 => same "CLIENT_SEND_MESSAGE_EMBED"
    | 5 => same "CLIENT_SEND_PING"
    | 6 => same "SERVER_SEND_AUTH_RESPONSE"
    | 7 => same "SERVER_SEND_PONG"
    | 8 => same "MAX_DISCORD_CODE"
    | _ => None
    end;
  enum_FromIndex index :=
    DiscordCode.value <$>
    match index with
    | 0 => Some DiscordCode.CLIENT_SEND_HELLO
    | 1 => Some DiscordCode.CLIENT_AUTH_SESSION
    | 2 => Some DiscordCode.CLIENT_SEND_MESSAGE
    | 3 => Some DiscordCode.CLIENT_SEND_MESSAGE_EMBED
    | 4 => Some DiscordCode.CLIENT_SEND_PING
    | 5 => Some DiscordCode.SERVER_SEND_AUTH_RESPONSE
    | 6 => Some DiscordCode.SERVER_SEND_PONG
    | 7 => Some DiscordCode.MAX_DISCORD_CODE
    | _ => None
    end;
  enum_ToIndex value :=
    match value with
    | 1 => Some 0 | 2 => Some 1 | 3 => Some 2 | 4 => Some 3
    | 5 => Some 4 | 6 => Some 5 | 7 => Some 6 | 8 => Some 7
    | _ => None
    end
|}.

Definition EnumUtils_DiscordAuthResponseCodes : EnumUtils := {|
  enum_Count := 12;
  enum_ToString value :=
    match value with
    | 0 => same "Ok"
    | 1 => same "Failed"
    | 2 => same "IncorrectKey"
    | 3 => same "UnknownAccount"
    | 4 => same "BannedAccount"
    | 5 => same "BannedIP"
    | 6 => same "BannedPermanentlyAccount"
    | 7 => same "BannedPermanentlyIP"
    | 8 => same "ServerOffline"
    | 9 => same "BotNotFound"
    | 10 => same "ChannelsNotFound"
    | 11 => same "ChannelsIncorrect"
    | _ => None
    end;
  enum_FromIndex index :=
    DiscordAuthResponseCodes.value <$>
    match index with
    | 0 => Some DiscordAuthResponseCodes.Ok
    | 1 => Some DiscordAuthResponseCodes.Failed
    | 2 => Some DiscordAuthResponseCodes.IncorrectKey
    | 3 => Some DiscordAuthResponseCodes.UnknownAccount
    | 4 => Some DiscordAuthResponseCodes.BannedAccount
    | 5 => Some DiscordAuthResponseCodes.BannedIP
    | 6 => Some DiscordAuthResponseCodes.BannedPermanentlyAccount
    | 7 => Some DiscordAuthResponseCodes.BannedPermanentlyIP
    | 8 => Some DiscordAuthResponseCodes.ServerOffline
    | 9 => Some DiscordAuthResponseCodes.BotNotFound
    | 10 => Some DiscordAuthResponseCodes.ChannelsNotFound
    | 11 => Some DiscordAuthResponseCodes.ChannelsIncorrect
    | _ => None
    end;
  enum_ToIndex value :=
    match value with
    | 0 => Some 0 | 1 => Some 1 | 2 => Some 2 | 3 => Some 3
    | 4 => Some 4 | 5 => Some 5 | 6 => Some 6 | 7 => Some 7
    | 8 => Some 8 | 9 => Some 9 | 10 => Some 10 | 11 => Some 11
    | _ => None
    end
|}.

Definition EnumUtils_AccountResponceResult : EnumUtils := {|
  enum_Count := 6;
  enum_ToString value :=
    match value with
    | 0 => same "Ok"
    | 1 => same "LongName"
    | 2 => same "LongKey"
    | 3 => same "NameAlreadyExist"
    | 4 => same "NameNotExist"
    | 5 => same "DBError"
    | _ => None
    end;
  enum_FromIndex index :=
    AccountResponceResult.value <$>
    match index with
    | 0 => Some AccountResponceResult.Ok
    | 1 => Some AccountResponceResult.LongName
    | 2 => Some AccountResponceResult.LongKey
    | 3 => Some AccountResponceResult.NameAlreadyExist
    | 4 => Some AccountResponceResult.NameNotExist
    | 5 => Some AccountResponceResult.DBError
    | _ => None
    end;
  enum_ToIndex value :=
    match value with
    | 0 => Some 0 | 1 => Some 1 | 2 => Some 2 | 3 => Some 3 | 4 => Some 4 | 5 => Some 5
    | _ => None
    end
|}.

(** [EnumUtils::IsValid]: whether [ToIndex] does not throw. *)
Definition IsValid (E : EnumUtils) (value : Z) : bool :=
  match enum_ToIndex E value with Some _ => true | None => false end.

Definition ToTitle (E : EnumUtils) (value : Z) : option string := Title <$> enum_ToString E value.

(** [Iterate]: from [Begin], index 0, by [++] up to [End], index [Count]; the
    values the iterator yields. *)
Definition Iterate (E : EnumUtils) : list (option Z) :=
  map (λ i, enum_FromIndex E (Z.of_nat i)) (seq 0 (Z.to_nat (enum_Count E))).

(** *** What reflection promises *)

Class EnumLaws (E : EnumUtils) : Prop := {
  enum_count : 0 <= enum_Count E;
  enum_index i : is_Some (enum_FromIndex E i) ↔ 0 <= i < enum_Count E;
  enum_inverse v i : enum_ToIndex E v = Some i ↔ enum_FromIndex E i = Some v;
  enum_named v : is_Some (enum_ToString E v) ↔ IsValid E v = true;
  enum_distinct v w t :
    enum_ToString E v = Some t → enum_ToString E w = Some t → v = w
}.

(** Split an integer into the cases of a [match] on small literals. *)
Ltac split_int v := destruct v as [|v|v]; [|do 4 (try destruct v as [v|v|])|]; cbn.

Lemma enum_index_by_range E :
  (∀ i, is_Some (enum_FromIndex E i) → 0 <= i < enum_Count E) →
  forallb (λ n, match enum_FromIndex E (Z.of_nat n) with Some _ => true | None => false end)
    (seq 0 (Z.to_nat (enum_Count E))) = true →
  ∀ i, is_Some (enum_FromIndex E i) ↔ 0 <= i < enum_Count E.
Proof.
  intros H1 H2 i. split; [apply H1|]. intros Hi. rewrite forallb_forall in H2.
  specialize (H2 (Z.to_nat i)). rewrite in_seq, Z2Nat.id in H2 by lia.
  destruct (enum_FromIndex E i); [done|]. discriminate H2; lia.
Qed.

Lemma not_None {A} (P : Prop) : (P → False) → is_Some (@None A) ↔ P.
Proof. split; [intros [? [=]]|done]. Qed.

Ltac enum_laws :=
  split;
  [done
  |apply enum_index_by_range; [|done];
   intros i; cbn; split_int i; intros [? ?]; simplify_eq; lia
  |intros v i; split; [split_int v|split_int i]; intros; by simplify_eq/=
  |intros v; unfold IsValid; cbn; split_int v;
   first [by apply not_None | split; [done|by eexists]]
  |intros v w t; cbn; unfold same; split_int v; intros Hv; simplify_eq/=;
   split_int w; intros Hw; by simplify_eq/=].

#[export] Instance DiscordCode_laws : EnumLaws EnumUtils_DiscordCode.
Proof. enum_laws. Qed.
#[export] Instance DiscordAuthResponseCodes_laws : EnumLaws EnumUtils_DiscordAuthResponseCodes.
Proof. enum_laws. Qed.
#[export] Instance AccountResponceResult_laws : EnumLaws EnumUtils_AccountResponceResult.
Proof. enum_laws. Qed.

Lemma elem_of_Iterate E `{!EnumLaws E} v : Some v ∈ Iterate E ↔ IsValid E v = true.
Proof.
  unfold Iterate, IsValid. rewrite list_elem_of_In, in_map_iff. split.
  - intros (n & Hn & _). by apply enum_inverse in Hn as ->.
  - destruct (enum_ToIndex E v) as [i|] eqn:Ei; [intros _|done].
    apply enum_inverse in Ei. assert (0 <= i < enum_Count E) as Hi by (apply enum_index; eauto).
    exists (Z.to_nat i). rewrite Z2Nat.id by lia. rewrite in_seq. split; [done|lia].
Qed.

Lemma Iterate_NoDup E `{!EnumLaws E} : NoDup (Iterate E).
Proof.
  pose proof (@enum_count E _). unfold Iterate. apply NoDup_fmap_2_strong; [|apply NoDup_seq].
  intros i j Hi Hj Heq. apply elem_of_seq in Hi, Hj.
  assert (is_Some (enum_FromIndex E (Z.of_nat i))) as [v Hv] by (apply enum_index; lia).
  rewrite Hv in Heq. symmetry in Heq. apply enum_inverse in Hv, Heq. simplify_eq. lia.
Qed.

(** For each of the three enumerations the server reflects on, iterating
    from [Begin] to [End] never throws and yields every named value exactly
    once, [ToIndex] and [FromIndex] are inverse, [ToString] is defined exactly
    on the named values, and different values have different names. *)
Theorem enum_reflection (E : EnumUtils) :
  E ∈ [EnumUtils_DiscordCode; EnumUtils_DiscordAuthResponseCodes;
       EnumUtils_AccountResponceResult] →
  Z.of_nat (length (Iterate E)) = enum_Count E ∧ NoDup (Iterate E) ∧ None ∉ Iterate E ∧
  (∀ v, Some v ∈ Iterate E ↔ IsValid E v = true) ∧
  (∀ v i, enum_ToIndex E v = Some i ↔ enum_FromIndex E i = Some v) ∧
  (∀ v, is_Some (enum_ToString E v) ↔ IsValid E v = true) ∧
  (∀ v w t, enum_ToString E v = Some t → enum_ToString E w = Some t → v = w).
Proof.
  intros HE. assert (EnumLaws E) as L.
  { repeat (apply elem_of_cons in HE as [->|HE]; [apply _|]). by apply elem_of_nil in HE. }
  split_and!; try apply L.
  - unfold Iterate. rewrite length_map, length_seq. pose proof (@enum_count E _). lia.
  - by apply Iterate_NoDup.
  - unfold Iterate. rewrite list_elem_of_In, in_map_iff. intros (n & Hn & Hin%in_seq).
    assert (is_Some (enum_FromIndex E (Z.of_nat n))) as [v Hv] by (apply enum_index; lia).
    congruence.
  - intros v. by apply elem_of_Iterate.
Qed.

Lemma enum_reflection_witness :
  EnumUtils_DiscordCode ∈ [EnumUtils_DiscordCode; EnumUtils_DiscordAuthResponseCodes;
    EnumUtils_AccountResponceResult] ∧
  Z.of_nat (length (Iterate EnumUtils_DiscordCode)) = 8.
Proof.
  assert (EnumUtils_DiscordCode ∈ [EnumUtils_DiscordCode; EnumUtils_DiscordAuthResponseCodes;
    EnumUtils_AccountResponceResult]) as H by apply list_elem_of_here.
  split; [exact H|]. destruct (enum_reflection _ H) as [E _]. exact E.
Defined.

(** ** Flag sets

    [EnumFlag<T>] over an unsigned underlying type of [w] bits. *)

Module EnumFlag.

Definition and_ (left right : Z) : Z := Z.land left right.
Definition or_ (left right : Z) : Z := Z.lor left right.
Definition not_ (w value : Z) : Z := wrap w (Z.lnot value).
Definition RemoveFlag (w : Z) (flag value : Z) : Z := Z.land value (not_ w flag).
Definition HasFlag (flag value : Z) : bool := negb (Z.land value flag =? 0).
Definition HasAllFlags (flags value : Z) : bool := Z.land value flags =? flags.

Lemma not_bit w v i : 0 <= w → Z.testbit (not_ w v) i = (0 <=? i) && (i <? w) && negb (Z.testbit v i).
Proof.
  intros Hw. unfold not_, wrap. destruct (Z.leb_spec 0 i); [|by apply Z.testbit_neg_r].
  destruct (Z.ltb_spec i w); cbn [andb].
  - by rewrite Z.mod_pow2_bits_low, Z.lnot_spec by lia.
  - by rewrite Z.mod_pow2_bits_high by lia.
Qed.

(** Flags as sets of bits: [HasAllFlags] is inclusion, [RemoveFlag] takes the
    flags out and leaves the others. *)
Lemma HasAllFlags_subset flags value :
  HasAllFlags flags value = true ↔
  ∀ i, Z.testbit flags i = true → Z.testbit value i = true.
Proof.
  unfold HasAllFlags. rewrite Z.eqb_eq. split.
  - intros E i Hi. rewrite <- E, Z.land_spec in Hi. by apply andb_true_iff in Hi as [? _].
  - intros Hsub. apply Z.bits_inj. intros i. rewrite Z.land_spec.
    destruct (Z.testbit flags i) eqn:Ef; [by rewrite (Hsub i Ef)|apply andb_false_r].
Qed.

Lemma RemoveFlag_bit w flag value i :
  0 <= w → 0 <= value < 2 ^ w →
  Z.testbit (RemoveFlag w flag value) i = Z.testbit value i && negb (Z.testbit flag i).
Proof.
  intros Hw Hv. unfold RemoveFlag. rewrite Z.land_spec, not_bit by done.
  destruct (Z.leb_spec 0 i); [|by rewrite (Z.testbit_neg_r value) by lia].
  destruct (Z.ltb_spec i w); [done|]. cbn [andb]. rewrite andb_false_r.
  assert (Z.testbit value i = false) as ->; [|done].
  destruct (Z.eq_dec value 0) as [->|]; [apply Z.bits_0|].
  apply Z.bits_above_log2; [lia|]. apply Z.log2_lt_pow2; [lia|].
  apply Z.lt_le_trans with (2 ^ w); [lia|]. apply Z.pow_le_mono_r; lia.
Qed.
End EnumFlag.
