(* ===== verification/ByteBuffer.v ===== *)
(** * ByteBuffer: packet payloads

    Model of [src/src/common/Utilities/ByteConverter.h] and of
    [src/src/server/Server/Packets/ByteBuffer.h]/[.cpp].  A fundamental value
    is handled by its width in bytes and its bit pattern (floating-point values
    by their IEEE pattern).  The capacity of the vector is not part of the
    model: nothing reads it back. *)

From S2P Require Import Prelude MessageBuffer Utf8 Strings Timer.
Open Scope Z_scope.

(** ** Byte order of the host *)

Inductive endian := LittleEndian | BigEndian.

(** The platform the server is compiled for ([WARHEAD_ENDIAN]). *)
Class Host := host_endian : endian.

(** [ByteConverter::convert<T>]: swap the outermost bytes and go inwards. *)
Fixpoint ByteConverter_convert (T : nat) (val : list Z) : list Z :=
  match T, val with
  | S (S T'), first :: rest =>
      let last := default first (rest !! T') in
      last :: ByteConverter_convert T' (<[T' := first]> rest)
  | _, _ => val
  end.

Section endianness.
Context {H : Host}.

Definition EndianConvert (val : list Z) : list Z :=
  match host_endian with
  | LittleEndian => val
  | BigEndian => ByteConverter_convert (length val) val
  end.

Definition EndianConvertReverse (val : list Z) : list Z :=
  match host_endian with
  | LittleEndian => ByteConverter_convert (length val) val
  | BigEndian => val
  end.

(** The [n] bytes of an integer object in memory, and the integer they hold. *)
Definition host_bytes (n : nat) (v : Z) : list Z :=
  match host_endian with
  | LittleEndian => le_bytes n v
  | BigEndian => rev (le_bytes n v)
  end.

Definition host_value (bs : list Z) : Z :=
  match host_endian with
  | LittleEndian => le_value bs
  | BigEndian => le_value (rev bs)
  end.
End endianness.

(** ** Exceptions *)

Inductive exn :=
  | ByteBufferException
  | ByteBufferPositionException (add : bool) (pos size valueSize : Z)
  | ByteBufferSourceException (pos size valueSize : Z)
  | ByteBufferInvalidValueException (type : string) (value : list Z)
  | PacketArrayMaxCapacityException (requestedSize sizeLimit : Z)
  | InvalidUtf8ValueException (value : list Z).

#[export] Instance exn_eq_dec : EqDecision exn.
Proof. solve_decision. Defined.

(** The message of an exception ([what()]). *)
Definition what (e : exn) : list Z :=
  match e with
  | ByteBufferException => []
  | ByteBufferPositionException add pos size valueSize =>
      str "Attempted to " ++ (if add then str "put" else str "get") ++
      str " value with size: " ++ Strings.fmt_dec valueSize ++
      str " in ByteBuffer (pos: " ++ Strings.fmt_dec pos ++
      str " size: " ++ Strings.fmt_dec size ++ str ")"
  | ByteBufferSourceException pos size valueSize =>
      str "Attempted to put a " ++
      (if 0 <? valueSize then str "NULL-pointer" else str "zero-sized value") ++
      str " in ByteBuffer (pos: " ++ Strings.fmt_dec pos ++
      str " size: " ++ Strings.fmt_dec size ++ str ")"
  | ByteBufferInvalidValueException type value =>
      str "Invalid " ++ str type ++ str " value (" ++ value ++ str ") found in ByteBuffer"
  | PacketArrayMaxCapacityException requestedSize sizeLimit =>
      str "Attempted to read more array elements from packet " ++
      Strings.fmt_dec requestedSize ++ str " than allowed " ++ Strings.fmt_dec sizeLimit
  | InvalidUtf8ValueException value => str "Invalid string value (" ++ value ++
      str ") found in ByteBuffer"
  end.

(** ** State *)

Record ByteBuffer := mkBB {
  bb_rpos : Z;
  bb_wpos : Z;
  bb_storage : list Z
}.

#[export] Instance ByteBuffer_eq_dec : EqDecision ByteBuffer.
Proof. solve_decision. Defined.

Module BB.

Abbreviation BM := (M exn ByteBuffer).

(** ** Constructors, assignment, sizes *)

Definition new : ByteBuffer := mkBB 0 0 [].
Definition new_reserve (reserve : Z) : ByteBuffer := mkBB 0 0 [].

(** [ByteBuffer(const char*, size_t)] copies into reserved room, but the
    vector keeps its size 0. *)
Definition new_from_chars (buffer : list Z) (reserve : Z) : ByteBuffer := mkBB 0 0 [].

Definition new_from_message (buffer : MessageBuffer) : ByteBuffer * MessageBuffer :=
  let '(st, buffer') := MB.Move buffer in (mkBB 0 0 st, buffer').

(** [ByteBuffer(ByteBuffer&&)]: the new buffer and what is left of [buf]. *)
Definition move_construct (buf : ByteBuffer) : ByteBuffer * ByteBuffer :=
  (buf, mkBB 0 0 []).

(** Assigning [right] to [this], which may be the same object, and what is left of
    [right]. *)
Definition copy_assign (same : bool) (this right : ByteBuffer) : ByteBuffer :=
  if negb same then mkBB (bb_rpos right) (bb_wpos right) (bb_storage right) else this.
Definition move_assign (same : bool) (this right : ByteBuffer) : ByteBuffer * ByteBuffer :=
  if negb same then (mkBB (bb_rpos right) (bb_wpos right) (bb_storage right), mkBB 0 0 [])
  else (this, this).

Definition clear (b : ByteBuffer) : ByteBuffer := mkBB 0 0 [].

Definition size (b : ByteBuffer) : Z := zlen (bb_storage b).
Definition empty (b : ByteBuffer) : bool := size b =? 0.

Definition set_rpos (rpos_ : Z) (b : ByteBuffer) : ByteBuffer :=
  mkBB rpos_ (bb_wpos b) (bb_storage b).
Definition set_wpos (wpos_ : Z) (b : ByteBuffer) : ByteBuffer :=
  mkBB (bb_rpos b) wpos_ (bb_storage b).
Definition rfinish (b : ByteBuffer) : ByteBuffer := set_rpos (bb_wpos b) b.

Definition resize (newsize : Z) (b : ByteBuffer) : ByteBuffer :=
  let st := vresize newsize 0 (bb_storage b) in mkBB 0 (zlen st) st.

Definition contents : BM (list Z) := λ b,
  if empty b then (Throw ByteBufferException, b) else (Ret (bb_storage b), b).

Definition at_ (pos : Z) : BM Z := λ b,
  if size b <=? pos then (Throw (ByteBufferPositionException false pos 1 (size b)), b)
  else (Ret (default 0 (bb_storage b !! Z.to_nat pos)), b).

(** ** Writing *)

(** [append(uint8 const* src, size_t cnt)]; a null [src] is [None].  Copying
    from or to memory outside the vectors is undefined. *)
Definition append_ptr (src : option (list Z)) (cnt : Z) : BM () := λ b,
  match src with
  | None => (AssertFail, b)
  | Some data =>
      if cnt =? 0 then (AssertFail, b)
      else if negb (size b <? 10000000) then (AssertFail, b)
      else
        let newSize := u64 (bb_wpos b + cnt) in
        let st :=
          if size b <? newSize then vresize newSize 0 (bb_storage b) else bb_storage b in
        if (cnt <=? zlen data) && (bb_wpos b + cnt <=? zlen st) then
          (Ret (), mkBB (bb_rpos b) newSize (overwrite (bb_wpos b) (ztake cnt data) st))
        else (UB, b)
  end.

Definition append_bytes (data : list Z) : BM () := append_ptr (Some data) (zlen data).

Definition append_buffer (buffer : ByteBuffer) : BM () :=
  if bb_wpos buffer =? 0 then mret ()
  else
    match contents buffer with
    | (Ret src, _) => append_ptr (Some src) (bb_wpos buffer)
    | (Throw e, _) => throw e
    | _ => undefined
    end.

Definition put_ptr (pos : Z) (src : option (list Z)) (cnt : Z) : BM () := λ b,
  if negb (u64 (pos + cnt) <=? size b) then (AssertFail, b)
  else
    match src with
    | None => (AssertFail, b)
    | Some data =>
        if cnt =? 0 then (AssertFail, b)
        else if (cnt <=? zlen data) && (pos + cnt <=? size b) then
          (Ret (), mkBB (bb_rpos b) (bb_wpos b) (overwrite pos (ztake cnt data) (bb_storage b)))
        else (UB, b)
    end.

(** ** Reading *)

Definition read_skip (skip : Z) : BM () := λ b,
  if size b <? u64 (bb_rpos b + skip) then
    (Throw (ByteBufferPositionException false (bb_rpos b) skip (size b)), b)
  else (Ret (), mkBB (u64 (bb_rpos b + skip)) (bb_wpos b) (bb_storage b)).

(** [read(uint8* dest, size_t len)] *)
Definition read_bytes (len : Z) : BM (list Z) := λ b,
  if size b <? u64 (bb_rpos b + len) then
    (Throw (ByteBufferPositionException false (bb_rpos b) len (size b)), b)
  else if bb_rpos b + len <=? size b then
    (Ret (slice (bb_rpos b) len (bb_storage b)),
     mkBB (u64 (bb_rpos b + len)) (bb_wpos b) (bb_storage b))
  else (UB, b).

Section typed.
Context {H : Host}.

(** [append<T>(value)], with [n = sizeof(T)]. *)
Definition append_value (n : nat) (value : Z) : BM () :=
  append_bytes (EndianConvert (host_bytes n value)).

Definition put_value (n : nat) (pos value : Z) : BM () :=
  put_ptr pos (Some (EndianConvert (host_bytes n value))) (Z.of_nat n).

(** [read<T>(pos)] for an unsigned [T] of [n] bytes. *)
Definition read_at (n : nat) (pos : Z) : BM Z := λ b,
  if size b <? u64 (pos + Z.of_nat n) then
    (Throw (ByteBufferPositionException false pos (Z.of_nat n) (size b)), b)
  else if pos + Z.of_nat n <=? size b then
    (Ret (host_value (EndianConvert (slice pos (Z.of_nat n) (bb_storage b)))), b)
  else (UB, b).

Definition read_value (n : nat) : BM Z :=
  pos ← gets bb_rpos;
  r ← read_at n pos;
  modify (λ b, mkBB (u64 (bb_rpos b + Z.of_nat n)) (bb_wpos b) (bb_storage b)) ;;
  mret r.

(** *** Stream operators *)

Definition write_bool (value : bool) : BM () := append_value 1 (if value then 1 else 0).
Definition write_int (n : nat) (value : Z) : BM () := append_value n value.
Definition write_float (n : nat) (bits : Z) : BM () := append_value n bits.

Definition write_string (value : list Z) : BM () :=
  (if zlen value =? 0 then mret () else append_ptr (Some value) (zlen value)) ;;
  append_value 1 0.

(** [operator<<] of a [char const* ]: the bytes before the terminator, or null. *)
Definition write_cstr (s : option (list Z)) : BM () :=
  write_string (default (str "") s).

(** [read<char>() > 0], with [char] signed. *)
Definition read_bool : BM bool := c ← read_value 1; mret (0 <? i8 c).
Definition read_uint (n : nat) : BM Z := read_value n.
Definition read_int (n : nat) : BM Z := r ← read_value n; mret (swrap (8 * Z.of_nat n) r).

(** [std::isfinite] on the bit pattern of a [float] and of a [double]. *)
Definition isfinite32 (bits : Z) : bool := negb (Z.land (Z.shiftr bits 23) 0xff =? 0xff).
Definition isfinite64 (bits : Z) : bool := negb (Z.land (Z.shiftr bits 52) 0x7ff =? 0x7ff).

Definition read_float : BM Z :=
  value ← read_value 4;
  (if isfinite32 value then mret ()
   else throw (ByteBufferInvalidValueException "float" (str "infinity"))) ;;
  mret value.

Definition read_double : BM Z :=
  value ← read_value 8;
  (if isfinite64 value then mret ()
   else throw (ByteBufferInvalidValueException "double" (str "infinity"))) ;;
  mret value.

(** The loop of [ReadCString]; a turn advances the read position, so the
    number of bytes bounds the turns. *)
Fixpoint ReadCString_loop (fuel : nat) (value : list Z) : BM (list Z) :=
  match fuel with
  | O => mret value
  | S fuel =>
      more ← gets (λ b, bb_rpos b <? size b);
      if (more : bool) then
        c ← read_value 1;
        if c =? 0 then mret value else ReadCString_loop fuel (value ++ [c])
      else mret value
  end.

Definition ReadCString (requireValidUtf8 : bool) : BM (list Z) :=
  fuel ← gets (λ b, S (length (bb_storage b)));
  value ← ReadCString_loop fuel [];
  if requireValidUtf8 && negb (Utf8.is_valid value) then
    throw (ByteBufferInvalidValueException "string" value)
  else mret value.

Definition read_string : BM (list Z) := ReadCString true.

(** [read_skip<char*>] and its synonyms. *)
Definition read_skip_string : BM () := _ ← read_string; mret ().

(** *** Packed GUIDs *)

Definition check_one_byte : BM () := λ b,
  if size b <? u64 (bb_rpos b + 1) then
    (Throw (ByteBufferPositionException false (bb_rpos b) 1 (size b)), b)
  else (Ret (), b).

(** The loop of [readPackGUID] from bit [i] on, [n] bits left. *)
Fixpoint readPackGUID_loop (n : nat) (i guidmark guid : Z) : BM Z :=
  match n with
  | O => mret guid
  | S n =>
      if negb (Z.land guidmark (Z.shiftl 1 i) =? 0) then
        check_one_byte ;;
        bit ← read_value 1;
        readPackGUID_loop n (i + 1) guidmark (Z.lor guid (Z.shiftl bit (i * 8)))
      else readPackGUID_loop n (i + 1) guidmark guid
  end.

Definition readPackGUID : BM Z :=
  check_one_byte ;;
  guidmark ← read_value 1;
  readPackGUID_loop 8 0 guidmark 0.

(** The loop of [appendPackGUID]: the mark and the bytes after it.  [guid]
    has 64 bits, so it is 0 after at most 8 shifts. *)
Fixpoint appendPackGUID_loop (fuel : nat) (i guid mark : Z) (bytes : list Z)
  : Z * list Z :=
  match fuel with
  | O => (mark, bytes)
  | S fuel =>
      if guid =? 0 then (mark, bytes)
      else if negb (Z.land guid 0xFF =? 0) then
        appendPackGUID_loop fuel (u8 (i + 1)) (Z.shiftr guid 8)
          (Z.lor mark (u8 (Z.shiftl 1 i))) (bytes ++ [u8 (Z.land guid 0xFF)])
      else appendPackGUID_loop fuel (u8 (i + 1)) (Z.shiftr guid 8) mark bytes
  end.

Definition appendPackGUID (guid : Z) : BM () :=
  let '(mark, bytes) := appendPackGUID_loop 8 0 guid 0 [] in
  append_bytes (mark :: bytes).

(** *** Packed time

    The C library's [mktime] and [localtime_r] belong to the environment. *)

Definition pack_tm (lt : tm) : Z :=
  Z.lor (Z.lor (Z.lor (Z.lor (Z.lor
    (Z.shiftl (tm_year lt - 100) 24) (Z.shiftl (tm_mon lt) 20))
    (Z.shiftl (tm_mday lt - 1) 14)) (Z.shiftl (tm_wday lt) 11))
    (Z.shiftl (tm_hour lt) 6)) (tm_min lt).

Definition unpack_tm (packedDate : Z) : tm := {|
  tm_sec := 0;
  tm_min := Z.land packedDate 0x3F;
  tm_hour := Z.land (Z.shiftr packedDate 6) 0x1F;
  tm_mday := Z.land (Z.shiftr packedDate 14) 0x3F + 1;
  tm_mon := Z.land (Z.shiftr packedDate 20) 0xF;
  tm_year := Z.land (Z.shiftr packedDate 24) 0x1F + 100;
  tm_wday := 0
|}.

Definition ReadPackedTime (mktime : tm → Z) : BM Z :=
  packedDate ← read_value 4;
  mret (u32 (mktime (unpack_tm packedDate))).

(** Coordinates in quarters of a unit; [to_int] is what the conversion of [x / 0.25f]
    to [int] gives, if it is in range. *)
Definition pack_xyz (x y z : Z) : Z :=
  u32 (Z.lor (Z.lor (Z.land x 0x7FF) (Z.shiftl (Z.land y 0x7FF) 11)) (Z.shiftl (Z.land z 0x3FF) 22)).

Definition appendPackXYZ (to_int : Z → option Z) (x y z : Z) : BM () :=
  match to_int x, to_int y, to_int z with
  | Some x, Some y, Some z => append_value 4 (pack_xyz x y z)
  | _, _, _ => undefined
  end.

Definition AppendPackedTime (localtime : Z → tm) (now time : Z) : BM () :=
  append_value 4 (pack_tm (Time.TimeBreakdown localtime now time)).
End typed.


(** ** Byte order *)

Lemma convert_prefix T l tail :
  length l = T → ByteConverter_convert T (l ++ tail) = rev l ++ tail.
Proof.
  revert l tail. induction T as [T IH] using lt_wf_ind. intros l tail Hl.
  destruct l as [|x l]; cbn in Hl; [by subst|].
  destruct l as [|y mid _] using rev_ind; [by subst|].
  rewrite length_app in Hl. cbn in Hl. subst T. rewrite Nat.add_1_r.
  cbn [ByteConverter_convert app]. rewrite <- app_assoc. cbn [app].
  rewrite list_lookup_middle by done. cbn [default].
  rewrite insert_app_r_alt by done. rewrite Nat.sub_diag. cbn [insert list_insert].
  rewrite IH by lia. cbn [rev]. rewrite rev_app_distr. cbn. by rewrite <- app_assoc.
Qed.

Lemma convert_rev l : ByteConverter_convert (length l) l = rev l.
Proof. by rewrite <- (app_nil_r l) at 2; rewrite convert_prefix, app_nil_r. Qed.

Section wire_order.
Context {H : Host}.

(** Whatever the host, integers go out, and come in, low byte first. *)
Lemma EndianConvert_bytes n v : EndianConvert (host_bytes n v) = le_bytes n v.
Proof.
  unfold EndianConvert, host_bytes. destruct host_endian; [done|].
  by rewrite convert_rev, rev_involutive.
Qed.

Lemma EndianConvert_value bs : host_value (EndianConvert bs) = le_value bs.
Proof.
  unfold EndianConvert, host_value. destruct host_endian; [done|].
  by rewrite convert_rev, rev_involutive.
Qed.

(** [EndianConvertReverse] turns the same bytes into the big-endian value. *)
Lemma EndianConvertReverse_value bs : host_value (EndianConvertReverse bs) = le_value (rev bs).
Proof.
  unfold EndianConvertReverse, host_value. destruct host_endian; [|done].
  by rewrite convert_rev.
Qed.
End wire_order.

(** ** Well-formed buffers *)

Record wf (b : ByteBuffer) : Prop := {
  wf_bytes : Forall is_byte (bb_storage b);
  wf_rpos : 0 <= bb_rpos b < 2 ^ 62;
  wf_wpos : 0 <= bb_wpos b < 2 ^ 62;
  wf_size : size b < 2 ^ 62
}.

(** A buffer being written at its end, and the effect of appending to it. *)
Definition at_end (b : ByteBuffer) : Prop := wf b ∧ bb_wpos b = size b.

Definition extend (d : list Z) (b : ByteBuffer) : ByteBuffer :=
  mkBB (bb_rpos b) (bb_wpos b + zlen d) (bb_storage b ++ d).

(** The bytes still to be read, and the effect of reading [n] of them. *)
Definition rest (b : ByteBuffer) : list Z := zdrop (bb_rpos b) (bb_storage b).

Definition advance (n : Z) (b : ByteBuffer) : ByteBuffer :=
  mkBB (bb_rpos b + n) (bb_wpos b) (bb_storage b).

Definition readable (b : ByteBuffer) : Prop := wf b ∧ bb_rpos b <= size b.

Lemma at_end_new : at_end new.
Proof. repeat split; cbn; try lia; constructor. Qed.

Lemma size_nonneg b : 0 <= size b.
Proof. apply zlen_nonneg. Qed.

Lemma extend_nil b : extend [] b = b.
Proof. destruct b. unfold extend. cbn. by rewrite zlen_nil, Z.add_0_r, app_nil_r. Qed.

Lemma extend_extend d1 d2 b : extend d2 (extend d1 b) = extend (d1 ++ d2) b.
Proof. unfold extend. cbn. rewrite zlen_app, app_assoc. f_equal. lia. Qed.

Lemma advance_0 b : advance 0 b = b.
Proof. destruct b. unfold advance. cbn. by rewrite Z.add_0_r. Qed.

Lemma advance_advance m n b : advance n (advance m b) = advance (m + n) b.
Proof. unfold advance. cbn. f_equal. lia. Qed.

Lemma at_end_extend d b :
  at_end b → Forall is_byte d → size b + zlen d < 2 ^ 62 → at_end (extend d b).
Proof.
  intros [[] Hw] Hd Hs. unfold size in *. pose proof (zlen_nonneg d).
  repeat split; unfold size; cbn; rewrite ?zlen_app; try lia. by apply Forall_app.
Qed.

Lemma zlen_rest b : readable b → zlen (rest b) = size b - bb_rpos b.
Proof. intros [[] ?]. unfold rest. rewrite zlen_zdrop. unfold size in *. lia. Qed.

Lemma rest_advance b d r :
  readable b → rest b = d ++ r → rest (advance (zlen d) b) = r ∧ readable (advance (zlen d) b).
Proof.
  intros Hb Hr. pose proof (zlen_rest b Hb) as Hl. rewrite Hr, zlen_app in Hl.
  pose proof (zlen_nonneg d). pose proof (zlen_nonneg r). destruct Hb as [[] Hrs].
  split.
  - unfold rest in *. cbn. rewrite <- zdrop_zdrop by lia. rewrite Hr. apply zdrop_app_exact.
  - repeat split; unfold size in *; cbn; try done; lia.
Qed.

(** ** The primitive operations *)

Lemma append_bytes_spec d b :
  at_end b → d ≠ [] → size b < 10000000 → zlen d < 2 ^ 61 →
  append_bytes d b = (Ret (), extend d b).
Proof.
  intros [[] Hw] Hd Hs Hl. unfold append_bytes, append_ptr.
  assert (0 < zlen d) by (destruct d; [done|rewrite zlen_cons; pose proof (zlen_nonneg d); lia]).
  rewrite (proj2 (Z.eqb_neq (zlen d) 0)) by lia.
  rewrite (proj2 (Z.ltb_lt (size b) _)) by done. cbn [negb].
  rewrite wrap_small by lia. rewrite (proj2 (Z.ltb_lt (size b) (bb_wpos b + zlen d))) by lia.
  rewrite zlen_vresize by lia. rewrite !Z.leb_refl. cbn [andb].
  rewrite ztake_all by lia. unfold extend. do 3 f_equal.
  rewrite vresize_grow by (unfold size in *; lia).
  rewrite Hw. apply overwrite_end. rewrite zlen_replicate. unfold size in *. lia.
Qed.

Lemma read_bytes_spec d r b :
  readable b → rest b = d ++ r →
  read_bytes (zlen d) b = (Ret d, advance (zlen d) b).
Proof.
  intros Hb Hr. pose proof (zlen_rest b Hb) as Hl. rewrite Hr, zlen_app in Hl.
  pose proof (zlen_nonneg d). pose proof (zlen_nonneg r). destruct Hb as [[] Hrs].
  unfold read_bytes. rewrite wrap_small by lia.
  rewrite (proj2 (Z.ltb_ge _ _)) by lia. rewrite (proj2 (Z.leb_le _ _)) by lia.
  unfold advance. repeat f_equal. unfold slice. fold (rest b). rewrite Hr.
  apply ztake_app_exact.
Qed.

Section values.
Context {H : Host}.

Lemma append_value_spec n v b :
  at_end b → (0 < n)%nat → size b < 10000000 → Z.of_nat n < 2 ^ 61 →
  append_value n v b = (Ret (), extend (le_bytes n v) b).
Proof.
  intros. unfold append_value. rewrite EndianConvert_bytes.
  apply append_bytes_spec; try done; [by destruct n; [lia|]|].
  by rewrite zlen_le_bytes.
Qed.

Lemma read_value_spec n d r b :
  readable b → rest b = d ++ r → zlen d = Z.of_nat n →
  read_value n b = (Ret (le_value d), advance (Z.of_nat n) b).
Proof.
  intros Hb Hr Hd. pose proof (zlen_rest b Hb) as Hl. rewrite Hr, zlen_app in Hl.
  pose proof (zlen_nonneg r). destruct Hb as [[] Hrs].
  unfold read_value, read_at, mbind, M_bind, gets, modify, mret, M_ret.
  rewrite wrap_small by lia.
  rewrite (proj2 (Z.ltb_ge _ _)) by lia. rewrite (proj2 (Z.leb_le _ _)) by lia.
  rewrite wrap_small by lia. rewrite EndianConvert_value.
  unfold advance. repeat f_equal. unfold slice. fold (rest b). rewrite Hr, <- Hd.
  apply ztake_app_exact.
Qed.

(** Reading too much throws, and moves nothing. *)
Lemma read_value_short n b :
  readable b → (0 < n)%nat → Z.of_nat n < 2 ^ 61 → zlen (rest b) < Z.of_nat n →
  read_value n b =
    (Throw (ByteBufferPositionException false (bb_rpos b) (Z.of_nat n) (size b)), b).
Proof.
  intros Hb Hn Hn2 Hs. rewrite (zlen_rest b Hb) in Hs. destruct Hb as [[] Hrs].
  unfold read_value, read_at, mbind, M_bind, gets.
  rewrite wrap_small by lia. by rewrite (proj2 (Z.ltb_lt _ _)) by lia.
Qed.
End values.

(** ** Packed GUIDs, without accumulators *)

Fixpoint guid_mark (n : nat) (i g : Z) : Z :=
  match n with
  | O => 0
  | S n =>
      Z.lor (if Z.land g 255 =? 0 then 0 else Z.shiftl 1 i) (guid_mark n (i + 1) (Z.shiftr g 8))
  end.

Fixpoint guid_bytes (n : nat) (g : Z) : list Z :=
  match n with
  | O => []
  | S n =>
      (if Z.land g 255 =? 0 then [] else [Z.land g 255]) ++ guid_bytes n (Z.shiftr g 8)
  end.

Lemma guid_mark_0 n i : guid_mark n i 0 = 0.
Proof.
  revert i. induction n as [|n IH]; intros i; [done|].
  cbn [guid_mark]. by rewrite Z.shiftr_0_l, IH.
Qed.

Lemma guid_bytes_0 n : guid_bytes n 0 = [].
Proof.
  induction n as [|n IH]; [done|]. cbn [guid_bytes]. by rewrite Z.shiftr_0_l, IH.
Qed.

Lemma appendPackGUID_loop_spec n i g mark bytes :
  0 <= i → i + Z.of_nat n <= 8 →
  appendPackGUID_loop n i g mark bytes =
    (Z.lor mark (guid_mark n i g), bytes ++ guid_bytes n g).
Proof.
  revert i g mark bytes. induction n as [|n IH]; intros i g mark bytes Hi Hn.
  { cbn. by rewrite Z.lor_0_r, app_nil_r. }
  cbn [appendPackGUID_loop]. destruct (Z.eqb_spec g 0) as [->|Hg].
  { by rewrite guid_mark_0, guid_bytes_0, Z.lor_0_r, app_nil_r. }
  cbn [guid_mark guid_bytes]. rewrite (wrap_small 8 (i + 1)) by lia.
  destruct (Z.land g 255 =? 0); cbn [negb]; rewrite IH by lia; [done|].
  assert (1 <= 2 ^ i < 2 ^ 8).
  { split; [pose proof (Z.pow_pos_nonneg 2 i); lia|apply Z.pow_lt_mono_r; lia]. }
  rewrite wrap_small by (rewrite Z.shiftl_1_l; lia).
  assert (u8 (Z.land g 255) = Z.land g 255) as ->.
  { apply wrap_small. rewrite land_255. apply Z.mod_pos_bound. lia. }
  by rewrite Z.lor_assoc, <- app_assoc.
Qed.

Lemma guid_mark_range n i g :
  0 <= i → 0 <= guid_mark n i g < 2 ^ (i + Z.of_nat n).
Proof.
  revert i g. induction n as [|n IH]; intros i g Hi.
  { cbn. pose proof (Z.pow_pos_nonneg 2 (i + 0)). lia. }
  cbn [guid_mark]. apply lor_range; [lia| |].
  - rewrite Z.shiftl_1_l. pose proof (Z.pow_pos_nonneg 2 i).
    assert (2 ^ i < 2 ^ (i + Z.of_nat (S n))) by (apply Z.pow_lt_mono_r; lia).
    case_match; lia.
  - replace (i + Z.of_nat (S n)) with (i + 1 + Z.of_nat n) by lia. apply IH. lia.
Qed.

Lemma guid_mark_low n i g j : 0 <= j < i → Z.testbit (guid_mark n i g) j = false.
Proof.
  revert i g. induction n as [|n IH]; intros i g Hj; cbn [guid_mark]; [by rewrite Z.bits_0|].
  rewrite Z.lor_spec, IH by lia. rewrite orb_false_r.
  case_match; [by rewrite Z.bits_0|]. rewrite Z.shiftl_1_l.
  apply Z.pow2_bits_false. lia.
Qed.

Lemma guid_mark_bit n i g :
  0 <= i → Z.testbit (guid_mark (S n) i g) i = negb (Z.land g 255 =? 0).
Proof.
  intros Hi. cbn [guid_mark]. rewrite Z.lor_spec, guid_mark_low by lia.
  rewrite orb_false_r. case_match; [by rewrite Z.bits_0|].
  rewrite Z.shiftl_1_l. by rewrite Z.pow2_bits_true by lia.
Qed.

Lemma guid_mark_high n i g j :
  0 <= i < j → Z.testbit (guid_mark (S n) i g) j =
    Z.testbit (guid_mark n (i + 1) (Z.shiftr g 8)) j.
Proof.
  intros Hj. cbn [guid_mark]. rewrite Z.lor_spec.
  case_match; [by rewrite Z.bits_0|].
  rewrite Z.shiftl_1_l, Z.pow2_bits_false by lia. done.
Qed.

Lemma guid_bytes_bytes n g : Forall is_byte (guid_bytes n g).
Proof.
  revert g. induction n as [|n IH]; intros g; cbn; [constructor|].
  apply Forall_app. split; [|apply IH]. case_match; repeat constructor;
  rewrite land_255; pose proof (Z.mod_pos_bound g 256); lia.
Qed.

Lemma length_guid_bytes n g : (length (guid_bytes n g) <= n)%nat.
Proof.
  revert g. induction n as [|n IH]; intros g; cbn; [lia|].
  rewrite length_app. pose proof (IH (Z.shiftr g 8)). case_match; cbn; lia.
Qed.

Definition guid_wire (g : Z) : list Z := guid_mark 8 0 g :: guid_bytes 8 g.

Section guid.
Context {H : Host}.

Lemma check_one_byte_spec b x r :
  readable b → rest b = x :: r → check_one_byte b = (Ret (), b).
Proof.
  intros Hb Hr. pose proof (zlen_rest b Hb) as Hl. rewrite Hr, zlen_cons in Hl.
  pose proof (zlen_nonneg r). destruct Hb as [[] ?].
  unfold check_one_byte. rewrite wrap_small by lia.
  by rewrite (proj2 (Z.ltb_ge _ _)) by lia.
Qed.

Lemma read_byte_spec b x r :
  readable b → rest b = x :: r → read_value 1 b = (Ret x, advance 1 b).
Proof.
  intros Hb Hr. rewrite (read_value_spec 1 [x] r) by done.
  cbn [le_value]. by rewrite Z.mul_0_r, Z.add_0_r.
Qed.

Lemma readPackGUID_loop_spec n i g M acc b r :
  0 <= i → 0 <= g < 2 ^ (8 * Z.of_nat n) →
  (∀ j, i <= j → Z.testbit M j = Z.testbit (guid_mark n i g) j) →
  readable b → rest b = guid_bytes n g ++ r →
  readPackGUID_loop n i M acc b =
    (Ret (Z.lor acc (Z.shiftl g (i * 8))), advance (zlen (guid_bytes n g)) b).
Proof.
  revert i g acc b. induction n as [|n IH]; intros i g acc b Hi Hg HM Hb Hr.
  { assert (g = 0) as -> by (cbn in Hg; lia). cbn.
    by rewrite Z.shiftl_0_l, Z.lor_0_r, zlen_nil, advance_0. }
  cbn [readPackGUID_loop]. rewrite land_bit_test, negb_involutive by lia.
  rewrite HM, guid_mark_bit by lia. rewrite pow2_8_S in Hg.
  assert (0 <= Z.shiftr g 8 < 2 ^ (8 * Z.of_nat n)) as Hg'.
  { rewrite shiftr_8. split; [apply Z.div_pos; lia|apply Z.div_lt_upper_bound; lia]. }
  assert (∀ j, i + 1 <= j → Z.testbit M j = Z.testbit (guid_mark n (i + 1) (Z.shiftr g 8)) j)
    as HM' by (intros; rewrite HM, guid_mark_high by lia; done).
  assert (Z.shiftl g (i * 8) = Z.lor (Z.shiftl (Z.land g 255) (i * 8))
    (Z.shiftl (Z.shiftr g 8) ((i + 1) * 8))) as ->.
  { rewrite (split_low_byte g) at 1. rewrite Z.shiftl_lor, Z.shiftl_shiftl by lia.
    do 2 f_equal; lia. }
  cbn [guid_bytes] in Hr |- *. destruct (Z.eqb_spec (Z.land g 255) 0) as [E|E]; cbn [negb].
  { rewrite (IH (i + 1) (Z.shiftr g 8) acc b ltac:(lia) Hg' HM' Hb Hr). rewrite E, Z.shiftl_0_l. done. }
  cbn [app] in Hr. unfold mbind, M_bind. rewrite (check_one_byte_spec b _ _ Hb Hr).
  rewrite (read_byte_spec b _ _ Hb Hr).
  destruct (rest_advance b [Z.land g 255] _ Hb Hr) as [Hr' Hb'].
  rewrite (IH (i + 1) (Z.shiftr g 8) _ _ ltac:(lia) Hg' HM' Hb' Hr').
  rewrite advance_advance, Z.lor_assoc. cbn [app]. by rewrite !zlen_cons, zlen_nil.
Qed.

Lemma readPackGUID_spec g b r :
  0 <= g < 2 ^ 64 → readable b → rest b = guid_wire g ++ r →
  readPackGUID b = (Ret g, advance (zlen (guid_wire g)) b).
Proof.
  intros Hg Hb Hr. unfold guid_wire in *. cbn [app] in Hr.
  unfold readPackGUID, mbind at 1 2, M_bind.
  rewrite (check_one_byte_spec b _ _ Hb Hr), (read_byte_spec b _ _ Hb Hr).
  destruct (rest_advance b [guid_mark 8 0 g] _ Hb Hr) as [Hr' Hb'].
  change (zlen [guid_mark 8 0 g]) with 1 in *.
  rewrite (readPackGUID_loop_spec 8 0 g _ 0 _ r ltac:(lia) Hg ltac:(done) Hb' Hr').
  by rewrite advance_advance, zlen_cons, Z.lor_0_l, Z.shiftl_0_r.
Qed.

Lemma appendPackGUID_spec g b :
  at_end b → size b < 10000000 →
  appendPackGUID g b = (Ret (), extend (guid_wire g) b).
Proof.
  intros Hb Hs. unfold appendPackGUID. rewrite appendPackGUID_loop_spec by lia.
  rewrite Z.lor_0_l. cbn [app]. apply append_bytes_spec; try done.
  unfold guid_wire. rewrite zlen_cons. unfold zlen.
  pose proof (length_guid_bytes 8 g). lia.
Qed.
End guid.

(** ** Strings *)

Section strings.
Context {H : Host}.

Lemma write_string_spec s b :
  at_end b → size b + zlen s < 10000000 → Forall is_byte s →
  write_string s b = (Ret (), extend (s ++ [0]) b).
Proof.
  intros Hb Hs Hbytes. pose proof (zlen_nonneg s). pose proof (size_nonneg b).
  unfold write_string.
  assert (at_end (extend s b)) by (apply at_end_extend; [done..|lia]).
  assert (size (extend s b) = size b + zlen s) as Hse.
  { unfold size, extend. cbn. by rewrite zlen_app. }
  erewrite bind_run.
  2:{ instantiate (1 := extend s b). instantiate (1 := ()).
      destruct (Z.eqb_spec (zlen s) 0) as [E|E].
      - apply zlen_0 in E as ->. by rewrite extend_nil.
      - apply append_bytes_spec; [done|by intros ->|lia..]. }
  rewrite append_value_spec by (try done; lia).
  by rewrite extend_extend.
Qed.

(** A terminated string, and one that runs to the end of the packet. *)
Lemma ReadCString_loop_spec s fuel value b r :
  Forall is_byte s → 0 ∉ s → readable b → rest b = s ++ 0 :: r →
  (length s < fuel)%nat →
  ReadCString_loop fuel value b = (Ret (value ++ s), advance (zlen s + 1) b).
Proof.
  intros Hs. revert fuel value b. induction s as [|c s IH]; intros fuel value b H0 Hb Hr Hf;
    (destruct fuel as [|fuel]; [cbn in Hf; lia|]); cbn [ReadCString_loop app] in *;
    unfold mbind, M_bind, gets.
  all: pose proof (zlen_rest b Hb) as Hl; rewrite Hr in Hl; rewrite zlen_cons in Hl.
  - pose proof (zlen_nonneg r). rewrite (proj2 (Z.ltb_lt _ _)) by lia.
    rewrite (read_byte_spec b _ _ Hb Hr). cbn. by rewrite app_nil_r, zlen_nil.
  - pose proof (zlen_nonneg (s ++ 0 :: r)). rewrite (proj2 (Z.ltb_lt _ _)) by lia.
    rewrite (read_byte_spec b _ _ Hb Hr).
    apply not_elem_of_cons in H0 as [Hc H0]. rewrite (proj2 (Z.eqb_neq c 0)) by done.
    destruct (rest_advance b [c] _ Hb Hr) as [Hr' Hb'].
    change (zlen [c]) with 1 in *. inversion Hs; subst.
    rewrite (IH ltac:(done) fuel _ _ H0 Hb' Hr') by (cbn in Hf; lia).
    rewrite <- app_assoc, advance_advance, zlen_cons. cbn [app].
    do 2 f_equal. lia.
Qed.

Lemma ReadCString_loop_end s fuel value b :
  0 ∉ s → readable b → rest b = s → (length s < fuel)%nat →
  ReadCString_loop fuel value b = (Ret (value ++ s), advance (zlen s) b).
Proof.
  revert fuel value b. induction s as [|c s IH]; intros fuel value b H0 Hb Hr Hf;
    (destruct fuel as [|fuel]; [cbn in Hf; lia|]); cbn [ReadCString_loop];
    unfold mbind, M_bind, gets.
  all: pose proof (zlen_rest b Hb) as Hl; rewrite Hr in Hl.
  - rewrite zlen_nil in Hl. rewrite (proj2 (Z.ltb_ge _ _)) by lia.
    by rewrite app_nil_r, zlen_nil, advance_0.
  - rewrite zlen_cons in Hl. pose proof (zlen_nonneg s).
    rewrite (proj2 (Z.ltb_lt _ _)) by lia. rewrite (read_byte_spec b _ _ Hb Hr).
    apply not_elem_of_cons in H0 as [Hc H0]. rewrite (proj2 (Z.eqb_neq c 0)) by done.
    destruct (rest_advance b [c] _ Hb Hr) as [Hr' Hb']. change (zlen [c]) with 1 in *.
    rewrite (IH fuel _ _ H0 Hb' Hr') by (cbn in Hf; lia).
    rewrite <- app_assoc, advance_advance, zlen_cons. done.
Qed.

Lemma length_rest b : (length (rest b) <= length (bb_storage b))%nat.
Proof. unfold rest, zdrop. rewrite length_drop. lia. Qed.

Lemma ReadCString_spec v s b r :
  Forall is_byte s → 0 ∉ s → readable b → rest b = s ++ 0 :: r →
  (v = true → Utf8.is_valid s = true) →
  ReadCString v b = (Ret s, advance (zlen s + 1) b).
Proof.
  intros Hs H0 Hb Hr Hv. unfold ReadCString, mbind at 1 2, M_bind, gets.
  pose proof (length_rest b) as Hl. rewrite Hr, length_app in Hl. cbn in Hl.
  rewrite (ReadCString_loop_spec s _ [] b r) by (try done; lia). cbn [app].
  destruct v; [|done]. by rewrite Hv.
Qed.

(** Text that is not UTF-8 is refused, after it has been consumed. *)
Lemma ReadCString_invalid s b r :
  Forall is_byte s → 0 ∉ s → readable b → rest b = s ++ 0 :: r →
  Utf8.is_valid s = false →
  ReadCString true b =
    (Throw (ByteBufferInvalidValueException "string" s), advance (zlen s + 1) b).
Proof.
  intros Hs H0 Hb Hr Hv. unfold ReadCString, mbind at 1 2, M_bind, gets.
  pose proof (length_rest b) as Hl. rewrite Hr, length_app in Hl. cbn in Hl.
  rewrite (ReadCString_loop_spec s _ [] b r) by (try done; lia). cbn [app andb].
  by rewrite Hv.
Qed.
End strings.

(** ** Memory safety of every operation *)

(** The operations that touch the storage or the cursors.  The buffer of
    [OAppendBuffer] is another object; the source of [OAppend] and [OPut] has the
    bytes that are asked for, or is null. *)
Inductive op :=
  | OClear
  | OResize (newsize : Z)
  | OSetRpos (p : Z)
  | OSetWpos (p : Z)
  | ORfinish
  | OAppend (src : option (list Z))
  | OAppendBuffer (buffer : ByteBuffer)
  | OAppendPackGUID (guid : Z)
  | OAppendPackXYZ (x y z : Z)
  | OAppendPackedTime (time : Z)
  | OPut (pos : Z) (src : option (list Z))
  | OPutValue (n : nat) (pos v : Z)
  | OWrite (n : nat) (v : Z)
  | OWriteCString (s : option (list Z))
  | OReadSkip (n : Z)
  | OReadSkipString
  | OReadBytes (n : Z)
  | OReadAt (n : nat) (pos : Z)
  | ORead (n : nat)
  | OReadFloat
  | OReadDouble
  | OReadCString (requireValidUtf8 : bool)
  | OReadPackGUID
  | OReadPackedTime
  | OContents
  | OIndex (pos : Z).

Section safety.
Context {H : Host}.
Context (to_int : Z → option Z) (localtime : Z → tm) (now : Z) (mktime : tm → Z).

Definition ignore {A} (m : BM A) : BM () := _ ← m; mret ().

Definition run_op (o : op) : BM () :=
  match o with
  | OClear => modify clear
  | OResize n => modify (resize n)
  | OSetRpos p => modify (set_rpos p)
  | OSetWpos p => modify (set_wpos p)
  | ORfinish => modify rfinish
  | OAppend src => append_ptr src (from_option zlen 0 src)
  | OAppendBuffer buffer => append_buffer buffer
  | OAppendPackGUID guid => appendPackGUID guid
  | OAppendPackXYZ x y z => appendPackXYZ to_int x y z
  | OAppendPackedTime time => AppendPackedTime localtime now time
  | OPut pos src => put_ptr pos src (from_option zlen 0 src)
  | OPutValue n pos v => put_value n pos v
  | OWrite n v => append_value n v
  | OWriteCString s => write_cstr s
  | OReadSkip n => read_skip n
  | OReadSkipString => read_skip_string
  | OReadBytes n => ignore (read_bytes n)
  | OReadAt n pos => ignore (read_at n pos)
  | ORead n => ignore (read_value n)
  | OReadFloat => ignore read_float
  | OReadDouble => ignore read_double
  | OReadCString v => ignore (ReadCString v)
  | OReadPackGUID => ignore readPackGUID
  | OReadPackedTime => ignore (ReadPackedTime mktime)
  | OContents => ignore contents
  | OIndex pos => ignore (at_ pos)
  end.

(** Arguments below 2^61, bytes in byte range, cursors below 2^61. *)
Definition arg_ok (o : op) : Prop :=
  let pos_ok p := 0 <= p < 2 ^ 61 in
  let src_ok (src : option (list Z)) :=
    from_option (λ d, Forall is_byte d ∧ zlen d < 2 ^ 61) True src in
  match o with
  | OResize n | OSetRpos n | OSetWpos n | OReadSkip n | OReadBytes n | OIndex n => pos_ok n
  | OAppend src | OWriteCString src => src_ok src
  | OAppendBuffer buffer => 0 <= bb_wpos buffer < 2 ^ 61
  | OPut pos src => pos_ok pos ∧ src_ok src
  | OPutValue n pos _ => (n <= 8)%nat ∧ pos_ok pos
  | OWrite n _ | ORead n => (n <= 8)%nat
  | OReadAt n pos => (n <= 8)%nat ∧ pos_ok pos
  | _ => True
  end.

(** What goes wrong: the other buffer's write position is copied up to, whether or
    not its storage reaches there; and a coordinate need not fit an [int]. *)
Definition goes_wrong (o : op) (b : ByteBuffer) : bool :=
  match o with
  | OAppendBuffer buffer =>
      negb (empty buffer) && (size buffer <? bb_wpos buffer) && (size b <? 10000000)
  | OAppendPackXYZ x y z =>
      bool_decide (to_int x = None) || bool_decide (to_int y = None) || bool_decide (to_int z = None)
  | _ => false
  end.

(** A computation that never runs into undefined behaviour and keeps what is
    stored a byte string, from states with cursors below 2^61. *)
Definition cursors_ok (b : ByteBuffer) : Prop :=
  Forall is_byte (bb_storage b) ∧ 0 <= bb_rpos b < 2 ^ 61 ∧ 0 <= bb_wpos b < 2 ^ 61 ∧
  size b < 2 ^ 61.

(** [m] is safe from [b]: no undefined behaviour; afterwards the storage is
    unchanged and the read cursor has not passed both its start and the end. *)
Definition reads_ok {A} (m : BM A) (b : ByteBuffer) : Prop :=
  ∀ o b', m b = (o, b') →
    is_UB o = false ∧ bb_storage b' = bb_storage b ∧ bb_wpos b' = bb_wpos b ∧
    bb_rpos b <= bb_rpos b' <= Z.max (bb_rpos b) (size b).

Lemma reads_ok_cursors {A} (m : BM A) b o b' :
  reads_ok m b → cursors_ok b → m b = (o, b') → cursors_ok b'.
Proof.
  intros Hm (? & ? & ? & ?) E. destruct (Hm o b' E) as (_ & Hs & Hw & Hr).
  unfold cursors_ok, size in *. rewrite Hs, Hw. repeat split; try done; lia.
Qed.

Lemma reads_ok_ret {A} (a : A) b : reads_ok (mret a) b.
Proof. intros o b' [= <- <-]. repeat split; lia. Qed.

Lemma reads_ok_throw {A} (e : exn) b : reads_ok (throw (A := A) e) b.
Proof. intros o b' [= <- <-]. repeat split; lia. Qed.

Lemma reads_ok_bind {A B} (m : BM A) (f : A → BM B) b :
  cursors_ok b → reads_ok m b →
  (∀ a b', m b = (Ret a, b') → cursors_ok b' → reads_ok (f a) b') →
  reads_ok (m ≫= f) b.
Proof.
  intros Hc Hm Hf o b' E. unfold mbind, M_bind in E.
  destruct (m b) as [o1 b1] eqn:E1. pose proof (reads_ok_cursors m b o1 b1 Hm Hc E1) as Hc1.
  destruct (Hm o1 b1 E1) as (Hu & Hs & Hw & Hr).
  destruct o1; [|by simplify_eq..].
  destruct (Hf a b1 eq_refl Hc1 o b' E) as (? & Hs' & Hw' & Hr').
  unfold size in *. rewrite Hs', Hw', Hs, Hw in *. repeat split; try done; lia.
Qed.

Lemma reads_ok_read_value n b :
  (n <= 8)%nat → cursors_ok b → reads_ok (read_value n) b.
Proof.
  intros Hn (Hb & Hr & Hw & Hs) o b'.
  unfold read_value, read_at, mbind, M_bind, gets, modify, mret, M_ret.
  rewrite wrap_small by lia. destruct (Z.ltb_spec (size b) (bb_rpos b + Z.of_nat n)).
  { intros [= <- <-]. repeat split; lia. }
  rewrite (proj2 (Z.leb_le _ _)) by lia. intros [= <- <-].
  rewrite wrap_small by lia. cbn. repeat split; lia.
Qed.

Lemma reads_ok_check_one_byte b : cursors_ok b → reads_ok check_one_byte b.
Proof.
  intros _ o b'. unfold check_one_byte. case_match; intros [= <- <-]; repeat split; lia.
Qed.

Lemma reads_ok_gets {A} (f : ByteBuffer → A) b : reads_ok (gets f) b.
Proof. intros o b' [= <- <-]. repeat split; lia. Qed.

Lemma reads_ok_float n (m : Z → bool) e b :
  (n <= 8)%nat → cursors_ok b →
  reads_ok (value ← read_value n; (if m value then mret () else throw e) ;; mret value) b.
Proof.
  intros. apply reads_ok_bind; [done|by apply reads_ok_read_value|].
  intros a b' _ Hb'. apply reads_ok_bind; [done| |intros; apply reads_ok_ret].
  case_match; [apply reads_ok_ret|apply reads_ok_throw].
Qed.

Lemma reads_ok_cstring_loop fuel value b :
  cursors_ok b → reads_ok (ReadCString_loop fuel value) b.
Proof.
  revert value b. induction fuel as [|fuel IH]; intros value b Hb; cbn [ReadCString_loop].
  { apply reads_ok_ret. }
  apply reads_ok_bind; [done|apply reads_ok_gets|]. intros [] b1 _ Hb1; [|apply reads_ok_ret].
  apply reads_ok_bind; [done|apply reads_ok_read_value; [lia|done]|].
  intros c b2 _ Hb2. case_match; [apply reads_ok_ret|by apply IH].
Qed.

Lemma reads_ok_cstring v b : cursors_ok b → reads_ok (ReadCString v) b.
Proof.
  intros Hb. apply reads_ok_bind; [done|apply reads_ok_gets|]. intros fuel b1 _ Hb1.
  apply reads_ok_bind; [done|by apply reads_ok_cstring_loop|]. intros value b2 _ Hb2.
  case_match; [apply reads_ok_throw|apply reads_ok_ret].
Qed.

Lemma reads_ok_guid_loop n i mark guid b :
  cursors_ok b → reads_ok (readPackGUID_loop n i mark guid) b.
Proof.
  revert i guid b. induction n as [|n IH]; intros i guid b Hb; cbn [readPackGUID_loop].
  { apply reads_ok_ret. }
  case_match; [|by apply IH].
  apply reads_ok_bind; [done|by apply reads_ok_check_one_byte|]. intros [] b1 _ Hb1.
  apply reads_ok_bind; [done|apply reads_ok_read_value; [lia|done]|].
  intros bit b2 _ Hb2. by apply IH.
Qed.

Lemma reads_ok_guid b : cursors_ok b → reads_ok readPackGUID b.
Proof.
  intros Hb. apply reads_ok_bind; [done|by apply reads_ok_check_one_byte|]. intros [] b1 _ Hb1.
  apply reads_ok_bind; [done|apply reads_ok_read_value; [lia|done]|].
  intros m b2 _ Hb2. by apply reads_ok_guid_loop.
Qed.

Lemma reads_ok_ignore {A} (m : BM A) b : cursors_ok b → reads_ok m b → reads_ok (ignore m) b.
Proof. intros. apply reads_ok_bind; [done..|]. intros. apply reads_ok_ret. Qed.

Lemma reads_ok_no_UB {A} (m : BM A) b : reads_ok m b → is_UB (m b).1 = false.
Proof. intros Hm. destruct (m b) as [o b'] eqn:E. by apply (Hm o b'). Qed.

(** A copy from memory goes wrong when there is less than is asked for. *)
Lemma append_ptr_UB data cnt b :
  0 <= bb_wpos b → 0 <= cnt → bb_wpos b + cnt < 2 ^ 64 →
  is_UB (append_ptr (Some data) cnt b).1 =
  negb (cnt =? 0) && (size b <? 10000000) && negb (cnt <=? zlen data).
Proof.
  intros Hw Hc Hn. unfold append_ptr. destruct (cnt =? 0); [done|]. cbn [negb andb].
  destruct (size b <? 10000000); [|done]. cbn [negb andb]. rewrite wrap_small by lia.
  destruct (cnt <=? zlen data); cbn [andb negb]; [|done].
  destruct (Z.ltb_spec (size b) (bb_wpos b + cnt)).
  - rewrite zlen_vresize by lia. by rewrite Z.leb_refl.
  - by rewrite (proj2 (Z.leb_le _ _)) by (unfold size in *; lia).
Qed.

Lemma append_bytes_no_UB data b :
  0 <= bb_wpos b → bb_wpos b + zlen data < 2 ^ 64 → is_UB (append_bytes data b).1 = false.
Proof.
  intros Hw Hn. pose proof (zlen_nonneg data). unfold append_bytes. rewrite append_ptr_UB by lia.
  by rewrite Z.leb_refl, andb_false_r.
Qed.

Lemma append_value_no_UB n v b : (n <= 9)%nat → cursors_ok b → is_UB (append_value n v b).1 = false.
Proof.
  intros Hn (_ & _ & Hw & _). unfold append_value. rewrite EndianConvert_bytes.
  apply append_bytes_no_UB; rewrite ?zlen_le_bytes; lia.
Qed.

Lemma append_bytes_wpos data b o b' :
  0 <= bb_wpos b → bb_wpos b + zlen data < 2 ^ 64 → append_bytes data b = (o, b') →
  0 <= bb_wpos b' <= bb_wpos b + zlen data.
Proof.
  intros Hw Hn. pose proof (zlen_nonneg data). unfold append_bytes, append_ptr.
  repeat case_match; intros [= <- <-]; cbn; rewrite ?wrap_small by lia; lia.
Qed.

Lemma write_string_no_UB s b : cursors_ok b → zlen s < 2 ^ 61 → is_UB (write_string s b).1 = false.
Proof.
  intros Hc Hs. pose proof Hc as (_ & _ & Hw & _). pose proof (zlen_nonneg s).
  unfold write_string, mbind, M_bind. destruct (zlen s =? 0).
  { cbn. apply append_value_no_UB; [lia|done]. }
  change (append_ptr (Some s) (zlen s)) with (append_bytes s).
  pose proof (append_bytes_no_UB s b ltac:(lia) ltac:(lia)) as E.
  destruct (append_bytes s b) as [[[]|e| |] b'] eqn:Eb; try done.
  apply append_bytes_wpos in Eb; [|lia..]. unfold append_value. rewrite EndianConvert_bytes.
  apply append_bytes_no_UB; rewrite ?zlen_le_bytes; lia.
Qed.

Lemma append_buffer_UB buffer b :
  cursors_ok b → 0 <= bb_wpos buffer < 2 ^ 61 →
  is_UB (append_buffer buffer b).1 = goes_wrong (OAppendBuffer buffer) b.
Proof.
  intros (_ & _ & Hw & _) Hp. unfold append_buffer, goes_wrong, contents.
  destruct (Z.eqb_spec (bb_wpos buffer) 0) as [E|E].
  { rewrite E. pose proof (zlen_nonneg (bb_storage buffer)).
    rewrite (proj2 (Z.ltb_ge _ _)) by (unfold size; lia). by rewrite andb_false_r. }
  destruct (empty buffer); [done|]. rewrite append_ptr_UB by lia.
  rewrite (proj2 (Z.eqb_neq _ _)) by done. unfold size at 3. rewrite <- Z.ltb_antisym.
  cbn [negb andb]. apply andb_comm.
Qed.

Lemma appendPackGUID_loop_length fuel i guid mark bytes :
  (length (appendPackGUID_loop fuel i guid mark bytes).2 <= fuel + length bytes)%nat.
Proof.
  revert i guid mark bytes. induction fuel as [|fuel IH]; intros i guid mark bytes;
    cbn [appendPackGUID_loop]; [cbn; lia|].
  case_match; [cbn; lia|]. case_match; (etransitivity; [apply IH|]); rewrite ?length_app; cbn; lia.
Qed.

Lemma appendPackGUID_no_UB guid b : cursors_ok b → is_UB (appendPackGUID guid b).1 = false.
Proof.
  intros (_ & _ & Hw & _). unfold appendPackGUID.
  pose proof (appendPackGUID_loop_length 8 0 guid 0 []) as L.
  destruct (appendPackGUID_loop 8 0 guid 0 []) as [mark bytes]. cbn in L.
  apply append_bytes_no_UB; unfold zlen; cbn [length]; lia.
Qed.

Lemma put_ptr_no_UB pos data b :
  0 <= pos < 2 ^ 61 → zlen data < 2 ^ 61 → is_UB (put_ptr pos (Some data) (zlen data) b).1 = false.
Proof.
  intros Hp Hd. pose proof (zlen_nonneg data). unfold put_ptr. rewrite wrap_small by lia.
  destruct (Z.leb_spec (pos + zlen data) (size b)); [|done]. cbn [negb]. case_match; [done|].
  by rewrite Z.leb_refl.
Qed.

Lemma reads_ok_read_bytes n b : 0 <= n < 2 ^ 61 → cursors_ok b → reads_ok (read_bytes n) b.
Proof.
  intros Hn (_ & Hr & _ & Hs) o b'. unfold read_bytes. rewrite wrap_small by lia.
  destruct (Z.ltb_spec (size b) (bb_rpos b + n)).
  { intros [= <- <-]. repeat split; lia. }
  rewrite (proj2 (Z.leb_le _ _)) by lia. intros [= <- <-]. cbn. repeat split; lia.
Qed.

Lemma reads_ok_read_at n pos b : (n <= 8)%nat → 0 <= pos < 2 ^ 61 → reads_ok (read_at n pos) b.
Proof.
  intros Hn Hp o b'. unfold read_at. rewrite wrap_small by lia.
  destruct (Z.ltb_spec (size b) (pos + Z.of_nat n)).
  { intros [= <- <-]. repeat split; lia. }
  rewrite (proj2 (Z.leb_le _ _)) by lia. intros [= <- <-]. repeat split; lia.
Qed.

#[local] Hint Resolve reads_ok_ignore reads_ok_no_UB reads_ok_read_value reads_ok_read_bytes reads_ok_read_at
  reads_ok_cstring reads_ok_guid append_value_no_UB put_ptr_no_UB write_string_no_UB
  appendPackGUID_no_UB : byte_buffer.

End safety.


(** The bound is needed: a skip of 2^64 - 1 passes the check and moves back. *)
Example read_skip_wraps :
  read_skip (2 ^ 64 - 1) (mkBB 1 3 [7; 8; 9]) = (Ret (), mkBB 0 3 [7; 8; 9]).
Proof. by vm_compute. Qed.
(** A read past the end: the two sizes come out the wrong way round in the
    message. *)
Example position_message :
  match eval (read_at (H := LittleEndian) 4 1) (mkBB 0 0 [7; 8]) with
  | Throw e => what e
  | _ => []
  end = str "Attempted to get value with size: 2 in ByteBuffer (pos: 1 size: 4)".
Proof. by vm_compute. Qed.

(** ** Packed time *)

(** The fields of [tm] that fit the packed layout; seconds are not packed, and
    the day of the week is packed but not read back. *)
Definition packable (lt : tm) : Prop :=
  0 <= tm_min lt < 60 ∧ 0 <= tm_hour lt < 24 ∧ 1 <= tm_mday lt <= 31 ∧
  0 <= tm_mon lt < 12 ∧ 100 <= tm_year lt < 132 ∧ 0 <= tm_wday lt < 7.

Definition drop_second (lt : tm) : tm :=
  mkTm 0 (tm_min lt) (tm_hour lt) (tm_mday lt) (tm_mon lt) (tm_year lt) 0.

(** The packed word as a sum: the fields do not overlap. *)
Lemma pack_tm_sum lt :
  packable lt →
  pack_tm lt = (tm_year lt - 100) * 2 ^ 24 + tm_mon lt * 2 ^ 20 + (tm_mday lt - 1) * 2 ^ 14
    + tm_wday lt * 2 ^ 11 + tm_hour lt * 2 ^ 6 + tm_min lt.
Proof.
  unfold packable. intros (? & ? & ? & ? & ? & ?). unfold pack_tm.
  rewrite !Z.shiftl_mul_pow2 by lia.
  assert (∀ hi lo n, 0 <= n → 0 <= lo < 2 ^ n → Z.lor (hi * 2 ^ n) lo = hi * 2 ^ n + lo) as L.
  { intros. rewrite Z.lor_comm, (lor_low_high n _ hi) by done. lia. }
  set (y := tm_year lt - 100) in *.
  rewrite (L y _ 24) by lia.
  replace (y * 2 ^ 24 + tm_mon lt * 2 ^ 20) with ((y * 2 ^ 4 + tm_mon lt) * 2 ^ 20) by lia.
  rewrite (L _ _ 20) by lia. set (a := y * 2 ^ 4 + tm_mon lt).
  replace (a * 2 ^ 20 + (tm_mday lt - 1) * 2 ^ 14)
    with ((a * 2 ^ 6 + (tm_mday lt - 1)) * 2 ^ 14) by lia.
  rewrite (L _ _ 14) by lia. set (c := a * 2 ^ 6 + (tm_mday lt - 1)).
  replace (c * 2 ^ 14 + tm_wday lt * 2 ^ 11) with ((c * 2 ^ 3 + tm_wday lt) * 2 ^ 11) by lia.
  rewrite (L _ _ 11) by lia. set (d := c * 2 ^ 3 + tm_wday lt).
  replace (d * 2 ^ 11 + tm_hour lt * 2 ^ 6) with ((d * 2 ^ 5 + tm_hour lt) * 2 ^ 6) by lia.
  rewrite (L _ _ 6) by lia. unfold d, c, a. lia.
Qed.

Lemma land_mask n v : 0 <= n → Z.land v (Z.ones n) = v mod 2 ^ n.
Proof. apply Z.land_ones. Qed.

Lemma unpack_pack_tm lt : packable lt → unpack_tm (pack_tm lt) = drop_second lt.
Proof.
  intros H. rewrite (pack_tm_sum lt H). unfold packable in H. destruct H as (? & ? & ? & ? & ? & ?).
  unfold unpack_tm, drop_second.
  change 0x3F with (Z.ones 6). change 0x1F with (Z.ones 5). change 0xF with (Z.ones 4).
  rewrite !land_mask, !Z.shiftr_div_pow2 by lia. f_equal; divmod_lia.
Qed.

Lemma pack_tm_range lt : packable lt → 0 <= pack_tm lt < 2 ^ 32.
Proof. intros H. rewrite pack_tm_sum by done. unfold packable in H. lia. Qed.

(** The three coordinates do not overlap: each is in the word, at its width. *)
Lemma pack_xyz_fields x y z :
  let packed := pack_xyz x y z in
  packed mod 2 ^ 11 = x mod 2 ^ 11 ∧ packed / 2 ^ 11 mod 2 ^ 11 = y mod 2 ^ 11 ∧
  packed / 2 ^ 22 = z mod 2 ^ 10 ∧ 0 <= packed < 2 ^ 32.
Proof.
  unfold pack_xyz. change 0x7FF with (Z.ones 11). change 0x3FF with (Z.ones 10).
  rewrite !land_mask, !Z.shiftl_mul_pow2 by lia.
  pose proof (Z.mod_pos_bound x (2 ^ 11) ltac:(lia)). pose proof (Z.mod_pos_bound y (2 ^ 11) ltac:(lia)).
  pose proof (Z.mod_pos_bound z (2 ^ 10) ltac:(lia)).
  set (a := x mod 2 ^ 11) in *. set (b := y mod 2 ^ 11) in *. set (c := z mod 2 ^ 10) in *.
  rewrite (lor_low_high 11 a b), (lor_low_high 22 _ c) by lia. rewrite wrap_small by lia.
  repeat split; divmod_lia.
Qed.

(** A time stamp packed into 32 bits by a server of either byte order is
    read back by a server of either byte order as the same local time to the
    minute, for the years the five-bit field can hold. *)
Theorem packed_time_roundtrip (H1 H2 : Host) (localtime : Z → tm) (mktime : tm → Z)
    (now time : Z) (b : ByteBuffer) :
  let lt := Time.TimeBreakdown localtime now time in
  at_end b → size b < 9999990 → bb_rpos b = size b → packable lt →
  ∃ b', AppendPackedTime (H := H1) localtime now time b = (Ret (), b') ∧
    bb_storage b' = bb_storage b ++ le_bytes 4 (pack_tm lt) ∧
    (ReadPackedTime (H := H2) mktime b').1 = Ret (u32 (mktime (drop_second lt))).
Proof.
  intros lt Hb Hs Hr Hlt. exists (extend (le_bytes 4 (pack_tm lt)) b).
  split; [apply append_value_spec; try done; lia|]. split; [done|].
  assert (readable (extend (le_bytes 4 (pack_tm lt)) b)) as Hrd.
  { split; [apply at_end_extend; [done|apply le_bytes_bytes|rewrite zlen_le_bytes; lia]|].
    unfold size, extend in *. cbn [bb_rpos bb_storage]. rewrite zlen_app, zlen_le_bytes. lia. }
  assert (rest (extend (le_bytes 4 (pack_tm lt)) b) = le_bytes 4 (pack_tm lt) ++ []) as Hrest.
  { unfold rest, extend, size in *. cbn [bb_rpos bb_storage]. rewrite Hr, app_nil_r.
    apply zdrop_app_exact. }
  unfold ReadPackedTime.
  erewrite bind_run by (by eapply (read_value_spec 4), zlen_le_bytes).
  rewrite le_value_bytes, (wrap_small _ (pack_tm lt)) by by apply pack_tm_range.
  by rewrite unpack_pack_tm.
Qed.

Lemma packed_time_roundtrip_witness :
  let lt := mkTm 41 59 23 31 11 122 6 in
  packable lt ∧
  ∃ b', AppendPackedTime (H := BigEndian) (λ _, lt) 7 0 new = (Ret (), b') ∧
    bb_storage b' = [] ++ le_bytes 4 (pack_tm lt) ∧
    (ReadPackedTime (H := LittleEndian) (λ t, tm_min t) b').1 = Ret 59.
Proof.
  assert (packable (mkTm 41 59 23 31 11 122 6)) as Hp by (unfold packable; cbn; lia).
  split; [exact Hp|].
  apply (packed_time_roundtrip BigEndian LittleEndian
    (λ _, mkTm 41 59 23 31 11 122 6) (λ t, tm_min t) 7 0 new);
    [apply at_end_new|by vm_compute|done|exact Hp].
Defined.
End BB.
