(* ===== verification/Dumps.v ===== *)
(** * Dumps: packets printed for the log

    Model of the three functions of [src/src/server/Server/Packets/ByteBuffer.cpp]
    that print a buffer: the text is what they log. *)

From S2P Require Import Prelude MessageBuffer Utf8 Strings Timer ByteBuffer.
Open Scope Z_scope.

Module Dumps.
Section dumps.
Context {H : Host}.
Import BB.

Definition head_line (b : ByteBuffer) : list Z := str "STORAGE_SIZE: " ++ Strings.fmt_dec (size b).

(** A [uint8] goes to the stream as a character. *)
Fixpoint print_storage_loop (n : nat) (i : Z) : BM (list Z) :=
  match n with
  | O => mret []
  | S n =>
      c ← read_at 1 i;
      o ← print_storage_loop n (u32 (i + 1));
      mret (c :: str " - " ++ o)
  end.

Definition print_storage : BM (list Z) := λ b,
  (o ← print_storage_loop (Z.to_nat (size b)) 0; mret (head_line b ++ o ++ str " ")) b.

Fixpoint textlike_loop (n : nat) (i : Z) : BM (list Z) :=
  match n with
  | O => mret []
  | S n =>
      c ← read_at 1 i;
      o ← textlike_loop n (u32 (i + 1));
      mret (c :: o)
  end.

Definition textlike : BM (list Z) := λ b,
  (o ← textlike_loop (Z.to_nat (size b)) 0; mret (head_line b ++ str ". '" ++ o ++ str "'")) b.

(** [hexlike]: [j] and [k] count the blocks of eight and of sixteen begun. *)
Fixpoint hexlike_loop (n : nat) (i j k : Z) : BM (list Z) :=
  match n with
  | O => mret []
  | S n =>
      c ← read_at 1 i;
      buf ← lift (Strings.ToString_int c);
      let '(separator, j, k) :=
        if (i =? u32 (j * 8)) && negb (i =? u32 (k * 16)) then (str "| ", u32 (j + 1), k)
        else if i =? u32 (k * 16) then ([10], u32 (j + 1), u32 (k + 1))
        else ([], j, k) in
      o ← hexlike_loop n (u32 (i + 1)) j k;
      mret (separator ++ buf ++ o)
  end.

Definition hexlike : BM (list Z) := λ b,
  (o ← hexlike_loop (Z.to_nat (size b)) 0 1 1; mret (head_line b ++ o ++ str " ")) b.

(** ** What they print *)

Lemma read_byte b i c :
  wf b → 0 <= i → bb_storage b !! Z.to_nat i = Some c → read_at 1 i b = (Ret c, b).
Proof.
  intros Hb Hi Ec. pose proof (lookup_lt_Some _ _ _ Ec) as Hl. pose proof (wf_size b Hb) as Hs.
  unfold size, zlen in *. unfold read_at, size, zlen. rewrite wrap_small by lia.
  rewrite (proj2 (Z.ltb_ge _ _)), (proj2 (Z.leb_le _ _)) by lia.
  do 2 f_equal. assert (slice i (Z.of_nat 1) (bb_storage b) = [c]) as ->.
  { unfold slice, ztake, zdrop. rewrite (drop_S _ c) by done. by destruct (drop _ _). }
  unfold host_value, EndianConvert. destruct host_endian; cbn; lia.
Qed.

(** The rest of the bytes from a position on, one at a time. *)
Lemma from_position b i n :
  0 <= i → size b = i + Z.of_nat (S n) →
  ∃ c, bb_storage b !! Z.to_nat i = Some c ∧ zdrop i (bb_storage b) = c :: zdrop (i + 1) (bb_storage b).
Proof.
  unfold size, zlen. intros Hi Hs.
  destruct (lookup_lt_is_Some_2 (bb_storage b) (Z.to_nat i)) as [c Ec]; [lia|]. exists c.
  split; [done|]. unfold zdrop. rewrite (drop_S _ c) by done. do 2 f_equal. lia.
Qed.

Lemma nothing_left b i : 0 <= i → size b = i + Z.of_nat 0 → zdrop i (bb_storage b) = [].
Proof. unfold size, zlen, zdrop. intros. apply drop_ge. lia. Qed.

Lemma print_storage_loop_text n : ∀ b i,
  wf b → size b < 2 ^ 32 → 0 <= i → size b = i + Z.of_nat n →
  print_storage_loop n i b =
    (Ret (concat (map (λ c, c :: str " - ") (zdrop i (bb_storage b)))), b).
Proof.
  induction n as [|n IH]; intros b i Hb Hs Hi Hn; cbn [print_storage_loop].
  - by rewrite nothing_left.
  - destruct (from_position b i n Hi Hn) as (c & Ec & ->). rewrite (bind_run _ _ _ _ _ (read_byte b i c Hb Hi Ec)).
    rewrite wrap_small by lia. by rewrite (bind_run _ _ _ _ _ (IH b (i + 1) Hb Hs ltac:(lia) ltac:(lia))).
Qed.

Lemma textlike_loop_text n : ∀ b i,
  wf b → size b < 2 ^ 32 → 0 <= i → size b = i + Z.of_nat n →
  textlike_loop n i b = (Ret (zdrop i (bb_storage b)), b).
Proof.
  induction n as [|n IH]; intros b i Hb Hs Hi Hn; cbn [textlike_loop].
  - by rewrite nothing_left.
  - destruct (from_position b i n Hi Hn) as (c & Ec & ->). rewrite (bind_run _ _ _ _ _ (read_byte b i c Hb Hi Ec)).
    rewrite wrap_small by lia. by rewrite (bind_run _ _ _ _ _ (IH b (i + 1) Hb Hs ltac:(lia) ltac:(lia))).
Qed.

(** What is printed before the byte at a position. *)
Definition separator (i : Z) : list Z :=
  if i =? 0 then [] else if i mod 16 =? 0 then [10] else if i mod 8 =? 0 then str "| " else [].

Fixpoint lines (i : Z) (bytes : list Z) : list Z :=
  match bytes with
  | [] => []
  | c :: bytes => separator i ++ Strings.fmt_dec c ++ lines (i + 1) bytes
  end.

Lemma byte_text c : is_byte c → Strings.ToString_int c = Ret (Strings.fmt_dec c).
Proof.
  unfold is_byte. intros Hc. pose (T := Strings.mkInt false 8).
  destruct (Strings.int_text T c) as (buf & E & _); [done|cbn; lia|]. unfold Strings.ToString_int, Strings.fmt_dec in *.
  by destruct (Strings.to_chars 20 c).
Qed.

(** The counters at a position: how many blocks of [m] began before it. *)
Definition blocks (m i : Z) : Z := Z.max 1 ((i + m - 1) / m).

Lemma blocks_next m i :
  m = 8 ∨ m = 16 → 0 <= i →
  (i = blocks m i * m ↔ i ≠ 0 ∧ i mod m = 0) ∧
  blocks m (i + 1) = if (i =? 0) || negb (i mod m =? 0) then blocks m i else blocks m i + 1.
Proof.
  unfold blocks. intros Hm Hi.
  pose proof (Z.div_mod i m ltac:(lia)) as D. pose proof (Z.mod_pos_bound i m ltac:(lia)) as R.
  assert (0 <= i / m) by (apply Z.div_pos; lia). set (q := i / m) in *. set (r := i mod m) in *.
  replace (i + m - 1) with ((r + (m - 1)) + q * m) by lia.
  replace (i + 1 + m - 1) with (r + (q + 1) * m) by lia.
  rewrite !Z.div_add, (Z.div_small r m) by lia.
  assert ((r + (m - 1)) / m = if r =? 0 then 0 else 1) as ->.
  { destruct (Z.eqb_spec r 0) as [->|Hr]; [apply Z.div_small; lia|].
    replace (r + (m - 1)) with ((r - 1) + 1 * m) by lia. rewrite Z.div_add, Z.div_small by lia. lia. }
  destruct (Z.eqb_spec r 0), (Z.eqb_spec i 0); cbn [orb negb]; (split; [nia|]); nia.
Qed.

Lemma hexlike_step i c n b :
  wf b → size b < 2 ^ 28 → 0 <= i < size b → bb_storage b !! Z.to_nat i = Some c →
  hexlike_loop (S n) i (blocks 8 i) (blocks 16 i) b =
    (o ← hexlike_loop n (i + 1) (blocks 8 (i + 1)) (blocks 16 (i + 1));
     mret (separator i ++ Strings.fmt_dec c ++ o)) b.
Proof.
  intros Hb Hs Hi Ec. cbn [hexlike_loop]. rewrite (bind_run _ _ _ _ _ (read_byte b i c Hb ltac:(lia) Ec)).
  assert (is_byte c) as Hc by (eapply Forall_lookup_1; [apply Hb|exact Ec]).
  rewrite (byte_text c Hc). rewrite (bind_run _ _ b (Strings.fmt_dec c) b) by done.
  destruct (blocks_next 8 i ltac:(by left) ltac:(lia)) as [E8 ->].
  destruct (blocks_next 16 i ltac:(by right) ltac:(lia)) as [E16 ->].
  assert (1 <= blocks 8 i <= 2 ^ 26) by (unfold blocks; Z.to_euclidean_division_equations; lia).
  assert (1 <= blocks 16 i <= 2 ^ 26) by (unfold blocks; Z.to_euclidean_division_equations; lia).
  rewrite !wrap_small by lia. unfold separator.
  destruct (Z.eqb_spec i (blocks 8 i * 8)) as [H8|H8], (Z.eqb_spec i (blocks 16 i * 16)) as [H16|H16];
    cbn [andb negb]; destruct (Z.eqb_spec i 0), (Z.eqb_spec (i mod 8) 0), (Z.eqb_spec (i mod 16) 0);
    cbn [orb negb]; try done; exfalso; (tauto || Z.to_euclidean_division_equations; lia).
Qed.

Lemma hexlike_loop_text n : ∀ b i,
  wf b → size b < 2 ^ 28 → 0 <= i → size b = i + Z.of_nat n →
  hexlike_loop n i (blocks 8 i) (blocks 16 i) b = (Ret (lines i (zdrop i (bb_storage b))), b).
Proof.
  induction n as [|n IH]; intros b i Hb Hs Hi Hn.
  - cbn [hexlike_loop]. by rewrite nothing_left.
  - destruct (from_position b i n Hi Hn) as (c & Ec & ->).
    rewrite (hexlike_step i c n b Hb Hs ltac:(lia) Ec).
    by rewrite (bind_run _ _ _ _ _ (IH b (i + 1) Hb Hs ltac:(lia) ltac:(lia))).
Qed.

(** The three texts: every byte once, in order, nothing else changed; the counters
    of [hexlike] break the line every sixteen bytes and mark the middle of each. *)
Theorem dumps_exact (b : ByteBuffer) :
  wf b → size b < 2 ^ 28 →
  print_storage b = (Ret (head_line b ++ concat (map (λ c, c :: str " - ") (bb_storage b)) ++ str " "), b) ∧
  textlike b = (Ret (head_line b ++ str ". '" ++ bb_storage b ++ str "'"), b) ∧
  hexlike b = (Ret (head_line b ++ lines 0 (bb_storage b) ++ str " "), b).
Proof.
  intros Hb Hs. assert (size b = 0 + Z.of_nat (Z.to_nat (size b))) as Hn
    by (unfold size; pose proof (zlen_nonneg (bb_storage b)); lia).
  unfold print_storage, textlike, hexlike.
  rewrite (bind_run _ _ _ _ _ (print_storage_loop_text _ b 0 Hb ltac:(lia) ltac:(done) Hn)).
  rewrite (bind_run _ _ _ _ _ (textlike_loop_text _ b 0 Hb ltac:(lia) ltac:(done) Hn)).
  by rewrite (bind_run _ _ _ _ _ (hexlike_loop_text _ b 0 Hb Hs ltac:(done) Hn)).
Qed.

End dumps.

(** The bytes are printed in decimal with nothing between them: different packets
    have the same dump. *)
Example hexlike_is_ambiguous :
  (hexlike (H := LittleEndian) (mkBB 0 0 [1; 23])).1 =
  (hexlike (H := LittleEndian) (mkBB 0 0 [12; 3])).1.
Proof. vm_compute. reflexivity. Qed.

Example dumps_example :
  (hexlike (H := LittleEndian) (mkBB 0 0 (seqZ 0 18))).1 =
    Ret (str "STORAGE_SIZE: 1801234567| 89101112131415" ++ [10] ++ str "1617 ").
Proof. vm_compute. reflexivity. Qed.
End Dumps.
