(* ===== verification/Wire.v ===== *)
(** * Wire: the interface between packets and the byte buffer

    A [Wire] value says how a C++ value travels: its operators [<<] and [>>],
    the values that can be sent and the bytes they become.  [WireLaws] is what
    the buffer promises about them; packets are proved against these laws. *)

From S2P Require Import Prelude MessageBuffer Utf8 Timer ByteBuffer.
Open Scope Z_scope.
Import BB.

(** The assertion of [append] allows a buffer to grow up to this size. *)
Definition MAX_SIZE : Z := 10000000.

Record Wire (A : Type) := mkWire {
  w_ok : A → Prop;
  w_bytes : A → list Z;
  w_put : A → M exn ByteBuffer ();
  w_get : M exn ByteBuffer A
}.
Arguments mkWire {A}.
Arguments w_ok {A} _ _.
Arguments w_bytes {A} _ _.
Arguments w_put {A} _ _ _.
Arguments w_get {A} _ _.

Class WireLaws {A} (W : Wire A) : Prop := {
  wire_bytes a : w_ok W a → Forall is_byte (w_bytes W a);
  wire_put a b :
    w_ok W a → at_end b → size b + zlen (w_bytes W a) < MAX_SIZE →
    w_put W a b = (Ret (), extend (w_bytes W a) b);
  wire_get a b r :
    w_ok W a → readable b → rest b = w_bytes W a ++ r →
    w_get W b = (Ret a, advance (zlen (w_bytes W a)) b)
}.

Section wires.
Context {H : Host}.

(** Unsigned and signed integers of [n] bytes, [bool], [std::string], packed
    GUIDs, and one value after another. *)
Definition uint_wire (n : nat) : Wire Z := {|
  w_ok v := (0 < n <= 8)%nat ∧ 0 <= v < 2 ^ (8 * Z.of_nat n);
  w_bytes := le_bytes n;
  w_put := write_int n;
  w_get := read_uint n
|}.

Definition int_wire (n : nat) : Wire Z := {|
  w_ok v := (0 < n <= 8)%nat ∧
    - 2 ^ (8 * Z.of_nat n - 1) <= v < 2 ^ (8 * Z.of_nat n - 1);
  w_bytes := le_bytes n;
  w_put := write_int n;
  w_get := read_int n
|}.

Definition bool_wire : Wire bool := {|
  w_ok _ := True;
  w_bytes (v : bool) := [if v then 1 else 0];
  w_put := write_bool;
  w_get := read_bool
|}.

Definition string_wire : Wire (list Z) := {|
  w_ok (s : list Z) := Forall is_byte s ∧ (0 ∉ s) ∧ Utf8.is_valid s = true;
  w_bytes s := s ++ [0];
  w_put := write_string;
  w_get := read_string
|}.

Definition guid_wire : Wire Z := {|
  w_ok g := 0 <= g < 2 ^ 64;
  w_bytes := BB.guid_wire;
  w_put := appendPackGUID;
  w_get := readPackGUID
|}.

Definition pair_wire {A B} (WA : Wire A) (WB : Wire B) : Wire (A * B) := {|
  w_ok := λ p : A * B, w_ok WA p.1 ∧ w_ok WB p.2;
  w_bytes := λ p : A * B, w_bytes WA p.1 ++ w_bytes WB p.2;
  w_put := λ p : A * B, w_put WA p.1 ;; w_put WB p.2;
  w_get := a ← w_get WA; b ← w_get WB; mret (a, b)
|}.

(** A counted loop of reads, for vectors whose length came before. *)
Fixpoint repeat_get {A} (WA : Wire A) (n : nat) : M exn ByteBuffer (list A) :=
  match n with
  | O => mret []
  | S n => a ← w_get WA; l ← repeat_get WA n; mret (a :: l)
  end.

Ltac wire_start :=
  split; cbn [w_ok w_bytes w_put w_get uint_wire int_wire bool_wire string_wire
    guid_wire pair_wire fst snd].

#[export] Instance uint_wire_laws n : WireLaws (uint_wire n).
Proof.
  wire_start.
  - intros. apply le_bytes_bytes.
  - intros v b [Hn Hv] Hb Hs. rewrite zlen_le_bytes in Hs. unfold MAX_SIZE in Hs.
    apply append_value_spec; try done; lia.
  - intros v b r [Hn Hv] Hb Hr.
    unfold read_uint. rewrite (read_value_spec n _ _ b Hb Hr) by apply zlen_le_bytes.
    rewrite le_value_bytes, wrap_small by done. by rewrite zlen_le_bytes.
Qed.

#[export] Instance int_wire_laws n : WireLaws (int_wire n).
Proof.
  wire_start.
  - intros. apply le_bytes_bytes.
  - intros v b [Hn Hv] Hb Hs. rewrite zlen_le_bytes in Hs. unfold MAX_SIZE in Hs.
    apply append_value_spec; try done; lia.
  - intros v b r [Hn Hv] Hb Hr.
    unfold read_int, mbind, M_bind.
    rewrite (read_value_spec n _ _ b Hb Hr) by apply zlen_le_bytes.
    rewrite le_value_bytes, swrap_wrap, swrap_small by (try done; lia).
    by rewrite zlen_le_bytes.
Qed.

#[export] Instance bool_wire_laws : WireLaws bool_wire.
Proof.
  wire_start.
  - intros [] _; repeat constructor; lia.
  - intros v b _ Hb Hs. rewrite zlen_cons, zlen_nil in Hs. unfold MAX_SIZE in Hs.
    unfold write_bool. rewrite append_value_spec; try done; try lia. by destruct v.
  - intros v b r _ Hb Hr. unfold read_bool, mbind, M_bind.
    rewrite (read_byte_spec b _ _ Hb Hr). by destruct v.
Qed.

#[export] Instance string_wire_laws : WireLaws string_wire.
Proof.
  wire_start.
  - intros s (Hs & _). apply Forall_app. split; [done|]. repeat constructor; lia.
  - intros s b (Hs & _) Hb Hsz. rewrite zlen_app in Hsz. unfold MAX_SIZE in Hsz.
    change (zlen [0]) with 1 in Hsz. apply write_string_spec; [done|lia|done].
  - intros s b r (Hs & H0 & Hv) Hb Hr. rewrite <- app_assoc in Hr. cbn in Hr.
    unfold read_string. rewrite (ReadCString_spec true s b r) by done.
    by rewrite zlen_app.
Qed.

#[export] Instance guid_wire_laws : WireLaws guid_wire.
Proof.
  wire_start.
  - intros g _. unfold BB.guid_wire. constructor; [|apply guid_bytes_bytes].
    unfold is_byte. pose proof (guid_mark_range 8 0 g ltac:(lia)). lia.
  - intros g b _ Hb Hs. apply appendPackGUID_spec; [done|].
    unfold MAX_SIZE in Hs. pose proof (zlen_nonneg (BB.guid_wire g)). lia.
  - intros g b r Hg Hb Hr. by apply (readPackGUID_spec g b r).
Qed.

#[export] Instance pair_wire_laws {A B} (WA : Wire A) (WB : Wire B) :
  WireLaws WA → WireLaws WB → WireLaws (pair_wire WA WB).
Proof.
  intros LA LB. wire_start.
  - intros [a c] [Ha Hc]. apply Forall_app. eauto using wire_bytes.
  - intros [a c] b [Ha Hc] Hb Hs. cbn in *. rewrite zlen_app in Hs.
    pose proof (zlen_nonneg (w_bytes WA a)). pose proof (zlen_nonneg (w_bytes WB c)).
    unfold MAX_SIZE in *. erewrite bind_run by (apply wire_put; unfold MAX_SIZE; eauto; lia).
    rewrite wire_put; [by rewrite extend_extend|done| |].
    + apply at_end_extend; [done|by apply wire_bytes|]. pose proof (size_nonneg b). lia.
    + unfold size, extend in *. cbn. rewrite zlen_app. unfold MAX_SIZE. lia.
  - intros [a c] b r [Ha Hc] Hb Hr. cbn in *. rewrite <- app_assoc in Hr.
    destruct (rest_advance b _ _ Hb Hr) as [Hr' Hb'].
    erewrite bind_run by (by eapply wire_get).
    erewrite bind_run by (by eapply wire_get).
    unfold mret, M_ret. by rewrite advance_advance, zlen_app.
Qed.

Lemma repeat_get_spec {A} (WA : Wire A) `{!WireLaws WA} l b r :
  Forall (w_ok WA) l → readable b → rest b = concat (map (w_bytes WA) l) ++ r →
  repeat_get WA (length l) b = (Ret l, advance (zlen (concat (map (w_bytes WA) l))) b).
Proof.
  intros Hl. revert b. induction Hl as [|a l Ha Hl IH]; intros b Hb Hr; cbn in *.
  { by rewrite advance_0. }
  rewrite <- app_assoc in Hr. destruct (rest_advance b _ _ Hb Hr) as [Hr' Hb'].
  erewrite bind_run by (by eapply wire_get).
  erewrite bind_run by (by eapply IH).
  unfold mret, M_ret. by rewrite advance_advance, zlen_app.
Qed.

(** What was put into a fresh buffer is what the other side gets, and nothing
    is left over. *)
Lemma wire_roundtrip {A} (W : Wire A) `{!WireLaws W} a :
  w_ok W a → zlen (w_bytes W a) < MAX_SIZE →
  ∃ b, w_put W a new = (Ret (), b) ∧ bb_storage b = w_bytes W a ∧
    ∃ b', w_get W b = (Ret a, b') ∧ rest b' = [].
Proof.
  intros Ha Hs. exists (extend (w_bytes W a) new).
  pose proof (zlen_nonneg (w_bytes W a)). unfold MAX_SIZE in *.
  assert (at_end (extend (w_bytes W a) new)) as Hb.
  { apply at_end_extend; [apply at_end_new|by apply wire_bytes|].
    change (size new) with 0. lia. }
  assert (readable (extend (w_bytes W a) new)) as Hr.
  { split; [apply Hb|]. apply zlen_nonneg. }
  split; [apply wire_put; [done|apply at_end_new|change (size new) with 0; unfold MAX_SIZE; lia]|].
  split; [done|].
  assert (rest (extend (w_bytes W a) new) = w_bytes W a ++ []) as Hrest.
  { by rewrite app_nil_r. }
  eexists. split; [by eapply wire_get|].
  by apply (rest_advance _ _ [] Hr).
Qed.
End wires.

(** ** Payloads of any shape

    A payload is a list of typed fields, written and read with the stream
    operators, one after another. *)

Inductive ftype := TUint (n : nat) | TInt (n : nat) | TBool | TString | TGuid.

Definition fvalue (t : ftype) : Type :=
  match t with
  | TUint _ | TInt _ | TGuid => Z
  | TBool => bool
  | TString => list Z
  end.

Section payloads.
Context {H : Host}.

Definition fwire (t : ftype) : Wire (fvalue t) :=
  match t with
  | TUint n => uint_wire n
  | TInt n => int_wire n
  | TBool => bool_wire
  | TString => string_wire
  | TGuid => guid_wire
  end.

#[export] Instance fwire_laws t : WireLaws (fwire t).
Proof. destruct t; apply _. Qed.

Fixpoint payload (ts : list ftype) : Type :=
  match ts with
  | [] => unit
  | t :: ts => (fvalue t * payload ts)%type
  end.

Definition nil_wire : Wire unit := {|
  w_ok _ := True;
  w_bytes _ := [];
  w_put _ := mret ();
  w_get := mret ()
|}.

#[export] Instance nil_wire_laws : WireLaws nil_wire.
Proof.
  split; cbn.
  - constructor.
  - intros [] b _ _ _. by rewrite extend_nil.
  - intros [] b r _ _ _. by rewrite advance_0.
Qed.

Fixpoint payload_wire (ts : list ftype) : Wire (payload ts) :=
  match ts with
  | [] => nil_wire
  | t :: ts => pair_wire (fwire t) (payload_wire ts)
  end.

#[export] Instance payload_wire_laws ts : WireLaws (payload_wire ts).
Proof. induction ts; cbn; apply _. Qed.
End payloads.

(** The bytes on the wire do not depend on the host. *)
Lemma payload_bytes_host (H1 H2 : Host) ts (v : payload ts) :
  w_bytes (payload_wire (H := H1) ts) v = w_bytes (payload_wire (H := H2) ts) v ∧
  (w_ok (payload_wire (H := H1) ts) v ↔ w_ok (payload_wire (H := H2) ts) v).
Proof.
  induction ts as [|t ts IH]; [done|]. destruct v as [x v]. destruct (IH v) as [E1 E2].
  destruct t; cbn in *; rewrite E1, E2; done.
Qed.

(** A payload of integers, flags, strings and packed GUIDs, in any order,
    written into a fresh buffer on a machine of either byte order, is read back
    unchanged on a machine of either byte order, up to its last byte. *)
Theorem payload_roundtrip (H1 H2 : Host) (ts : list ftype) (v : payload ts) :
  w_ok (payload_wire (H := H1) ts) v →
  zlen (w_bytes (payload_wire (H := H1) ts) v) < MAX_SIZE →
  ∃ b, w_put (payload_wire (H := H1) ts) v new = (Ret (), b) ∧
    ∃ b', w_get (payload_wire (H := H2) ts) b = (Ret v, b') ∧ rest b' = [].
Proof.
  intros Hok Hs. destruct (payload_bytes_host H1 H2 ts v) as [E1 E2].
  destruct (wire_roundtrip (payload_wire (H := H1) ts) v Hok Hs) as (b & Hput & Hst & _).
  exists b. split; [done|].
  destruct (wire_roundtrip (payload_wire (H := H2) ts) v) as (b2 & Hput2 & _ & Hget);
    [by apply E2|by rewrite <- E1|].
  assert (∀ Hx : Host, w_ok (payload_wire (H := Hx) ts) v →
    zlen (w_bytes (payload_wire (H := Hx) ts) v) < MAX_SIZE →
    w_put (payload_wire (H := Hx) ts) v new
      = (Ret (), extend (w_bytes (payload_wire (H := Hx) ts) v) new)) as P.
  { intros Hx ? ?. apply wire_put; [done|apply at_end_new|done]. }
  rewrite P in Hput by done. rewrite P in Hput2 by (by apply E2 || by rewrite <- E1).
  rewrite <- E1 in Hput2. by simplify_eq.
Qed.

Lemma payload_roundtrip_witness :
  ∃ b, w_put (payload_wire (H := BigEndian) [TUint 2; TInt 8; TBool; TString; TGuid])
         (513, (-2, (true, ([104; 105], (0x1200003400, tt))))) new = (Ret (), b) ∧
    ∃ b', w_get (payload_wire (H := LittleEndian) [TUint 2; TInt 8; TBool; TString; TGuid]) b
            = (Ret (513, (-2, (true, ([104; 105], (0x1200003400, tt))))), b') ∧ rest b' = [].
Proof.
  apply (payload_roundtrip BigEndian LittleEndian [TUint 2; TInt 8; TBool; TString; TGuid]
    (513, (-2, (true, ([104; 105], (0x1200003400, tt)))))); [|by vm_compute].
  cbn. repeat split; try lia; [repeat constructor; unfold is_byte; lia|set_solver].
Defined.
