(* ===== verification/Packets.v ===== *)
(** * Packets: what travels between relay and game servers

    Model of [DiscordPacket.h], [Packet.h]/[.cpp], [Packets/PacketUtilities.h]/[.cpp],
    [Packets/PacketsImpl] and [Protocol/Opcodes.h]/[.cpp] under
    [src/src/server/Server], and of [src/src/shared/DiscordPacketHeader.h]. *)

From S2P Require Import Prelude MessageBuffer Utf8 Strings Timer Enums ByteBuffer Wire.
Open Scope Z_scope.
Import BB.

(** ** Packets *)

Record DiscordPacket := mkPacket {
  dp_opcode : Z;
  dp_buf : ByteBuffer
}.

#[export] Instance DiscordPacket_eq_dec : EqDecision DiscordPacket.
Proof. solve_decision. Defined.

Module Packet.

Definition new (opcode : Z) : DiscordPacket := mkPacket opcode BB.new.

(** [DiscordPacket(uint16, MessageBuffer&&)]: also what is left of the buffer. *)
Definition new_from_message (opcode : Z) (buffer : MessageBuffer) : DiscordPacket * MessageBuffer :=
  let '(b, buffer') := BB.new_from_message buffer in (mkPacket (u16 opcode) b, buffer').

(** Assigning [right] to [this], which may be the same object, and what is left of
    [right]: its opcode stays. *)
Definition copy_assign (same : bool) (this right : DiscordPacket) : DiscordPacket :=
  if negb same then mkPacket (dp_opcode right) (BB.copy_assign false (dp_buf this) (dp_buf right))
  else this.
Definition move_assign (same : bool) (this right : DiscordPacket) : DiscordPacket * DiscordPacket :=
  if negb same then
    let '(taken, remains) := BB.move_assign false (dp_buf this) (dp_buf right) in
    (mkPacket (dp_opcode right) taken, mkPacket (dp_opcode right) remains)
  else (this, this).

Definition Initialize (opcode : Z) (p : DiscordPacket) : DiscordPacket :=
  mkPacket opcode (clear (dp_buf p)).

Definition SetOpcode (opcode : Z) (p : DiscordPacket) : DiscordPacket :=
  mkPacket opcode (dp_buf p).

(** [ServerPacket::Read], [ClientPacket::Write] and the checking constructor. *)
Definition ServerPacket_Read : M exn DiscordPacket () := assert_ false.
Definition ClientPacket_Write : M exn DiscordPacket () := assert_ false.
Definition ClientPacket_new (expectedOpcode : DiscordCode.t) (packet : DiscordPacket)
  : outcome exn DiscordPacket :=
  if dp_opcode packet =? DiscordCode.value expectedOpcode then Ret packet else AssertFail.
End Packet.

(** ** Headers *)

Module Header.

(** [DiscordServerPktHeader]: the six bytes; [size] counts the opcode too. *)
Definition DiscordServerPktHeader (size cmd : Z) : list Z :=
  [Z.land 0xFF (Z.shiftr size 24); Z.land 0xFF (Z.shiftr size 16);
   Z.land 0xFF (Z.shiftr size 8); Z.land 0xFF size;
   Z.land 0xFF cmd; Z.land 0xFF (Z.shiftr cmd 8)].

Definition GetHeaderLength : Z := 4 + 2.

(** The packed structure a client sends: its size in memory, and its fields as
    [ReadHeaderHandler] sees them after the byte order conversions. *)
Record DiscordClientPktHeader := mkHeader { h_size : Z; h_cmd : Z }.

Definition sizeof_DiscordClientPktHeader : Z := 4 + 2.

Definition IsValidSize (h : DiscordClientPktHeader) : bool :=
  (2 <=? h_size h) && (h_size h <? 10000).

Definition IsValidOpcode (h : DiscordClientPktHeader) : bool :=
  h_cmd h <? NUM_DISCORD_CODE_HANDLERS.

Definition decode {H : Host} (bs : list Z) : DiscordClientPktHeader :=
  mkHeader (host_value (EndianConvertReverse (ztake 4 bs)))
           (host_value (EndianConvert (slice 4 2 bs))).

Lemma decode_spec {H : Host} b0 b1 b2 b3 b4 b5 r :
  decode (b0 :: b1 :: b2 :: b3 :: b4 :: b5 :: r) =
  mkHeader (b3 + 256 * (b2 + 256 * (b1 + 256 * b0))) (b4 + 256 * b5).
Proof.
  unfold decode. rewrite EndianConvertReverse_value, EndianConvert_value.
  change (ztake 4 _) with [b0; b1; b2; b3]. change (slice 4 2 _) with [b4; b5].
  cbn [rev app le_value]. f_equal; lia.
Qed.

(** A server's header is decoded by the same rules. *)
Lemma decode_server {H : Host} size cmd r :
  0 <= size < 2 ^ 32 → 0 <= cmd < 2 ^ 16 →
  decode (DiscordServerPktHeader size cmd ++ r) = mkHeader size cmd.
Proof.
  intros Hs Hc. unfold DiscordServerPktHeader. cbn [app]. rewrite decode_spec.
  rewrite !(Z.land_comm 0xFF), !land_255, !Z.shiftr_div_pow2 by lia. f_equal; divmod_lia.
Qed.

Lemma server_header_bytes size cmd : Forall is_byte (DiscordServerPktHeader size cmd).
Proof.
  unfold DiscordServerPktHeader. rewrite !(Z.land_comm 0xFF), !land_255.
  repeat constructor; divmod_lia.
Qed.
End Header.

(** ** Opcode table *)

Inductive HandlerFunction :=
  | HandleHelloOpcode
  | Handle_EarlyProccess
  | HandleSendDiscordMessageOpcode
  | HandleSendDiscordEmbedMessageOpcode
  | Handle_ServerSide.

#[export] Instance HandlerFunction_eq_dec : EqDecision HandlerFunction.
Proof. solve_decision. Defined.

Record ClientOpcodeHandler := mkHandler {
  handler_name : string;
  handler_fun : HandlerFunction
}.

Module Opcodes.

(** [_internalTableClient], null entries left out. *)
Abbreviation OpcodeTable := (gmap Z ClientOpcodeHandler).

(** [operator[]]: outside the table it reads past the array. *)
Definition lookup (t : OpcodeTable) (index : Z) : outcome exn (option ClientOpcodeHandler) :=
  if (0 <=? index) && (index <? NUM_DISCORD_CODE_HANDLERS) then Ret (t !! index) else UB.

Definition ValidateAndSetClientOpcode (handler : HandlerFunction) (opcode : Z) (name : string)
    (t : OpcodeTable) : OpcodeTable :=
  if opcode =? NULL_DISCORD_CODE then t
  else if NUM_DISCORD_CODE_HANDLERS <=? opcode then t
  else
    match t !! opcode with
    | Some _ => t
    | None => <[opcode := mkHandler name handler]> t
    end.

Definition ValidateAndSetServerOpcode (opcode : Z) (name : string) (t : OpcodeTable)
  : OpcodeTable :=
  if opcode =? NULL_DISCORD_CODE then t
  else if NUM_DISCORD_CODE_HANDLERS <=? opcode then t
  else
    match t !! opcode with
    | Some _ => t
    | None => <[opcode := mkHandler name Handle_ServerSide]> t
    end.

Definition Initialize (t : OpcodeTable) : OpcodeTable :=
  let v := DiscordCode.value in
  ValidateAndSetServerOpcode (v DiscordCode.SERVER_SEND_PONG) "SERVER_SEND_PONG"
  (ValidateAndSetServerOpcode (v DiscordCode.SERVER_SEND_AUTH_RESPONSE)
     "SERVER_SEND_AUTH_RESPONSE"
  (ValidateAndSetClientOpcode Handle_EarlyProccess (v DiscordCode.CLIENT_SEND_PING)
     "CLIENT_SEND_PING"
  (ValidateAndSetClientOpcode HandleSendDiscordEmbedMessageOpcode
     (v DiscordCode.CLIENT_SEND_MESSAGE_EMBED) "CLIENT_SEND_MESSAGE_EMBED"
  (ValidateAndSetClientOpcode HandleSendDiscordMessageOpcode
     (v DiscordCode.CLIENT_SEND_MESSAGE) "CLIENT_SEND_MESSAGE"
  (ValidateAndSetClientOpcode Handle_EarlyProccess (v DiscordCode.CLIENT_AUTH_SESSION)
     "CLIENT_AUTH_SESSION"
  (ValidateAndSetClientOpcode HandleHelloOpcode (v DiscordCode.CLIENT_SEND_HELLO)
     "CLIENT_SEND_HELLO" t)))))).

(** The table of the program. *)
Definition opcodeTable : OpcodeTable := Initialize ∅.

Definition GetOpcodeNameForLogging (id : Z) : outcome exn (list Z) :=
  let opcode := u16 id in
  let format (name : list Z) :=
    str "[" ++ name ++ str " 0x" ++ Strings.fmt_hex4 opcode ++ str " (" ++
    Strings.fmt_dec opcode ++ str ")]" in
  if opcode <? NUM_DISCORD_CODE_HANDLERS then
    match lookup opcodeTable id with
    | Ret (Some handler) => Ret (format (str (handler_name handler)))
    | Ret None => Ret (format (str "UNKNOWN OPCODE"))
    | _ => UB
    end
  else Ret (format (str "INVALID OPCODE")).
End Opcodes.

(** ** Payloads *)

Record EmbedField := mkEmbedField {
  ef_Name : list Z;
  ef_Value : list Z;
  ef_IsInline : bool
}.

Definition IsCorrectName (f : EmbedField) : bool := zlen (ef_Name f) <=? 256.
Definition IsCorrectValue (f : EmbedField) : bool := zlen (ef_Value f) <=? 1024.

Record HelloClient := mkHello { hello_Message : list Z }.

Record SendDiscordMessage := mkSendMessage {
  sm_ChannelType : Z;
  sm_Context : list Z
}.

Record SendDiscordEmbedMessage := mkSendEmbed {
  se_ChannelType : Z;
  se_Color : Z;
  se_Title : list Z;
  se_Description : list Z;
  se_EmbedFieldsSize : Z;
  se_EmbedFields : list EmbedField;
  se_Timestamp : Z
}.

Module Payload.
Section payload.
Context {H : Host}.

Definition HelloClient_Read : M exn ByteBuffer HelloClient :=
  Message ← read_string; mret (mkHello Message).

Definition SendDiscordMessage_Read : M exn ByteBuffer SendDiscordMessage :=
  ChannelType ← read_uint 1;
  Context ← read_string;
  mret (mkSendMessage ChannelType Context).

(** The loop over the announced number of fields, a [size_t].  A turn that does
    not throw reads at least the byte of [isInline], so one turn more than
    there are bytes is never completed; [fuel] counts those turns. *)
Fixpoint EmbedFields_loop (fuel : nat) (i EmbedFieldsSize : Z) (EmbedFields : list EmbedField)
  : M exn ByteBuffer (list EmbedField) :=
  if i <? EmbedFieldsSize then
    match fuel with
    | O => undefined
    | S fuel =>
        name ← read_string;
        value ← read_string;
        isInline ← read_bool;
        EmbedFields_loop fuel (u64 (i + 1)) EmbedFieldsSize
          (EmbedFields ++ [mkEmbedField name value isInline])
    end
  else mret EmbedFields.

Definition SendDiscordEmbedMessage_Read : M exn ByteBuffer SendDiscordEmbedMessage :=
  ChannelType ← read_uint 1;
  Color ← read_uint 4;
  Title ← read_string;
  Description ← read_string;
  EmbedFieldsSize ← read_uint 8;
  fuel ← gets (λ b, S (length (bb_storage b)));
  EmbedFields ← EmbedFields_loop fuel 0 EmbedFieldsSize [];
  Timestamp ← read_int 8;
  mret (mkSendEmbed ChannelType Color Title Description EmbedFieldsSize EmbedFields Timestamp).

(** [AuthResponse::Write] *)
Definition AuthResponse_Write (Code : Z) (p : DiscordPacket) : outcome exn () * DiscordPacket :=
  zoom dp_buf (λ b p, mkPacket (dp_opcode p) b) (write_int 1 (u8 Code)) p.
End payload.
End Payload.

(** ** Utilities for packet fields *)

Module PacketUtilities.
Section utilities.
Context {H : Host}.

(** The validators of [String<Max, ...>], in the order of its [ValidatorList];
    a validator gives its verdict or throws. *)
Definition ByteSize_Validate (max : Z) (value : list Z) : outcome exn bool :=
  Ret (zlen value <=? max).
Definition Utf8_Validate (value : list Z) : outcome exn bool :=
  if Utf8.is_valid value then Ret true else Throw (InvalidUtf8ValueException value).
Definition RawBytes_Validate (value : list Z) : outcome exn bool := Ret true.

(** [(Validate(_storage) && ...)]: a [false] ends the evaluation. *)
Fixpoint ValidateNth (validators : list (list Z → outcome exn bool)) (value : list Z)
  : outcome exn bool :=
  match validators with
  | [] => Ret true
  | v :: vs =>
      match v value with
      | Ret true => ValidateNth vs value
      | o => o
      end
  end.

Definition ValidatorList (max : Z) (raw : bool) (validators : list (list Z → outcome exn bool)) :=
  if raw then ByteSize_Validate max :: RawBytes_Validate :: validators
  else ByteSize_Validate max :: Utf8_Validate :: validators.

(** [operator>>] of [String<max>]: the verdict of [Validate] is not used. *)
Definition read_String (max : Z) (raw : bool) : M exn ByteBuffer (list Z) :=
  value ← ReadCString false;
  match ValidateNth (ValidatorList max raw []) value with
  | Ret _ => mret value
  | Throw e => throw e
  | _ => undefined
  end.

(** [Array<T, N>] with its limit. *)
Record Array (T : Type) := mkArray { ar_storage : list T; ar_limit : Z }.
Arguments mkArray {T}.
Arguments ar_storage {T}.
Arguments ar_limit {T}.

Definition Array_push_back {T} (value : T) : M exn (Array T) () := λ a,
  if ar_limit a <=? zlen (ar_storage a) then
    (Throw (PacketArrayMaxCapacityException (u64 (zlen (ar_storage a) + 1)) (ar_limit a)), a)
  else (Ret (), mkArray (ar_storage a ++ [value]) (ar_limit a)).

Definition Array_resize {T} (d : T) (newSize : Z) : M exn (Array T) () := λ a,
  if ar_limit a <? newSize then
    (Throw (PacketArrayMaxCapacityException newSize (ar_limit a)), a)
  else (Ret (), mkArray (vresize newSize d (ar_storage a)) (ar_limit a)).

Definition Array_reserve {T} (newSize : Z) : M exn (Array T) () := λ a,
  if ar_limit a <? newSize then
    (Throw (PacketArrayMaxCapacityException newSize (ar_limit a)), a)
  else (Ret (), a).

(** [CompactArray<T>] for an unsigned [T] of [n] bytes. *)
Record CompactArray := mkCompact { ca_mask : Z; ca_contents : list Z }.

Definition Compact_new : CompactArray := mkCompact 0 [].

(** [_mask |= 1 << index] shifts an [int] and widens it back to 32 bits. *)
Definition Compact_Insert (index value : Z) : M exn CompactArray () := λ v,
  if negb (index <? 32) then (AssertFail, v)
  else
    let mask := Z.lor (ca_mask v) (u32 (Z.shiftl 1 index)) in
    let contents :=
      if zlen (ca_contents v) <=? index then vresize (index + 1) 0 (ca_contents v)
      else ca_contents v in
    (Ret (), mkCompact mask (<[Z.to_nat index := value]> contents)).

Definition Compact_Clear (v : CompactArray) : CompactArray := Compact_new.

Definition Compact_eqb (v r : CompactArray) : bool :=
  if negb (ca_mask v =? ca_mask r) then false
  else bool_decide (ca_contents v = ca_contents r).

(** [operator<<]: the loop over the contents from index [i]. *)
Fixpoint Compact_write_loop (n : nat) (mask i : Z) (contents : list Z) : M exn ByteBuffer () :=
  match contents with
  | [] => mret ()
  | x :: contents =>
      (if negb (Z.land mask (u32 (Z.shiftl 1 i)) =? 0) then write_int n x else mret ()) ;;
      Compact_write_loop n mask (i + 1) contents
  end.

Definition Compact_write (n : nat) (v : CompactArray) : M exn ByteBuffer () :=
  write_int 4 (ca_mask v) ;; Compact_write_loop n (ca_mask v) 0 (ca_contents v).

(** [operator>>]: [mask] has 32 bits, so it is 0 after 32 turns. *)
Fixpoint Compact_read_loop (fuel : nat) (n : nat) (mask index : Z) (v : CompactArray)
  : M exn ByteBuffer CompactArray :=
  match fuel with
  | O => mret v
  | S fuel =>
      if mask =? 0 then mret v
      else if negb (Z.land mask 1 =? 0) then
        x ← read_uint n;
        match Compact_Insert index x v with
        | (Ret _, v) => Compact_read_loop fuel n (Z.shiftr mask 1) (index + 1) v
        | _ => λ b, (AssertFail, b)
        end
      else Compact_read_loop fuel n (Z.shiftr mask 1) (index + 1) v
  end.

Definition Compact_read (n : nat) (v : CompactArray) : M exn ByteBuffer CompactArray :=
  mask ← read_uint 4; Compact_read_loop 32 n mask 0 v.
End utilities.
End PacketUtilities.

(** ** The payloads on the wire *)

Section payload_wires.
Context {H : Host}.
Import Payload.

Definition hello_wire : Wire HelloClient := {|
  w_ok p := w_ok string_wire (hello_Message p);
  w_bytes p := w_bytes string_wire (hello_Message p);
  w_put p := write_string (hello_Message p);
  w_get := HelloClient_Read
|}.

Definition message_wire : Wire SendDiscordMessage := {|
  w_ok p := w_ok (uint_wire 1) (sm_ChannelType p) ∧ w_ok string_wire (sm_Context p);
  w_bytes p := w_bytes (uint_wire 1) (sm_ChannelType p) ++ w_bytes string_wire (sm_Context p);
  w_put p := write_int 1 (sm_ChannelType p) ;; write_string (sm_Context p);
  w_get := SendDiscordMessage_Read
|}.

(** A field of an embed, and the whole embed: its fields are counted first. *)
Definition field_wire : Wire (list Z * (list Z * bool)) :=
  pair_wire string_wire (pair_wire string_wire bool_wire).

Definition field_of (p : list Z * (list Z * bool)) : EmbedField :=
  mkEmbedField p.1 p.2.1 p.2.2.
Definition of_field (f : EmbedField) : list Z * (list Z * bool) :=
  (ef_Name f, (ef_Value f, ef_IsInline f)).

Definition field_bytes (f : EmbedField) : list Z := w_bytes field_wire (of_field f).

Definition embed_head : Wire (Z * (Z * (list Z * (list Z * Z)))) :=
  pair_wire (uint_wire 1) (pair_wire (uint_wire 4)
    (pair_wire string_wire (pair_wire string_wire (uint_wire 8)))).

Definition embed_ok (p : SendDiscordEmbedMessage) : Prop :=
  w_ok embed_head (se_ChannelType p, (se_Color p, (se_Title p, (se_Description p,
    se_EmbedFieldsSize p)))) ∧
  se_EmbedFieldsSize p = zlen (se_EmbedFields p) ∧
  Forall (λ f, w_ok field_wire (of_field f)) (se_EmbedFields p) ∧
  w_ok (int_wire 8) (se_Timestamp p).

Definition embed_bytes (p : SendDiscordEmbedMessage) : list Z :=
  w_bytes embed_head (se_ChannelType p, (se_Color p, (se_Title p, (se_Description p,
    se_EmbedFieldsSize p)))) ++
  concat (map field_bytes (se_EmbedFields p)) ++
  w_bytes (int_wire 8) (se_Timestamp p).

Lemma field_bytes_nonempty f : (1 <= length (field_bytes f))%nat.
Proof. unfold field_bytes. cbn. rewrite !length_app. cbn. lia. Qed.

Lemma EmbedFields_loop_spec fuel i n fs done b r :
  Forall (λ f, w_ok field_wire (of_field f)) fs →
  n = i + zlen fs → 0 <= i → n < 2 ^ 64 → (length fs <= fuel)%nat →
  readable b → rest b = concat (map field_bytes fs) ++ r →
  EmbedFields_loop fuel i n done b
  = (Ret (done ++ fs), advance (zlen (concat (map field_bytes fs))) b).
Proof.
  intros Hfs. revert fuel i done b. induction Hfs as [|f fs Hf _ IH];
    intros fuel i dn b Hn Hi Hm Hfuel Hb Hr.
  { rewrite zlen_nil in Hn. rewrite app_nil_r. cbn [map concat].
    rewrite zlen_nil, advance_0. destruct fuel; cbn; by rewrite (proj2 (Z.ltb_ge _ _)) by lia. }
  rewrite zlen_cons in Hn. pose proof (zlen_nonneg fs).
  destruct fuel as [|fuel]; [cbn in Hfuel; lia|]. cbn [EmbedFields_loop].
  rewrite (proj2 (Z.ltb_lt _ _)) by lia. cbn [map concat] in *. rewrite <- app_assoc in Hr.
  destruct (rest_advance b _ _ Hb Hr) as [Hr' Hb'].
  destruct f as [name value inl]. pose proof (@wire_get _ field_wire _ _ b _ Hf Hb Hr) as E.
  cbn [w_get field_wire pair_wire string_wire bool_wire of_field ef_Name ef_Value ef_IsInline] in E.
  revert E. unfold mbind, M_bind. intros E.
  destruct (read_string b) as [[nm| | |] b1]; [|done..].
  destruct (read_string b1) as [[vl| | |] b2]; [|done..].
  destruct (read_bool b2) as [[il| | |] b3]; [|done..].
  unfold mret, M_ret in E. simplify_eq. cbn [length] in Hfuel.
  rewrite wrap_small by lia.
  rewrite (IH fuel (i + 1)) by (done || lia).
  by rewrite advance_advance, <- app_assoc, zlen_app.
Qed.

#[export] Instance hello_wire_laws : WireLaws hello_wire.
Proof.
  split; cbn [w_ok w_bytes w_put w_get hello_wire message_wire].
  - intros [m] Hm. by apply (@wire_bytes _ string_wire _).
  - intros [m] b Hm Hb Hs. by apply (@wire_put _ string_wire _).
  - intros [m] b r Hm Hb Hr. unfold HelloClient_Read.
    pose proof (@wire_get _ string_wire _ m b r Hm Hb Hr) as E. cbn [w_get string_wire] in E.
    by rewrite (bind_run _ _ _ _ _ E).
Qed.

#[export] Instance message_wire_laws : WireLaws message_wire.
Proof.
  split; cbn [w_ok w_bytes w_put w_get hello_wire message_wire].
  - intros [c m] Hm. apply (@wire_bytes _ (pair_wire (uint_wire 1) string_wire) _ (c, m) Hm).
  - intros [c m] b Hm Hb Hs.
    apply (@wire_put _ (pair_wire (uint_wire 1) string_wire) _ (c, m) b Hm Hb Hs).
  - intros [c m] b r [Hc Hm] Hb Hr. unfold SendDiscordMessage_Read. cbn [sm_ChannelType sm_Context] in *.
    rewrite <- app_assoc in Hr. destruct (rest_advance b _ _ Hb Hr) as [Hr' Hb'].
    pose proof (@wire_get _ (uint_wire 1) _ c b _ Hc Hb Hr) as E1.
    pose proof (@wire_get _ string_wire _ m _ _ Hm Hb' Hr') as E2.
    cbn [w_get uint_wire string_wire] in E1, E2.
    rewrite (bind_run _ _ _ _ _ E1), (bind_run _ _ _ _ _ E2).
    unfold mret, M_ret. by rewrite advance_advance, zlen_app.
Qed.

(** The embed's reader on the bytes of an embed: the fuel is enough. *)
Lemma embed_read_spec p b r :
  embed_ok p → readable b → rest b = embed_bytes p ++ r →
  SendDiscordEmbedMessage_Read b = (Ret p, advance (zlen (embed_bytes p)) b).
Proof.
  intros (Hh & Hn & Hfs & Ht) Hb Hr. destruct p as [c col ti de n fs t].
  unfold embed_bytes in *. cbn [se_ChannelType se_Color se_Title se_Description
    se_EmbedFieldsSize se_EmbedFields se_Timestamp] in *.
  rewrite <- !app_assoc in Hr. destruct (rest_advance b _ _ Hb Hr) as [Hr1 Hb1].
  pose proof (@wire_get _ embed_head _ _ b _ Hh Hb Hr) as E.
  destruct (rest_advance _ _ _ Hb1 Hr1) as [Hr2 Hb2].
  set (hd := w_bytes embed_head _) in *.
  cbn [w_get embed_head pair_wire] in E. unfold SendDiscordEmbedMessage_Read.
  revert E. unfold mbind, M_bind. intros E.
  destruct (w_get (uint_wire 1) b) as [[| | |] b1] eqn:E1; [|done..].
  cbn in E1. rewrite E1. clear E1.
  destruct (w_get (uint_wire 4) b1) as [[| | |] b2] eqn:E2; [|done..].
  cbn in E2. rewrite E2. clear E2.
  destruct (w_get string_wire b2) as [[| | |] b3] eqn:E3; [|done..].
  cbn [w_get string_wire] in E3. rewrite E3. clear E3.
  destruct (w_get string_wire b3) as [[| | |] b4] eqn:E4; [|done..].
  cbn [w_get string_wire] in E4. rewrite E4. clear E4.
  destruct (w_get (uint_wire 8) b4) as [[| | |] b5] eqn:E5; [|done..].
  cbn [w_get uint_wire] in E5. rewrite E5. clear E5.
  unfold mret, M_ret in E. simplify_eq. unfold gets.
  destruct Hh as (_ & _ & _ & _ & _ & Hsz). cbn [snd fst] in Hsz.
  rewrite (EmbedFields_loop_spec _ 0 _ fs [] _ (w_bytes (int_wire 8) t ++ r));
    [|done..|lia|lia| |done|done].
  - cbn [app]. pose proof (@wire_get _ (int_wire 8) _ t _ r Ht Hb2 Hr2) as E.
    cbn [w_get int_wire] in E. rewrite E. unfold mret, M_ret.
    rewrite !advance_advance, !zlen_app. by rewrite !Z.add_assoc.
  - assert (length fs <= length (concat (map field_bytes fs)))%nat as L.
    { clear. induction fs as [|f fs IH]; cbn [map concat length]; [lia|].
      rewrite length_app. pose proof (field_bytes_nonempty f). lia. }
    pose proof (length_rest (advance (zlen hd) b)) as L2. rewrite Hr1, length_app in L2. lia.
Qed.
End payload_wires.

(** ** Reading payloads from the network never leaves the buffer *)

Section reading_safety.
Context {H : Host}.
Import Payload.

Lemma read_value_progress n b v b' :
  cursors_ok b → (n <= 8)%nat → read_value n b = (Ret v, b') →
  bb_rpos b' = bb_rpos b + Z.of_nat n ∧ bb_rpos b' <= size b ∧ bb_storage b' = bb_storage b.
Proof.
  intros (_ & Hr & _ & Hs) Hn.
  unfold read_value, read_at, mbind, M_bind, gets, modify, mret, M_ret.
  rewrite wrap_small by lia. destruct (Z.ltb_spec (size b) (bb_rpos b + Z.of_nat n)); [done|].
  rewrite (proj2 (Z.leb_le _ _)) by lia. intros [= <- <-]. cbn.
  rewrite wrap_small by lia. repeat split; lia.
Qed.

Lemma reads_ok_uint n b : (n <= 8)%nat → cursors_ok b → reads_ok (read_uint n) b.
Proof. apply reads_ok_read_value. Qed.

Lemma reads_ok_int n b : (n <= 8)%nat → cursors_ok b → reads_ok (read_int n) b.
Proof.
  intros Hn Hb. apply reads_ok_bind; [done|by apply reads_ok_read_value|].
  intros. apply reads_ok_ret.
Qed.

Lemma reads_ok_bool b : cursors_ok b → reads_ok read_bool b.
Proof.
  intros Hb. apply reads_ok_bind; [done|apply reads_ok_read_value; [lia|done]|].
  intros. apply reads_ok_ret.
Qed.

Lemma read_bool_progress b v b' :
  cursors_ok b → read_bool b = (Ret v, b') →
  bb_rpos b' = bb_rpos b + 1 ∧ bb_rpos b' <= size b ∧ bb_storage b' = bb_storage b.
Proof.
  intros Hb E. unfold read_bool in E. apply bind_ret_inv in E as (c & b1 & E & [= <- <-]).
  apply read_value_progress in E; [done|done|lia].
Qed.

Lemma EmbedFields_loop_ok fuel i n acc b :
  cursors_ok b → Z.max 0 (size b - bb_rpos b) < Z.of_nat fuel →
  reads_ok (EmbedFields_loop fuel i n acc) b.
Proof.
  revert i acc b. induction fuel as [|fuel IH]; intros i acc b Hb Hf; [lia|].
  cbn [EmbedFields_loop]. destruct (i <? n); [|apply reads_ok_ret].
  apply reads_ok_bind; [done|by apply reads_ok_cstring|]. intros name b1 E1 Hb1.
  apply reads_ok_bind; [done|by apply reads_ok_cstring|]. intros value b2 E2 Hb2.
  apply reads_ok_bind; [done|by apply reads_ok_bool|]. intros inl b3 E3 Hb3.
  destruct (reads_ok_cstring true b Hb _ _ E1) as (_ & S1 & _ & R1).
  destruct (reads_ok_cstring true b1 Hb1 _ _ E2) as (_ & S2 & _ & R2).
  destruct (read_bool_progress b2 inl b3 Hb2 E3) as (R3 & L3 & S3).
  apply IH; [done|]. unfold size in *. rewrite S3, S2, S1 in *. lia.
Qed.

Lemma reads_ok_hello b : cursors_ok b → reads_ok HelloClient_Read b.
Proof.
  intros Hb. apply reads_ok_bind; [done|by apply reads_ok_cstring|].
  intros. apply reads_ok_ret.
Qed.

Lemma reads_ok_message b : cursors_ok b → reads_ok SendDiscordMessage_Read b.
Proof.
  intros Hb. apply reads_ok_bind; [done|by apply reads_ok_uint; [lia|]|]. intros c b1 _ Hb1.
  apply reads_ok_bind; [done|by apply reads_ok_cstring|]. intros. apply reads_ok_ret.
Qed.

Lemma reads_ok_embed b : cursors_ok b → reads_ok SendDiscordEmbedMessage_Read b.
Proof.
  intros Hb.
  apply reads_ok_bind; [done|by apply reads_ok_uint; [lia|]|]. intros c b1 _ Hb1.
  apply reads_ok_bind; [done|by apply reads_ok_uint; [lia|]|]. intros col b2 _ Hb2.
  apply reads_ok_bind; [done|by apply reads_ok_cstring|]. intros ti b3 _ Hb3.
  apply reads_ok_bind; [done|by apply reads_ok_cstring|]. intros de b4 _ Hb4.
  apply reads_ok_bind; [done|by apply reads_ok_uint; [lia|]|]. intros n b5 _ Hb5.
  apply reads_ok_bind; [done|by apply reads_ok_gets|]. intros fuel b6 E Hb6.
  unfold gets in E. simplify_eq.
  apply reads_ok_bind; [done| |].
  - apply EmbedFields_loop_ok; [done|]. unfold size, zlen. destruct Hb6 as (_ & ? & _). lia.
  - intros fs b7 _ Hb7.
    apply reads_ok_bind; [done|by apply reads_ok_int; [lia|]|]. intros. apply reads_ok_ret.
Qed.
End reading_safety.

(** Reading an embed from whatever bytes a client sent ends (the loop over
    the announced number of fields, up to 2^64, is cut short by the end of the
    data), leaves the buffer's contents alone and never reads outside them. *)
Theorem embed_read_safe (H : Host) (b : ByteBuffer) :
  cursors_ok b →
  is_UB (eval Payload.SendDiscordEmbedMessage_Read b) = false ∧
  bb_storage (exec Payload.SendDiscordEmbedMessage_Read b) = bb_storage b.
Proof.
  intros Hb. unfold eval, exec.
  destruct (Payload.SendDiscordEmbedMessage_Read b) as [o b'] eqn:E.
  destruct (reads_ok_embed b Hb o b' E) as (? & ? & _). done.
Qed.

(** 2^64 - 1 fields are announced and one is there. *)
Lemma embed_read_safe_witness :
  let b := mkBB 0 0 ([2; 1; 2; 3; 0; 84; 0; 68; 0] ++ repeat 255 8 ++ [78; 0; 86; 0; 1]) in
  eval (Payload.SendDiscordEmbedMessage_Read (H := LittleEndian)) b
    = Throw (ByteBufferPositionException false 22 1 22) ∧
  is_UB (eval (Payload.SendDiscordEmbedMessage_Read (H := LittleEndian)) b) = false.
Proof.
  split; [by vm_compute|].
  apply (embed_read_safe LittleEndian
    (mkBB 0 0 ([2; 1; 2; 3; 0; 84; 0; 68; 0] ++ repeat 255 8 ++ [78; 0; 86; 0; 1]))).
  split; [unfold is_byte; repeat constructor; lia|]. repeat split; vm_compute; done.
Defined.

(** An embed with any number of fields, encoded as the game server's
    module encodes it, is read back unchanged, with its time stamp, and the
    reader stops right behind it. *)
Theorem embed_read_encoded (H : Host) (p : SendDiscordEmbedMessage) (b : ByteBuffer) (r : list Z) :
  embed_ok p → readable b → rest b = embed_bytes p ++ r →
  Payload.SendDiscordEmbedMessage_Read b = (Ret p, advance (zlen (embed_bytes p)) b) ∧
  rest (advance (zlen (embed_bytes p)) b) = r.
Proof.
  intros Hp Hb Hr. split; [by apply (embed_read_spec p b r)|].
  by apply (rest_advance b _ _ Hb Hr).
Qed.

Lemma embed_read_encoded_witness :
  let p := mkSendEmbed 3 0x28a745 [84] [68; 101] 2
    [mkEmbedField [110] [118] true; mkEmbedField [] [119] false] (-5) in
  let b := mkBB 0 0 (embed_bytes (H := BigEndian) p ++ [9]) in
  Payload.SendDiscordEmbedMessage_Read (H := BigEndian) b
    = (Ret p, advance (zlen (embed_bytes (H := BigEndian) p)) b) ∧
  rest (advance (zlen (embed_bytes (H := BigEndian) p)) b) = [9].
Proof.
  apply (embed_read_encoded BigEndian (mkSendEmbed 3 0x28a745 [84] [68; 101] 2
    [mkEmbedField [110] [118] true; mkEmbedField [] [119] false] (-5))).
  - cbn. repeat split; try lia; try done; unfold is_byte;
      repeat constructor; cbn; try lia; try done; try set_solver.
  - split; [split|]; try (vm_compute; done). unfold is_byte. vm_compute.
    repeat constructor; done.
  - reflexivity.
Defined.
