(* ===== verification/Queues.v ===== *)
(** * Queues: how threads hand work to each other

    Model of [PacketQueue.h], [PCQueue.h] and [MPSCQueue.h] under
    [src/src/common/Threading].  The first two take a lock for each operation,
    so an operation is one step on a list; the third is lock-free, and its steps
    are the atomic accesses to its linked nodes. *)

From S2P Require Import Prelude.
Open Scope Z_scope.

(** ** PacketQueue *)

Module PacketQueue.

(** [DefaultPacketQueue] *)
Record t (A : Type) := mk { queue : list A; canceled : bool }.
Arguments mk {A}.
Arguments queue {A}.
Arguments canceled {A}.

Definition new {A} : t A := mk [] false.
Definition AddPacket {A} (packet : A) (q : t A) : t A := mk (queue q ++ [packet]) (canceled q).
Definition ReadContainer {A} (container : list A) (q : t A) : t A :=
  mk (container ++ queue q) (canceled q).

Definition GetNextPacket {A} (q : t A) : option A * t A :=
  match queue q with
  | [] => (None, q)
  | result :: rest => (Some result, mk rest (canceled q))
  end.

(** With a check: the packet is looked at, and stays when the check fails. *)
Definition GetNextPacket_check {A} (check : A → bool) (q : t A) : bool * option A * t A :=
  match queue q with
  | [] => (false, None, q)
  | result :: rest =>
      if negb (check result) then (false, Some result, q)
      else (true, Some result, mk rest (canceled q))
  end.

Definition Cancel {A} (q : t A) : t A := mk (queue q) true.
Definition Cancelled {A} (q : t A) : bool := canceled q.
Definition IsEmpty {A} (q : t A) : bool := match queue q with [] => true | _ => false end.

(** [CheckPacketQueue]: each packet with a node id, in a heap pair of its own.
    [GetNextPacket] takes the pair off the queue without freeing it; [leaked]
    counts the pairs no pointer leads to any more. *)
Record checked (A C : Type) := mkChecked {
  cq_queue : list (A * C);
  cq_canceled : bool;
  cq_leaked : Z
}.
Arguments mkChecked {A C}.
Arguments cq_queue {A C}.
Arguments cq_canceled {A C}.
Arguments cq_leaked {A C}.

Definition cq_AddPacket {A C} (packet : A) (nodeID : C) (q : checked A C) : checked A C :=
  mkChecked (cq_queue q ++ [(packet, nodeID)]) (cq_canceled q) (cq_leaked q).

Definition cq_ReadContainer {A C} (container : list (A * C)) (q : checked A C) : checked A C :=
  mkChecked (container ++ cq_queue q) (cq_canceled q) (cq_leaked q).

Definition cq_GetNextPacket {A C} (q : checked A C) : option (A * C) * checked A C :=
  match cq_queue q with
  | [] => (None, q)
  | result :: rest => (Some result, mkChecked rest (cq_canceled q) (cq_leaked q + 1))
  end.

Definition cq_Cancel {A C} (q : checked A C) : checked A C :=
  mkChecked (cq_queue q) true (cq_leaked q).

(** Taking a packet out and putting it back in front changes nothing. *)
Lemma GetNextPacket_ReadContainer {A} (q : t A) p q' :
  GetNextPacket q = (Some p, q') → ReadContainer [p] q' = q.
Proof. destruct q as [[|x l] c]; intros [= <- <-]; done. Qed.
End PacketQueue.

(** ** ProducerConsumerQueue *)

Module PCQueue.

Record t (A : Type) := mk { queue : list A; shutdown : bool }.
Arguments mk {A}.
Arguments queue {A}.
Arguments shutdown {A}.

Definition new {A} : t A := mk [] false.
Definition Push {A} (value : A) (q : t A) : t A := mk (queue q ++ [value]) (shutdown q).
Definition Empty {A} (q : t A) : bool := match queue q with [] => true | _ => false end.
Definition Size {A} (q : t A) : Z := zlen (queue q).

Definition Pop {A} (q : t A) : option A * t A :=
  match queue q with
  | [] => (None, q)
  | value :: rest => if shutdown q then (None, q) else (Some value, mk rest (shutdown q))
  end.

(** [WaitAndPop]: [None] while it has to wait; otherwise what it stored in
    [value], if anything, and the queue. *)
Definition WaitAndPop {A} (q : t A) : option (option A * t A) :=
  match queue q with
  | [] => if negb (shutdown q) then None else Some (None, q)
  | value :: rest => if shutdown q then Some (None, q) else Some (Some value, mk rest (shutdown q))
  end.

(** [Cancel] deletes what is queued and wakes every waiting consumer. *)
Definition Cancel {A} (q : t A) : t A := mk [] true.

(** What producers and consumers do to one queue, in the order the lock gives. *)
Inductive op (A : Type) := OPush (value : A) | OPop | OWaitAndPop | OCancel.
Arguments OPush {A}.
Arguments OPop {A}.
Arguments OWaitAndPop {A}.
Arguments OCancel {A}.

(** One operation: the value handed out, if any. *)
Definition step {A} (o : op A) (q : t A) : option A * t A :=
  match o with
  | OPush v => (None, Push v q)
  | OPop => Pop q
  | OWaitAndPop => default (None, q) (WaitAndPop q)
  | OCancel => (None, Cancel q)
  end.

Fixpoint run {A} (os : list (op A)) (q : t A) : list A * t A :=
  match os with
  | [] => ([], q)
  | o :: os =>
      let '(r, q1) := step o q in
      let '(rs, q2) := run os q1 in
      (option_list r ++ rs, q2)
  end.

Fixpoint pushed {A} (os : list (op A)) : list A :=
  match os with
  | [] => []
  | OPush v :: os => v :: pushed os
  | _ :: os => pushed os
  end.

Lemma step_shutdown {A} (o : op A) q :
  shutdown q = true → (step o q).1 = None ∧ shutdown (step o q).2 = true.
Proof.
  destruct q as [l s]; cbn. intros ->. destruct o; cbn; [done|..]; by destruct l.
Qed.

Lemma run_shutdown {A} (os : list (op A)) q : shutdown q = true → (run os q).1 = [].
Proof.
  revert q. induction os as [|o os IH]; intros q Hq; [done|]. cbn [run].
  destruct (step_shutdown o q Hq) as [H1 H2]. destruct (step o q) as [r q1]. cbn in *.
  specialize (IH q1 H2). destruct (run os q1). cbn in *. by subst.
Qed.

(** Whatever the interleaving of producers and consumers, the values handed
    out are a prefix of what was queued followed by what was pushed, in order
    (none lost before the others, none twice); without [Cancel] the rest is
    still queued; after [Cancel] nothing is handed out and nobody waits. *)
Theorem pc_queue_fifo {A} (os : list (op A)) (q : t A) :
  (∃ l, queue q ++ pushed os = (run os q).1 ++ l) ∧
  (shutdown q = false → OCancel ∉ os →
   queue q ++ pushed os = (run os q).1 ++ queue (run os q).2) ∧
  (run os (Cancel q)).1 = [] ∧ is_Some (WaitAndPop (Cancel q)).
Proof.
  split; [|split; [|split; [by apply run_shutdown|by eexists]]].
  - revert q. induction os as [|o os IH]; intros q; [by eexists|]. cbn [run].
    destruct (step o q) as [r q1] eqn:E. destruct (IH q1) as [l Hl].
    destruct (run os q1) as [rs q2] eqn:E2. cbn [fst] in *.
    destruct q as [vs s]. destruct o; cbn in E.
    + simplify_eq. exists l. cbn in *. by rewrite <- app_assoc in Hl.
    + destruct vs as [|v vs]; [|destruct s]; cbn in E; simplify_eq; exists l; cbn in *; by rewrite Hl.
    + destruct vs as [|v vs]; destruct s; cbn in E; simplify_eq; exists l; cbn in *; by rewrite Hl.
    + simplify_eq. pose proof (run_shutdown os (Cancel (mk vs s)) eq_refl) as Hn.
      rewrite E2 in Hn. cbn in Hn. subst. by eexists.
  - revert q. induction os as [|o os IH]; intros q Hs Hc; [cbn; by rewrite app_nil_r|].
    apply not_elem_of_cons in Hc as [Ho Hc]. cbn [run].
    destruct (step o q) as [r q1] eqn:E.
    assert (shutdown q1 = false) as Hs1.
    { destruct q as [[|v vs] s]; cbn in Hs; subst; destruct o; cbn in E; by simplify_eq. }
    specialize (IH q1 Hs1 Hc). destruct (run os q1) as [rs q2]. cbn [fst snd] in *.
    destruct q as [[|v vs] s]; cbn in Hs; subst; destruct o; cbn in E; simplify_eq;
      cbn in *; rewrite <- ?app_assoc in *; cbn in *; by rewrite ?IH.
Qed.
Lemma pc_queue_fifo_witness :
  (run [OPush 1; OPop; OPush 2; OPush 3; OWaitAndPop] (new (A := Z))).1 = [1; 2] ∧
  queue (new (A := Z)) ++ pushed [OPush 1; OPop; OPush 2; OPush 3; OWaitAndPop] =
    (run [OPush 1; OPop; OPush 2; OPush 3; OWaitAndPop] new).1 ++
    queue (run [OPush 1; OPop; OPush 2; OPush 3; OWaitAndPop] new).2.
Proof.
  split; [by vm_compute|].
  apply (pc_queue_fifo [OPush 1; OPop; OPush 2; OPush 3; OWaitAndPop] new);
    [done|]. intros H. repeat (apply elem_of_cons in H as [[=]|H]). by apply elem_of_nil in H.
Defined.
End PCQueue.

(** ** MPSCQueueNonIntrusive

    Nodes live at addresses; [_head] is where producers append, [_tail] where
    the one consumer takes.  [Enqueue] is two atomic accesses, [exchange] and
    the store to [Next], with other threads in between: [mp_pending] holds, for
    each producer between the two, the node it got and the one it made. *)

Module MPSCQueue.
Section mpsc.
Context {A : Type}.

Record node := mkNode { n_data : option A; n_next : option nat }.

Record t := mk {
  mp_nodes : gmap nat node;
  mp_head : nat;
  mp_tail : nat;
  mp_pending : gmap nat (nat * nat);
  (** for the specification: what was exchanged in, and what came out *)
  mp_in : list A;
  mp_out : list A
}.

Definition init (dummy : nat) : t :=
  mk {[ dummy := mkNode None None ]} dummy dummy ∅ [] [].

(** [new Node(input)] at a fresh address, then [_head.exchange(node)]. *)
Definition Enqueue_exchange (p addr : nat) (input : A) (s : t) : option t :=
  match mp_nodes s !! addr, mp_pending s !! p with
  | None, None =>
      Some (mk (<[addr := mkNode (Some input) None]> (mp_nodes s)) addr (mp_tail s)
               (<[p := (mp_head s, addr)]> (mp_pending s)) (mp_in s ++ [input]) (mp_out s))
  | _, _ => None
  end.

(** [prevHead->Next.store(node)]; writing to a freed node is undefined. *)
Definition Enqueue_link (p : nat) (s : t) : option (outcome Empty_set t) :=
  match mp_pending s !! p with
  | None => None
  | Some (prevHead, addr) =>
      Some match mp_nodes s !! prevHead with
           | None => UB
           | Some n =>
               Ret (mk (<[prevHead := mkNode (n_data n) (Some addr)]> (mp_nodes s)) (mp_head s)
                       (mp_tail s) (delete p (mp_pending s)) (mp_in s) (mp_out s))
           end
  end.

(** [Dequeue]: whether there was an element, and which; reading a freed or an
    empty node is undefined. *)
Definition Dequeue (s : t) : outcome Empty_set (option A * t) :=
  match mp_nodes s !! mp_tail s with
  | None => UB
  | Some tail =>
      match n_next tail with
      | None => Ret (None, s)
      | Some next =>
          match mp_nodes s !! next with
          | Some (mkNode (Some result) _) =>
              Ret (Some result,
                   mk (delete (mp_tail s) (mp_nodes s)) (mp_head s) next (mp_pending s)
                      (mp_in s) (mp_out s ++ [result]))
          | _ => UB
          end
      end
  end.

Inductive step : t → t → Prop :=
  | step_exchange p addr x s s' : Enqueue_exchange p addr x s = Some s' → step s s'
  | step_link p s s' : Enqueue_link p s = Some (Ret s') → step s s'
  | step_dequeue r s s' : Dequeue s = Ret (r, s') → step s s'.

(** The nodes from [a] to [_head], each linked to the next or about to be. *)
Fixpoint chain (s : t) (a : nat) (l : list (nat * A)) : Prop :=
  match l with
  | [] => a = mp_head s ∧ ∃ d, mp_nodes s !! a = Some (mkNode d None)
  | (b, x) :: l =>
      (∃ d, mp_nodes s !! a = Some (mkNode d (Some b)) ∨
            mp_nodes s !! a = Some (mkNode d None) ∧ ∃ p, mp_pending s !! p = Some (a, b)) ∧
      (∃ nx, mp_nodes s !! b = Some (mkNode (Some x) nx)) ∧
      chain s b l
  end.

Record inv (s : t) (l : list (nat * A)) : Prop := {
  inv_chain : chain s (mp_tail s) l;
  inv_nodup : NoDup (mp_tail s :: map fst l);
  inv_fifo : mp_in s = mp_out s ++ map snd l;
  inv_pending p a b : mp_pending s !! p = Some (a, b) →
    a ∈ mp_tail s :: map fst l ∧ a ≠ mp_head s ∧
    ∃ d, mp_nodes s !! a = Some (mkNode d None);
  inv_unique p q a b c :
    mp_pending s !! p = Some (a, b) → mp_pending s !! q = Some (a, c) → p = q
}.

Lemma inv_init dummy : inv (init dummy) [].
Proof.
  split; cbn.
  - split; [done|]. exists None. apply lookup_singleton_eq.
  - repeat constructor. set_solver.
  - done.
  - intros p a b H. by rewrite lookup_empty in H.
  - intros p q a b c H. by rewrite lookup_empty in H.
Qed.

Lemma chain_allocated s a l : chain s a l → ∀ c, c ∈ a :: map fst l → is_Some (mp_nodes s !! c).
Proof.
  revert a. induction l as [|[b x] l IH]; intros a; cbn [chain map fst].
  - intros [_ [d Hd]] c Hc. apply elem_of_cons in Hc as [->|Hc]; [by eexists|set_solver].
  - intros ([d Hd] & _ & Hl) c Hc. apply elem_of_cons in Hc as [->|Hc]; [|by eapply IH].
    destruct Hd as [->|[-> _]]; by eexists.
Qed.

Lemma chain_head s a l : chain s a l → mp_head s ∈ a :: map fst l.
Proof.
  revert a. induction l as [|[b x] l IH]; intros a; cbn [chain map fst].
  - intros [-> _]. apply list_elem_of_here.
  - intros (_ & _ & Hl). apply list_elem_of_further, IH, Hl.
Qed.

(** A new node at the end. *)
Lemma chain_exchange s p addr x s' a l :
  Enqueue_exchange p addr x s = Some s' → chain s a l → chain s' a (l ++ [(addr, x)]).
Proof.
  unfold Enqueue_exchange. destruct (mp_nodes s !! addr) eqn:Ea; [done|].
  destruct (mp_pending s !! p) eqn:Ep; [done|]. intros [= <-].
  revert a. induction l as [|[b y] l IH]; intros a; cbn [chain app mp_nodes mp_head mp_pending].
  - intros [-> [d Hd]]. assert (mp_head s ≠ addr) by (intros E; congruence).
    split; [exists d; right|].
    + rewrite lookup_insert_ne by done. split; [done|].
      exists p. apply lookup_insert_eq.
    + split; [eexists; apply lookup_insert_eq|]. split; [done|].
      eexists; apply lookup_insert_eq.
  - intros ([d Hd] & [nx Hb] & Hl). split; [|split; [|by apply IH]].
    + exists d. destruct Hd as [Hd|[Hd [q Hq]]].
      * left. by rewrite lookup_insert_ne by congruence.
      * right. rewrite lookup_insert_ne by congruence. split; [done|].
        exists q. by rewrite lookup_insert_ne by congruence.
    + exists nx. by rewrite lookup_insert_ne by congruence.
Qed.

(** Linking one node changes no other part of the chain. *)
Lemma chain_link s p prev addr n a l s' :
  mp_pending s !! p = Some (prev, addr) → mp_nodes s !! prev = Some n → n_next n = None →
  prev ≠ mp_head s →
  (∀ q c, mp_pending s !! q = Some (prev, c) → q = p) →
  s' = mk (<[prev := mkNode (n_data n) (Some addr)]> (mp_nodes s)) (mp_head s)
          (mp_tail s) (delete p (mp_pending s)) (mp_in s) (mp_out s) →
  chain s a l → chain s' a l.
Proof.
  intros Hp Hn Hnx Hh Hu ->. destruct n as [dn nn]. cbn in Hnx. subst nn.
  revert a. induction l as [|[b y] l IH]; intros a; cbn [chain mp_nodes mp_head mp_pending n_data].
  - intros [-> [d Hd]]. split; [done|]. exists d. by rewrite lookup_insert_ne by done.
  - intros ([d Hd] & [nx Hb] & Hl). split; [|split; [|by apply IH]].
    + destruct (decide (a = prev)) as [->|Ha].
      * exists dn. left. rewrite lookup_insert_eq.
        destruct Hd as [Hd|[Hd [q Hq]]]; [congruence|].
        pose proof (Hu q b Hq). subst q. congruence.
      * exists d. rewrite lookup_insert_ne by done. destruct Hd as [Hd|[Hd [q Hq]]]; [by left|].
        right. split; [done|]. exists q. rewrite lookup_delete_ne; [done|]. intros ->. congruence.
    + destruct (decide (b = prev)) as [->|Hb'].
      * exists (Some addr). rewrite lookup_insert_eq. congruence.
      * exists nx. by rewrite lookup_insert_ne by done.
Qed.

(** Freeing a node that is not in the chain. *)
Lemma chain_delete s dead tail out a l :
  chain s a l → dead ∉ a :: map fst l →
  chain (mk (delete dead (mp_nodes s)) (mp_head s) tail (mp_pending s) (mp_in s) out) a l.
Proof.
  revert a. induction l as [|[b y] l IH]; intros a; cbn [chain map fst mp_nodes mp_head mp_pending];
    intros Hc Hd; apply not_elem_of_cons in Hd as [Hda Hd].
  - by rewrite lookup_delete_ne.
  - destruct Hc as (Ha & Hb & Hl). rewrite !lookup_delete_ne; [|set_solver|done].
    split; [done|]. split; [done|]. by apply IH.
Qed.
Lemma chain_head_next s a l : chain s a l → ∃ d, mp_nodes s !! mp_head s = Some (mkNode d None).
Proof.
  revert a. induction l as [|[b y] l IH]; intros a; cbn [chain].
  - by intros [-> Hd].
  - intros (_ & _ & Hl). by eapply IH.
Qed.

Lemma inv_exchange p addr x s s' l :
  Enqueue_exchange p addr x s = Some s' → inv s l → inv s' (l ++ [(addr, x)]).
Proof.
  intros E [Hc Hn Hf Hp Hu]. pose proof (chain_exchange _ _ _ _ _ _ _ E Hc) as Hc'.
  pose proof (chain_allocated _ _ _ Hc) as Hall. pose proof (chain_head _ _ _ Hc) as Hhd.
  destruct (chain_head_next _ _ _ Hc) as [dh Hdh].
  unfold Enqueue_exchange in E. destruct (mp_nodes s !! addr) eqn:Ea; [done|].
  destruct (mp_pending s !! p) eqn:Ep; [done|]. injection E as <-. cbn in *.
  assert (addr ∉ mp_tail s :: map fst l) as Hfresh.
  { intros H. destruct (Hall _ H). congruence. }
  split; cbn [mp_tail mp_in mp_out mp_pending mp_nodes mp_head].
  - done.
  - rewrite map_app. change (NoDup ((mp_tail s :: map fst l) ++ [addr])).
    apply NoDup_app. split; [done|]. split; [|apply NoDup_singleton].
    intros c Hc1 Hc2. apply list_elem_of_singleton in Hc2 as ->. done.
  - by rewrite map_app, app_assoc, Hf.
  - intros q a b Hq. rewrite map_app.
    assert (a ∈ mp_tail s :: map fst l ∧ ∃ d, mp_nodes s !! a = Some (mkNode d None)) as [H1 [d H2]].
    { destruct (decide (q = p)) as [->|Hne].
      - rewrite lookup_insert_eq in Hq. simplify_eq. eauto.
      - rewrite lookup_insert_ne in Hq by done. apply Hp in Hq as (? & _ & ?). eauto. }
    assert (a ≠ addr) by congruence.
    split; [change (a ∈ (mp_tail s :: map fst l) ++ [addr]); set_solver|].
    split; [done|]. exists d. by rewrite lookup_insert_ne.
  - intros q1 q2 a b c H1 H2.
    destruct (decide (q1 = p)) as [->|N1]; destruct (decide (q2 = p)) as [->|N2]; [done|..];
      rewrite ?lookup_insert_eq in *; rewrite ?lookup_insert_ne in * by done; simplify_eq.
    + apply Hp in H2 as (_ & ? & _). done.
    + apply Hp in H1 as (_ & ? & _). done.
    + by eapply Hu.
Qed.

Lemma inv_link p s l prev addr :
  inv s l → mp_pending s !! p = Some (prev, addr) →
  ∃ s', Enqueue_link p s = Some (Ret s') ∧ inv s' l.
Proof.
  intros [Hc Hn Hf Hp Hu] Ep. destruct (Hp _ _ _ Ep) as (Hin & Hh & d & Hd).
  unfold Enqueue_link. rewrite Ep, Hd. eexists. split; [done|].
  split; cbn [mp_tail mp_in mp_out mp_pending mp_nodes mp_head n_data].
  - apply (chain_link s p prev addr (mkNode d None)); try done.
    intros q c Hq. by eapply Hu.
  - done.
  - done.
  - intros q a b Hq. apply lookup_delete_Some in Hq as [Hne Hq].
    destruct (Hp _ _ _ Hq) as (H1 & H2 & d' & H3). split; [done|]. split; [done|].
    exists d'. rewrite lookup_insert_ne; [done|]. intros <-. apply Hne. by eapply Hu.
  - intros q1 q2 a b c H1%lookup_delete_Some H2%lookup_delete_Some.
    destruct H1, H2. by eapply Hu.
Qed.

Lemma inv_dequeue s l :
  inv s l →
  (∃ x l' s', l = (mp_tail s', x) :: l' ∧ Dequeue s = Ret (Some x, s') ∧ inv s' l') ∨
  (Dequeue s = Ret (None, s) ∧ (l = [] ∨ ∃ p b, mp_pending s !! p = Some (mp_tail s, b))).
Proof.
  intros [Hc Hn Hf Hp Hu]. unfold Dequeue.
  destruct l as [|[b x] l]; cbn [chain] in Hc.
  { destruct Hc as [_ [d ->]]. right. eauto. }
  destruct Hc as ([d [Ht|[Ht [p Hpp]]]] & [nx Hb] & Hl); rewrite Ht; cbn [n_next].
  2:{ right. eauto. }
  left. rewrite Hb. cbn [map fst] in Hn. apply NoDup_cons in Hn as [Hnt Hn].
  eexists x, l, _. split; [|split; [done|]]; [done|].
  split; cbn [mp_tail mp_in mp_out mp_pending mp_nodes mp_head].
  - by apply chain_delete.
  - done.
  - rewrite Hf. cbn [map snd]. by rewrite <- app_assoc.
  - intros q a c Hq. destruct (Hp _ _ _ Hq) as (H1 & H2 & d' & H3).
    apply elem_of_cons in H1 as [->|H1]; [congruence|].
    split; [done|]. split; [done|]. exists d'. rewrite lookup_delete_ne; [done|].
    intros E. congruence.
  - intros q1 q2 a c e H1 H2. by eapply Hu.
Qed.

Lemma mpsc_step_inv s s' l : inv s l → step s s' → ∃ l', inv s' l'.
Proof.
  intros Hi Hs. revert Hi. destruct Hs as [p addr x s1 s2 E|p s1 s2 E|r s1 s2 E]; intros Hi.
  - eexists. by eapply inv_exchange.
  - unfold Enqueue_link in E. destruct (mp_pending s1 !! p) as [[a b]|] eqn:Ep; [|done].
    destruct (inv_link p s1 l a b Hi Ep) as (s3 & E3 & H3).
    unfold Enqueue_link in E3. rewrite Ep in E3. rewrite E3 in E. simplify_eq. eauto.
  - destruct (inv_dequeue s1 l Hi) as [(x & l' & s3 & _ & E3 & H3)|[E3 _]];
      rewrite E3 in E; simplify_eq; eauto.
Qed.

(** C21: however producers and the consumer interleave, no operation touches a
    freed node; elements come out in the order in which their producers did the
    exchange, none lost, none twice; and [Dequeue] comes back empty-handed only
    when the queue is empty or the producer of the first element is between its
    exchange and its store. *)
Theorem mpsc_queue_fifo (dummy : nat) (s : t) :
  rtc step (init dummy) s →
  (∀ p, is_Some (mp_pending s !! p) → ∃ s', Enqueue_link p s = Some (Ret s')) ∧
  ∃ waiting, mp_in s = mp_out s ++ waiting ∧
    ((∃ x rest s', waiting = x :: rest ∧ Dequeue s = Ret (Some x, s')) ∨
     (Dequeue s = Ret (None, s) ∧
      (waiting = [] ∨ ∃ p b, mp_pending s !! p = Some (mp_tail s, b)))).
Proof.
  intros Hr. assert (∃ l, inv s l) as [l Hi].
  { apply (rtc_inv step (λ s, ∃ l, inv s l)) in Hr; [done| |].
    - intros s1 s2 [l Hl] Hs. by eapply mpsc_step_inv.
    - eexists. apply inv_init. }
  split.
  - intros p [[a b] Hp]. destruct (inv_link p s l a b Hi Hp) as (s' & E & _). eauto.
  - exists (map snd l). split; [apply Hi|].
    destruct (inv_dequeue s l Hi) as [(x & l' & s' & -> & E & _)|[E H]].
    + left. by exists x, (map snd l'), s'.
    + right. split; [done|]. destruct H as [->|H]; [by left|by right].
Qed.
End mpsc.

(** Two producers exchange in one order and link in the other. *)
Lemma mpsc_queue_fifo_witness :
  let s1 := default (init 0) (Enqueue_exchange 1 10 7 (init (A := Z) 0)) in
  let s2 := default s1 (Enqueue_exchange 2 11 8 s1) in
  let s3 := match Enqueue_link 2 s2 with Some (Ret s) => s | _ => s2 end in
  Dequeue s3 = Ret (None, s3) ∧
  ∃ waiting, mp_in s3 = mp_out s3 ++ waiting ∧
    ((∃ x rest s', waiting = x :: rest ∧ Dequeue s3 = Ret (Some x, s')) ∨
     (Dequeue s3 = Ret (None, s3) ∧
      (waiting = [] ∨ ∃ p b, mp_pending s3 !! p = Some (mp_tail s3, b)))).
Proof.
  intros s1 s2 s3. split; [by vm_compute|].
  refine (proj2 (mpsc_queue_fifo 0 s3 _)).
  apply rtc_l with s1; [by apply (step_exchange 1 10 7); vm_compute|].
  apply rtc_l with s2; [by apply (step_exchange 2 11 8); vm_compute|].
  apply rtc_l with s3; [by apply (step_link 2); vm_compute|].
  apply rtc_refl.
Defined.
End MPSCQueue.
