(* ===== verification/Intrusive.v ===== *)
(** * Intrusive: the lock-free queue through the elements' own links

    Model of [MPSCQueueIntrusive] in [src/src/common/Threading/MPSCQueue.h], which
    [MPSCQueue] is for elements that carry their link themselves.
    Nodes are addresses; a node in [iq_links] may be touched, any other belongs to
    somebody else, who may have freed it.  Every step is one atomic access to
    shared memory, with what the thread does by itself until its next one;
    producers, each between its [exchange] and its store for a while, and the one
    consumer, which enqueues [_dummy] as a producer would, take steps in any
    order. *)

From S2P Require Import Prelude.
Open Scope nat_scope.

Module MPSCQueueIntrusive.
Section intrusive.

(** [_dummyPtr] *)
Context (dummy : nat).

(** Where the consumer is inside [Dequeue], with its local [tail]. *)
Inductive position : Type :=
  | Idle
  | PassedDummy (tail : nat)   (** about to load the link of the node after [_dummy] *)
  | LoadHead (tail : nat)
  | Refill (tail : nat)        (** about to exchange [_dummy] in *)
  | RefillLink (tail : nat)    (** about to store the link to [_dummy] *)
  | LoadAgain (tail : nat).

(** A pending store is keyed by its thread, [None] for the consumer. *)
Record t := mk {
  iq_links : gmap nat (option nat);
  iq_head : nat;
  iq_tail : nat;
  iq_pending : gmap (option nat) (nat * nat);
  iq_consumer : position;
  (** for the specification: what was exchanged in, and what came out *)
  iq_in : list nat;
  iq_out : list nat
}.

Definition set_tail (n : nat) (s : t) : t :=
  mk (iq_links s) (iq_head s) n (iq_pending s) (iq_consumer s) (iq_in s) (iq_out s).
Definition set_consumer (c : position) (s : t) : t :=
  mk (iq_links s) (iq_head s) (iq_tail s) (iq_pending s) c (iq_in s) (iq_out s).

Definition init : t := mk {[ dummy := None ]} dummy dummy ∅ Idle [] [].

(** [Enqueue]: the link of [input] is cleared, which nobody else sees yet, and
    [_head.exchange(input)]. *)
Definition Enqueue_exchange (k : option nat) (input : nat) (s : t) : t :=
  mk (<[input := None]> (iq_links s)) input (iq_tail s)
     (<[k := (iq_head s, input)]> (iq_pending s)) (iq_consumer s)
     (if decide (input = dummy) then iq_in s else iq_in s ++ [input]) (iq_out s).

(** [(prevHead->*IntrusiveLink).store(input)] *)
Definition Enqueue_link (k : option nat) (s : t) : option (outcome Empty_set t) :=
  match iq_pending s !! k with
  | None => None
  | Some (prevHead, input) =>
      Some match iq_links s !! prevHead with
           | None => UB
           | Some _ =>
               Ret (mk (<[prevHead := Some input]> (iq_links s)) (iq_head s) (iq_tail s)
                       (delete k (iq_pending s)) (iq_consumer s) (iq_in s) (iq_out s))
           end
  end.

(** A call of [Dequeue] that returns: [false], or [true] with the old tail, which
    then belongs to the caller. *)
Definition fails (s : t) : option (option nat) * t := (Some None, set_consumer Idle s).
Definition takes (tail next : nat) (s : t) : option (option nat) * t :=
  (Some (Some tail),
   mk (delete tail (iq_links s)) (iq_head s) next (iq_pending s) Idle (iq_in s)
      (iq_out s ++ [tail])).
Definition goes_on (c : position) (s : t) : option (option nat) * t := (None, set_consumer c s).

(** The link of [tail] was loaded as [next]. *)
Definition with_next (tail : nat) (next : option nat) (s : t) : option (option nat) * t :=
  match next with
  | Some next => takes tail next s
  | None => goes_on (LoadHead tail) s
  end.

(** [Dequeue], up to and with the consumer's next access: nothing yet, or what
    the call returns. *)
Definition Dequeue_step (s : t) : outcome Empty_set (option (option nat) * t) :=
  match iq_consumer s with
  | Idle =>
      match iq_links s !! iq_tail s with
      | None => UB
      | Some next =>
          if decide (iq_tail s = dummy) then
            match next with
            | None => Ret (fails s)
            | Some next => Ret (goes_on (PassedDummy next) (set_tail next s))
            end
          else Ret (with_next (iq_tail s) next s)
      end
  | PassedDummy tail =>
      match iq_links s !! tail with
      | None => UB
      | Some next => Ret (with_next tail next s)
      end
  | LoadHead tail =>
      if decide (tail = iq_head s) then Ret (goes_on (Refill tail) s) else Ret (fails s)
  | Refill tail =>
      match iq_links s !! dummy with
      | None => UB
      | Some _ => Ret (goes_on (RefillLink tail) (Enqueue_exchange None dummy s))
      end
  | RefillLink tail =>
      match Enqueue_link None s with
      | Some (Ret s) => Ret (goes_on (LoadAgain tail) s)
      | _ => UB
      end
  | LoadAgain tail =>
      match iq_links s !! tail with
      | None => UB
      | Some (Some next) => Ret (takes tail next s)
      | Some None => Ret (fails s)
      end
  end.

(** How many steps of its own the consumer still has before it. *)
Definition rank (c : position) : nat :=
  match c with
  | Idle => 6 | PassedDummy _ => 5 | LoadHead _ => 4 | Refill _ => 3 | RefillLink _ => 2
  | LoadAgain _ => 1
  end.

(** A call with nobody else about. *)
Fixpoint Dequeue_steps (fuel : nat) (s : t) : outcome Empty_set (option nat * t) :=
  match fuel with
  | 0 => AssertFail
  | S fuel =>
      match Dequeue_step s with
      | Ret (Some r, s) => Ret (r, s)
      | Ret (None, s) => Dequeue_steps fuel s
      | _ => UB
      end
  end.
Definition Dequeue (s : t) : outcome Empty_set (option nat * t) := Dequeue_steps 6 s.

(** The destructor's loop; [fuel] bounds the elements. *)
Fixpoint drain (fuel : nat) (s : t) : outcome Empty_set (list nat * t) :=
  match fuel with
  | 0 => AssertFail
  | S fuel =>
      match Dequeue s with
      | Ret (None, s) => Ret ([], s)
      | Ret (Some output, s) =>
          match drain fuel s with
          | Ret (outputs, s) => Ret (output :: outputs, s)
          | o => o
          end
      | _ => UB
      end
  end.

(** A producer owns the node it enqueues, and runs one [Enqueue] at a time. *)
Inductive step : t → t → Prop :=
  | step_exchange p input s :
      iq_links s !! input = None → iq_pending s !! Some p = None →
      step s (Enqueue_exchange (Some p) input s)
  | step_link p s s' : Enqueue_link (Some p) s = Some (Ret s') → step s s'
  | step_dequeue r s s' : Dequeue_step s = Ret (r, s') → step s s'.

(** ** The invariant *)

(** The nodes from [a] to [head], each linked to the next or about to be. *)
Fixpoint chain (links : gmap nat (option nat)) (pending : gmap (option nat) (nat * nat))
    (head a : nat) (l : list nat) : Prop :=
  match l with
  | [] => a = head ∧ links !! a = Some None
  | b :: l =>
      (links !! a = Some (Some b) ∨
       (links !! a = Some None ∧ ∃ k, pending !! k = Some (a, b))) ∧
      chain links pending head b l
  end.

Definition elements (l : list nat) : list nat := filter (λ n, n ≠ dummy) l.

Lemma elements_dummy l : elements (dummy :: l) = elements l.
Proof. apply filter_cons_False. tauto. Qed.
Lemma elements_other n l : n ≠ dummy → elements (n :: l) = n :: elements l.
Proof. intros H. by apply filter_cons_True. Qed.
Lemma elements_app l k : elements (l ++ k) = elements l ++ elements k.
Proof. apply filter_app. Qed.

(** What holds of the shared memory, wherever the consumer is. *)
Record shared (s : t) (l : list nat) : Prop := {
  inv_chain : chain (iq_links s) (iq_pending s) (iq_head s) (iq_tail s) l;
  inv_nodup : NoDup (iq_tail s :: l);
  inv_fifo : iq_in s = iq_out s ++ elements (iq_tail s :: l);
  inv_pending k a b : iq_pending s !! k = Some (a, b) →
    a ∈ iq_tail s :: l ∧ a ≠ iq_head s ∧ iq_links s !! a = Some None;
  inv_unique k k' a b c :
    iq_pending s !! k = Some (a, b) → iq_pending s !! k' = Some (a, c) → k = k';
  inv_dummy : is_Some (iq_links s !! dummy);
  inv_in : dummy ∉ iq_in s
}.

(** What the consumer knows at each position. *)
Definition consumer_inv (s : t) (l : list nat) : Prop :=
  match iq_consumer s with
  | Idle => iq_pending s !! None = None
  | PassedDummy tail | LoadHead tail | LoadAgain tail =>
      tail = iq_tail s ∧ tail ≠ dummy ∧ iq_pending s !! None = None
  | Refill tail => tail = iq_tail s ∧ tail ≠ dummy ∧ iq_pending s !! None = None ∧ dummy ∉ l
  | RefillLink tail => tail = iq_tail s ∧ tail ≠ dummy ∧ is_Some (iq_pending s !! None)
  end.

Definition inv (s : t) (l : list nat) : Prop := shared s l ∧ consumer_inv s l.

Lemma iq_inv_init : inv init [].
Proof.
  split; [|done]. split; cbn -[elements].
  - split; [done|]. apply lookup_singleton_eq.
  - apply NoDup_singleton.
  - by rewrite elements_dummy.
  - intros k a b E. by rewrite lookup_empty in E.
  - intros k k' a b c E. by rewrite lookup_empty in E.
  - rewrite lookup_singleton_eq. by eexists.
  - apply not_elem_of_nil.
Qed.

Section chains.
Context (links : gmap nat (option nat)) (pending : gmap (option nat) (nat * nat)).

Lemma iq_chain_allocated head a l :
  chain links pending head a l → ∀ c, c ∈ a :: l → is_Some (links !! c).
Proof.
  revert a. induction l as [|b l IH]; intros a; cbn [chain].
  - intros [_ E] c ->%list_elem_of_singleton. by rewrite E.
  - intros [E Hl] c [->|Hc]%elem_of_cons; [|by eapply IH].
    destruct E as [->|[-> _]]; by eexists.
Qed.

Lemma iq_chain_head head a l :
  chain links pending head a l → head ∈ a :: l ∧ links !! head = Some None.
Proof.
  revert a. induction l as [|b l IH]; intros a; cbn [chain].
  - intros [-> E]. split; [apply list_elem_of_here|done].
  - intros [_ [? ?]%IH]. split; [by apply list_elem_of_further|done].
Qed.

(** The chain ends at [head]. *)
Lemma chain_at_head head l : chain links pending head head l → NoDup (head :: l) → l = [].
Proof.
  destruct l as [|b l]; [done|]. cbn [chain]. intros [_ Hl] [H _]%NoDup_cons.
  destruct (iq_chain_head _ _ _ Hl) as [? _]. done.
Qed.

(** A new node at the end. *)
Lemma iq_chain_exchange head a l k input :
  chain links pending head a l → input ∉ a :: l → pending !! k = None →
  chain (<[input := None]> links) (<[k := (head, input)]> pending) input a (l ++ [input]).
Proof.
  intros H Hi Hk. revert a H Hi. induction l as [|b l IH]; intros a; cbn [chain app].
  - intros [-> E] Hi%not_elem_of_cons. split.
    + right. rewrite lookup_insert_ne by naive_solver. split; [done|].
      exists k. apply lookup_insert_eq.
    + split; [done|apply lookup_insert_eq].
  - intros [E Hl] [Hi Hi']%not_elem_of_cons. split; [|by apply IH].
    rewrite lookup_insert_ne by done. destruct E as [E|[E [k' Ek]]]; [by left|right].
    split; [done|]. exists k'. rewrite lookup_insert_ne; [done|]. congruence.
Qed.

(** Linking one node changes no other part of the chain. *)
Lemma iq_chain_link head a l k prev input :
  chain links pending head a l → pending !! k = Some (prev, input) → prev ≠ head →
  links !! prev = Some None →
  (∀ k' c, pending !! k' = Some (prev, c) → k' = k) →
  chain (<[prev := Some input]> links) (delete k pending) head a l.
Proof.
  intros H Hk Hh Hp Hu. revert a H. induction l as [|b l IH]; intros a; cbn [chain].
  - intros [-> E]. split; [done|]. by rewrite lookup_insert_ne.
  - intros [E Hl]. split; [|by apply IH]. destruct (decide (a = prev)) as [->|Ha].
    + left. rewrite lookup_insert_eq. destruct E as [E|[_ [k' Ek]]]; [congruence|].
      pose proof (Hu _ _ Ek). congruence.
    + rewrite lookup_insert_ne by done. destruct E as [E|[E [k' Ek]]]; [by left|right].
      split; [done|]. exists k'. rewrite lookup_delete_ne; [done|]. congruence.
Qed.

(** A node that is not in the chain can be given away. *)
Lemma iq_chain_delete head a l dead :
  chain links pending head a l → dead ∉ a :: l → chain (delete dead links) pending head a l.
Proof.
  revert a. induction l as [|b l IH]; intros a; cbn [chain];
    intros H [Ha Hl]%not_elem_of_cons.
  - by rewrite lookup_delete_ne.
  - rewrite lookup_delete_ne by done. destruct H as [? ?]. split; [done|by apply IH].
Qed.
End chains.

(** ** Every step keeps it *)

Lemma shared_exchange k input s l :
  iq_pending s !! k = None → input ∉ iq_tail s :: l →
  shared s l → shared (Enqueue_exchange k input s) (l ++ [input]).
Proof.
  intros Hk Hi [Hc Hn Hf Hp Hu Hd Ho].
  destruct (iq_chain_head _ _ _ _ _ Hc) as [Hh Eh].
  assert (∀ k' a b, iq_pending s !! k' = Some (a, b) → a ≠ input) as Hpi
    by (intros k' a b (? & _)%Hp ->; done).
  split; cbn [iq_links iq_pending iq_head iq_tail iq_in iq_out Enqueue_exchange].
  - by apply iq_chain_exchange.
  - rewrite app_comm_cons. apply NoDup_app. split; [done|]. split; [|apply NoDup_singleton].
    by intros c Hc1 ->%list_elem_of_singleton.
  - rewrite app_comm_cons, elements_app, app_assoc, <- Hf. case_decide as D.
    + subst. by rewrite elements_dummy, app_nil_r.
    + by rewrite elements_other.
  - intros k' a b [[<- [= <- <-]]|[N E]]%lookup_insert_Some.
    + split; [rewrite app_comm_cons; apply elem_of_app; by left|].
      assert (input ≠ iq_head s) by (intros ->; done).
      split; [done|]. by rewrite lookup_insert_ne.
    + pose proof (Hpi _ _ _ E). destruct (Hp _ _ _ E) as (H1 & _ & H2).
      split; [rewrite app_comm_cons; apply elem_of_app; by left|].
      split; [done|]. by rewrite lookup_insert_ne.
  - intros k1 k2 a b c [[<- E1]|[N1 E1]]%lookup_insert_Some
      [[<- E2]|[N2 E2]]%lookup_insert_Some; simplify_eq; [done|..].
    + apply Hp in E2 as (_ & ? & _). done.
    + apply Hp in E1 as (_ & ? & _). done.
    + by eapply Hu.
  - destruct (decide (dummy = input)) as [->|]; [rewrite lookup_insert_eq; by eexists|].
    by rewrite lookup_insert_ne.
  - case_decide; set_solver.
Qed.

Lemma shared_link k s l a b :
  shared s l → iq_pending s !! k = Some (a, b) →
  ∃ s', Enqueue_link k s = Some (Ret s') ∧
    iq_tail s' = iq_tail s ∧ iq_consumer s' = iq_consumer s ∧
    iq_pending s' = delete k (iq_pending s) ∧
    shared s' l.
Proof.
  intros [Hc Hn Hf Hp Hu Hd Ho] Ek. destruct (Hp _ _ _ Ek) as (_ & Hh & Ea).
  unfold Enqueue_link. rewrite Ek, Ea. eexists. split; [done|].
  cbn [iq_links iq_pending iq_head iq_tail iq_in iq_out iq_consumer].
  split; [done|]. split; [done|].
  split; [done|].
  split; cbn [iq_links iq_pending iq_head iq_tail iq_in iq_out iq_consumer]; try done.
  - apply iq_chain_link; try done. intros k' c E. by eapply Hu.
  - intros k' a' b' [N E]%lookup_delete_Some. destruct (Hp _ _ _ E) as (H1 & H2 & H3).
    split; [done|]. split; [done|]. rewrite lookup_insert_ne; [done|]. intros <-.
    apply N. by eapply Hu.
  - intros k1 k2 a' b' c' [_ E1]%lookup_delete_Some [_ E2]%lookup_delete_Some. by eapply Hu.
  - destruct (decide (a = dummy)) as [->|]; [rewrite lookup_insert_eq; by eexists|].
    by rewrite lookup_insert_ne.
Qed.

(** The tail moves on, past [_dummy] or past an element that was taken. *)
Lemma shared_advance s b l s' :
  shared s (b :: l) → iq_links s !! iq_tail s = Some (Some b) →
  iq_tail s' = b → iq_head s' = iq_head s → iq_pending s' = iq_pending s →
  iq_in s' = iq_in s →
  ((iq_tail s = dummy ∧ iq_links s' = iq_links s ∧ iq_out s' = iq_out s) ∨
   (iq_tail s ≠ dummy ∧ iq_links s' = delete (iq_tail s) (iq_links s) ∧
    iq_out s' = iq_out s ++ [iq_tail s])) →
  shared s' l.
Proof.
  intros [Hc Hn Hf Hp Hu Hd Ho] Et E1 E2 E3 E4 HE.
  apply NoDup_cons in Hn as [Hnt Hn]. destruct Hc as [_ Hc].
  assert (∀ c, c ≠ iq_tail s → iq_links s' !! c = iq_links s !! c) as Hl.
  { intros c Hc'. destruct HE as [(_ & -> & _)|(_ & -> & _)]; [done|].
    by rewrite lookup_delete_ne. }
  split; rewrite ?E1, ?E2, ?E3, ?E4; try done.
  - destruct HE as [(_ & -> & _)|(_ & -> & _)]; [done|]. by apply iq_chain_delete.
  - rewrite Hf. destruct HE as [(-> & _ & ->)|(N & _ & ->)].
    + by rewrite elements_dummy.
    + by rewrite elements_other, <- app_assoc.
  - intros k a c E. destruct (Hp _ _ _ E) as (H1 & H2 & H3).
    assert (a ≠ iq_tail s) as N by congruence.
    apply elem_of_cons in H1 as [|H1]; [done|]. split; [done|]. split; [done|]. by rewrite Hl.
  - destruct HE as [(_ & -> & _)|(N & -> & _)]; [done|]. by rewrite lookup_delete_ne.
Qed.


Lemma shared_consumer c s l : shared s l → shared (set_consumer c s) l.
Proof. by intros []; split. Qed.

Lemma tail_linked s l b :
  shared s l → iq_links s !! iq_tail s = Some (Some b) → ∃ l', l = b :: l'.
Proof.
  intros [Hc _ _ _ _ _ _] E. destruct l as [|b' l]; cbn [chain] in Hc; [destruct Hc; congruence|].
  exists l. f_equal. destruct Hc as [[?|[? _]] _]; congruence.
Qed.

Lemma tail_allocated s l : shared s l → is_Some (iq_links s !! iq_tail s).
Proof. intros [Hc _ _ _ _ _ _]. eapply iq_chain_allocated; [exact Hc|apply list_elem_of_here]. Qed.

(** What a step of the consumer comes to, by what it returns. *)
Definition dequeue_result (s : t) (r : option (option nat)) (s' : t) : Prop :=
  (∃ l, inv s' l) ∧
  match r with
  | None => rank (iq_consumer s') < rank (iq_consumer s)
  | Some (Some n) => n = iq_tail s ∧ n ≠ dummy ∧ iq_consumer s' = Idle
  | Some None => iq_consumer s' = Idle
  end.

Lemma fails_result s s0 l :
  shared s l → iq_pending s !! None = None → dequeue_result s0 (fails s).1 (fails s).2.
Proof. intros Hs P. split; [|done]. exists l. split; [by apply shared_consumer|done]. Qed.

Lemma takes_result s l b :
  shared s l → iq_links s !! iq_tail s = Some (Some b) → iq_tail s ≠ dummy →
  iq_pending s !! None = None →
  dequeue_result s (takes (iq_tail s) b s).1 (takes (iq_tail s) b s).2.
Proof.
  intros Hs E N P. split; [|done]. destruct (tail_linked _ _ _ Hs E) as [l' ->]. exists l'.
  split; [|done]. eapply shared_advance; try done. by right.
Qed.

Lemma with_next_result s l next :
  shared s l → iq_links s !! iq_tail s = Some next → iq_tail s ≠ dummy →
  iq_pending s !! None = None → 4 < rank (iq_consumer s) →
  dequeue_result s (with_next (iq_tail s) next s).1 (with_next (iq_tail s) next s).2.
Proof.
  intros Hs E N P R. destruct next as [b|]; [by eapply takes_result|].
  split; [|done]. exists l. split; [by apply shared_consumer|done].
Qed.

Lemma iq_inv_dequeue s l :
  inv s l → ∃ r s', Dequeue_step s = Ret (r, s') ∧ dequeue_result s r s'.
Proof.
  intros [Hs HC]. destruct (tail_allocated _ _ Hs) as [next Et].
  assert (∀ x : option (option nat) * t, dequeue_result s x.1 x.2 →
    ∃ r s', Ret x = Ret (E := Empty_set) (r, s') ∧ dequeue_result s r s') as Hret.
  { intros [r s'] D. by exists r, s'. }
  unfold Dequeue_step. unfold consumer_inv in HC.
  destruct (iq_consumer s) as [|tl|tl|tl|tl|tl] eqn:Ec.
  - rewrite Et. case_decide as D.
    2:{ apply Hret. eapply with_next_result; try done. rewrite Ec. cbn. lia. }
    destruct next as [b|]; apply Hret; [|by eapply fails_result].
    split; [|rewrite Ec; cbn; lia]. destruct (tail_linked _ _ _ Hs Et) as [l' ->].
    exists l'. split.
    + eapply shared_advance; try done. by left.
    + cbn. split; [done|]. split; [|done].
      pose proof (inv_nodup _ _ Hs) as [Hn _]%NoDup_cons. set_solver.
  - destruct HC as (-> & N & P). rewrite Et. apply Hret.
    eapply with_next_result; try done. rewrite Ec. cbn. lia.
  - destruct HC as (-> & N & P). case_decide as D; apply Hret; [|by eapply fails_result].
    split; [|rewrite Ec; cbn; lia]. exists l. split; [by apply shared_consumer|].
    cbn. repeat split; try done. destruct Hs as [Hc Hn _ _ _ _ _]. rewrite D in Hc, Hn.
    rewrite (chain_at_head _ _ _ _ Hc Hn). apply not_elem_of_nil.
  - destruct HC as (-> & N & P & Hd). destruct (inv_dummy _ _ Hs) as [dn ->]. apply Hret.
    split; [|rewrite Ec; cbn; lia]. exists (l ++ [dummy]). split.
    + apply shared_consumer, shared_exchange; [done| |done]. set_solver.
    + cbn. repeat split; [done|]. rewrite lookup_insert_eq. by eexists.
  - destruct HC as (-> & N & [[a b] P]).
    destruct (shared_link _ _ _ _ _ Hs P) as (s' & -> & Ht & _ & Ep & Hs'). apply Hret.
    split; [|rewrite Ec; cbn; lia]. exists l. split; [by apply shared_consumer|].
    cbn. rewrite Ht, Ep. repeat split; [done|]. apply lookup_delete_eq.
  - destruct HC as (-> & N & P). rewrite Et. destruct next as [b|]; apply Hret.
    + by eapply takes_result.
    + by eapply fails_result.
Qed.

Lemma iq_step_inv s s' l : inv s l → step s s' → ∃ l', inv s' l'.
Proof.
  intros Hi Hst. revert Hi. destruct Hst as [p input s Hf Hp|p s s' E|r s s' E]; intros Hi.
  - destruct Hi as [Hs HC]. exists (l ++ [input]).
    assert (input ∉ iq_tail s :: l) as Hin.
    { intros Hin. destruct (iq_chain_allocated _ _ _ _ _ (inv_chain _ _ Hs) _ Hin). congruence. }
    assert (input ≠ dummy) as Hd by (intros ->; destruct (inv_dummy _ _ Hs); congruence).
    split; [by apply shared_exchange|]. unfold consumer_inv in *.
    cbn [iq_consumer iq_pending iq_tail Enqueue_exchange].
    rewrite lookup_insert_ne by done. destruct (iq_consumer s); try done. set_solver.
  - destruct Hi as [Hs HC]. exists l.
    destruct (iq_pending s !! Some p) as [[a b]|] eqn:Ep.
    2:{ unfold Enqueue_link in E. by rewrite Ep in E. }
    destruct (shared_link _ _ _ _ _ Hs Ep) as (s1 & E1 & Ht & Ec & EP & Hs1).
    rewrite E1 in E. injection E as <-. split; [done|]. unfold consumer_inv in *.
    by rewrite Ec, EP, Ht, lookup_delete_ne.
  - destruct (iq_inv_dequeue _ _ Hi) as (r' & s1 & E1 & Hl & _). rewrite E1 in E.
    injection E as <- <-. done.
Qed.

(** ** A call with nobody else about *)

Definition quiet (s : t) : Prop := iq_consumer s = Idle ∧ iq_pending s = ∅.

(** Without pending stores every node of the chain is linked. *)
Lemma quiet_chain s l : shared s l → iq_pending s = ∅ →
  match l with
  | [] => iq_tail s = iq_head s ∧ iq_links s !! iq_tail s = Some None
  | b :: _ => iq_links s !! iq_tail s = Some (Some b)
  end.
Proof.
  intros [Hc _ _ _ _ _ _] P. destruct l as [|b l]; [done|]. cbn [chain] in Hc.
  destruct Hc as [[?|[_ [k E]]] _]; [done|]. by rewrite P, lookup_empty in E.
Qed.

(** What a quiet call comes to when it returns the element [x]. *)
Definition took (s : t) (x : nat) (o : outcome Empty_set (option nat * t)) : Prop :=
  ∃ s', o = Ret (Some x, s') ∧ (∃ l', inv s' l') ∧ quiet s' ∧
    iq_out s' = iq_out s ++ [x] ∧ iq_in s' = iq_in s.

Lemma took_running s s1 x fuel :
  Dequeue_step s = Ret (None, s1) → iq_out s1 = iq_out s → iq_in s1 = iq_in s →
  took s1 x (Dequeue_steps fuel s1) → took s x (Dequeue_steps (S fuel) s).
Proof. intros E Eo Ei. cbn [Dequeue_steps]. rewrite E. unfold took. by rewrite Eo, Ei. Qed.

Lemma took_now s l n b fuel :
  inv s l → iq_pending s = ∅ → n = iq_tail s →
  Dequeue_step s = Ret (takes n b s) → took s n (Dequeue_steps (S fuel) s).
Proof.
  intros Hi P -> E. cbn [Dequeue_steps]. rewrite E. eexists. split; [done|].
  split; [|by split]. eapply iq_step_inv; [exact Hi|]. eapply step_dequeue. by rewrite E.
Qed.

(** The last element: [_dummy] goes in behind it, and it comes out. *)
Lemma took_last s l k :
  inv s l → iq_consumer s = LoadHead (iq_tail s) → iq_pending s = ∅ →
  iq_tail s = iq_head s → took s (iq_tail s) (Dequeue_steps (4 + k) s).
Proof.
  intros Hi Ec P Hth. pose proof Hi as [Hs HC]. unfold consumer_inv in HC.
  rewrite Ec in HC. destruct HC as (_ & N & PN).
  destruct (iq_chain_head _ _ _ _ _ (inv_chain _ _ Hs)) as [_ Eh]. rewrite <- Hth in Eh.
  destruct (inv_dummy _ _ Hs) as [dn Ed].
  assert (∀ s s' l, inv s l → Dequeue_step s = Ret (None, s') → ∃ l', inv s' l') as Hstep.
  { intros s1 s2 l1 H1 E. eapply iq_step_inv; [exact H1|]. by eapply step_dequeue. }
  set (tl := iq_tail s) in *.
  assert (Dequeue_step s = Ret (goes_on (Refill tl) s)) as E1.
  { unfold Dequeue_step. by rewrite Ec, decide_True. }
  destruct (Hstep _ _ _ Hi E1) as [l1 H1].
  eapply took_running; [exact E1|done..|]. set (s1 := set_consumer _ s) in *.
  assert (Dequeue_step s1 = Ret (goes_on (RefillLink tl) (Enqueue_exchange None dummy s1))) as E2.
  { unfold Dequeue_step. cbn [iq_consumer iq_links s1 set_consumer]. by rewrite Ed. }
  destruct (Hstep _ _ _ H1 E2) as [l2 H2].
  eapply took_running; [exact E2|cbn; by rewrite ?decide_True by done..|].
  set (s2 := set_consumer (RefillLink tl) (Enqueue_exchange None dummy s1)) in *.
  assert (∃ s3, Enqueue_link None s2 = Some (Ret s3) ∧ iq_tail s3 = tl ∧ iq_pending s3 = ∅ ∧
    iq_links s3 !! tl = Some (Some dummy) ∧ iq_out s3 = iq_out s2 ∧ iq_in s3 = iq_in s2)
    as (s3 & E3 & T3 & P3 & L3 & O3 & I3).
  { unfold Enqueue_link, s2, s1. cbn [set_consumer Enqueue_exchange iq_pending iq_links iq_head].
    rewrite lookup_insert_eq, lookup_insert_ne by congruence. rewrite <- Hth, Eh.
    eexists. split; [done|]. cbn. split; [done|]. rewrite P, delete_insert_id by done.
    by rewrite lookup_insert_eq. }
  assert (Dequeue_step s2 = Ret (goes_on (LoadAgain tl) s3)) as E4.
  { unfold Dequeue_step. change (iq_consumer s2) with (RefillLink tl). by rewrite E3. }
  destruct (Hstep _ _ _ H2 E4) as [l4 H4].
  eapply took_running; [exact E4|done..|].
  eapply took_now; [exact H4|done|done|].
  unfold Dequeue_step. cbn [iq_consumer set_consumer goes_on iq_links]. by rewrite L3.
Qed.

Lemma took_rest s l next k :
  inv s l → iq_pending s = ∅ → iq_tail s ≠ dummy → iq_links s !! iq_tail s = Some next →
  Dequeue_step s = Ret (with_next (iq_tail s) next s) →
  took s (iq_tail s) (Dequeue_steps (5 + k) s).
Proof.
  intros Hi P N Et E. destruct next as [b|]; [by eapply took_now|].
  destruct (iq_step_inv s (set_consumer (LoadHead (iq_tail s)) s) l Hi) as [l1 H1].
  { eapply step_dequeue. exact E. }
  eapply took_running; [exact E|done..|].
  eapply (took_last (set_consumer (LoadHead (iq_tail s)) s)); [exact H1|done|done|].
  pose proof (quiet_chain _ _ (proj1 Hi) P) as Hq. destruct l as [|b l]; [apply Hq|congruence].
Qed.

Lemma Dequeue_quiet s l :
  inv s l → quiet s →
  match elements (iq_tail s :: l) with
  | [] => Dequeue s = Ret (None, s)
  | x :: _ => took s x (Dequeue s)
  end.
Proof.
  intros Hi [Ec P]. pose proof (quiet_chain _ _ (proj1 Hi) P) as Hq.
  destruct (tail_allocated _ _ (proj1 Hi)) as [next Et].
  unfold Dequeue. destruct (decide (iq_tail s = dummy)) as [D|D].
  2:{ rewrite elements_other by done. apply (took_rest s l next 1); try done.
      unfold Dequeue_step. by rewrite Ec, Et, decide_False. }
  rewrite D, elements_dummy. destruct l as [|b l].
  { destruct Hq as [_ E]. cbn [elements filter list_filter Dequeue_steps]. unfold Dequeue_step.
    rewrite Ec, E, decide_True by done. cbn. unfold fails, set_consumer. rewrite <- Ec.
    by destruct s. }
  assert (Dequeue_step s = Ret (goes_on (PassedDummy b) (set_tail b s))) as E1.
  { unfold Dequeue_step. by rewrite Ec, Hq, decide_True. }
  destruct (iq_inv_dequeue _ _ Hi) as (r & s1 & E1' & [l1 H1] & _).
  rewrite E1 in E1'. injection E1' as <- <-.
  assert (b ≠ dummy) as Hb.
  { pose proof (inv_nodup _ _ (proj1 Hi)) as [Hn _]%NoDup_cons. set_solver. }
  rewrite elements_other by done. eapply took_running; [exact E1|done..|].
  destruct (tail_allocated _ _ (proj1 H1)) as [next' Et'].
  apply (took_rest (set_consumer (PassedDummy b) (set_tail b s)) l1 next' 0); try done.
  unfold Dequeue_step. cbn [iq_consumer iq_links iq_tail set_consumer set_tail] in *.
  by rewrite Et'.
Qed.

Lemma drain_S fuel s :
  drain (S fuel) s =
  match Dequeue s with
  | Ret (None, s) => Ret ([], s)
  | Ret (Some output, s) =>
      match drain fuel s with
      | Ret (outputs, s) => Ret (output :: outputs, s)
      | o => o
      end
  | _ => UB
  end.
Proof. done. Qed.

(** The destructor's loop takes out all that waits. *)
Lemma drain_all s l :
  inv s l → quiet s →
  ∃ s', drain (S (length (elements (iq_tail s :: l)))) s = Ret (elements (iq_tail s :: l), s').
Proof.
  remember (elements (iq_tail s :: l)) as w eqn:Ew. revert s l Ew.
  induction w as [|x w IH]; intros s l Ew Hi Q; pose proof (Dequeue_quiet _ _ Hi Q) as H;
    rewrite <- Ew in H; rewrite drain_S.
  { rewrite H. eauto. }
  destruct H as (s1 & -> & [l1 H1] & Q1 & Eo & Ei).
  assert (w = elements (iq_tail s1 :: l1)) as Ew1.
  { pose proof (inv_fifo _ _ (proj1 Hi)) as F. pose proof (inv_fifo _ _ (proj1 H1)) as F1.
    rewrite Ei, F, Eo, <- Ew, <- app_assoc in F1. apply app_inv_head in F1. by injection F1. }
  destruct (IH s1 l1 Ew1 H1 Q1) as [s' E]. cbn [length]. rewrite E. eauto.
Qed.

(** C24: however producers and the consumer interleave, no access goes to a node
    that was handed to a caller; elements come out in the order in which their
    producers did the exchange, none lost, none twice, and [_dummy] never; a call
    of [Dequeue] takes at most six steps of its own, whatever the producers do;
    and one that runs while no producer is about returns the first element that
    waits, and fails only when none does, so that the loop of the destructor takes
    out all of them. *)
Theorem intrusive_queue_fifo (s : t) :
  rtc step init s →
  (∀ p, is_Some (iq_pending s !! Some p) → ∃ s', Enqueue_link (Some p) s = Some (Ret s')) ∧
  (∃ r s', Dequeue_step s = Ret (r, s') ∧
    match r with
    | None => rank (iq_consumer s') < rank (iq_consumer s)
    | Some _ => iq_consumer s' = Idle
    end) ∧
  dummy ∉ iq_out s ∧
  ∃ waiting, iq_in s = iq_out s ++ waiting ∧ dummy ∉ waiting ∧
    (quiet s →
     match waiting with
     | [] => Dequeue s = Ret (None, s)
     | x :: _ => ∃ s', Dequeue s = Ret (Some x, s') ∧ quiet s' ∧
                   iq_out s' = iq_out s ++ [x] ∧ iq_in s' = iq_in s
     end ∧
     ∃ s', drain (S (length waiting)) s = Ret (waiting, s')).
Proof.
  intros Hr. assert (∃ l, inv s l) as (l & Hi).
  { apply (rtc_inv step (λ s, ∃ l, inv s l)) in Hr; [done| |eexists; apply iq_inv_init].
    intros s1 s2 [l Hl] Hs. by eapply iq_step_inv. }
  split; [|split; [|split]].
  - intros p [[a b] Hp]. destruct (shared_link _ _ _ _ _ (proj1 Hi) Hp) as (s' & E & _). eauto.
  - destruct (iq_inv_dequeue _ _ Hi) as (r & s' & E & _ & H). exists r, s'. split; [done|].
    destruct r as [[n|]|]; naive_solver.
  - intros H. apply (inv_in _ _ (proj1 Hi)). rewrite (inv_fifo _ _ (proj1 Hi)). apply elem_of_app. by left.
  - exists (elements (iq_tail s :: l)). split; [apply Hi|]. split.
    + intros [H _]%list_elem_of_filter. done.
    + intros Q. split; [|by apply drain_all]. pose proof (Dequeue_quiet _ _ Hi Q) as H.
      destruct (elements _) as [|x rest]; [done|]. destruct H as (s' & ? & _ & ? & ? & ?). eauto.
Qed.
End intrusive.

(** The consumer passes the only element, and finds that a second producer has
    done its exchange but not its store: the call fails, and a later one, with
    nobody about, returns the first element. *)
Section demo.
Let d := 0.
Definition demo_one : t :=
  let s := Enqueue_exchange d (Some 1) 10 (init d) in
  match Enqueue_link (Some 1) s with Some (Ret s) => s | _ => s end.
Definition demo_step (s : t) : t := match Dequeue_step d s with Ret (_, s) => s | _ => s end.
Definition demo_race : t := Enqueue_exchange d (Some 2) 11 (demo_step (demo_step demo_one)).
Definition demo_later : t :=
  let s := demo_step demo_race in
  match Enqueue_link (Some 2) s with Some (Ret s) => s | _ => s end.
End demo.

Lemma intrusive_queue_fifo_witness :
  (∃ s, Dequeue_step 0 demo_race = Ret (Some None, s)) ∧
  rtc (step 0) (init 0) demo_later ∧ quiet demo_later ∧
  ∃ waiting, iq_in demo_later = iq_out demo_later ++ waiting ∧ waiting = [10; 11] ∧
    ∃ s', drain 0 (S (length waiting)) demo_later = Ret (waiting, s').
Proof.
  assert (rtc (step 0) (init 0) demo_later) as R.
  { apply rtc_l with (Enqueue_exchange 0 (Some 1) 10 (init 0)); [by apply step_exchange|].
    apply rtc_l with demo_one; [by apply (step_link 0 1)|].
    apply rtc_l with (demo_step demo_one); [by eapply step_dequeue|].
    apply rtc_l with (demo_step (demo_step demo_one)); [by eapply step_dequeue|].
    apply rtc_l with demo_race; [by apply step_exchange|].
    apply rtc_l with (demo_step demo_race); [by eapply step_dequeue|].
    apply rtc_l with demo_later; [by apply (step_link 0 2)|].
    apply rtc_refl. }
  assert (quiet demo_later) as Q by (by split).
  split; [by eexists|]. split; [exact R|]. split; [exact Q|].
  destruct (intrusive_queue_fifo 0 demo_later R) as (_ & _ & _ & waiting & E & _ & D).
  exists waiting. split; [exact E|]. split; [by symmetry|]. by apply D.
Defined.
End MPSCQueueIntrusive.
