(* ===== verification/Async.v ===== *)
(** * Async: callbacks waiting for their results

    Model of [AsyncCallbackProcessor.h] and [AsyncCallbackMgr.cpp] under
    [src/src/common].  The processor polls callbacks; one that is ready runs on
    the owner's state [S], where it may add further callbacks. *)

From S2P Require Import Prelude.
Open Scope Z_scope.

Module AsyncCallbackProcessor.
Section processor.
Context {T S : Type}.

(** Where the owner keeps [_callbacks], and [InvokeIfReady]. *)
Context (callbacks : S → list T) (set_callbacks : list T → S → S).
Context (InvokeIfReady : T → S → bool * S).

Definition AddCallback (query : T) (s : S) : S := set_callbacks (callbacks s ++ [query]) s.

(** [std::remove_if]: each callback is polled once, in order; those that were
    not ready are kept. *)
Fixpoint remove_if (l : list T) (s : S) : list T * S :=
  match l with
  | [] => ([], s)
  | c :: l =>
      let '(ready, s) := InvokeIfReady c s in
      let '(kept, s) := remove_if l s in
      ((if (ready : bool) then kept else c :: kept), s)
  end.

Definition ProcessReadyCallbacks (s : S) : S :=
  match callbacks s with
  | [] => s
  | l =>
      let '(kept, s) := remove_if l (set_callbacks [] s) in
      set_callbacks (callbacks s ++ kept) s
  end.

(** ** One pass runs exactly what is ready *)

Context (get_set : ∀ l s, callbacks (set_callbacks l s) = l).
Context (set_set : ∀ l l' s, set_callbacks l (set_callbacks l' s) = set_callbacks l s).
Context (set_get : ∀ s, set_callbacks (callbacks s) s = s).

(** Readiness is known beforehand; a ready callback has an effect that does not
    look at the waiting callbacks and adds some of its own; an unready one does
    nothing. *)
Context (ready : T → bool) (run : T → S → S) (adds : T → list T).
Context (Invoke_ready : ∀ c s, ready c = true →
  InvokeIfReady c s = (true, set_callbacks (callbacks s ++ adds c) (run c s))).
Context (Invoke_unready : ∀ c s, ready c = false → InvokeIfReady c s = (false, s)).
Context (run_set : ∀ c l s, run c (set_callbacks l s) = set_callbacks l (run c s)).

Lemma remove_if_spec l s :
  remove_if l s =
    (List.filter (λ c, negb (ready c)) l,
     set_callbacks (callbacks s ++ concat (map adds (List.filter ready l)))
       (fold_left (λ s c, run c s) (List.filter ready l) s)).
Proof using Invoke_ready Invoke_unready get_set set_get set_set run_set.
  revert s. induction l as [|c l IH]; intros s; cbn [remove_if List.filter].
  { cbn. by rewrite app_nil_r, set_get. }
  destruct (ready c) eqn:E; cbn [negb].
  - rewrite Invoke_ready by done. rewrite IH, get_set. f_equal.
    cbn [map concat fold_left]. rewrite app_assoc.
    assert (∀ rs k s, fold_left (λ s c, run c s) rs (set_callbacks k s)
      = set_callbacks k (fold_left (λ s c, run c s) rs s)) as P.
    { clear -run_set. induction rs as [|r rs IH]; intros k s; [done|]. cbn. by rewrite run_set, IH. }
    by rewrite P, set_set.
  - rewrite Invoke_unready by done. by rewrite IH.
Qed.

Lemma ProcessReadyCallbacks_spec s :
  let rs := List.filter ready (callbacks s) in
  ProcessReadyCallbacks s =
    set_callbacks (concat (map adds rs) ++ List.filter (λ c, negb (ready c)) (callbacks s))
      (fold_left (λ s c, run c s) rs s).
Proof using Invoke_ready Invoke_unready get_set set_get set_set run_set.
  cbn zeta. unfold ProcessReadyCallbacks. destruct (callbacks s) as [|c l] eqn:E.
  { cbn. rewrite <- E. by rewrite set_get. }
  rewrite remove_if_spec, !get_set. cbn [app]. rewrite set_set.
  assert (∀ rs k s, fold_left (λ s c, run c s) rs (set_callbacks k s)
    = set_callbacks k (fold_left (λ s c, run c s) rs s)) as P.
  { clear -run_set. induction rs as [|r rs IH]; intros k s0; [done|]. cbn. by rewrite run_set, IH. }
  by rewrite P, set_set.
Qed.
End processor.
End AsyncCallbackProcessor.

(** ** AsyncCallbackMgr

    [std::async] gives each function a thread of its own, which sleeps for the
    delay and runs it on the world [W] at some time; the manager keeps the future
    until a look at it finds the thread done. *)

Module AsyncCallbackMgr.
Section manager.
Context {W : Type}.

Record t := mk {
  _asyncCallbacks : list nat;          (** the futures, by number *)
  threads : gmap nat (Z * (W → W));    (** launched and not finished: delay and function *)
  clock : Z;
  launched : gmap nat Z;               (** when *)
  world : W;
  (** for the specification: the numbers of the functions that ran, in order *)
  ran : list nat
}.

Definition new (w : W) : t := mk [] ∅ 0 ∅ w [].

Definition next (m : t) : nat := size (launched m).

Definition set_callbacks (l : list nat) (m : t) : t :=
  mk l (threads m) (clock m) (launched m) (world m) (ran m).

Definition AddAsyncCallback (execute : W → W) (delay : Z) (m : t) : t :=
  AsyncCallbackProcessor.AddCallback _asyncCallbacks set_callbacks (next m)
    (mk (_asyncCallbacks m) (<[next m := (delay, execute)]> (threads m)) (clock m)
        (<[next m := clock m]> (launched m)) (world m) (ran m)).

(** A future is ready when its thread is done; the answer changes nothing. *)
Definition InvokeIfReady (future : nat) (m : t) : bool * t :=
  (bool_decide (threads m !! future = None), m).

Definition ProcessReadyCallbacks (m : t) : t :=
  AsyncCallbackProcessor.ProcessReadyCallbacks _asyncCallbacks set_callbacks InvokeIfReady m.

(** A thread wakes up, runs its function and ends. *)
Definition run_thread (n : nat) (m : t) : option t :=
  '(delay, execute) ← threads m !! n;
  since ← launched m !! n;
  if (0 <? delay) && (clock m <? since + delay) then None
  else Some (mk (_asyncCallbacks m) (delete n (threads m)) (clock m) (launched m)
                (execute (world m)) (ran m ++ [n])).

Definition pass (d : Z) (m : t) : t :=
  mk (_asyncCallbacks m) (threads m) (clock m + d) (launched m) (world m) (ran m).

Inductive step : t → t → Prop :=
  | step_add execute delay m : step m (AddAsyncCallback execute delay m)
  | step_process m : step m (ProcessReadyCallbacks m)
  | step_run n m m' : run_thread n m = Some m' → step m m'
  | step_pass d m : 0 <= d → step m (pass d m).

Definition unfinished (m : t) (n : nat) : bool := negb (bool_decide (threads m !! n = None)).

Lemma remove_if_ready l (m : t) :
  AsyncCallbackProcessor.remove_if InvokeIfReady l m = (List.filter (unfinished m) l, m).
Proof.
  induction l as [|n l IH]; [done|]. cbn [AsyncCallbackProcessor.remove_if InvokeIfReady].
  rewrite IH. cbn [List.filter]. unfold unfinished at 3. by case_bool_decide.
Qed.

Lemma Process_eq m :
  ProcessReadyCallbacks m = set_callbacks (List.filter (unfinished m) (_asyncCallbacks m)) m.
Proof.
  unfold ProcessReadyCallbacks, AsyncCallbackProcessor.ProcessReadyCallbacks.
  destruct (_asyncCallbacks m) as [|n l] eqn:E; [by destruct m; cbn in *; subst|].
  by rewrite remove_if_ready.
Qed.

Record inv (m : t) : Prop := {
  inv_numbers n : n ∈ dom (launched m) ↔ (n < next m)%nat;
  inv_partition n : n ∈ dom (launched m) ↔ n ∈ ran m ∨ n ∈ dom (threads m);
  inv_once : NoDup (ran m);
  inv_apart n : n ∈ ran m → threads m !! n = None;
  inv_kept n : is_Some (threads m !! n) → n ∈ _asyncCallbacks m
}.

Lemma manager_step m m' : inv m → step m m' → inv m'.
Proof.
  intros [H1 H2 H3 H4 H5]. destruct 1 as [execute delay m|m|n m m' E|d m _].
  - assert (next m ∉ dom (launched m)) as Hn by (rewrite H1; lia).
    assert (launched m !! next m = None) as Hl by (by apply not_elem_of_dom).
    assert (next (AddAsyncCallback execute delay m) = S (next m)) as En
      by (unfold next; cbn; by rewrite map_size_insert_None).
    split; rewrite ?En; cbn -[next].
    + intros n. rewrite dom_insert, elem_of_union, elem_of_singleton. rewrite H1. lia.
    + intros n. rewrite !dom_insert, !elem_of_union, !elem_of_singleton, H2. tauto.
    + done.
    + intros n Hr. rewrite lookup_insert_ne; [by apply H4|]. intros <-. apply Hn, H2. by left.
    + intros n Hs. apply elem_of_app. rewrite lookup_insert_is_Some in Hs.
      destruct Hs as [->|[_ Hs]]; [right; apply list_elem_of_here|left; by apply H5].
  - rewrite Process_eq. split; try done. cbn. intros n Hs. apply list_elem_of_In, filter_In.
    split; [by apply list_elem_of_In, H5|]. unfold unfinished. rewrite bool_decide_eq_false_2; [done|].
    intros E. by rewrite E in Hs; destruct Hs.
  - unfold run_thread in E. destruct (threads m !! n) as [[delay execute]|] eqn:Et; [|done].
    destruct (launched m !! n) as [since|] eqn:El; [|done]. cbn in E.
    destruct ((0 <? delay) && (clock m <? since + delay)); [done|]. injection E as <-.
    assert (n ∉ ran m) as Hn by (intros Hr%H4; congruence).
    split; cbn; try done.
    + intros k. rewrite H2, dom_delete, elem_of_difference, elem_of_app, elem_of_singleton,
        list_elem_of_singleton. destruct (decide (k = n)) as [->|]; [|tauto].
      split; [tauto|]. intros _. right. by apply elem_of_dom_2 in Et.
    + apply NoDup_app. split; [done|]. split; [|apply NoDup_singleton].
      by intros k Hk ->%list_elem_of_singleton.
    + intros k [Hk| ->%list_elem_of_singleton]%elem_of_app; [|apply lookup_delete_eq].
      rewrite lookup_delete_ne; [by apply H4|]. by intros ->.
    + intros k [Hk Hs]%lookup_delete_is_Some. by apply H5.
  - by split.
Qed.

Lemma manager_reachable (w : W) m : rtc step (new w) m → inv m.
Proof.
  intros Hr. apply (rtc_inv step inv) in Hr; [done|apply manager_step|].
  split; cbn.
  - intros n. unfold next. cbn. rewrite dom_empty, map_size_empty. split; [set_solver|lia].
  - intros n. rewrite !dom_empty. set_solver.
  - constructor.
  - intros n H. by apply elem_of_nil in H.
  - intros n [x H]. by rewrite lookup_empty in H.
Qed.

(** However threads, additions and polls interleave: every function that was
    handed over runs at most once and waits in a thread of its own until it has;
    the manager keeps the future of each that waits, so that no poll ends up
    waiting for a thread in the destructor of a future; a poll leaves exactly the
    unfinished ones and runs nothing; and a thread whose delay is over can run. *)
Theorem async_callbacks (w : W) (m : t) :
  rtc step (new w) m →
  NoDup (ran m) ∧
  (∀ n, (n < next m)%nat ↔ n ∈ ran m ∨ is_Some (threads m !! n)) ∧
  (∀ n, is_Some (threads m !! n) → n ∉ ran m ∧ n ∈ _asyncCallbacks m) ∧
  (let m' := ProcessReadyCallbacks m in
   world m' = world m ∧ threads m' = threads m ∧
   ∀ n, n ∈ _asyncCallbacks m' ↔ n ∈ _asyncCallbacks m ∧ is_Some (threads m !! n)) ∧
  (∀ n delay execute since, threads m !! n = Some (delay, execute) → launched m !! n = Some since →
     since + delay <= clock m → ∃ m', run_thread n m = Some m' ∧ world m' = execute (world m)).
Proof.
  intros Hr. destruct (manager_reachable w m Hr) as [H1 H2 H3 H4 H5].
  split; [done|]. split; [|split; [|split]].
  - intros n. by rewrite <- H1, H2, elem_of_dom.
  - intros n Hs. split; [|by apply H5]. intros Hn%H4. rewrite Hn in Hs. by destruct Hs.
  - cbn zeta. rewrite Process_eq. split; [done|]. split; [done|]. cbn. intros n.
    rewrite list_elem_of_In, filter_In, <- list_elem_of_In. unfold unfinished.
    rewrite negb_true_iff, bool_decide_eq_false, <- not_eq_None_Some. done.
  - intros n delay execute since Et El Hc. unfold run_thread. rewrite Et, El. cbn.
    rewrite (proj2 (Z.ltb_ge _ _) Hc), andb_false_r. by eexists.
Qed.
End manager.
End AsyncCallbackMgr.
