(* ===== verification/Socket.v ===== *)
(** * Socket: buffered asynchronous reads and writes

    Model of [src/src/shared/Network/Socket.h], in the variant without IOCP.
    The derived class enters through its state [T] and its [OnClose] and
    [ReadHandler].  What the operating system answers to each [write_some] is
    an oracle, a list of answers; a used-up oracle answers "would block". *)

From S2P Require Import Prelude MessageBuffer.
Open Scope Z_scope.

(** [write_some]: would block (or try again), failed, or took some bytes. *)
Inductive write_result := WouldBlock | WriteError | Sent (n : Z).

Record Socket := mkSocket {
  sk_closed : bool;
  sk_closing : bool;
  sk_isWritingAsync : bool;
  sk_readBuffer : MessageBuffer;
  sk_writeQueue : list MessageBuffer;
  (** an [async_read_some] is outstanding *)
  sk_reading : bool;
  (** the operating system: its coming answers, and the bytes it took *)
  sk_os : list write_result;
  sk_sent : list Z
}.

Module SocketOps.

Definition new (os : list write_result) : Socket :=
  mkSocket false false false (MB.Resize READ_BLOCK_SIZE MB.new_default) [] false os [].

Definition set_closed (v : bool) (s : Socket) : Socket :=
  mkSocket v (sk_closing s) (sk_isWritingAsync s) (sk_readBuffer s) (sk_writeQueue s)
    (sk_reading s) (sk_os s) (sk_sent s).
Definition set_closing (v : bool) (s : Socket) : Socket :=
  mkSocket (sk_closed s) v (sk_isWritingAsync s) (sk_readBuffer s) (sk_writeQueue s)
    (sk_reading s) (sk_os s) (sk_sent s).
Definition set_isWritingAsync (v : bool) (s : Socket) : Socket :=
  mkSocket (sk_closed s) (sk_closing s) v (sk_readBuffer s) (sk_writeQueue s)
    (sk_reading s) (sk_os s) (sk_sent s).
Definition set_readBuffer (v : MessageBuffer) (s : Socket) : Socket :=
  mkSocket (sk_closed s) (sk_closing s) (sk_isWritingAsync s) v (sk_writeQueue s)
    (sk_reading s) (sk_os s) (sk_sent s).
Definition set_writeQueue (v : list MessageBuffer) (s : Socket) : Socket :=
  mkSocket (sk_closed s) (sk_closing s) (sk_isWritingAsync s) (sk_readBuffer s) v
    (sk_reading s) (sk_os s) (sk_sent s).
Definition set_reading (v : bool) (s : Socket) : Socket :=
  mkSocket (sk_closed s) (sk_closing s) (sk_isWritingAsync s) (sk_readBuffer s) (sk_writeQueue s)
    v (sk_os s) (sk_sent s).

Definition IsOpen (s : Socket) : bool := negb (sk_closed s) && negb (sk_closing s).

Definition DelayedCloseSocket (s : Socket) : Socket := set_closing true s.

Definition QueuePacket (buffer : MessageBuffer) (s : Socket) : Socket :=
  set_writeQueue (sk_writeQueue s ++ [buffer]) s.

Definition AsyncRead (s : Socket) : Socket :=
  if negb (IsOpen s) then s
  else set_reading true
         (set_readBuffer (MB.EnsureFreeSpace (MB.Normalize (sk_readBuffer s))) s).

(** [AsyncProcessQueue] asks to be told when the socket is writable. *)
Definition AsyncProcessQueue (s : Socket) : bool * Socket :=
  if sk_isWritingAsync s then (false, s) else (false, set_isWritingAsync true s).

(** The system call: its answer, and the socket after it. *)
Definition write_some (data : list Z) (s : Socket) : write_result * Socket :=
  let put os sent :=
    mkSocket (sk_closed s) (sk_closing s) (sk_isWritingAsync s) (sk_readBuffer s)
      (sk_writeQueue s) (sk_reading s) os sent in
  match sk_os s with
  | [] => (WouldBlock, s)
  | Sent n :: os =>
      let n := Z.min (Z.max 0 n) (zlen data) in (Sent n, put os (sk_sent s ++ ztake n data))
  | r :: os => (r, put os (sk_sent s))
  end.

Section derived.
Context {T : Type} (OnClose : T → T).

Abbreviation st := (Socket * T)%type.

Definition CloseSocket (s : st) : st :=
  let '(sk, d) := s in
  if sk_closed sk then (sk, d) else (set_closed true sk, OnClose d).

(** Take the first buffer off the queue, and finish a delayed close. *)
Definition pop_and_close (s : st) : st :=
  let '(sk, d) := s in
  let sk := set_writeQueue (tail (sk_writeQueue sk)) sk in
  match sk_writeQueue sk with
  | [] => if sk_closing sk then CloseSocket (sk, d) else (sk, d)
  | _ => (sk, d)
  end.

Definition HandleQueue (s : st) : bool * st :=
  let '(sk, d) := s in
  match sk_writeQueue sk with
  | [] => (false, s)
  | queuedMessage :: rest =>
      let bytesToSend := MB.GetActiveSize queuedMessage in
      let '(r, sk) := write_some (MB.active queuedMessage) sk in
      match r with
      | WouldBlock => let '(b, sk) := AsyncProcessQueue sk in (b, (sk, d))
      | WriteError => (false, pop_and_close (sk, d))
      | Sent bytesSent =>
          if bytesSent =? 0 then (false, pop_and_close (sk, d))
          else if bytesSent <? bytesToSend then
            let sk := set_writeQueue (MB.ReadCompleted bytesSent queuedMessage :: rest) sk in
            let '(b, sk) := AsyncProcessQueue sk in (b, (sk, d))
          else
            let '(sk, d) := pop_and_close (sk, d) in
            (negb (match sk_writeQueue sk with [] => true | _ => false end), (sk, d))
      end
  end.

(** [for (; HandleQueue();) ;]: a turn that goes on took a buffer off. *)
Fixpoint HandleQueue_loop (fuel : nat) (s : st) : st :=
  match fuel with
  | O => s
  | S fuel => let '(again, s) := HandleQueue s in if again then HandleQueue_loop fuel s else s
  end.

Definition Update (s : st) : bool * st :=
  let '(sk, d) := s in
  if sk_closed sk then (false, s)
  else
    let empty := match sk_writeQueue sk with [] => true | _ => false end in
    if sk_isWritingAsync sk || (empty && negb (sk_closing sk)) then (true, s)
    else (true, HandleQueue_loop (S (length (sk_writeQueue sk))) s).

Definition WriteHandlerWrapper (s : st) : st :=
  let '(sk, d) := s in (HandleQueue (set_isWritingAsync false sk, d)).2.

(** The system wrote [data] at the write pointer before it calls back. *)
Definition receive (data : list Z) (b : MessageBuffer) : MessageBuffer :=
  MB.WriteCompleted (zlen data)
    (mkMB (mb_wpos b) (mb_rpos b) (overwrite (mb_wpos b) data (mb_storage b))).

(** [ReadHandlerInternal]: [None] is an error. *)
Definition ReadHandlerInternal {E} (ReadHandler : M E st ()) (result : option (list Z))
  : M E st () := λ s,
  let '(sk, d) := s in
  let sk := set_reading false sk in
  match result with
  | None => (Ret (), CloseSocket (sk, d))
  | Some data => ReadHandler (set_readBuffer (receive data (sk_readBuffer sk)) sk, d)
  end.

(** ** Writing: nothing is lost, doubled or reordered *)

(** The bytes queued and not yet handed to the system. *)
Definition pending (s : Socket) : list Z := concat (map MB.active (sk_writeQueue s)).

Definition queue_wf (s : Socket) : Prop := Forall MB.wf (sk_writeQueue s).

(** Answers of a connection that works: it blocks or takes something. *)
Definition answer_ok (r : write_result) : Prop :=
  match r with WouldBlock => True | WriteError => False | Sent n => 0 < n end.

Definition os_ok (s : Socket) : Prop := Forall answer_ok (sk_os s).

(** The writing side of a socket is in order: its buffers are well formed, and
    those of length 0 are not queued. *)
Record wr_ok (s : Socket) : Prop := {
  wr_wf : queue_wf s;
  wr_os : os_ok s;
  wr_nonempty : Forall (λ b, MB.active b ≠ []) (sk_writeQueue s)
}.

(** Everything written so far, in order. *)
Definition stream (s : Socket) : list Z := sk_sent s ++ pending s.

Lemma stream_close sk d : stream (CloseSocket (sk, d)).1 = stream sk ∧
  sk_writeQueue (CloseSocket (sk, d)).1 = sk_writeQueue sk ∧
  sk_os (CloseSocket (sk, d)).1 = sk_os sk ∧
  sk_isWritingAsync (CloseSocket (sk, d)).1 = sk_isWritingAsync sk.
Proof. unfold CloseSocket. by destruct (sk_closed sk). Qed.

Lemma pop_and_close_spec sk d :
  let s' := (pop_and_close (sk, d)).1 in
  sk_writeQueue s' = tail (sk_writeQueue sk) ∧ sk_sent s' = sk_sent sk ∧ sk_os s' = sk_os sk ∧
  sk_isWritingAsync s' = sk_isWritingAsync sk.
Proof.
  unfold pop_and_close, CloseSocket. cbn.
  destruct (tail (sk_writeQueue sk)) eqn:E; cbn; rewrite ?E; [|done].
  destruct (sk_closing sk), (sk_closed sk); cbn; by rewrite ?E.
Qed.

Lemma write_some_spec data s r s' :
  write_some data s = (r, s') → os_ok s →
  os_ok s' ∧ sk_writeQueue s' = sk_writeQueue s ∧ sk_closing s' = sk_closing s ∧
  match r with
  | WouldBlock => sk_sent s' = sk_sent s
  | WriteError => False
  | Sent n => (data ≠ [] → 0 < n) ∧ n <= zlen data ∧ sk_sent s' = sk_sent s ++ ztake n data
  end.
Proof.
  unfold write_some, os_ok. destruct (sk_os s) as [|[| |n] os] eqn:E; intros [= <- <-] H.
  - by rewrite E.
  - by inversion H.
  - by inversion H.
  - inversion H as [|? ? Hn Hos]; subst. cbn in *.
    split; [done|]. split; [done|]. split; [done|]. split; [|split; [lia|done]].
    intros Hd. destruct data; [done|]. rewrite zlen_cons. pose proof (zlen_nonneg data). lia.
Qed.

Lemma HandleQueue_spec sk d :
  wr_ok sk →
  let '(again, (sk', d')) := HandleQueue (sk, d) in
  wr_ok sk' ∧ stream sk' = stream sk ∧
  (again = true → (length (sk_writeQueue sk') < length (sk_writeQueue sk))%nat) ∧
  (again = false → sk_writeQueue sk' = [] ∨ sk_isWritingAsync sk' = true).
Proof.
  intros [Hq Hos Hne]. unfold HandleQueue, queue_wf in *.
  destruct (sk_writeQueue sk) as [|m rest] eqn:Eq.
  { split; [by split; unfold queue_wf; rewrite ?Eq|]. rewrite ?Eq. split; [done|]. split; [done|by left]. }
  inversion Hq as [|? ? Hm Hrest]; subst. inversion Hne as [|? ? Hmne Hrne]; subst.
  destruct (write_some (MB.active m) sk) as [r sk1] eqn:Ew.
  apply write_some_spec in Ew as (Hos1 & Hq1 & Hcl & Hr); [|done]. rewrite Eq in Hq1.
  assert (∀ sk2, sk_os sk2 = sk_os sk1 → sk_writeQueue sk2 = m :: rest → wr_ok sk2) as Hkeep.
  { intros sk2 E1 E2. split; unfold queue_wf, os_ok; by rewrite ?E1, ?E2. }
  assert (∀ sk2, sk_os sk2 = sk_os sk1 → sk_writeQueue sk2 = rest → wr_ok sk2) as Hpop.
  { intros sk2 E1 E2. split; unfold queue_wf, os_ok; by rewrite ?E1, ?E2. }
  destruct r as [| |n].
  - unfold AsyncProcessQueue. destruct (sk_isWritingAsync sk1) eqn:Ea; cbn.
    + split; [by apply Hkeep|]. split; [unfold stream, pending; by rewrite Hr, Hq1, Eq|].
      split; [done|by right].
    + split; [by apply Hkeep|]. split; [unfold stream, pending; cbn; by rewrite Hr, Hq1, Eq|].
      split; [done|by right].
  - done.
  - destruct Hr as (Hn0 & Hn & Hsent). specialize (Hn0 Hmne).
    rewrite (MB.zlen_active m Hm) in Hn.
    destruct (Z.eqb_spec n 0); [lia|]. destruct (Z.ltb_spec n (MB.GetActiveSize m)).
    + destruct (MB.ReadCompleted_spec n m Hm ltac:(lia)) as [Hm' Ha'].
      assert (∀ sk2, sk_os sk2 = sk_os sk1 → sk_sent sk2 = sk_sent sk1 →
        sk_writeQueue sk2 = MB.ReadCompleted n m :: rest → wr_ok sk2 ∧ stream sk2 = stream sk) as Hpart.
      { intros sk2 E1 E2 E3. split.
        - split; unfold queue_wf, os_ok; rewrite ?E1, ?E3; [by constructor|done|].
          constructor; [|done]. rewrite Ha'. intros E0.
          pose proof (MB.zlen_active m Hm) as L. apply (f_equal zlen) in E0.
          rewrite zlen_zdrop in E0; change (zlen (@nil Z)) with 0 in E0. lia.
        - unfold stream, pending. rewrite E2, E3, Eq, Hsent. cbn [map concat].
          rewrite Ha', <- app_assoc. f_equal. by rewrite app_assoc, ztake_zdrop. }
      unfold AsyncProcessQueue. cbn [sk_isWritingAsync set_writeQueue].
      destruct (sk_isWritingAsync sk1) eqn:Ea.
      * destruct (Hpart (set_writeQueue (MB.ReadCompleted n m :: rest) sk1)) as [H1 H2]; [done..|].
        split; [done|]. split; [done|]. split; [done|by right].
      * destruct (Hpart (set_isWritingAsync true (set_writeQueue (MB.ReadCompleted n m :: rest) sk1)))
          as [H1 H2]; [done..|]. split; [done|]. split; [done|]. split; [done|by right].
    + pose proof (pop_and_close_spec sk1 d) as P. cbn zeta in P.
      destruct (pop_and_close (sk1, d)) as [sk2 d2]. cbn [fst] in P.
      destruct P as (P1 & P2 & P3 & _). rewrite Hq1 in P1. cbn [tail] in P1.
      split; [by apply Hpop|]. rewrite P1. cbn [length]. split; [|split; [lia|]].
      * unfold stream, pending. rewrite P1, P2, Eq, Hsent. cbn [map concat].
        rewrite <- app_assoc. do 2 f_equal. apply ztake_all.
        rewrite (MB.zlen_active m Hm). lia.
      * destruct rest; [by left|done].
Qed.
Lemma HandleQueue_loop_spec fuel sk d :
  wr_ok sk → (length (sk_writeQueue sk) < fuel)%nat →
  let sk' := (HandleQueue_loop fuel (sk, d)).1 in
  wr_ok sk' ∧ stream sk' = stream sk ∧ (sk_writeQueue sk' = [] ∨ sk_isWritingAsync sk' = true).
Proof.
  revert sk d. induction fuel as [|fuel IH]; intros sk d Hok Hf; [lia|].
  cbn [HandleQueue_loop]. pose proof (HandleQueue_spec sk d Hok) as H.
  destruct (HandleQueue (sk, d)) as [again [sk1 d1]]. destruct H as (Hok1 & Hs1 & Ht & Hf1).
  destruct again; [|cbn; auto].
  destruct (IH sk1 d1 Hok1) as (H1 & H2 & H3); [specialize (Ht eq_refl); lia|].
  cbn zeta. by rewrite H2.
Qed.

Lemma Update_spec sk d :
  wr_ok sk →
  let '(r, (sk', d')) := Update (sk, d) in
  wr_ok sk' ∧ stream sk' = stream sk ∧ r = negb (sk_closed sk) ∧
  (r = true → sk_writeQueue sk' = [] ∨ sk_isWritingAsync sk' = true).
Proof.
  intros Hok. unfold Update. destruct (sk_closed sk); [done|]. cbn [negb].
  destruct (_ || _) eqn:E.
  - split; [done|]. split; [done|]. split; [done|]. intros _.
    apply orb_true_iff in E as [E|E]; [by right|].
    apply andb_true_iff in E as [E _]. left. by destruct (sk_writeQueue sk).
  - pose proof (HandleQueue_loop_spec (S (length (sk_writeQueue sk))) sk d Hok ltac:(lia)) as H.
    destruct (HandleQueue_loop _ (sk, d)) as [sk' d']. cbn in H. naive_solver.
Qed.

(** The derived state changes by [OnClose] only. *)
Section derived_state.
Context (P : T → Prop) (P_close : ∀ d, P d → P (OnClose d)).

Lemma pop_and_close_derived sk d : P d → P (pop_and_close (sk, d)).2.
Proof using P_close.
  intros Hd. unfold pop_and_close, CloseSocket. cbn. repeat case_match; cbn; auto.
Qed.

Lemma HandleQueue_derived s : P s.2 → P (HandleQueue s).2.2.
Proof using P_close.
  destruct s as [sk d]. cbn [snd]. intros Hd. unfold HandleQueue.
  destruct (sk_writeQueue sk) as [|m rest]; [done|].
  destruct (write_some _ sk) as [r sk1]. unfold AsyncProcessQueue.
  pose proof (pop_and_close_derived sk1 d Hd) as Hp.
  destruct r; [by destruct (sk_isWritingAsync sk1)|done|].
  destruct (n =? 0); [done|]. destruct (n <? _); [by case_match|].
  by destruct (pop_and_close (sk1, d)).
Qed.

Lemma Update_derived s : P s.2 → P (Update s).2.2.
Proof using P_close.
  destruct s as [sk d]. cbn [snd]. intros Hd. unfold Update. case_match; [done|].
  case_match; [done|]. cbn [snd]. generalize (S (length (sk_writeQueue sk))).
  intros fuel. assert (P (sk, d).2) as Hs by done. revert Hs. generalize (sk, d).
  induction fuel as [|fuel IH]; intros s Hs; cbn [HandleQueue_loop]; [done|].
  pose proof (HandleQueue_derived s Hs) as Hq. destruct (HandleQueue s) as [[|] s1]; [by apply IH|done].
Qed.
End derived_state.

(** What the server and the event loop do to the writing side. *)
Inductive op :=
  | OQueuePacket (m : MessageBuffer)
  | OUpdate
  | OWritable
  | ODelayedClose
  | OClose.

Definition run_op (o : op) (s : st) : st :=
  match o with
  | OQueuePacket m => (QueuePacket m s.1, s.2)
  | OUpdate => (Update s).2
  | OWritable => WriteHandlerWrapper s
  | ODelayedClose => (DelayedCloseSocket s.1, s.2)
  | OClose => CloseSocket s
  end.

Definition op_ok (o : op) : Prop :=
  match o with OQueuePacket m => MB.wf m ∧ MB.active m ≠ [] | _ => True end.

Definition queued (o : op) : list Z :=
  match o with OQueuePacket m => MB.active m | _ => [] end.

Lemma wr_ok_ext s s' :
  sk_writeQueue s' = sk_writeQueue s → sk_os s' = sk_os s → wr_ok s → wr_ok s'.
Proof. intros E1 E2 []. split; unfold queue_wf, os_ok; by rewrite ?E1, ?E2. Qed.

Lemma run_op_spec o s :
  wr_ok s.1 → op_ok o →
  wr_ok (run_op o s).1 ∧ stream (run_op o s).1 = stream s.1 ++ queued o.
Proof.
  intros Hok Ho. destruct s as [sk d]. cbn [fst] in Hok.
  destruct o as [m| | | |]; cbn [run_op queued fst snd]; rewrite ?app_nil_r.
  - destruct Ho as [Hm Hne]. destruct Hok as [Hq Hos Hn]. split.
    + split; [apply Forall_app_2; [done|]|done|apply Forall_app_2; [done|]];
        (constructor; [done|constructor]).
    + unfold stream, pending. cbn. by rewrite map_app, concat_app, app_assoc; cbn; rewrite app_nil_r.
  - pose proof (Update_spec sk d Hok) as H. destruct (Update (sk, d)) as [r [sk' d']]. naive_solver.
  - pose proof (HandleQueue_spec (set_isWritingAsync false sk) d) as H. cbn [WriteHandlerWrapper].
    destruct (HandleQueue _) as [r [sk' d']]. cbn [fst snd].
    destruct H as (H1 & H2 & _); [by apply (wr_ok_ext sk)|]. done.
  - split; [by apply (wr_ok_ext sk)|done].
  - destruct (stream_close sk d) as (H1 & H2 & H3 & _). split; [by apply (wr_ok_ext sk)|done].
Qed.

(** C20: however the connection blocks and takes the data in pieces, and whenever
    the server queues, updates and closes, the bytes sent followed by those
    still queued are exactly the messages queued, in order; and after an
    [Update] nothing unsent is left without a wait for writability. *)
Theorem socket_stream_exact (os : list op) (s : st) :
  wr_ok s.1 → Forall op_ok os →
  let s' := fold_left (λ s o, run_op o s) os s in
  stream s'.1 = stream s.1 ++ concat (map queued os) ∧
  ((Update s').1 = true →
   sk_writeQueue (Update s').2.1 = [] ∨ sk_isWritingAsync (Update s').2.1 = true).
Proof.
  intros Hok Hos. cbn zeta.
  assert (wr_ok (fold_left (λ s o, run_op o s) os s).1 ∧
    stream (fold_left (λ s o, run_op o s) os s).1 = stream s.1 ++ concat (map queued os)) as [H1 H2].
  { revert s Hok. induction Hos as [|o os Ho Hos IH]; intros s Hok.
    - cbn. by rewrite app_nil_r.
    - cbn [fold_left map concat]. destruct (run_op_spec o s Hok Ho) as [H1 H2].
      destruct (IH (run_op o s) H1) as [H3 H4]. split; [done|]. by rewrite H4, H2, app_assoc. }
  split; [done|]. destruct (fold_left _ os s) as [sk d].
  pose proof (Update_spec sk d H1) as H. destruct (Update (sk, d)) as [r [sk' d']]. naive_solver.
Qed.
End derived.

(** A message of three bytes goes out in two pieces, with a block in between. *)
Lemma socket_stream_exact_witness :
  let m := mkMB 3 0 [1; 2; 3; 0] in
  let ops := [OQueuePacket m; OUpdate; OWritable; OQueuePacket m; OWritable] in
  let s' := fold_left (λ s o, run_op (λ _ : unit, tt) o s) ops
              (new [Sent 2; WouldBlock; Sent 9; WouldBlock], tt) in
  sk_sent s'.1 = [1; 2; 3] ∧
  stream s'.1 = stream (new [Sent 2; WouldBlock; Sent 9; WouldBlock]) ++ concat (map queued ops) ∧
  ((Update (λ _ : unit, tt) s').1 = true →
   sk_writeQueue (Update (λ _ : unit, tt) s').2.1 = [] ∨
   sk_isWritingAsync (Update (λ _ : unit, tt) s').2.1 = true).
Proof.
  split; [by vm_compute|].
  apply (socket_stream_exact (λ _ : unit, tt)
    [OQueuePacket (mkMB 3 0 [1; 2; 3; 0]); OUpdate; OWritable;
     OQueuePacket (mkMB 3 0 [1; 2; 3; 0]); OWritable]
    (new [Sent 2; WouldBlock; Sent 9; WouldBlock], tt)).
  - split; unfold queue_wf, os_ok; cbn; repeat constructor; cbn; lia.
  - assert (op_ok (OQueuePacket (mkMB 3 0 [1; 2; 3; 0]))) as H.
    { split; [split; vm_compute; done|vm_compute; done]. }
    repeat constructor; apply H.
Defined.

(** A socket that is to close once its buffers are written, and has none, stays
    half-closed: [Update] never gets to [CloseSocket]. *)
Example delayed_close_of_idle_socket :
  let s := (DelayedCloseSocket (new []), false) in
  Update (λ _, true) s = (true, s) ∧ sk_closed s.1 = false.
Proof. by vm_compute. Qed.
End SocketOps.
