(* ===== verification/Session.v ===== *)
(** * Session: an authenticated game server

    Model of [DiscordSession.h]/[.cpp] under [src/src/server/Server] and of the
    packet handlers under [src/src/server/Handlers].  What the session does to
    the outside (the bot's messages) is recorded in [s_out]; its socket is any
    type with the [SessionSocket] interface. *)

From S2P Require Import Prelude MessageBuffer Utf8 Strings Timer Enums ByteBuffer Wire Packets.
From S2P Require Import Queues.
Open Scope Z_scope.
Import BB.

(** What a session needs of its socket. *)
Class SessionSocket (S : Type) := {
  sock_IsOpen : S → bool;
  sock_SendPacket : DiscordPacket → S → S;
  sock_CloseSocket : S → S
}.

Class SessionSocketLaws (S : Type) `{SessionSocket S} : Prop := {
  close_not_open (s : S) : sock_IsOpen (sock_CloseSocket s) = false;
  send_same_open packet (s : S) : sock_IsOpen (sock_SendPacket packet s) = sock_IsOpen s
}.

(** The embed handed to the bot: the calls on [dpp::embed], in order. *)
Record Embed := mkEmbed {
  em_color : Z;
  em_title : list Z;
  em_description : list Z;
  em_fields : list EmbedField;
  em_timestamp : Z
}.

(** Calls on [sDiscordBot]. *)
Inductive bot_call :=
  | SendDefaultMessage (channelID : Z) (message : list Z)
  | SendEmbedMessage (channelID : Z) (embed : Embed).

Record DiscordSession := mkSession {
  s_socket : bool;
  s_address : list Z;
  s_accountId : Z;
  s_guildID : Z;
  s_accountName : list Z;
  s_latency : Z;
  s_kicked : bool;
  s_channels : list Z;
  s_recvQueue : PacketQueue.t DiscordPacket;
  s_out : list bot_call
}.

Definition MAX_PROCESSED_PACKETS_IN_SAME_WORLDSESSION_UPDATE : Z := 100.

Module Session.

Definition new (id guidID : Z) (name : list Z) (channels : list Z) (address : list Z)
  : DiscordSession :=
  mkSession true address id guidID name 0 false channels PacketQueue.new [].

Definition set_socket (v : bool) (s : DiscordSession) : DiscordSession :=
  mkSession v (s_address s) (s_accountId s) (s_guildID s) (s_accountName s) (s_latency s)
    (s_kicked s) (s_channels s) (s_recvQueue s) (s_out s).
Definition SetLatency (latency : Z) (s : DiscordSession) : DiscordSession :=
  mkSession (s_socket s) (s_address s) (s_accountId s) (s_guildID s) (s_accountName s) latency
    (s_kicked s) (s_channels s) (s_recvQueue s) (s_out s).
Definition SetKicked (v : bool) (s : DiscordSession) : DiscordSession :=
  mkSession (s_socket s) (s_address s) (s_accountId s) (s_guildID s) (s_accountName s)
    (s_latency s) v (s_channels s) (s_recvQueue s) (s_out s).
Definition set_recvQueue (q : PacketQueue.t DiscordPacket) (s : DiscordSession) : DiscordSession :=
  mkSession (s_socket s) (s_address s) (s_accountId s) (s_guildID s) (s_accountName s)
    (s_latency s) (s_kicked s) (s_channels s) q (s_out s).
Definition emit (c : bot_call) (s : DiscordSession) : DiscordSession :=
  mkSession (s_socket s) (s_address s) (s_accountId s) (s_guildID s) (s_accountName s)
    (s_latency s) (s_kicked s) (s_channels s) (s_recvQueue s) (s_out s ++ [c]).

Definition QueuePacket (packet : DiscordPacket) (s : DiscordSession) : DiscordSession :=
  set_recvQueue (PacketQueue.AddPacket packet (s_recvQueue s)) s.

(** [_channels] is an array of [DEFAULT_CHANNELS_COUNT] ids, so never empty. *)
Definition GetChannelID (channelType : Z) (s : DiscordSession) : Z :=
  if match s_channels s with [] => true | _ => false end
     || (DiscordChannelType.value DiscordChannelType.MaxType <=? channelType) then 0
  else default 0 (s_channels s !! Z.to_nat channelType).

(** ** Handlers *)

Definition HandleHelloOpcode (packet : HelloClient) (s : DiscordSession) : DiscordSession := s.

Definition HandleSendDiscordMessageOpcode (packet : SendDiscordMessage) (s : DiscordSession)
  : DiscordSession :=
  let channelID := GetChannelID (sm_ChannelType packet) s in
  if channelID =? 0 then s
  else emit (SendDefaultMessage channelID (sm_Context packet)) s.

(** Fields of a wrong size are logged and added all the same. *)
Definition HandleSendDiscordEmbedMessageOpcode (packet : SendDiscordEmbedMessage)
    (s : DiscordSession) : DiscordSession :=
  let channelID := GetChannelID (se_ChannelType packet) s in
  if channelID =? 0 then s
  else emit (SendEmbedMessage channelID
               (mkEmbed (se_Color packet) (se_Title packet) (se_Description packet)
                  (se_EmbedFields packet) (se_Timestamp packet))) s.

Definition Handle_EarlyProccess (packet : DiscordPacket) (s : DiscordSession) : DiscordSession := s.
Definition Handle_ServerSide (packet : DiscordPacket) (s : DiscordSession) : DiscordSession := s.

Section session.
Context {H : Host}.

(** [PacketHandler::Call]: construct the packet class, which checks the opcode,
    read it, and call the handler. *)
Definition with_packet {P} (code : DiscordCode.t) (Read : M exn ByteBuffer P)
    (handler : P → DiscordSession → DiscordSession) (packet : DiscordPacket)
  : M exn DiscordSession () := λ s,
  match Packet.ClientPacket_new code packet with
  | Ret p =>
      match eval Read (dp_buf p) with
      | Ret nice => (Ret (), handler nice s)
      | Throw e => (Throw e, s)
      | AssertFail => (AssertFail, s)
      | UB => (UB, s)
      end
  | Throw e => (Throw e, s)
  | AssertFail => (AssertFail, s)
  | UB => (UB, s)
  end.

Definition Call (h : HandlerFunction) (packet : DiscordPacket) : M exn DiscordSession () :=
  match h with
  | Packets.HandleHelloOpcode =>
      with_packet DiscordCode.CLIENT_SEND_HELLO Payload.HelloClient_Read HandleHelloOpcode packet
  | Packets.HandleSendDiscordMessageOpcode =>
      with_packet DiscordCode.CLIENT_SEND_MESSAGE Payload.SendDiscordMessage_Read
        HandleSendDiscordMessageOpcode packet
  | Packets.HandleSendDiscordEmbedMessageOpcode =>
      with_packet DiscordCode.CLIENT_SEND_MESSAGE_EMBED Payload.SendDiscordEmbedMessage_Read
        HandleSendDiscordEmbedMessageOpcode packet
  | Packets.Handle_EarlyProccess => modify (Handle_EarlyProccess packet)
  | Packets.Handle_ServerSide => modify (Handle_ServerSide packet)
  end.

(** One packet of [Update]: the handler is looked up and called without a null
    check; exceptions of the byte buffer are caught. *)
Definition process (packet : DiscordPacket) : M exn DiscordSession () := λ s,
  match Opcodes.lookup Opcodes.opcodeTable (dp_opcode packet) with
  | Ret (Some opHandle) =>
      match Call (handler_fun opHandle) packet s with
      | (Throw _, s) => (Ret (), s)
      | r => r
      end
  | _ => (UB, s)
  end.

(** The loop of [Update] over the received packets; each turn takes one. *)
Fixpoint Update_loop (fuel : nat) (processedPackets : Z) : M exn DiscordSession () := λ s,
  match fuel with
  | O => (Ret (), s)
  | S fuel =>
      if negb (s_socket s) then (Ret (), s)
      else
        match PacketQueue.GetNextPacket (s_recvQueue s) with
        | (None, _) => (Ret (), s)
        | (Some packet, q) =>
            match process packet (set_recvQueue q s) with
            | (Ret _, s) =>
                let processedPackets := u32 (processedPackets + 1) in
                if MAX_PROCESSED_PACKETS_IN_SAME_WORLDSESSION_UPDATE <? processedPackets
                then (Ret (), s)
                else Update_loop fuel processedPackets s
            | r => r
            end
        end
  end.

Context {S : Type} `{SessionSocket S}.

(** [SendPacket] through the socket [sock]. *)
Definition SendPacket (packet : DiscordPacket) (s : DiscordSession) (sock : S) : S :=
  if dp_opcode packet =? NULL_DISCORD_CODE then sock
  else if negb (s_socket s) then sock
  else sock_SendPacket packet sock.

Definition SendAuthResponse (code : DiscordAuthResponseCodes.t) (s : DiscordSession) (sock : S) : S :=
  let '(_, packet) := Payload.AuthResponse_Write (DiscordAuthResponseCodes.value code)
    (Packet.new (DiscordCode.value DiscordCode.SERVER_SEND_AUTH_RESPONSE)) in
  SendPacket packet s sock.

(** [Update]: whether the session lives on. *)
Definition Update (sock : S) : M exn DiscordSession bool := λ s,
  match Update_loop (Datatypes.S (length (PacketQueue.queue (s_recvQueue s)))) 0 s with
  | (Ret _, s) =>
      let s := if s_socket s && negb (sock_IsOpen sock) then set_socket false s else s in
      (Ret (s_socket s), s)
  | (Throw e, s) => (Throw e, s)
  | (AssertFail, s) => (AssertFail, s)
  | (UB, s) => (UB, s)
  end.

(** [stopped] is [Discord::IsStopped()]. *)
Definition HandleSocketClosed (sock : S) (stopped : bool) (s : DiscordSession)
  : bool * DiscordSession :=
  if s_socket s && negb (sock_IsOpen sock) && negb stopped then (true, set_socket false s)
  else (false, s).

Definition IsSocketClosed (sock : S) (s : DiscordSession) : bool :=
  negb (s_socket s) || negb (sock_IsOpen sock).

Definition KickSession (setKicked : bool) (s : DiscordSession) (sock : S) : DiscordSession * S :=
  let sock := if s_socket s then sock_CloseSocket sock else sock in
  let s := if setKicked then SetKicked true s else s in
  (s, sock).
End session.

(** ** What an update does

    The messages one packet leads to, for a session with these channels. *)

Definition channel_of (channels : list Z) (channelType : Z) : Z :=
  if 7 <=? channelType then 0 else default 0 (channels !! Z.to_nat channelType).

Definition calls_of {H : Host} (channels : list Z) (p : DiscordPacket) : list bot_call :=
  if dp_opcode p =? 3 then
    match eval Payload.SendDiscordMessage_Read (dp_buf p) with
    | Ret m =>
        let c := channel_of channels (sm_ChannelType m) in
        if c =? 0 then [] else [SendDefaultMessage c (sm_Context m)]
    | _ => []
    end
  else if dp_opcode p =? 4 then
    match eval Payload.SendDiscordEmbedMessage_Read (dp_buf p) with
    | Ret m =>
        let c := channel_of channels (se_ChannelType m) in
        if c =? 0 then []
        else [SendEmbedMessage c (mkEmbed (se_Color m) (se_Title m) (se_Description m)
                                    (se_EmbedFields m) (se_Timestamp m))]
    | _ => []
    end
  else [].

(** A packet as the socket queues it: its opcode is in the table, its payload a
    byte string. *)
Definition packet_ok (p : DiscordPacket) : Prop :=
  0 < dp_opcode p < NUM_DISCORD_CODE_HANDLERS ∧ cursors_ok (dp_buf p).

Definition emits (cs : list bot_call) (s : DiscordSession) : DiscordSession :=
  mkSession (s_socket s) (s_address s) (s_accountId s) (s_guildID s) (s_accountName s)
    (s_latency s) (s_kicked s) (s_channels s) (s_recvQueue s) (s_out s ++ cs).

Lemma emits_nil s : emits [] s = s.
Proof. destruct s. unfold emits. cbn. by rewrite app_nil_r. Qed.

Lemma emits_emits c1 c2 s : emits c2 (emits c1 s) = emits (c1 ++ c2) s.
Proof. unfold emits. cbn. by rewrite app_assoc. Qed.

Section update.
Context {H : Host}.

Lemma GetChannelID_spec channelType s :
  length (s_channels s) = 7%nat → GetChannelID channelType s = channel_of (s_channels s) channelType.
Proof. intros Hc. unfold GetChannelID, channel_of. by destruct (s_channels s). Qed.

Lemma with_packet_spec {P} code (Read : M exn ByteBuffer P) handler p s :
  dp_opcode p = DiscordCode.value code → cursors_ok (dp_buf p) → reads_ok Read (dp_buf p) →
  match with_packet code Read handler p s with
  | (Throw _, s) => (Ret (), s)
  | r => r
  end = match eval Read (dp_buf p) with
        | Ret nice => (Ret (), handler nice s)
        | AssertFail => (AssertFail, s)
        | _ => (Ret (), s)
        end.
Proof.
  intros Ho Hb Hr. unfold with_packet, Packet.ClientPacket_new. rewrite Ho, Z.eqb_refl.
  pose proof (reads_ok_no_UB _ _ Hr) as Hu. unfold eval. by destruct (Read (dp_buf p)) as [[] ?].
Qed.

(** Reading never asserts: there is no assertion in the readers. *)
Definition never_asserts {A} (m : M exn ByteBuffer A) : Prop :=
  ∀ b, is_AssertFail (m b).1 = false.

Lemma never_asserts_bind {A B} (m : M exn ByteBuffer A) (f : A → M exn ByteBuffer B) :
  never_asserts m → (∀ a, never_asserts (f a)) → never_asserts (m ≫= f).
Proof.
  intros Hm Hf b. unfold mbind, M_bind. specialize (Hm b).
  destruct (m b) as [[] b']; cbn in *; try done. apply Hf.
Qed.

Lemma never_asserts_ret {A} (a : A) : never_asserts (mret a).
Proof. done. Qed.
Lemma never_asserts_throw {A} (e : exn) : never_asserts (throw (A := A) e).
Proof. done. Qed.

Lemma never_asserts_read_value n : never_asserts (read_value n).
Proof.
  intros b. unfold read_value, read_at, mbind, M_bind, gets, modify, mret, M_ret.
  by repeat case_match; simplify_eq.
Qed.

Lemma never_asserts_cstring_loop fuel value : never_asserts (ReadCString_loop fuel value).
Proof.
  revert value. induction fuel as [|fuel IH]; intros value; [done|]. cbn [ReadCString_loop].
  apply never_asserts_bind; [done|]. intros [|]; [|done].
  apply never_asserts_bind; [apply never_asserts_read_value|]. intros c.
  case_match; [done|apply IH].
Qed.

Lemma never_asserts_string : never_asserts read_string.
Proof.
  apply never_asserts_bind; [done|]. intros fuel.
  apply never_asserts_bind; [apply never_asserts_cstring_loop|]. intros value. by case_match.
Qed.

Lemma never_asserts_bool : never_asserts read_bool.
Proof. apply never_asserts_bind; [apply never_asserts_read_value|done]. Qed.

Lemma never_asserts_fields fuel i n acc : never_asserts (Payload.EmbedFields_loop fuel i n acc).
Proof.
  revert i acc. induction fuel as [|fuel IH]; intros i acc; cbn [Payload.EmbedFields_loop];
    case_match; try done.
  do 2 (apply never_asserts_bind; [apply never_asserts_string|intros ?]).
  apply never_asserts_bind; [apply never_asserts_bool|]. intros. apply IH.
Qed.

Lemma never_asserts_hello : never_asserts Payload.HelloClient_Read.
Proof. apply never_asserts_bind; [apply never_asserts_string|done]. Qed.

Lemma never_asserts_message : never_asserts Payload.SendDiscordMessage_Read.
Proof.
  apply never_asserts_bind; [apply never_asserts_read_value|]. intros ?.
  apply never_asserts_bind; [apply never_asserts_string|done].
Qed.

Lemma never_asserts_embed : never_asserts Payload.SendDiscordEmbedMessage_Read.
Proof.
  do 2 (apply never_asserts_bind; [apply never_asserts_read_value|intros ?]).
  do 2 (apply never_asserts_bind; [apply never_asserts_string|intros ?]).
  apply never_asserts_bind; [apply never_asserts_read_value|intros ?].
  apply never_asserts_bind; [done|intros ?].
  apply never_asserts_bind; [apply never_asserts_fields|intros ?].
  apply never_asserts_bind; [|done].
  apply never_asserts_bind; [apply never_asserts_read_value|done].
Qed.

(** One packet: its messages are sent, nothing else changes. *)
Lemma process_spec p s :
  packet_ok p → length (s_channels s) = 7%nat →
  process p s = (Ret (), emits (calls_of (s_channels s) p) s).
Proof.
  intros [Ho Hb] Hc. destruct p as [op b]. cbn [dp_opcode dp_buf] in *.
  unfold NUM_DISCORD_CODE_HANDLERS in Ho. cbn in Ho.
  assert (op = 1 ∨ op = 2 ∨ op = 3 ∨ op = 4 ∨ op = 5 ∨ op = 6 ∨ op = 7) as Hop by lia.
  unfold process. cbn [dp_opcode].
  destruct Hop as [->|[->|[->|[->|Hop]]]].
  - change (Opcodes.lookup _ 1) with
      (Ret (E := exn) (Some (mkHandler "CLIENT_SEND_HELLO" Packets.HandleHelloOpcode))).
    cbn [handler_fun Call]. rewrite with_packet_spec; [|done|done|by apply reads_ok_hello].
    pose proof (never_asserts_hello b) as Ha. unfold eval. cbn [dp_buf].
    destruct (Payload.HelloClient_Read b) as [[] ?]; cbn in *; by rewrite ?emits_nil.
  - change (Opcodes.lookup _ 2) with
      (Ret (E := exn) (Some (mkHandler "CLIENT_AUTH_SESSION" Packets.Handle_EarlyProccess))).
    cbn. by rewrite emits_nil.
  - change (Opcodes.lookup _ 3) with (Ret (E := exn) (Some (mkHandler "CLIENT_SEND_MESSAGE"
      Packets.HandleSendDiscordMessageOpcode))).
    cbn [handler_fun Call]. rewrite with_packet_spec; [|done|done|by apply reads_ok_message].
    unfold calls_of. cbn [dp_opcode Z.eqb Pos.eqb]. pose proof (never_asserts_message b) as Ha.
    unfold eval. cbn [dp_buf].
    destruct (Payload.SendDiscordMessage_Read b) as [[m| | |] ?]; cbn in Ha |- *;
      rewrite ?emits_nil; try done.
    unfold HandleSendDiscordMessageOpcode. rewrite GetChannelID_spec by done.
    destruct (channel_of _ _ =? 0); [by rewrite emits_nil|done].
  - change (Opcodes.lookup _ 4) with (Ret (E := exn) (Some (mkHandler "CLIENT_SEND_MESSAGE_EMBED"
      Packets.HandleSendDiscordEmbedMessageOpcode))).
    cbn [handler_fun Call]. rewrite with_packet_spec; [|done|done|by apply reads_ok_embed].
    unfold calls_of. cbn [dp_opcode Z.eqb Pos.eqb]. pose proof (never_asserts_embed b) as Ha.
    unfold eval. cbn [dp_buf].
    destruct (Payload.SendDiscordEmbedMessage_Read b) as [[m| | |] ?]; cbn in Ha |- *;
      rewrite ?emits_nil; try done.
    unfold HandleSendDiscordEmbedMessageOpcode. rewrite GetChannelID_spec by done.
    destruct (channel_of _ _ =? 0); [by rewrite emits_nil|done].
  - assert (∃ n f, (f = Packets.Handle_EarlyProccess ∨ f = Packets.Handle_ServerSide) ∧
      Opcodes.lookup Opcodes.opcodeTable op = Ret (Some (mkHandler n f)) ∧
      calls_of (s_channels s) (mkPacket op b) = []) as (n & f & Hf & -> & ->).
    { destruct Hop as [->|[->| ->]]; eexists _, _;
        (split; [|split; [by vm_compute|done]]); auto. }
    cbn [handler_fun]. rewrite emits_nil. destruct Hf as [-> | ->]; done.
Qed.
(** [n] packets off the queue, and their messages sent. *)
Definition processed (n : nat) (s : DiscordSession) : DiscordSession :=
  let q := s_recvQueue s in
  emits (concat (map (calls_of (s_channels s)) (take n (PacketQueue.queue q))))
    (set_recvQueue (PacketQueue.mk (drop n (PacketQueue.queue q)) (PacketQueue.canceled q)) s).

Lemma processed_0 s : processed 0 s = s.
Proof. destruct s as [? ? ? ? ? ? ? ? [q c] ?]. unfold processed. cbn. by rewrite emits_nil. Qed.

Lemma Update_loop_spec fuel k s :
  s_socket s = true → length (s_channels s) = 7%nat →
  Forall packet_ok (PacketQueue.queue (s_recvQueue s)) →
  (length (PacketQueue.queue (s_recvQueue s)) < fuel)%nat → 0 <= k <= 100 →
  Update_loop fuel k s =
    (Ret (), processed (Nat.min (Z.to_nat (101 - k)) (length (PacketQueue.queue (s_recvQueue s)))) s).
Proof.
  revert k s. induction fuel as [|fuel IH]; intros k s Hs Hc Hq Hf Hk; [lia|].
  cbn [Update_loop]. rewrite Hs. cbn [negb]. unfold PacketQueue.GetNextPacket.
  destruct (s_recvQueue s) as [q c] eqn:Eq. cbn [PacketQueue.queue PacketQueue.canceled] in *.
  destruct q as [|p q].
  { rewrite Nat.min_0_r, processed_0. done. }
  inversion Hq as [|? ? Hp Hq']; subst. cbn [length] in *.
  rewrite process_spec by done. rewrite wrap_small by lia.
  unfold MAX_PROCESSED_PACKETS_IN_SAME_WORLDSESSION_UPDATE.
  destruct (Z.ltb_spec 100 (k + 1)).
  - assert (k = 100) as -> by lia. change (Z.to_nat (101 - 100)) with 1%nat.
    replace (Nat.min 1 (S (length q))) with 1%nat by lia. f_equal.
    unfold processed. rewrite Eq. cbn. by rewrite app_nil_r.
  - rewrite IH; cbn [s_recvQueue emits set_recvQueue PacketQueue.queue s_socket s_channels];
      [|done|done|done|lia|lia].
    replace (Nat.min (Z.to_nat (101 - k)) (S (length q)))
      with (S (Nat.min (Z.to_nat (101 - (k + 1))) (length q))) by lia.
    f_equal. unfold processed. rewrite Eq. cbn [s_recvQueue emits set_recvQueue PacketQueue.queue
      PacketQueue.canceled s_channels take drop map concat].
    rewrite <- emits_emits. unfold emits. cbn. by rewrite <- ?app_assoc.
Qed.

Context {S : Type} {SS : SessionSocket S}.

(** The whole update of a session in order. *)
Lemma session_Update_eq (sock : S) (s : DiscordSession) :
  s_socket s = true → length (s_channels s) = 7%nat →
  Forall packet_ok (PacketQueue.queue (s_recvQueue s)) →
  let n := Nat.min 101 (length (PacketQueue.queue (s_recvQueue s))) in
  Update sock s =
    (Ret (sock_IsOpen sock), set_socket (sock_IsOpen sock) (processed n s)).
Proof.
  intros Hs Hc Hq n. unfold Update. rewrite Update_loop_spec by (done || lia).
  change (Z.to_nat (101 - 0)) with 101%nat. fold n.
  assert (s_socket (processed n s) = true) as Hp by done. rewrite Hp. cbn [andb].
  destruct (sock_IsOpen sock); cbn [negb]; [|done].
  rewrite Hp. do 2 f_equal. destruct s as [k ? ? ? ? ? ? ? ? ?]. cbn in Hs. by subst k.
Qed.

(** C14: [Update] handles the queued packets in the order of arrival, up to 101
    of them, each leading to exactly the bot messages its payload asks for and a
    malformed one to none; the rest stays queued; no handler is missing, no
    opcode assertion fails and no memory outside a packet is read; the session
    lives on exactly as long as its socket is open. *)
Theorem session_update (sock : S) (s : DiscordSession) :
  s_socket s = true → length (s_channels s) = 7%nat →
  Forall packet_ok (PacketQueue.queue (s_recvQueue s)) →
  let n := Nat.min 101 (length (PacketQueue.queue (s_recvQueue s))) in
  Update sock s =
    (Ret (sock_IsOpen sock), set_socket (sock_IsOpen sock) (processed n s)).
Proof. apply session_Update_eq. Qed.
End update.

(** Two packets: a message for a channel, and one that is malformed. *)
Lemma session_update_witness :
  let s := mkSession true [] 1 2 [] 0 false [70; 71; 72; 73; 74; 75; 76]
    (PacketQueue.mk [mkPacket 3 (mkBB 0 0 [2; 104; 105; 0]); mkPacket 3 (mkBB 0 0 [])] false) [] in
  let _ : SessionSocket bool := Build_SessionSocket bool (λ b, b) (λ _ b, b) (λ _, false) in
  Update (H := LittleEndian) true s = (Ret true, set_socket true (processed (H := LittleEndian) 2 s)) ∧
  s_out (processed (H := LittleEndian) 2 s) = [SendDefaultMessage 72 [104; 105]].
Proof.
  cbn zeta. split; [|by vm_compute].
  apply (session_update (H := LittleEndian) (S := bool)
    (SS := Build_SessionSocket bool (λ b, b) (λ _ b, b) (λ _, false)) true); [done|done|].
  repeat constructor; unfold is_byte; cbn; try lia; done.
Defined.
End Session.
