(* ===== verification/DiscordSocket.v ===== *)
(** * DiscordSocket: the connection of one game server

    Model of [DiscordSocket.h]/[.cpp] under [src/src/server/Server]: framing of
    the byte stream into packets, the dispatch of packets, the authentication
    dialogue, pings, and the packing of answers into the socket's write queue.

    Results of database queries and answers of the bot arrive as arguments of
    the callbacks; readings of the steady clock come from a list. *)

From S2P Require Import Prelude MessageBuffer Utf8 Strings BigNumber Srp6 Timer Enums ByteBuffer Wire Packets.
From S2P Require Import Queues Async Socket Session.
Open Scope Z_scope.

(** ** Data *)

Record AuthSession := mkAuth {
  au_Account : list Z;
  au_Key : list Z;
  au_CoreName : list Z;
  au_CoreVersion : list Z;
  au_ModuleVersion : Z
}.

(** A row of DISCORD_SEL_ACCOUNT_INFO_BY_NAME; the ban columns may be null. *)
Record AccountRow := mkAccountRow {
  row_ID : Z;
  row_Salt : list Z;
  row_Verifier : list Z;
  row_GuildID : Z;
  row_RealmName : list Z;
  row_LastIP : list Z;
  row_CoreName : list Z;
  row_ModuleVersion : Z;
  row_bandate : option Z;
  row_unbandate : option Z
}.

Record AccountInfo := mkAccountInfo {
  ai_ID : Z;
  ai_Salt : list Z;
  ai_Verifier : list Z;
  ai_GuildID : Z;
  ai_BanDate : Z;
  ai_UnBanDate : Z;
  ai_IsBanned : bool;
  ai_IsPermanentlyBanned : bool
}.

(** Callbacks that wait for the database or for the bot. *)
Inductive query :=
  | QIpInfo
  | QAccountInfo (auth : AuthSession).

Inductive bot_request :=
  | RBotInGuild (auth : AuthSession) (account : AccountInfo)
  | RChannels (auth : AuthSession) (account : AccountInfo).

(** Calls on other managers. *)
Inductive effect :=
  | EBanAddAccount (name : list Z) (duration banDate : Z)
  | EAddSession (accountId : Z).

Inductive ReadDataHandlerResult := ROk | RError | RWaitingForQuery.

#[export] Instance ReadDataHandlerResult_eq_dec : EqDecision ReadDataHandlerResult.
Proof. solve_decision. Defined.

(** Everything but the buffers that cut the stream into packets. *)
Record Core := mkCore {
  co_clock : list Z;
  co_address : list Z;
  co_LastPingTime : Z;
  co_OverSpeedPings : Z;
  co_session : option DiscordSession;
  co_authed : bool;
  co_bufferQueue : list DiscordPacket;
  co_queries : list query;
  co_requests : list bot_request;
  co_effects : list effect
}.

Record DiscordSocket := mkDS {
  ds_core : Core;
  ds_headerBuffer : MessageBuffer;
  ds_packetBuffer : MessageBuffer;
  ds_sendBufferSize : Z
}.

Module DS.

Abbreviation st := (Socket * DiscordSocket)%type.

Definition set_session (v : option DiscordSession) (c : Core) : Core :=
  mkCore (co_clock c) (co_address c) (co_LastPingTime c) (co_OverSpeedPings c) v (co_authed c)
    (co_bufferQueue c) (co_queries c) (co_requests c) (co_effects c).
Definition set_ping (clock : list Z) (last over : Z) (c : Core) : Core :=
  mkCore clock (co_address c) last over (co_session c) (co_authed c)
    (co_bufferQueue c) (co_queries c) (co_requests c) (co_effects c).
Definition set_authed (v : bool) (c : Core) : Core :=
  mkCore (co_clock c) (co_address c) (co_LastPingTime c) (co_OverSpeedPings c) (co_session c) v
    (co_bufferQueue c) (co_queries c) (co_requests c) (co_effects c).
Definition set_bufferQueue (v : list DiscordPacket) (c : Core) : Core :=
  mkCore (co_clock c) (co_address c) (co_LastPingTime c) (co_OverSpeedPings c) (co_session c)
    (co_authed c) v (co_queries c) (co_requests c) (co_effects c).
Definition set_queries (v : list query) (c : Core) : Core :=
  mkCore (co_clock c) (co_address c) (co_LastPingTime c) (co_OverSpeedPings c) (co_session c)
    (co_authed c) (co_bufferQueue c) v (co_requests c) (co_effects c).
Definition add_request (r : bot_request) (c : Core) : Core :=
  mkCore (co_clock c) (co_address c) (co_LastPingTime c) (co_OverSpeedPings c) (co_session c)
    (co_authed c) (co_bufferQueue c) (co_queries c) (co_requests c ++ [r]) (co_effects c).
Definition add_effect (e : effect) (c : Core) : Core :=
  mkCore (co_clock c) (co_address c) (co_LastPingTime c) (co_OverSpeedPings c) (co_session c)
    (co_authed c) (co_bufferQueue c) (co_queries c) (co_requests c) (co_effects c ++ [e]).

Definition set_core (c : Core) (d : DiscordSocket) : DiscordSocket :=
  mkDS c (ds_headerBuffer d) (ds_packetBuffer d) (ds_sendBufferSize d).
Definition set_header (b : MessageBuffer) (d : DiscordSocket) : DiscordSocket :=
  mkDS (ds_core d) b (ds_packetBuffer d) (ds_sendBufferSize d).
Definition set_packet (b : MessageBuffer) (d : DiscordSocket) : DiscordSocket :=
  mkDS (ds_core d) (ds_headerBuffer d) b (ds_sendBufferSize d).

(** The constructor. *)
Definition new (clock : list Z) (address : list Z) (os : list write_result) : st :=
  (SocketOps.new os,
   mkDS (mkCore clock address 0 0 None false [] [] [] [])
     (MB.Resize Header.sizeof_DiscordClientPktHeader MB.new_default) MB.new_default
     READ_BLOCK_SIZE).

Definition SetSendBufferSize (sendBufferSize : Z) (d : DiscordSocket) : DiscordSocket :=
  mkDS (ds_core d) (ds_headerBuffer d) (ds_packetBuffer d) sendBufferSize.

(** [OnClose] *)
Definition OnClose (d : DiscordSocket) : DiscordSocket :=
  set_core (set_session None (ds_core d)) d.

Definition CloseSocket (s : st) : st := SocketOps.CloseSocket OnClose s.
Definition DelayedCloseSocket (s : st) : st := (SocketOps.DelayedCloseSocket s.1, s.2).
Definition AsyncRead (s : st) : st := (SocketOps.AsyncRead s.1, s.2).

(** ** Sending *)

(** [SendPacket], with what [IsOpen] says. *)
Definition core_SendPacket (open : bool) (packet : DiscordPacket) (c : Core) : Core :=
  if negb open then c else set_bufferQueue (co_bufferQueue c ++ [packet]) c.

Definition SendPacket (packet : DiscordPacket) (s : st) : st :=
  (s.1, set_core (core_SendPacket (SocketOps.IsOpen s.1) packet (ds_core s.2)) s.2).

Section socket.
Context {H : Host}.

(** A packet built with [<<] on a fresh buffer. *)
Definition build (opcode : Z) (write : M exn ByteBuffer ()) : DiscordPacket :=
  mkPacket opcode (exec write BB.new).

Definition SendAuthResponseError (code : DiscordAuthResponseCodes.t) (s : st) : st :=
  SendPacket
    (build (DiscordCode.value DiscordCode.SERVER_SEND_AUTH_RESPONSE)
       (BB.write_int 1 (u8 (DiscordAuthResponseCodes.value code)))) s.

(** ** Handling packets *)

Definition read_clock (c : Core) : Z * list Z :=
  match co_clock c with [] => (0, []) | t :: ts => (t, ts) end.

Definition TEN_SECONDS : Z := 10 * 1000000000.
Definition maxAllowed : Z := 5.

(** [HandlePing]; [open] says whether the socket is open. *)
Definition HandlePing (open : bool) (recvPacket : DiscordPacket) : M exn Core bool := λ c,
  match (timePacket ← BB.read_int 8; latency ← BB.read_int 8; mret (timePacket, latency))
          (dp_buf recvPacket) with
  | (Ret (timePacket, latency), _) =>
      let '(now, clock) := read_clock c in
      let last := co_LastPingTime c in
      let diff := now - last in
      let over := co_OverSpeedPings c in
      let over' :=
        if last =? 0 then over
        else if diff <? TEN_SECONDS then u32 (over + 1)
        else 0 in
      let c := set_ping clock now over' c in
      if negb (last =? 0) && (diff <? TEN_SECONDS) && (negb (maxAllowed =? 0)
           && (maxAllowed <? over')) && (match co_session c with Some _ => true | None => false end)
      then (Ret false, c)
      else
        match co_session c with
        | Some s =>
            let c := set_session (Some (Session.SetLatency latency s)) c in
            let packet := build (DiscordCode.value DiscordCode.SERVER_SEND_PONG)
                            (BB.write_int 8 timePacket) in
            (Ret true, core_SendPacket open packet c)
        | None => (Ret false, c)
        end
  | (Throw e, _) => (Throw e, c)
  | (AssertFail, _) => (AssertFail, c)
  | (UB, _) => (UB, c)
  end.

(** [HandleAuthSession] *)
Definition read_auth : M exn ByteBuffer AuthSession :=
  Account ← BB.read_string;
  Key ← BB.read_string;
  CoreName ← BB.read_string;
  CoreVersion ← BB.read_string;
  ModuleVersion ← BB.read_uint 4;
  mret (mkAuth Account Key CoreName CoreVersion ModuleVersion).

Definition HandleAuthSession (recvPacket : DiscordPacket) : M exn Core () := λ c,
  match eval read_auth (dp_buf recvPacket) with
  | Ret auth => (Ret (), set_queries (co_queries c ++ [QAccountInfo auth]) c)
  | Throw e => (Throw e, c)
  | AssertFail => (AssertFail, c)
  | UB => (UB, c)
  end.

(** The [switch] of [ReadDataHandler] and what follows it, on a packet taken
    from the stream.  A byte buffer exception is caught and is an error. *)
Definition Dispatch (open : bool) (opcode : Z) (packet : DiscordPacket)
  : M exn Core ReadDataHandlerResult := λ c,
  if opcode =? DiscordCode.value DiscordCode.CLIENT_SEND_PING then
    match HandlePing open packet c with
    | (Ret ok, c) => (Ret (if ok then ROk else RError), c)
    | (Throw _, c) => (Ret RError, c)
    | (AssertFail, c) => (AssertFail, c)
    | (UB, c) => (UB, c)
    end
  else if opcode =? DiscordCode.value DiscordCode.CLIENT_AUTH_SESSION then
    if co_authed c then
      match co_session c with
      | Some _ => (Ret RError, c)
      | None => (UB, c)
      end
    else
      match HandleAuthSession packet c with
      | (Ret _, c) => (Ret RWaitingForQuery, c)
      | (Throw _, c) => (Ret RError, c)
      | (AssertFail, c) => (AssertFail, c)
      | (UB, c) => (UB, c)
      end
  else
    match co_session c with
    | None => (Ret RError, c)
    | Some session =>
        match Opcodes.lookup Opcodes.opcodeTable opcode with
        | Ret None => (Ret RError, c)
        | Ret (Some _) => (Ret ROk, set_session (Some (Session.QueuePacket packet session)) c)
        | _ => (UB, c)
        end
    end.

(** ** Framing *)

(** The bytes from [GetReadPointer()] on. *)
Definition ReadPointer (b : MessageBuffer) : list Z := zdrop (mb_rpos b) (mb_storage b).

Definition store (p : Z) (data : list Z) (b : MessageBuffer) : MessageBuffer :=
  mkMB (mb_wpos b) (mb_rpos b) (overwrite p data (mb_storage b)).

(** [ReadHeaderHandler]: the fields are converted in place; the size in memory
    is reduced by the size of the opcode. *)
Definition ReadHeaderHandler : M exn st bool := λ s,
  let '(sk, d) := s in
  let hb := ds_headerBuffer d in
  if negb (MB.GetActiveSize hb =? Header.sizeof_DiscordClientPktHeader) then (AssertFail, s)
  else
    let header := Header.decode (ReadPointer hb) in
    let convert size := store (mb_rpos hb) (host_bytes 4 size ++ host_bytes 2 (Header.h_cmd header)) hb in
    if negb (Header.IsValidSize header) || negb (Header.IsValidOpcode header) then
      (Ret false, (sk, set_header (convert (Header.h_size header)) d))
    else
      let size := Header.h_size header - 2 in
      (Ret true, (sk, set_packet (MB.Resize size (ds_packetBuffer d))
                        (set_header (convert size) d))).

(** [ReadDataHandler]: the opcode is read from the converted header, and the
    payload moves from the packet buffer into the packet. *)
Definition ReadDataHandler : M exn st ReadDataHandlerResult := λ s,
  let '(sk, d) := s in
  let opcode := host_value (slice 4 2 (ReadPointer (ds_headerBuffer d))) in
  let '(packet, pb) := Packet.new_from_message opcode (ds_packetBuffer d) in
  let '(o, c) := Dispatch (SocketOps.IsOpen sk) opcode packet (ds_core d) in
  (o, (sk, set_core c (set_packet pb d))).

(** Move [n] bytes from the read buffer to another one. *)
Definition take_bytes (get : DiscordSocket → MessageBuffer)
    (set : MessageBuffer → DiscordSocket → DiscordSocket) (n : Z) : M exn st () := λ s,
  let '(sk, d) := s in
  let packet := sk_readBuffer sk in
  match MB.Write (ReadPointer packet) n (get d) with
  | (Ret _, b) => (Ret (), (SocketOps.set_readBuffer (MB.ReadCompleted n packet) sk, set b d))
  | _ => (UB, s)
  end.

Definition readActive : M exn st Z := gets (λ s : st, MB.GetActiveSize (sk_readBuffer s.1)).

(** What a turn of the loop of [ReadHandler] ends with: [break], [return] or the
    next turn. *)
Inductive turn := TBreak | TReturn | TNext.

(** Fill a buffer from the read buffer: whether it is full now. *)
Definition fill (get : DiscordSocket → MessageBuffer)
    (set : MessageBuffer → DiscordSocket → DiscordSocket) : M exn st bool :=
  active ← readActive;
  room ← gets (λ s : st, MB.GetRemainingSpace (get s.2));
  take_bytes get set (Z.min active room) ;;
  more ← gets (λ s : st, MB.HasRemainingSpace (get s.2));
  if (more : bool) then
    still ← gets (λ s : st, MB.HasActiveSize (sk_readBuffer s.1));
    assert_ (negb still) ;;
    mret false
  else mret true.

Definition ReadPayload : M exn st turn :=
  more ← gets (λ s : st, MB.HasRemainingSpace (ds_packetBuffer s.2));
  full ← (if (more : bool) then fill ds_packetBuffer set_packet else mret true);
  if negb full then mret TBreak
  else
    result ← ReadDataHandler;
    modify (λ s : st, (s.1, set_header (MB.Reset (ds_headerBuffer s.2)) s.2)) ;;
    match result with
    | ROk => mret TNext
    | RWaitingForQuery => mret TReturn
    | RError => modify CloseSocket ;; mret TReturn
    end.

Definition ReadTurn : M exn st turn :=
  more ← gets (λ s : st, MB.HasRemainingSpace (ds_headerBuffer s.2));
  if (more : bool) then
    full ← fill ds_headerBuffer set_header;
    if negb full then mret TBreak
    else
      ok ← ReadHeaderHandler;
      if negb ok then modify CloseSocket ;; mret TReturn
      else ReadPayload
  else ReadPayload.

(** The loop: every turn takes at least a byte off the read buffer, so its
    active size bounds the turns.  The result says whether to read on. *)
Fixpoint ReadHandler_loop (fuel : nat) : M exn st bool :=
  active ← readActive;
  if 0 <? active then
    match fuel with
    | O => undefined
    | S fuel =>
        t ← ReadTurn;
        match t with
        | TBreak => mret true
        | TReturn => mret false
        | TNext => ReadHandler_loop fuel
        end
    end
  else mret true.

Definition ReadHandler : M exn st () :=
  open ← gets (λ s : st, SocketOps.IsOpen s.1);
  if negb open then mret ()
  else
    active ← readActive;
    more ← ReadHandler_loop (Z.to_nat active);
    if (more : bool) then modify AsyncRead else mret ().

(** [Socket::ReadHandlerInternal] with this socket's [ReadHandler]. *)
Definition ReadHandlerInternal (result : option (list Z)) : M exn st () :=
  SocketOps.ReadHandlerInternal OnClose ReadHandler result.
End socket.

Section login.
Context {H : Host} {O : OpenSSL}.

(** ** The authentication dialogue *)

(** [AccountInfo(Field* )]: [now] is [GameTime::GetGameTime()]. *)
Definition AccountInfo_new (now : Z) (fields : AccountRow) : AccountInfo :=
  let BanDate := default 0 (row_bandate fields) in
  let UnBanDate := default 0 (row_unbandate fields) in
  mkAccountInfo (row_ID fields) (row_Salt fields) (row_Verifier fields) (row_GuildID fields)
    BanDate UnBanDate
    ((0 <? UnBanDate) && (UnBanDate <? now))
    ((0 <? BanDate) && (BanDate =? UnBanDate)).

Definition CheckKey (accountName key : list Z) (a : AccountInfo) : outcome Empty_set bool :=
  let safeAccount := map Strings.toupper accountName in
  let safeAccount := (Strings.Utf8ToUpperOnlyLatin safeAccount).2 in
  let safeKey := (Strings.Utf8ToUpperOnlyLatin key).2 in
  let safeKey := map Strings.toupper safeKey in
  SRP6.CheckLogin safeAccount safeKey (ai_Salt a) (ai_Verifier a).

Definition on_core (f : Core → Core) (s : st) : st := (s.1, set_core (f (ds_core s.2)) s.2).

(** Refuse the client: the answer goes out before the socket closes. *)
Definition reject (code : DiscordAuthResponseCodes.t) (s : st) : st :=
  DelayedCloseSocket (SendAuthResponseError code s).

(** [Start] *)
Definition Start (s : st) : st := on_core (λ c, set_queries (co_queries c ++ [QIpInfo]) c) s.

(** [CheckIpCallback]: the rows are (banned, permanently banned); the first
    that says so decides. *)
Fixpoint CheckIpCallback (result : list (Z * Z)) (s : st) : st :=
  match result with
  | [] => AsyncRead s
  | (isBanned, isPermanentlyBanned) :: rows =>
      if negb (isPermanentlyBanned =? 0) then
        reject DiscordAuthResponseCodes.BannedPermanentlyIP s
      else if negb (isBanned =? 0) then reject DiscordAuthResponseCodes.BannedIP s
      else CheckIpCallback rows s
  end.

(** [HandleAuthSessionCallback]: [closed] is [sDiscord->IsClosed()]. *)
Definition HandleAuthSessionCallback (now : Z) (closed : bool) (auth : AuthSession)
    (result : option AccountRow) : M exn st () := λ s,
  match result with
  | None => (Ret (), reject DiscordAuthResponseCodes.UnknownAccount s)
  | Some fields =>
      let account := AccountInfo_new now fields in
      if ai_IsPermanentlyBanned account then
        (Ret (), on_core (add_effect (EBanAddAccount (au_Account auth) 0 (ai_BanDate account)))
                   (reject DiscordAuthResponseCodes.BannedPermanentlyAccount s))
      else if ai_IsBanned account then
        (Ret (), on_core (add_effect (EBanAddAccount (au_Account auth)
                                        (ai_UnBanDate account - now) (ai_BanDate account)))
                   (reject DiscordAuthResponseCodes.BannedAccount s))
      else if closed then (Ret (), reject DiscordAuthResponseCodes.ServerOffline s)
      else
        match CheckKey (au_Account auth) (au_Key auth) account with
        | Ret false => (Ret (), reject DiscordAuthResponseCodes.IncorrectKey s)
        | Ret true => (Ret (), on_core (add_request (RBotInGuild auth account)) s)
        | AssertFail => (AssertFail, s)
        | _ => (UB, s)
        end
  end.

(** The bot's answer to [CheckBotInGuild]. *)
Definition OnBotInGuild (auth : AuthSession) (account : AccountInfo) (isExist : bool) (s : st) : st :=
  if negb isExist then reject DiscordAuthResponseCodes.BotNotFound s
  else on_core (add_request (RChannels auth account)) s.

(** The bot's answer to [CheckChannels]: an array of [DEFAULT_CHANNELS_COUNT]
    ids, so the two checks never strike. *)
Definition OnChannels (auth : AuthSession) (account : AccountInfo) (channelList : list Z) (s : st)
  : st :=
  if match channelList with [] => true | _ => false end then
    reject DiscordAuthResponseCodes.ChannelsNotFound s
  else if negb (zlen channelList =? DEFAULT_CHANNELS_COUNT) then
    reject DiscordAuthResponseCodes.ChannelsIncorrect s
  else
    let session :=
      Session.new (ai_ID account) (ai_GuildID account) (au_Account auth) channelList
        (co_address (ds_core s.2)) in
    AsyncRead
      (on_core (λ c, add_effect (EAddSession (ai_ID account))
                       (set_session (Some session) (set_authed true c))) s).

(** ** Packing answers *)

(** The bytes of a packet on the wire. *)
Definition frame_bytes (queued : DiscordPacket) : list Z :=
  Header.DiscordServerPktHeader (u32 (BB.size (dp_buf queued) + 2)) (dp_opcode queued) ++
  bb_storage (dp_buf queued).

(** Write a packet into a buffer that was checked to have room. *)
Definition write_packet (queued : DiscordPacket) : M Empty_set MessageBuffer () :=
  MB.Write (Header.DiscordServerPktHeader (u32 (BB.size (dp_buf queued) + 2)) (dp_opcode queued))
    Header.GetHeaderLength ;;
  if BB.empty (dp_buf queued) then mret ()
  else MB.Write (bb_storage (dp_buf queued)) (BB.size (dp_buf queued)).

(** The loop of [Update]: the common buffer and the buffers queued so far.  When
    the common buffer is full a copy of it is queued, and the buffer itself is
    only resized. *)
Fixpoint pack (sendBufferSize : Z) (queue : list DiscordPacket) (buffer : MessageBuffer)
    (out : list MessageBuffer) : outcome Empty_set (MessageBuffer * list MessageBuffer) :=
  match queue with
  | [] => Ret (buffer, out)
  | queued :: queue =>
      let needed := BB.size (dp_buf queued) + Header.GetHeaderLength in
      let '(buffer, out) :=
        if MB.GetRemainingSpace buffer <? needed
        then (MB.Resize sendBufferSize buffer, out ++ [buffer])
        else (buffer, out) in
      if needed <=? MB.GetRemainingSpace buffer then
        match write_packet queued buffer with
        | (Ret _, buffer) => pack sendBufferSize queue buffer out
        | (AssertFail, _) => AssertFail
        | _ => UB
        end
      else
        match write_packet queued (MB.new_sized needed) with
        | (Ret _, packetBuffer) => pack sendBufferSize queue buffer (out ++ [packetBuffer])
        | (AssertFail, _) => AssertFail
        | _ => UB
        end
  end.

(** What a ready callback gets. *)
Inductive answer :=
  | AIpInfo (rows : list (Z * Z))
  | AAccountInfo (row : option AccountRow).

Definition InvokeIfReady (now : Z) (closed : bool) (results : query → option answer)
    (q : query) (s : outcome exn () * st) : bool * (outcome exn () * st) :=
  match s.1 with
  | Ret _ =>
      match q, results q with
      | QIpInfo, Some (AIpInfo rows) => (true, (Ret (), CheckIpCallback rows s.2))
      | QAccountInfo auth, Some (AAccountInfo row) =>
          (true, HandleAuthSessionCallback now closed auth row s.2)
      | _, _ => (false, s)
      end
  | _ => (false, s)
  end.

Definition ProcessReadyCallbacks (now : Z) (closed : bool) (results : query → option answer)
    (s : st) : outcome exn () * st :=
  AsyncCallbackProcessor.ProcessReadyCallbacks
    (λ s : outcome exn () * st, co_queries (ds_core s.2.2))
    (λ l s, (s.1, on_core (set_queries l) s.2))
    (InvokeIfReady now closed results) (Ret (), s).

(** [Update], with the answers that have come by now. *)
Definition Update (now : Z) (closed : bool) (results : query → option answer)
  : M exn st bool := λ s,
  let '(alive, (sk, d)) := SocketOps.Update OnClose s in
  if negb alive then (Ret false, (sk, d))
  else
    match pack (ds_sendBufferSize d) (co_bufferQueue (ds_core d))
            (MB.new_sized (ds_sendBufferSize d)) [] with
    | Ret (buffer, out) =>
        let out := if 0 <? MB.GetActiveSize buffer then out ++ [buffer] else out in
        let sk := fold_left (λ sk b, SocketOps.QueuePacket b sk) out sk in
        let d := set_core (set_bufferQueue [] (ds_core d)) d in
        let '(o, s) := ProcessReadyCallbacks now closed results (sk, d) in
        (match o with
         | Ret _ => Ret true
         | Throw e => Throw e
         | AssertFail => AssertFail
         | UB => UB
         end, s)
    | AssertFail => (AssertFail, (sk, d))
    | _ => (UB, (sk, d))
    end.
End login.
End DS.
