(* ===== verification/Framing.v ===== *)
(** * Framing: the packets of a byte stream, however it is cut

    The receiving side of [DiscordSocket] as a refinement: a parser of the
    whole stream, written without buffers, and the proof that [ReadHandler],
    called once for every piece the network delivers, does the same. *)

From S2P Require Import Prelude MessageBuffer Utf8 Strings BigNumber Srp6 Timer Enums ByteBuffer Wire Packets.
From S2P Require Import Queues Async Socket Session DiscordSocket.
Open Scope Z_scope.
Import DS.

(** ** The stream parser *)

Inductive status := SReading | SClosed | SWaiting.

Section framing.
Context {H : Host}.

Definition HEADER : Z := Header.sizeof_DiscordClientPktHeader.

(** Parse what has arrived: packets are handled one after another until the
    data ends ([SReading], with the incomplete rest), until a packet is refused
    ([SClosed]), or until one asks the database ([SWaiting], with what follows
    it).  [fuel] bounds the number of packets. *)
Fixpoint parse (fuel : nat) (c : Core) (p : list Z) : outcome exn status * Core * list Z :=
  match fuel with
  | O => (UB, c, p)
  | S fuel =>
      if zlen p <? HEADER then (Ret SReading, c, p)
      else
        let h := Header.decode (ztake HEADER p) in
        if negb (Header.IsValidSize h) || negb (Header.IsValidOpcode h) then
          (Ret SClosed, set_session None c, [])
        else
          let n := Header.h_size h - 2 in
          let body := zdrop HEADER p in
          if zlen body <? n then (Ret SReading, c, p)
          else
            match Dispatch true (Header.h_cmd h)
                    (mkPacket (Header.h_cmd h) (mkBB 0 0 (ztake n body))) c with
            | (Ret ROk, c) => parse fuel c (zdrop n body)
            | (Ret RError, c) => (Ret SClosed, set_session None c, [])
            | (Ret RWaitingForQuery, c) => (Ret SWaiting, c, zdrop n body)
            | (Throw e, c) => (Throw e, c, [])
            | (AssertFail, c) => (AssertFail, c, [])
            | (UB, c) => (UB, c, [])
            end
  end.

(** The parser of a stream: more fuel than bytes is never used up. *)
Definition parse_stream (c : Core) (p : list Z) : outcome exn status * Core * list Z :=
  parse (S (length p)) c p.

Lemma parse_fuel f1 f2 c p :
  (length p < f1)%nat → (length p < f2)%nat → parse f1 c p = parse f2 c p.
Proof.
  revert f2 c p. induction f1 as [|f1 IH]; intros f2 c p H1 H2; [lia|].
  destruct f2 as [|f2]; [lia|]. cbn [parse].
  destruct (Z.ltb_spec (zlen p) HEADER) as [|Hp]; [done|].
  case_match; [done|]. case_match; [done|].
  destruct (Dispatch _ _ _ _) as [[[]| | |] c']; try done.
  unfold HEADER, Header.sizeof_DiscordClientPktHeader, zlen in Hp.
  apply IH; unfold zdrop; rewrite !length_drop; unfold HEADER, Header.sizeof_DiscordClientPktHeader; lia.
Qed.

(** ** The buffers as a prefix of the stream *)

Definition valid_header (h : Header.DiscordClientPktHeader) : Prop :=
  Header.IsValidSize h = true ∧ Header.IsValidOpcode h = true ∧ 0 <= Header.h_cmd h.

(** A buffer of fixed size [n] that holds [q] so far. *)
Record holds (b : MessageBuffer) (n : Z) (q : list Z) : Prop := {
  holds_wf : MB.wf b;
  holds_rpos : mb_rpos b = 0;
  holds_size : zlen (mb_storage b) = n;
  holds_active : MB.active b = q
}.

Lemma holds_wpos b n q : holds b n q → mb_wpos b = zlen q.
Proof.
  intros [Hw Hr _ <-]. rewrite (MB.zlen_active b Hw), (MB.active_size b Hw). lia.
Qed.

Lemma holds_remaining b n q : holds b n q → MB.GetRemainingSpace b = n - zlen q.
Proof.
  intros Hh. rewrite (MB.remaining_space b) by apply Hh.
  by rewrite (holds_wpos b n q Hh), (holds_size b n q Hh).
Qed.

(** The packet buffer between packets: whatever its size, it holds nothing. *)
Record idle (b : MessageBuffer) : Prop := {
  idle_wpos : mb_wpos b = 0;
  idle_rpos : mb_rpos b = 0
}.

Lemma idle_Resize b n : idle b → 0 <= n < 2 ^ 62 → holds (MB.Resize n b) n [].
Proof.
  intros [Hw Hr] Hn. unfold MB.Resize. rewrite Hw, Hr.
  assert (MB.wf (mkMB 0 0 (vresize n 0 (mb_storage b)))) as Hwf
    by (split; cbn; rewrite ?zlen_vresize by lia; lia).
  split; [done|done|cbn; apply zlen_vresize; lia|].
  rewrite MB.active_mk by done. by apply ztake_0.
Qed.

(** The header buffer once a header was accepted: converted in place, the size
    without the opcode. *)
Definition accepted (b : MessageBuffer) (h : Header.DiscordClientPktHeader) : Prop :=
  b = mkMB 6 0 (host_bytes 4 (Header.h_size h - 2) ++ host_bytes 2 (Header.h_cmd h)).

Inductive frame (d : DiscordSocket) : list Z → Prop :=
  | frame_header p :
      zlen p < HEADER → holds (ds_headerBuffer d) HEADER p → idle (ds_packetBuffer d) →
      frame d p
  | frame_payload hdr h q :
      zlen hdr = HEADER → Header.decode hdr = h → valid_header h →
      accepted (ds_headerBuffer d) h →
      holds (ds_packetBuffer d) (Header.h_size h - 2) q → zlen q < Header.h_size h - 2 →
      frame d (hdr ++ q).

(** The whole object: open, [p] taken off the stream and [data] waiting in the
    read buffer. *)
Record rel (s : st) (c : Core) (p data : list Z) : Prop := {
  rel_open : SocketOps.IsOpen s.1 = true;
  rel_wf : MB.wf (sk_readBuffer s.1);
  rel_size : READ_BLOCK_SIZE <= zlen (mb_storage (sk_readBuffer s.1)) < 2 ^ 60;
  rel_active : MB.active (sk_readBuffer s.1) = data;
  rel_core : ds_core s.2 = c;
  rel_frame : frame s.2 p
}.

(** An incomplete prefix is not parsed any further. *)
Lemma parse_frame f c d p : frame d p → parse (S f) c p = (Ret SReading, c, p).
Proof.
  intros [p' Hp _ _|hdr h q Hh Hd (Hs & Ho & _) _ _ Hq]; cbn [parse].
  - by rewrite (proj2 (Z.ltb_lt _ _)).
  - rewrite zlen_app. pose proof (zlen_nonneg q).
    rewrite (proj2 (Z.ltb_ge _ _)) by lia.
    rewrite <- Hh, ztake_app_exact, zdrop_app_exact, Hd, Hs, Ho. cbn [negb orb].
    by rewrite (proj2 (Z.ltb_lt _ _)).
Qed.

(** ** One buffer operation at a time *)

Lemma Write_prefix data n b :
  0 <= n <= zlen data → MB.Write data n b = MB.Write (ztake n data) n b.
Proof.
  intros Hn. unfold MB.Write. rewrite zlen_ztake, ztake_ztake by lia.
  rewrite (proj2 (Z.leb_le n (zlen data))) by lia.
  rewrite (proj2 (Z.leb_le n (Z.min _ _))) by lia. by rewrite Z.min_id.
Qed.

Lemma ReadPointer_prefix b n :
  MB.wf b → 0 <= n <= MB.GetActiveSize b → ztake n (ReadPointer b) = ztake n (MB.active b).
Proof.
  intros Hw Hn. unfold MB.active, slice, ReadPointer.
  rewrite ztake_ztake by (rewrite (MB.active_size b Hw); destruct Hw; lia).
  f_equal. lia.
Qed.

Lemma ReadPointer_length b : MB.wf b → MB.GetActiveSize b <= zlen (ReadPointer b).
Proof.
  intros Hw. unfold ReadPointer. rewrite (MB.active_size b Hw), zlen_zdrop. destruct Hw. lia.
Qed.

(** [take_bytes] moves the first [n] bytes of the read buffer behind what the
    other buffer holds. *)
Lemma take_bytes_spec get set n (s : st) (size : Z) (q data : list Z) :
  (∀ b d, get (set b d) = b) →
  MB.wf (sk_readBuffer s.1) → MB.active (sk_readBuffer s.1) = data →
  holds (get s.2) size q → 0 <= n <= zlen data → n <= size - zlen q →
  ∃ rb b, take_bytes get set n s =
      (Ret (), (SocketOps.set_readBuffer rb s.1, set b s.2)) ∧
    MB.wf rb ∧ MB.active rb = zdrop n data ∧
    zlen (mb_storage rb) = zlen (mb_storage (sk_readBuffer s.1)) ∧
    holds b size (q ++ ztake n data).
Proof.
  intros Hlens Hw Ha Hq Hn Hfit. destruct s as [sk d]. cbn [fst snd] in *.
  assert (MB.GetActiveSize (sk_readBuffer sk) = zlen data) as Hsz
    by (rewrite <- Ha; symmetry; by apply MB.zlen_active).
  unfold take_bytes. pose proof (ReadPointer_length _ Hw).
  rewrite Write_prefix by lia. rewrite ReadPointer_prefix by (done || lia). rewrite Ha.
  assert (zlen (ztake n data) = n) as Hl by (rewrite zlen_ztake; lia).
  destruct (MB.Write_spec (ztake n data) (get d)) as (b & E & Hbw & Hba & Hbr & Hbp & Hbwp & Hbs).
  { apply Hq. }
  { rewrite (holds_remaining _ _ _ Hq). lia. }
  rewrite Hl in E. rewrite E.
  destruct (MB.ReadCompleted_spec n (sk_readBuffer sk) Hw) as [Hw' Ha']; [lia|].
  rewrite Ha in Ha'. eexists _, b. split; [done|]. split; [done|]. split; [done|].
  split; [done|]. split; [done| | |].
  - rewrite Hbp. apply Hq.
  - rewrite Hbs. apply Hq.
  - rewrite Hba. f_equal. apply Hq.
Qed.

(** [fill]: all that fits and is there is moved; the result says whether the
    buffer is full, and if it is not, nothing is left to read. *)
Lemma fill_spec get set (s : st) (size : Z) (q data : list Z) :
  (∀ b d, get (set b d) = b) →
  MB.wf (sk_readBuffer s.1) → MB.active (sk_readBuffer s.1) = data →
  holds (get s.2) size q → zlen q < size →
  let n := Z.min (zlen data) (size - zlen q) in
  ∃ rb b, fill get set s =
      (Ret (size - zlen q <=? zlen data), (SocketOps.set_readBuffer rb s.1, set b s.2)) ∧
    MB.wf rb ∧ MB.active rb = zdrop n data ∧
    zlen (mb_storage rb) = zlen (mb_storage (sk_readBuffer s.1)) ∧
    holds b size (q ++ ztake n data).
Proof.
  intros Hlens Hw Ha Hq Hlt n. pose proof (zlen_nonneg data). pose proof (zlen_nonneg q).
  assert (MB.GetActiveSize (sk_readBuffer s.1) = zlen data) as Hsz
    by (rewrite <- Ha; symmetry; by apply MB.zlen_active).
  destruct (take_bytes_spec get set n s size q data) as (rb & b & E & Hrw & Hra & Hrs & Hb);
    [done..|unfold n; lia|unfold n; lia|].
  exists rb, b. split; [|done].
  unfold fill, readActive. rewrite bind_gets, Hsz, bind_gets, (holds_remaining _ _ _ Hq). fold n.
  rewrite (bind_run _ _ _ _ _ E), bind_gets. cbn [snd]. rewrite Hlens. unfold MB.HasRemainingSpace. rewrite (holds_remaining _ _ _ Hb).
  rewrite zlen_app, zlen_ztake.
  destruct (Z.leb_spec (size - zlen q) (zlen data)).
  - rewrite (proj2 (Z.ltb_ge _ _)) by (unfold n; lia). done.
  - rewrite (proj2 (Z.ltb_lt _ _)) by (unfold n; lia).
    rewrite bind_gets. cbn [fst sk_readBuffer SocketOps.set_readBuffer].
    unfold MB.HasActiveSize. rewrite <- (MB.zlen_active rb Hrw), Hra, zlen_zdrop.
    rewrite (proj2 (Z.ltb_ge _ _)) by (unfold n; lia). done.
Qed.

(** ** Headers *)

Lemma zlen_host_bytes n v : zlen (host_bytes n v) = Z.of_nat n.
Proof.
  unfold host_bytes. destruct host_endian; by rewrite ?zlen_rev, zlen_le_bytes.
Qed.

Lemma host_value_bytes n v : 0 <= v < 2 ^ (8 * Z.of_nat n) → host_value (host_bytes n v) = v.
Proof.
  intros. unfold host_value, host_bytes. destruct host_endian;
    rewrite ?rev_involutive, le_value_bytes; by apply wrap_small.
Qed.

Lemma accepted_opcode b h :
  valid_header h → accepted b h → host_value (slice 4 2 (ReadPointer b)) = Header.h_cmd h.
Proof.
  intros (_ & Ho & Hc) ->. unfold ReadPointer. cbn [mb_rpos mb_storage].
  rewrite zdrop_0 by lia.
  assert (slice 4 2 (host_bytes 4 (Header.h_size h - 2) ++ host_bytes 2 (Header.h_cmd h))
    = host_bytes 2 (Header.h_cmd h)) as ->.
  { pose proof (slice_app_mid (host_bytes 4 (Header.h_size h - 2))
      (host_bytes 2 (Header.h_cmd h)) []) as E.
    by rewrite !zlen_host_bytes, app_nil_r in E. }
  apply host_value_bytes. apply Z.ltb_lt in Ho. unfold NUM_DISCORD_CODE_HANDLERS in Ho.
  cbn in Ho. lia.
Qed.

(** A decoded opcode is not negative. *)
Lemma decode_cmd_nonneg bs : Forall is_byte bs → 0 <= Header.h_cmd (Header.decode bs).
Proof.
  intros Hb. unfold Header.decode. cbn [Header.h_cmd]. rewrite BB.EndianConvert_value.
  pose proof (le_value_range _ (Forall_slice is_byte 4 2 bs Hb)). lia.
Qed.

(** [ReadHeaderHandler] on a complete header. *)
Lemma ReadHeaderHandler_spec sk d hdr :
  zlen hdr = HEADER → Forall is_byte hdr → holds (ds_headerBuffer d) HEADER hdr →
  idle (ds_packetBuffer d) →
  let h := Header.decode hdr in
  if negb (Header.IsValidSize h) || negb (Header.IsValidOpcode h) then
    ∃ hb, ReadHeaderHandler (sk, d) = (Ret false, (sk, set_header hb d))
  else
    valid_header h ∧
    ∃ hb pb, ReadHeaderHandler (sk, d) = (Ret true, (sk, set_packet pb (set_header hb d))) ∧
      accepted hb h ∧ holds pb (Header.h_size h - 2) [].
Proof.
  intros Hl Hby Hh Hi h. unfold ReadHeaderHandler.
  assert (MB.GetActiveSize (ds_headerBuffer d) = HEADER) as Hsz.
  { rewrite <- (MB.zlen_active (ds_headerBuffer d)) by apply Hh. by rewrite (holds_active _ _ _ Hh). }
  rewrite Hsz. unfold HEADER at 1. rewrite Z.eqb_refl. cbn [negb].
  assert (ReadPointer (ds_headerBuffer d) = hdr) as Hrp.
  { pose proof (holds_active _ _ _ Hh) as E. unfold MB.active, slice in E. rewrite Hsz in E.
    unfold ReadPointer. rewrite ztake_all in E; [done|].
    rewrite (holds_rpos _ _ _ Hh), zdrop_0 by lia. rewrite (holds_size _ _ _ Hh). lia. }
  rewrite Hrp. fold h. cbn zeta.
  destruct (Header.IsValidSize h) eqn:Es; cbn [negb orb]; [|by eexists].
  destruct (Header.IsValidOpcode h) eqn:Eo; cbn [negb]; [|by eexists].
  assert (valid_header h) as Hv by (split; [done|]; split; [done|]; by apply decode_cmd_nonneg).
  split; [done|]. eexists _, _. split; [done|]. split.
  - unfold accepted, store. rewrite (holds_wpos _ _ _ Hh), Hl, (holds_rpos _ _ _ Hh).
    f_equal. unfold overwrite. rewrite ztake_0 by lia.
    rewrite zdrop_all by (rewrite zlen_app, !zlen_host_bytes, (holds_size _ _ _ Hh);
      unfold HEADER, Header.sizeof_DiscordClientPktHeader; lia).
    by rewrite app_nil_r.
  - apply idle_Resize; [done|]. unfold Header.IsValidSize in Es.
    apply andb_true_iff in Es as [E1%Z.leb_le E2%Z.ltb_lt]. lia.
Qed.
(** ** Payloads *)

Definition closed_with (s : st) (c : Core) : Prop :=
  sk_closed s.1 = true ∧ ds_core s.2 = c.

(** The rest of [ReadPayload] once the payload is complete. *)
Definition handle_payload : M exn st turn :=
  result ← ReadDataHandler;
  modify (λ s : st, (s.1, set_header (MB.Reset (ds_headerBuffer s.2)) s.2)) ;;
  match result with
  | ROk => mret TNext
  | RWaitingForQuery => mret TReturn
  | RError => modify CloseSocket ;; mret TReturn
  end.

(** What a turn does with a complete packet, by what its dispatch says. *)
Definition turn_spec (o : outcome exn ReadDataHandlerResult * Core) (data : list Z)
    (r : outcome exn turn * st) : Prop :=
  match o with
  | (Ret ROk, c') => r.1 = Ret TNext ∧ rel r.2 c' [] data
  | (Ret RWaitingForQuery, c') => r.1 = Ret TReturn ∧ rel r.2 c' [] data
  | (Ret RError, c') => r.1 = Ret TReturn ∧ closed_with r.2 (set_session None c')
  | (Throw e, _) => r.1 = Throw e
  | (AssertFail, _) => r.1 = AssertFail
  | (UB, _) => r.1 = UB
  end.

Lemma holds_storage b n q : holds b n q → zlen q = n → mb_storage b = q.
Proof.
  intros Hh Hq. pose proof (holds_active _ _ _ Hh) as E. pose proof (holds_wf _ _ _ Hh) as Hw.
  unfold MB.active, slice in E. rewrite (MB.active_size b Hw), (holds_wpos _ _ _ Hh) in E.
  rewrite (holds_rpos _ _ _ Hh), zdrop_0, ztake_all in E; [done| |lia].
  rewrite (holds_size _ _ _ Hh). lia.
Qed.

Lemma handle_payload_spec sk d c h payload data :
  SocketOps.IsOpen sk = true → MB.wf (sk_readBuffer sk) →
  READ_BLOCK_SIZE <= zlen (mb_storage (sk_readBuffer sk)) < 2 ^ 60 →
  MB.active (sk_readBuffer sk) = data → ds_core d = c →
  valid_header h → accepted (ds_headerBuffer d) h →
  holds (ds_packetBuffer d) (Header.h_size h - 2) payload → zlen payload = Header.h_size h - 2 →
  turn_spec (Dispatch true (Header.h_cmd h) (mkPacket (Header.h_cmd h) (mkBB 0 0 payload)) c)
    data (handle_payload (sk, d)).
Proof.
  intros Ho Hw Hsz Ha Hc Hv Hacc Hp Hl. unfold handle_payload.
  assert (ReadDataHandler (sk, d) =
    let '(o, c') := Dispatch true (Header.h_cmd h) (mkPacket (Header.h_cmd h) (mkBB 0 0 payload)) c in
    (o, (sk, set_core c' (set_packet (mkMB 0 0 []) d)))) as E.
  { unfold ReadDataHandler. rewrite (accepted_opcode _ _ Hv Hacc), Ho, Hc.
    unfold Packet.new_from_message, BB.new_from_message, MB.Move.
    rewrite (holds_storage _ _ _ Hp Hl). destruct Hv as (_ & Hop%Z.ltb_lt & Hcm).
    unfold NUM_DISCORD_CODE_HANDLERS in Hop. cbn in Hop. by rewrite wrap_small by lia. }
  unfold mbind, M_bind. rewrite E. clear E.
  set (nd := λ c', set_header (MB.Reset (ds_headerBuffer d)) (set_core c' (set_packet (mkMB 0 0 []) d))).
  assert (∀ c', frame (nd c') []) as Hfr.
  { intros c'. apply frame_header; [done| |done].
    unfold nd, MB.Reset. cbn [ds_headerBuffer set_header]. rewrite Hacc. cbn [mb_storage].
    set (l := host_bytes _ _ ++ _).
    assert (zlen l = HEADER) as Hll by (unfold l; by rewrite zlen_app, !zlen_host_bytes).
    assert (MB.wf (mkMB 0 0 l)) as Hwl by (split; cbn; rewrite ?Hll; done).
    split; [done|done|done|]. rewrite MB.active_mk by done. by apply ztake_0. }
  destruct (Dispatch _ _ _ _) as [[[| |]| | |] c']; cbn [turn_spec]; try done;
    unfold modify, mret, M_ret; cbn [fst snd ds_headerBuffer set_core set_packet].
  - split; [done|]. split; cbn [fst snd]; try done. apply Hfr.
  - split; [done|]. unfold CloseSocket, SocketOps.CloseSocket. cbn [fst snd].
    unfold SocketOps.IsOpen in Ho. apply andb_true_iff in Ho as [Ho _].
    apply negb_true_iff in Ho. rewrite Ho. done.
  - split; [done|]. split; cbn [fst snd]; try done. apply Hfr.
Qed.

Lemma ReadPayload_spec sk d c hdr h q data :
  SocketOps.IsOpen sk = true → MB.wf (sk_readBuffer sk) →
  READ_BLOCK_SIZE <= zlen (mb_storage (sk_readBuffer sk)) < 2 ^ 60 →
  MB.active (sk_readBuffer sk) = data → ds_core d = c →
  zlen hdr = HEADER → Header.decode hdr = h → valid_header h →
  accepted (ds_headerBuffer d) h → holds (ds_packetBuffer d) (Header.h_size h - 2) q →
  zlen q <= Header.h_size h - 2 →
  let n := Header.h_size h - 2 in
  if zlen (q ++ data) <? n then
    ∃ s', ReadPayload (sk, d) = (Ret TBreak, s') ∧ rel s' c (hdr ++ q ++ data) []
  else
    turn_spec (Dispatch true (Header.h_cmd h)
                 (mkPacket (Header.h_cmd h) (mkBB 0 0 (ztake n (q ++ data)))) c)
      (zdrop n (q ++ data)) (ReadPayload (sk, d)).
Proof.
  intros Ho Hw Hsz Ha Hc Hl Hd Hv Hacc Hp Hle n. fold n in Hp, Hle.
  change (ReadPayload (sk, d)) with ((more ← gets (λ s : st, MB.HasRemainingSpace (ds_packetBuffer s.2));
    full ← (if (more : bool) then fill ds_packetBuffer set_packet else mret true);
    if negb full then mret TBreak else handle_payload) (sk, d)).
  rewrite bind_gets. cbn [snd].
  unfold MB.HasRemainingSpace. rewrite (holds_remaining _ _ _ Hp).
  pose proof (zlen_nonneg q) as Hq0. pose proof (zlen_nonneg data) as Hd0. rewrite zlen_app.
  destruct (Z.ltb_spec 0 (n - zlen q)).
  - destruct (fill_spec ds_packetBuffer set_packet (sk, d) n q data)
      as (rb & b & E & Hrw & Hra & Hrs & Hb); [done..|lia|].
    rewrite (bind_run _ _ _ _ _ E). cbn [fst snd] in *.
    destruct (Z.leb_spec (n - zlen q) (zlen data)); cbn [negb].
    + rewrite (proj2 (Z.ltb_ge _ _)) by lia.
      rewrite Z.min_r in Hb, Hra by lia.
      replace (ztake n (q ++ data)) with (q ++ ztake (n - zlen q) data)
        by (rewrite ztake_app_ge by lia; done).
      rewrite zdrop_app_ge by lia.
      apply (handle_payload_spec _ _ c h); try done.
      * cbn [sk_readBuffer SocketOps.set_readBuffer]. by rewrite Hrs.
      * rewrite zlen_app, zlen_ztake. fold n. lia.
    + rewrite (proj2 (Z.ltb_lt _ _)) by lia. rewrite Z.min_l in Hb, Hra by lia.
      rewrite (ztake_all (zlen data)) in Hb by lia. rewrite (zdrop_all (zlen data)) in Hra by lia.
      eexists. split; [done|]. split; cbn [fst snd]; try done.
      * cbn [sk_readBuffer SocketOps.set_readBuffer]. by rewrite Hrs.
      * apply (frame_payload _ hdr h); try done. rewrite zlen_app. fold n. lia.
  - assert (zlen q = n) as Hqn by lia. rewrite (proj2 (Z.ltb_ge _ _)) by lia.
    rewrite <- Hqn at 1 2. rewrite ztake_app_exact, zdrop_app_exact.
    rewrite bind_ret_l. cbn [negb]. by apply (handle_payload_spec _ _ c h).
Qed.
(** ** A turn of the loop, and the loop *)

(** What the parser does with [all], by one turn: either it stops for want of
    data, or it decides on one packet. *)
Definition step_spec (c : Core) (all : list Z) (r : outcome exn turn * st) : Prop :=
  if zlen all <? HEADER then r.1 = Ret TBreak ∧ rel r.2 c all []
  else
    let h := Header.decode (ztake HEADER all) in
    if negb (Header.IsValidSize h) || negb (Header.IsValidOpcode h) then
      r.1 = Ret TReturn ∧ closed_with r.2 (set_session None c)
    else
      let n := Header.h_size h - 2 in
      let body := zdrop HEADER all in
      if zlen body <? n then r.1 = Ret TBreak ∧ rel r.2 c all []
      else
        turn_spec (Dispatch true (Header.h_cmd h)
                     (mkPacket (Header.h_cmd h) (mkBB 0 0 (ztake n body))) c)
          (zdrop n body) r.

Lemma step_spec_payload c hdr h q r :
  zlen hdr = HEADER → Header.decode hdr = h → valid_header h →
  (if zlen q <? Header.h_size h - 2 then r.1 = Ret TBreak ∧ rel r.2 c (hdr ++ q) []
   else turn_spec (Dispatch true (Header.h_cmd h)
                     (mkPacket (Header.h_cmd h) (mkBB 0 0 (ztake (Header.h_size h - 2) q))) c)
          (zdrop (Header.h_size h - 2) q) r) →
  step_spec c (hdr ++ q) r.
Proof.
  intros Hl Hd (Hs & Ho & _) Hr. unfold step_spec. rewrite zlen_app. pose proof (zlen_nonneg q).
  rewrite (proj2 (Z.ltb_ge _ _)) by lia.
  rewrite <- Hl, ztake_app_exact, zdrop_app_exact, Hd, Hs, Ho. cbn [negb orb]. done.
Qed.

Lemma ReadTurn_spec s c p data :
  rel s c p data → Forall is_byte (p ++ data) → step_spec c (p ++ data) (ReadTurn s).
Proof.
  intros [Ho Hw Hsz Ha Hc Hf] Hby. destruct s as [sk d]. cbn [fst snd] in *.
  unfold ReadTurn. rewrite bind_gets. cbn [snd]. unfold MB.HasRemainingSpace.
  destruct Hf as [p Hp Hh Hi|hdr h q Hl Hd Hv Hacc Hq Hlt].
  2:{ rewrite Hacc. change (MB.GetRemainingSpace _) with
        (u64 (zlen (host_bytes 4 (Header.h_size h - 2) ++ host_bytes 2 (Header.h_cmd h)) - 6)).
      rewrite zlen_app, !zlen_host_bytes. change (0 <? u64 _) with false. cbn match.
      rewrite <- app_assoc. apply (step_spec_payload _ _ h); [done..|].
      pose proof (ReadPayload_spec sk d c hdr h q data Ho Hw Hsz Ha Hc Hl Hd Hv Hacc Hq ltac:(lia))
        as P. cbn zeta in P. destruct (zlen (q ++ data) <? _); [|done].
      by destruct P as (s' & -> & P). }
  rewrite (holds_remaining _ _ _ Hh). rewrite (proj2 (Z.ltb_lt _ _)) by lia.
  destruct (fill_spec ds_headerBuffer set_header (sk, d) HEADER p data)
    as (rb & b & E & Hrw & Hra & Hrs & Hb); [done..|].
  rewrite (bind_run _ _ _ _ _ E). cbn [fst snd] in *.
  pose proof (zlen_nonneg p). pose proof (zlen_nonneg data).
  destruct (Z.leb_spec (HEADER - zlen p) (zlen data)) as [Hfull|Hpart]; cbn [negb].
  2:{ unfold step_spec. rewrite zlen_app, (proj2 (Z.ltb_lt _ _)) by lia.
      rewrite Z.min_l in Hb, Hra by lia.
      rewrite (ztake_all (zlen data)) in Hb by lia. rewrite (zdrop_all (zlen data)) in Hra by lia.
      split; [done|]. split; cbn [fst snd mret M_ret]; try done.
      - cbn [sk_readBuffer SocketOps.set_readBuffer]. by rewrite Hrs.
      - apply frame_header; [rewrite zlen_app; lia|done|done]. }
  rewrite Z.min_r in Hb, Hra by lia.
  set (k := HEADER - zlen p) in *. set (hdr := p ++ ztake k data) in *.
  assert (zlen hdr = HEADER) as Hl by (unfold hdr; rewrite zlen_app, zlen_ztake; lia).
  assert (p ++ data = hdr ++ zdrop k data) as Hall.
  { unfold hdr. by rewrite <- app_assoc, ztake_zdrop. }
  assert (Forall is_byte hdr) as Hbh.
  { rewrite Hall in Hby. by apply Forall_app in Hby as [? _]. }
  rewrite Hall. set (sk' := SocketOps.set_readBuffer rb sk).
  pose proof (ReadHeaderHandler_spec sk' (set_header b d) hdr Hl Hbh Hb Hi) as P. cbn zeta in P.
  destruct (negb (Header.IsValidSize (Header.decode hdr)) || _) eqn:Ev.
  - destruct P as [hb P]. rewrite (bind_run _ _ _ _ _ P). cbn [negb]. rewrite bind_modify.
    unfold step_spec. rewrite zlen_app. pose proof (zlen_nonneg (zdrop k data)).
    rewrite (proj2 (Z.ltb_ge _ _)) by lia.
    replace (ztake HEADER (hdr ++ zdrop k data)) with hdr
      by (rewrite <- Hl; symmetry; apply ztake_app_exact).
    cbn zeta. rewrite Ev.
    split; [done|]. unfold CloseSocket, SocketOps.CloseSocket, closed_with. cbn [fst snd].
    unfold SocketOps.IsOpen in Ho. apply andb_true_iff in Ho as [Ho _].
    apply negb_true_iff in Ho. change (sk_closed sk') with (sk_closed sk). rewrite Ho.
    cbn. by rewrite Hc.
  - destruct P as (Hv & hb & pb & P & Hacc & Hpb). rewrite (bind_run _ _ _ _ _ P). cbn [negb].
    apply (step_spec_payload _ _ (Header.decode hdr)); [done..|].
    assert (0 <= Header.h_size (Header.decode hdr) - 2) as Hn.
    { destruct Hv as (Hs & _). unfold Header.IsValidSize in Hs.
      apply andb_true_iff in Hs as [Hs%Z.leb_le _]. lia. }
    pose proof (ReadPayload_spec sk' (set_packet pb (set_header hb (set_header b d))) c hdr
      (Header.decode hdr) [] (zdrop k data)) as Q. cbn zeta in Q. cbn [app] in Q.
    assert (READ_BLOCK_SIZE <= zlen (mb_storage (sk_readBuffer sk')) < 2 ^ 60) as Hsz'.
    { cbn [sk_readBuffer sk' SocketOps.set_readBuffer]. by rewrite Hrs. }
    specialize (Q Ho Hrw Hsz' Hra Hc Hl eq_refl Hv Hacc Hpb). rewrite zlen_nil in Q.
    specialize (Q Hn). destruct (zlen (zdrop k data) <? _); [|done].
    by destruct Q as (s' & -> & Q).
Qed.

(** The state after the loop against the parser's verdict. *)
Definition loop_ok (r : outcome exn bool * st) (o : outcome exn status * Core * list Z) : Prop :=
  match o with
  | (Ret SReading, c, p) => r.1 = Ret true ∧ rel r.2 c p []
  | (Ret SClosed, c, _) => r.1 = Ret false ∧ closed_with r.2 c
  | (Ret SWaiting, c, p) => r.1 = Ret false ∧ rel r.2 c [] p
  | (Throw e, _, _) => r.1 = Throw e
  | (AssertFail, _, _) => r.1 = AssertFail
  | (UB, _, _) => r.1 = UB
  end.

(** A turn with data there takes some of it. *)
Lemma frame_progress d p n : frame d p →
  let h := Header.decode (ztake HEADER p) in
  (zlen p < HEADER ∨ zlen (zdrop HEADER p) < Header.h_size h - 2) ∧ (n = zlen p → n < 2 ^ 62).
Proof.
  intros [p' Hp _ _|hdr h q Hl Hd Hv _ Hq Hlt]; cbn zeta.
  - split; [by left|]. intros ->. unfold HEADER, Header.sizeof_DiscordClientPktHeader in Hp. lia.
  - split.
    + right. rewrite <- Hl, zdrop_app_exact, ztake_app_exact, Hd. done.
    + intros ->. rewrite zlen_app, Hl. destruct Hv as (Hs & _). unfold Header.IsValidSize in Hs.
      apply andb_true_iff in Hs as [_ Hs%Z.ltb_lt].
      unfold HEADER, Header.sizeof_DiscordClientPktHeader. lia.
Qed.

Lemma ReadHandler_loop_spec fuel s c p data :
  rel s c p data → Forall is_byte (p ++ data) → (length data <= fuel)%nat →
  loop_ok (ReadHandler_loop fuel s) (parse_stream c (p ++ data)).
Proof.
  revert s c p data. induction fuel as [|fuel IH]; intros s c p data Hr Hby Hf.
  - destruct data; [|cbn in Hf; lia]. rewrite app_nil_r. unfold parse_stream.
    rewrite (parse_frame _ _ _ _ (rel_frame _ _ _ _ Hr)). cbn [ReadHandler_loop loop_ok].
    unfold readActive. rewrite bind_gets.
    rewrite <- (MB.zlen_active (sk_readBuffer s.1) (rel_wf _ _ _ _ Hr)), (rel_active _ _ _ _ Hr).
    done.
  - cbn [ReadHandler_loop]. unfold readActive. rewrite bind_gets.
    rewrite <- (MB.zlen_active (sk_readBuffer s.1) (rel_wf _ _ _ _ Hr)), (rel_active _ _ _ _ Hr).
    destruct data as [|x data].
    { rewrite app_nil_r. unfold parse_stream.
      by rewrite (parse_frame _ _ _ _ (rel_frame _ _ _ _ Hr)). }
    rewrite zlen_cons. pose proof (zlen_nonneg data). rewrite (proj2 (Z.ltb_lt _ _)) by lia.
    pose proof (ReadTurn_spec s c p (x :: data) Hr Hby) as T. unfold step_spec in T.
    pose proof (frame_progress _ _ 0 (rel_frame _ _ _ _ Hr)) as [Hpr _].
    unfold parse_stream. cbn [parse]. set (all := p ++ x :: data) in *. cbn zeta in T |- *.
    destruct (Z.ltb_spec (zlen all) HEADER) as [|Hall].
    { destruct T as [T1 T2]. destruct (ReadTurn s) as [o s1] eqn:E. cbn [fst snd] in *. subst o.
      by rewrite (bind_run _ _ _ _ _ E). }
    destruct (negb _ || negb _).
    { destruct T as [T1 T2]. destruct (ReadTurn s) as [o s1] eqn:E. cbn [fst snd] in *. subst o.
      by rewrite (bind_run _ _ _ _ _ E). }
    set (h := Header.decode (ztake HEADER all)) in *.
    destruct (Z.ltb_spec (zlen (zdrop HEADER all)) (Header.h_size h - 2)) as [|Hbody].
    { destruct T as [T1 T2]. destruct (ReadTurn s) as [o s1] eqn:E. cbn [fst snd] in *. subst o.
      by rewrite (bind_run _ _ _ _ _ E). }
    set (rest := zdrop (Header.h_size h - 2) (zdrop HEADER all)) in *.
    assert (length rest <= length data)%nat as Hrest.
    { assert (zlen rest <= zlen data) as L; [|unfold zlen in L; lia].
      unfold rest, all in *. rewrite !zlen_zdrop, zlen_app, zlen_cons in *.
      unfold HEADER, Header.sizeof_DiscordClientPktHeader in *.
      destruct Hpr as [Hpr|Hpr]; [lia|].
      destruct (Z.lt_ge_cases (zlen p) 6) as [|Hp6]; [lia|].
      assert (h = Header.decode (ztake (4 + 2) p)) as Hhp.
      { unfold h. by rewrite ztake_app_le by lia. }
      rewrite <- Hhp in Hpr. lia. }
    assert (Forall is_byte rest) as Hbr by (apply Forall_zdrop, Forall_zdrop, Hby).
    destruct (Dispatch _ _ _ _) as [[[| |]| | |] c'] eqn:ED; cbn [turn_spec] in T.
    + destruct T as [T1 T2]. destruct (ReadTurn s) as [o s1] eqn:E. cbn [fst snd] in *. subst o.
      rewrite (bind_run _ _ _ _ _ E).
      rewrite (parse_fuel _ (S (length rest))); [|unfold all; rewrite length_app; cbn; lia|lia].
      apply (IH s1 c' [] rest); [done|done|cbn in Hf; lia].
    + destruct T as [T1 T2]. destruct (ReadTurn s) as [o s1] eqn:E. cbn [fst snd] in *. subst o.
      by rewrite (bind_run _ _ _ _ _ E).
    + destruct T as [T1 T2]. destruct (ReadTurn s) as [o s1] eqn:E. cbn [fst snd] in *. subst o.
      by rewrite (bind_run _ _ _ _ _ E).
    + unfold mbind, M_bind. destruct (ReadTurn s) as [o s1]. cbn in T. by subst o.
    + unfold mbind, M_bind. destruct (ReadTurn s) as [o s1]. cbn in T. by subst o.
    + unfold mbind, M_bind. destruct (ReadTurn s) as [o s1]. cbn in T. by subst o.
Qed.
(** ** The stream in pieces *)

Lemma parse_rest_length f c p o c' p' :
  parse f c p = (Ret o, c', p') → (length p' <= length p)%nat.
Proof.
  revert c p. induction f as [|f IH]; intros c p E; [done|]. cbn [parse] in E.
  repeat case_match; simplify_eq; cbn [length]; try lia;
    try apply IH in E; unfold zdrop in *; rewrite ?length_drop in *; lia.
Qed.

(** Parsing goes on where it stopped. *)
Lemma parse_app f g c p r :
  (length (p ++ r) < f)%nat → (length (p ++ r) < g)%nat →
  parse f c (p ++ r) =
  match parse f c p with
  | (Ret SReading, c', p') => parse g c' (p' ++ r)
  | (Ret SClosed, c', _) => (Ret SClosed, c', [])
  | (Ret SWaiting, c', p') => (Ret SWaiting, c', p' ++ r)
  | o => o
  end.
Proof.
  revert c p. induction f as [|f IH]; intros c p Hf Hg; [lia|].
  destruct (parse (S f) c p) as [[o c1] p1] eqn:E. cbn [parse] in E.
  destruct (Z.ltb_spec (zlen p) HEADER) as [Hp|Hp].
  { simplify_eq. by apply parse_fuel. }
  pose proof (zlen_nonneg r). cbn [parse].
  rewrite zlen_app, (proj2 (Z.ltb_ge (_ + _) _)) by lia.
  rewrite ztake_app_le, zdrop_app_le by lia. cbn zeta in *.
  destruct (negb _ || negb _) eqn:Ev; [by simplify_eq|].
  set (h := Header.decode (ztake HEADER p)) in *. set (body := zdrop HEADER p) in *.
  set (n := Header.h_size h - 2) in *.
  destruct (Z.ltb_spec (zlen body) n) as [Hb|Hb].
  { injection E as <- <- <-. rewrite <- (parse_fuel (S f) g) by lia. cbn [parse].
    rewrite (zlen_app p r), (proj2 (Z.ltb_ge (zlen p + zlen r) _)) by lia.
    rewrite (ztake_app_le _ p), (zdrop_app_le _ p) by lia. cbn zeta. fold h body n. by rewrite Ev. }
  rewrite zlen_app, (proj2 (Z.ltb_ge (_ + _) _)) by lia.
  rewrite ztake_app_le, zdrop_app_le by lia.
  destruct (Dispatch _ _ _ _) as [[[| |]| | |] c']; try by simplify_eq.
  assert (length (zdrop n body ++ r) < f ∧ length (zdrop n body ++ r) < g)%nat as [H1 H2].
  { rewrite length_app in *. unfold body, zdrop. rewrite !length_drop.
    unfold zlen, HEADER, Header.sizeof_DiscordClientPktHeader in *. lia. }
  by rewrite IH, E.
Qed.

(** ** Deliveries *)

(** A socket that waits for data, with [p] of the stream taken in. *)
Record listening (s : st) (c : Core) (p : list Z) : Prop := {
  li_rel : rel s c p [];
  li_rpos : mb_rpos (sk_readBuffer s.1) = 0;
  li_wpos : mb_wpos (sk_readBuffer s.1) = 0;
  li_reading : sk_reading s.1 = true;
  li_bytes : Forall is_byte p
}.

(** The network delivers a piece whenever a read is outstanding. *)
Fixpoint feed (chunks : list (list Z)) : M exn st () :=
  match chunks with
  | [] => mret ()
  | chunk :: chunks =>
      reading ← gets (λ s : st, sk_reading s.1);
      if (reading : bool) then ReadHandlerInternal (Some chunk) ;; feed chunks else mret ()
  end.

Lemma AsyncRead_listening s c p :
  rel s c p [] → Forall is_byte p → listening (AsyncRead s) c p.
Proof.
  intros [Ho Hw Hsz Ha Hc Hf] Hby. destruct s as [sk d]. cbn [fst snd] in *.
  unfold AsyncRead, SocketOps.AsyncRead. cbn [fst snd]. rewrite Ho. cbn [negb].
  destruct (MB.Normalize_spec _ Hw) as (Hw' & Ha' & Hr' & Hwp' & Hs').
  rewrite <- (MB.zlen_active _ Hw), Ha, zlen_nil in Hwp'.
  assert (MB.EnsureFreeSpace (MB.Normalize (sk_readBuffer sk)) = MB.Normalize (sk_readBuffer sk)) as E.
  { unfold MB.EnsureFreeSpace. rewrite (MB.remaining_space _ Hw'), Hwp', Hs'.
    destruct (Z.eqb_spec (zlen (mb_storage (sk_readBuffer sk)) - 0) 0); [|done].
    unfold READ_BLOCK_SIZE in Hsz. lia. }
  rewrite E. split; try done. split; try done; cbn [fst snd sk_readBuffer SocketOps.set_reading
    SocketOps.set_readBuffer].
  - by rewrite Hs'.
  - by rewrite Ha', Ha.
Qed.

Lemma receive_spec s c p chunk :
  listening s c p → zlen chunk <= READ_BLOCK_SIZE →
  rel (SocketOps.set_readBuffer (SocketOps.receive chunk (sk_readBuffer s.1))
         (SocketOps.set_reading false s.1), s.2) c p chunk.
Proof.
  intros [[Ho Hw Hsz Ha Hc Hf] Hr Hwp _ _] Hch. pose proof (zlen_nonneg chunk).
  set (b := sk_readBuffer s.1) in *.
  destruct (MB.Write_spec chunk b Hw) as (b' & E & Hw' & Ha' & _ & Hr' & Hwp' & Hs').
  { rewrite (MB.remaining_space b Hw), Hwp. lia. }
  assert (SocketOps.receive chunk b = b') as Eb.
  { unfold MB.Write in E. destruct (Z.eqb_spec (zlen chunk) 0) as [E0|E0].
    - apply zlen_0 in E0 as ->. injection E as <-. unfold SocketOps.receive, MB.WriteCompleted.
      destruct b as [w r st]. cbn in *. subst w r. done.
    - destruct (_ && _); [|done]. injection E as <-. unfold SocketOps.receive, MB.WriteCompleted.
      by rewrite ztake_all by lia. }
  rewrite Eb. split; cbn [fst snd sk_readBuffer SocketOps.set_readBuffer]; try done.
  - by rewrite Hs'.
  - by rewrite Ha', Ha.
Qed.

Lemma parse_rest_bytes f c p o c' p' :
  parse f c p = (Ret o, c', p') → Forall is_byte p → Forall is_byte p'.
Proof.
  revert c p. induction f as [|f IH]; intros c p E Hb; [done|]. cbn [parse] in E.
  repeat case_match; simplify_eq; try done; [eapply IH; [done|]|]; by do 2 apply Forall_zdrop.
Qed.

(** *** Fields the loop leaves alone: it starts no read and queues no write of its
    own *)

Section fields.
Context {F : Type} (field : Socket → F).
Context (field_read : ∀ b sk, field (SocketOps.set_readBuffer b sk) = field sk).
Context (field_closed : ∀ v sk, field (SocketOps.set_closed v sk) = field sk).

Definition keeps_field {A} (m : M exn st A) : Prop :=
  ∀ s, field (m s).2.1 = field s.1.

Lemma keeps_field_bind {A B} (m : M exn st A) (f : A → M exn st B) :
  keeps_field m → (∀ a, keeps_field (f a)) → keeps_field (m ≫= f).
Proof.
  intros Hm Hf s. unfold mbind, M_bind. specialize (Hm s).
  destruct (m s) as [[a| | |] s1]; cbn in *; try done. by rewrite Hf.
Qed.

Lemma keeps_field_take get set n : keeps_field (take_bytes get set n).
Proof using field_read.
  intros [sk d]. unfold take_bytes. repeat case_match; try done. apply field_read.
Qed.

Lemma keeps_field_fill get set : keeps_field (fill get set).
Proof using field_read.
  apply keeps_field_bind; [done|]. intros active.
  apply keeps_field_bind; [done|]. intros room.
  apply keeps_field_bind; [apply keeps_field_take|]. intros [].
  apply keeps_field_bind; [done|]. intros [|]; [|done].
  apply keeps_field_bind; [done|]. intros still.
  apply keeps_field_bind; [|done]. intros s. by destruct still.
Qed.

Lemma keeps_field_close : keeps_field (modify CloseSocket).
Proof using field_closed.
  intros [sk d]. unfold modify, CloseSocket, SocketOps.CloseSocket. cbn.
  case_match; [done|apply field_closed].
Qed.

Lemma keeps_field_payload : keeps_field ReadPayload.
Proof using field_closed field_read.
  apply keeps_field_bind; [done|]. intros more.
  apply keeps_field_bind; [destruct more; [apply keeps_field_fill|done]|]. intros [|]; [|done].
  apply keeps_field_bind.
  { intros [sk d]. unfold ReadDataHandler. by repeat case_match. }
  intros result. apply keeps_field_bind; [done|]. intros [].
  destruct result; [done| |done]. apply keeps_field_bind; [apply keeps_field_close|done].
Qed.

Lemma keeps_field_turn : keeps_field ReadTurn.
Proof using field_closed field_read.
  apply keeps_field_bind; [done|]. intros [|]; [|apply keeps_field_payload].
  apply keeps_field_bind; [apply keeps_field_fill|]. intros [|]; [|done].
  apply keeps_field_bind.
  { intros [sk d]. unfold ReadHeaderHandler. by repeat case_match. }
  intros [|]; [apply keeps_field_payload|].
  apply keeps_field_bind; [apply keeps_field_close|done].
Qed.

Lemma keeps_field_loop fuel : keeps_field (ReadHandler_loop fuel).
Proof using field_closed field_read.
  induction fuel as [|fuel IH]; cbn [ReadHandler_loop];
    (apply keeps_field_bind; [done|]); intros active; case_match; try done.
  apply keeps_field_bind; [apply keeps_field_turn|]. by intros [].
Qed.

End fields.

Lemma loop_reading fuel s o s' :
  ReadHandler_loop fuel s = (o, s') → sk_reading s'.1 = sk_reading s.1.
Proof.
  intros E. assert (keeps_field sk_reading (ReadHandler_loop fuel)) as K by (by apply keeps_field_loop).
  specialize (K s). by rewrite E in K.
Qed.

(** One delivery. *)
Lemma ReadHandlerInternal_spec s c p chunk :
  listening s c p → zlen chunk <= READ_BLOCK_SIZE → Forall is_byte chunk →
  match parse_stream c (p ++ chunk) with
  | (Ret SReading, c', p') =>
      ∃ s', ReadHandlerInternal (Some chunk) s = (Ret (), s') ∧ listening s' c' p'
  | (Ret SClosed, c', _) =>
      ∃ s', ReadHandlerInternal (Some chunk) s = (Ret (), s') ∧ closed_with s' c' ∧
        sk_reading s'.1 = false
  | (Ret SWaiting, c', p') =>
      ∃ s', ReadHandlerInternal (Some chunk) s = (Ret (), s') ∧ rel s' c' [] p' ∧
        sk_reading s'.1 = false
  | (Throw e, _, _) => (ReadHandlerInternal (Some chunk) s).1 = Throw e
  | (AssertFail, _, _) => (ReadHandlerInternal (Some chunk) s).1 = AssertFail
  | (UB, _, _) => (ReadHandlerInternal (Some chunk) s).1 = UB
  end.
Proof.
  intros Hli Hch Hbc. pose proof (receive_spec s c p chunk Hli Hch) as Hrel.
  destruct Hli as [_ _ _ _ Hbp]. destruct s as [sk d]. cbn [fst snd] in *.
  set (s1 := (SocketOps.set_readBuffer _ _, d)) in *.
  assert (ReadHandlerInternal (Some chunk) (sk, d) =
    (more ← ReadHandler_loop (length chunk); if (more : bool) then modify AsyncRead else mret ()) s1) as E.
  { change (ReadHandlerInternal (Some chunk) (sk, d)) with (ReadHandler s1).
    unfold ReadHandler. rewrite bind_gets, (rel_open _ _ _ _ Hrel). cbn [negb].
    unfold readActive. rewrite bind_gets.
    rewrite <- (MB.zlen_active _ (rel_wf _ _ _ _ Hrel)), (rel_active _ _ _ _ Hrel).
    unfold zlen. by rewrite Nat2Z.id. }
  rewrite E. clear E.
  assert (Forall is_byte (p ++ chunk)) as Hby by by apply Forall_app.
  pose proof (ReadHandler_loop_spec (length chunk) s1 c p chunk Hrel Hby ltac:(lia)) as L.
  destruct (parse_stream c (p ++ chunk)) as [[[[| |]| | |] c'] p'] eqn:Ep; cbn [loop_ok] in L.
  - destruct L as [L1 L2]. destruct (ReadHandler_loop _ s1) as [o s2] eqn:El. cbn in L1, L2. subst o.
    rewrite (bind_run _ _ _ _ _ El). eexists. split; [done|].
    apply AsyncRead_listening; [done|]. by eapply parse_rest_bytes.
  - destruct L as [L1 L2]. destruct (ReadHandler_loop _ s1) as [o s2] eqn:El. cbn in L1, L2. subst o.
    rewrite (bind_run _ _ _ _ _ El). eexists. split; [done|]. split; [done|].
    apply loop_reading in El. cbn in El. done.
  - destruct L as [L1 L2]. destruct (ReadHandler_loop _ s1) as [o s2] eqn:El. cbn in L1, L2. subst o.
    rewrite (bind_run _ _ _ _ _ El). eexists. split; [done|]. split; [done|].
    apply loop_reading in El. cbn in El. done.
  - unfold mbind, M_bind. destruct (ReadHandler_loop _ s1) as [o s2]. cbn in L. by subst o.
  - unfold mbind, M_bind. destruct (ReadHandler_loop _ s1) as [o s2]. cbn in L. by subst o.
  - unfold mbind, M_bind. destruct (ReadHandler_loop _ s1) as [o s2]. cbn in L. by subst o.
Qed.
(** ** The dispatch is safe

    While the socket is open an authenticated connection has its session. *)

Definition core_ok (c : Core) : Prop := co_authed c = true → is_Some (co_session c).

Lemma reads_ok_auth b : BB.cursors_ok b → BB.reads_ok read_auth b.
Proof.
  intros Hb. unfold read_auth.
  apply BB.reads_ok_bind; [done|by apply BB.reads_ok_cstring|]. intros a1 b1 _ Hb1.
  apply BB.reads_ok_bind; [done|by apply BB.reads_ok_cstring|]. intros a2 b2 _ Hb2.
  apply BB.reads_ok_bind; [done|by apply BB.reads_ok_cstring|]. intros a3 b3 _ Hb3.
  apply BB.reads_ok_bind; [done|by apply BB.reads_ok_cstring|]. intros a4 b4 _ Hb4.
  apply BB.reads_ok_bind; [done|apply BB.reads_ok_read_value; [lia|done]|].
  intros. apply BB.reads_ok_ret.
Qed.

Lemma never_asserts_auth : Session.never_asserts read_auth.
Proof.
  do 4 (apply Session.never_asserts_bind; [apply Session.never_asserts_string|intros ?]).
  apply Session.never_asserts_bind; [apply Session.never_asserts_read_value|done].
Qed.

Definition read_ping : M exn ByteBuffer (Z * Z) :=
  timePacket ← BB.read_int 8; latency ← BB.read_int 8; mret (timePacket, latency).

Lemma reads_ok_ping b : BB.cursors_ok b → BB.reads_ok read_ping b.
Proof.
  intros Hb. apply BB.reads_ok_bind; [done|apply reads_ok_int; [lia|done]|]. intros t b1 _ Hb1.
  apply BB.reads_ok_bind; [done|apply reads_ok_int; [lia|done]|]. intros. apply BB.reads_ok_ret.
Qed.

Lemma never_asserts_ping : Session.never_asserts read_ping.
Proof.
  do 2 (apply Session.never_asserts_bind;
    [apply Session.never_asserts_bind; [apply Session.never_asserts_read_value|done]|intros ?]).
  done.
Qed.

(** Reading a payload returns or throws. *)
Lemma read_cases {A} (m : M exn ByteBuffer A) b :
  BB.reads_ok m b → Session.never_asserts m →
  (∃ a b', m b = (Ret a, b')) ∨ (∃ e b', m b = (Throw e, b')).
Proof.
  intros Hr Ha. pose proof (BB.reads_ok_no_UB m b Hr) as Hu. specialize (Ha b).
  destruct (m b) as [[] ?]; cbn in *; try done; eauto.
Qed.

Lemma Dispatch_ok open opcode packet c :
  core_ok c → 0 <= opcode < NUM_DISCORD_CODE_HANDLERS → BB.cursors_ok (dp_buf packet) →
  ∃ r c', Dispatch open opcode packet c = (Ret r, c') ∧ core_ok c'.
Proof.
  intros Hc Hop Hb. unfold Dispatch. destruct (_ =? DiscordCode.value DiscordCode.CLIENT_SEND_PING).
  - unfold HandlePing. fold read_ping.
    destruct (read_cases read_ping (dp_buf packet)) as [([t l] & b' & ->)|(e & b' & ->)];
      [by apply reads_ok_ping|apply never_asserts_ping| |by eexists _, _].
    destruct (read_clock c) as [now clock]. destruct c as [ck ad la ov se au bq qs rq ef].
    unfold core_ok in *. cbn in Hc. cbn [set_ping co_session co_LastPingTime co_OverSpeedPings].
    destruct se as [ses|]; destruct (_ && _ && _ && _);
      eexists _, _; (split; [done|]); try done; destruct open; done.
  - destruct (_ =? DiscordCode.value DiscordCode.CLIENT_AUTH_SESSION).
    + destruct (co_authed c) eqn:Ea.
      * destruct (Hc Ea) as [ses ->]. by eexists _, _.
      * unfold HandleAuthSession, eval.
        destruct (read_cases read_auth (dp_buf packet)) as [(a & b' & ->)|(e & b' & ->)];
          [by apply reads_ok_auth|apply never_asserts_auth| |]; eexists _, _; done.
    + destruct (co_session c) as [ses|] eqn:Es; [|by eexists _, _].
      unfold Opcodes.lookup. rewrite (proj2 (Z.leb_le _ _)), (proj2 (Z.ltb_lt _ _)) by lia.
      cbn [andb]. destruct (Opcodes.opcodeTable !! opcode); eexists _, _;
        (split; [done|]); [by intros _; eexists|done].
Qed.

Lemma parse_ok f c p :
  (length p < f)%nat → core_ok c → Forall is_byte p →
  ∃ v c' p', parse f c p = (Ret v, c', p') ∧ (v ≠ SClosed → core_ok c').
Proof.
  revert c p. induction f as [|f IH]; intros c p Hf Hc Hb; [lia|]. cbn [parse].
  destruct (Z.ltb_spec (zlen p) HEADER) as [|Hp]; [by eexists _, _, _|].
  set (h := Header.decode (ztake HEADER p)). cbn zeta.
  destruct (Header.IsValidSize h) eqn:Es; cbn [negb orb]; [|by eexists _, _, _].
  destruct (Header.IsValidOpcode h) eqn:Eo; cbn [negb]; [|by eexists _, _, _].
  case_match; [by eexists _, _, _|].
  unfold Header.IsValidSize in Es. apply andb_true_iff in Es as [E1%Z.leb_le E2%Z.ltb_lt].
  apply Z.ltb_lt in Eo. pose proof (decode_cmd_nonneg (ztake HEADER p)) as Hcmd.
  destruct (Dispatch_ok true (Header.h_cmd h) (mkPacket (Header.h_cmd h)
    (mkBB 0 0 (ztake (Header.h_size h - 2) (zdrop HEADER p)))) c) as (r & c' & -> & Hc').
  - done.
  - split; [|done]. apply Hcmd. by apply Forall_ztake.
  - split; [by apply Forall_ztake, Forall_zdrop|]. cbn [dp_buf bb_rpos bb_wpos].
    split; [lia|]. split; [lia|]. unfold BB.size. cbn [bb_storage]. rewrite zlen_ztake. lia.
  - destruct r; [|by eexists _, _, _..]. apply IH; [|done|by apply Forall_zdrop, Forall_zdrop].
    unfold zdrop. rewrite !length_drop. unfold zlen, HEADER, Header.sizeof_DiscordClientPktHeader in *.
    lia.
Qed.

Definition chunk_ok (chunk : list Z) : Prop := Forall is_byte chunk ∧ zlen chunk <= READ_BLOCK_SIZE.

(** What a run of deliveries leaves. *)
Lemma feed_spec (chunks : list (list Z)) (s : st) (c : Core) (p : list Z) :
  listening s c p → core_ok c → Forall chunk_ok chunks →
  ∃ s', feed chunks s = (Ret (), s') ∧
    match parse_stream c (p ++ concat chunks) with
    | (Ret SReading, c', p') => listening s' c' p'
    | (Ret SClosed, c', _) => closed_with s' c'
    | (Ret SWaiting, c', p') =>
        sk_reading s'.1 = false ∧
        ∃ received undelivered, p' = received ++ undelivered ∧ rel s' c' [] received
    | _ => False
    end.
Proof.
  intros Hli Hc Hch. revert s c p Hli Hc.
  induction Hch as [|chunk chunks [Hb Hs] _ IH]; intros s c p Hli Hc.
  - exists s. split; [done|]. cbn [concat]. rewrite app_nil_r. unfold parse_stream.
    by rewrite (parse_frame _ _ _ _ (rel_frame _ _ _ _ (li_rel _ _ _ Hli))).
  - cbn [feed]. rewrite bind_gets, (li_reading _ _ _ Hli). cbn [concat].
    pose proof (ReadHandlerInternal_spec s c p chunk Hli Hs Hb) as L.
    assert (Forall is_byte (p ++ chunk)) as Hby.
    { apply Forall_app. split; [apply Hli|done]. }
    destruct (parse_ok (S (length (p ++ chunk))) c (p ++ chunk)) as (v & c' & p' & E & Hc');
      [lia|done..|].
    unfold parse_stream in L |- *. rewrite E in L. rewrite app_assoc.
    rewrite (parse_app _ (S (length ((p ++ chunk) ++ concat chunks)))) by lia.
    rewrite (parse_fuel _ (S (length (p ++ chunk)))) by (rewrite ?length_app; lia).
    rewrite E. pose proof (parse_rest_length _ _ _ _ _ _ E) as Hlen.
    destruct v.
    + destruct L as (s' & Es & Hli'). rewrite (bind_run _ _ _ _ _ Es).
      destruct (IH s' c' p' Hli') as (s2 & E2 & R); [by apply Hc'|]. exists s2. split; [done|].
      unfold parse_stream in R.
      by rewrite (parse_fuel _ (S (length (p' ++ concat chunks)))) by (rewrite !length_app in *; lia).
    + destruct L as (s' & Es & Hcl & Hrd). rewrite (bind_run _ _ _ _ _ Es). exists s'.
      split; [|done]. destruct chunks; [done|]. cbn [feed]. by rewrite bind_gets, Hrd.
    + destruct L as (s' & Es & Hrel & Hrd). rewrite (bind_run _ _ _ _ _ Es). exists s'.
      split; [destruct chunks; [done|]; cbn [feed]; by rewrite bind_gets, Hrd|].
      split; [done|]. by exists p', (concat chunks).
Qed.

(** The write side while pieces are delivered. *)
Definition write_side (sk : Socket) : bool * bool * list MessageBuffer :=
  (sk_closing sk, sk_isWritingAsync sk, sk_writeQueue sk).

Lemma feed_write_side chunks s : write_side (feed chunks s).2.1 = write_side s.1.
Proof.
  assert (∀ s, write_side (AsyncRead s).1 = write_side s.1) as HA.
  { intros [sk d]. unfold AsyncRead, SocketOps.AsyncRead. cbn. by destruct (SocketOps.IsOpen sk). }
  assert (∀ m, keeps_field write_side (ReadHandlerInternal (Some m))) as HR.
  { intros m [sk d]. unfold ReadHandlerInternal, SocketOps.ReadHandlerInternal.
    assert (keeps_field write_side ReadHandler) as K.
    { apply keeps_field_bind; [done|]. intros open. destruct (negb open); [done|].
      apply keeps_field_bind; [done|]. intros active.
      apply keeps_field_bind; [by apply keeps_field_loop|]. intros [|]; [|done].
      intros s'. apply HA. }
    by rewrite K. }
  assert (keeps_field write_side (feed chunks)) as K; [|apply K]. clear s.
  induction chunks as [|m l IH]; [done|]. cbn [feed].
  apply keeps_field_bind; [done|]. intros [|]; [|done]. by apply keeps_field_bind.
Qed.

(** C2: whatever way the network cuts a client's byte stream, [ReadHandler],
    called for each piece, never fails an assertion, never touches memory
    outside its buffers, and does exactly what parsing the whole stream at once
    does: the same packets are handled in the same order with the same effects;
    it closes at the first bad packet and stops at the packet that needs the
    database, keeping what follows. *)
Theorem framing_independent_of_pieces (chunks : list (list Z)) (s : st) (c : Core) (p : list Z) :
  listening s c p → core_ok c → Forall chunk_ok chunks →
  ∃ s', feed chunks s = (Ret (), s') ∧
    match parse_stream c (p ++ concat chunks) with
    | (Ret SReading, c', p') => listening s' c' p'
    | (Ret SClosed, c', _) => closed_with s' c'
    | (Ret SWaiting, c', p') =>
        sk_reading s'.1 = false ∧
        ∃ received undelivered, p' = received ++ undelivered ∧ rel s' c' [] received
    | _ => False
    end.
Proof. apply feed_spec. Qed.
End framing.

(** A socket right after its first [AsyncRead], with a core of our choice. *)
Definition start (c : Core) : st :=
  let s := DS.new (co_clock c) (co_address c) [] in AsyncRead (s.1, set_core c s.2).

Lemma rel_new {H : Host} clock address os c :
  let s := DS.new clock address os in rel (s.1, set_core c s.2) c [] [].
Proof.
  split; [by vm_compute|split; by vm_compute|by vm_compute|by vm_compute|done|].
  apply frame_header; [done| |by split].
  by apply (idle_Resize MB.new_default HEADER); [split|].
Qed.

Lemma listening_start {H : Host} c : listening (start c) c [].
Proof. unfold start. apply AsyncRead_listening; [apply rel_new|done]. Qed.

(** Two messages of an authenticated client, the second cut in its header and
    in its payload. *)
Definition example_core : Core :=
  mkCore [] [] 0 0 (Some (Session.new 1 2 [] [70; 71; 72; 73; 74; 75; 76] [])) true [] [] [] [].
Definition example_chunks : list (list Z) :=
  [[0; 0; 0; 6; 3; 0; 2; 104; 105; 0; 0; 0]; [0; 5; 3; 0; 1]; []; [111; 0; 0; 0]].

Lemma framing_independent_of_pieces_witness :
  let _ := LittleEndian : Host in
  (∃ q, co_session (ds_core (exec (feed example_chunks) (start example_core)).2) = Some q ∧
    PacketQueue.queue (s_recvQueue q) =
      [mkPacket 3 (mkBB 0 0 [2; 104; 105; 0]); mkPacket 3 (mkBB 0 0 [1; 111; 0])]) ∧
  ∃ s', feed example_chunks (start example_core) = (Ret (), s') ∧
    match parse_stream example_core ([] ++ concat example_chunks) with
    | (Ret SReading, c', p') => listening s' c' p'
    | (Ret SClosed, c', _) => closed_with s' c'
    | (Ret SWaiting, c', p') =>
        sk_reading s'.1 = false ∧
        ∃ received undelivered, p' = received ++ undelivered ∧ rel s' c' [] received
    | _ => False
    end.
Proof.
  cbn zeta. split.
  - eexists. split; by vm_compute.
  - apply (@framing_independent_of_pieces LittleEndian).
    + apply listening_start.
    + intros _. by eexists.
    + unfold example_chunks, chunk_ok, is_byte. repeat constructor; try lia; vm_compute; done.
Defined.

(** The received packets never have a write position, so [LogUnprocessedTail]
    finds nothing to log. *)
Example no_tail_is_seen {H : Host} opcode payload :
  let p := mkPacket opcode (mkBB 0 0 payload) in bb_wpos (dp_buf p) <= bb_rpos (dp_buf p).
Proof. done. Qed.
