(* ===== verification/Sending.v ===== *)
(** * Sending: answers on their way to the client

    The sending side of [DiscordSocket]: what [Update] hands to the write queue,
    and that a client can cut the stream back into packets. *)

From S2P Require Import Prelude MessageBuffer Utf8 Strings BigNumber Srp6 Timer Enums ByteBuffer Wire Packets.
From S2P Require Import Queues Async Socket Session DiscordSocket.
Open Scope Z_scope.
Import DS.

(** ** Frames *)

(** A packet that can be framed: its size fits the 32-bit field. *)
Definition frame_ok (p : DiscordPacket) : Prop :=
  BB.size (dp_buf p) + 2 < 2 ^ 32 ∧ 0 <= dp_opcode p < 2 ^ 16.

Lemma zlen_frame p : zlen (frame_bytes p) = BB.size (dp_buf p) + Header.GetHeaderLength.
Proof.
  unfold frame_bytes. rewrite zlen_app. unfold Header.DiscordServerPktHeader.
  rewrite !zlen_cons, zlen_nil. unfold BB.size, Header.GetHeaderLength. lia.
Qed.

(** A client's view: cut a stream of frames into opcodes and payloads; an
    incomplete end is left alone. *)
Fixpoint unframe {H : Host} (fuel : nat) (bytes : list Z) : list (Z * list Z) :=
  match fuel with
  | O => []
  | S fuel =>
      if zlen bytes <? 6 then []
      else
        let h := Header.decode (ztake 6 bytes) in
        let body := zdrop 6 bytes in
        let n := Header.h_size h - 2 in
        if zlen body <? n then []
        else (Header.h_cmd h, ztake n body) :: unframe fuel (zdrop n body)
  end.

Lemma unframe_frames {H : Host} ps fuel :
  Forall frame_ok ps → (length ps < fuel)%nat →
  unframe fuel (concat (map frame_bytes ps)) =
    map (λ p, (dp_opcode p, bb_storage (dp_buf p))) ps.
Proof.
  intros Hps. revert fuel. induction Hps as [|p ps [Hs Ho] _ IH]; intros fuel Hf;
    (destruct fuel as [|fuel]; [cbn in Hf; lia|]); [done|]. cbn [map concat unframe length] in *.
  pose proof (zlen_nonneg (concat (map frame_bytes ps))). pose proof (BB.size_nonneg (dp_buf p)).
  rewrite zlen_app, zlen_frame. unfold Header.GetHeaderLength.
  rewrite (proj2 (Z.ltb_ge _ _)) by lia.
  set (hd := Header.DiscordServerPktHeader (u32 (BB.size (dp_buf p) + 2)) (dp_opcode p)).
  assert (zlen hd = 6) as Hl by done.
  assert (frame_bytes p ++ concat (map frame_bytes ps)
    = hd ++ bb_storage (dp_buf p) ++ concat (map frame_bytes ps)) as ->
    by (unfold frame_bytes; by rewrite <- app_assoc).
  rewrite <- Hl, ztake_app_exact, zdrop_app_exact.
  assert (Header.decode hd = Header.mkHeader (BB.size (dp_buf p) + 2) (dp_opcode p)) as ->.
  { unfold hd. rewrite wrap_small by lia.
    rewrite <- (app_nil_r (Header.DiscordServerPktHeader _ _)). apply Header.decode_server; lia. }
  cbn [Header.h_size Header.h_cmd]. rewrite Z.add_simpl_r.
  unfold BB.size. rewrite zlen_app, (proj2 (Z.ltb_ge _ _)) by lia.
  rewrite ztake_app_exact, zdrop_app_exact, IH by lia. done.
Qed.

(** ** Packing *)

Lemma write_packet_spec p b :
  MB.wf b → zlen (frame_bytes p) <= MB.GetRemainingSpace b →
  ∃ b', write_packet p b = (Ret (), b') ∧ MB.wf b' ∧
    MB.active b' = MB.active b ++ frame_bytes p ∧
    MB.GetRemainingSpace b' = MB.GetRemainingSpace b - zlen (frame_bytes p).
Proof.
  intros Hw Hfit. rewrite zlen_frame in *. pose proof (BB.size_nonneg (dp_buf p)).
  unfold write_packet.
  set (hd := Header.DiscordServerPktHeader (u32 (BB.size (dp_buf p) + 2)) (dp_opcode p)).
  assert (zlen hd = Header.GetHeaderLength) as Hl by done. unfold Header.GetHeaderLength in *.
  destruct (MB.Write_spec hd b Hw) as (b1 & E1 & Hw1 & Ha1 & Hr1 & _); [lia|].
  rewrite Hl in E1, Hr1. erewrite bind_run by exact E1.
  unfold frame_bytes. fold hd. unfold BB.empty.
  destruct (Z.eqb_spec (BB.size (dp_buf p)) 0) as [E0|E0].
  - exists b1. unfold BB.size in *. apply zlen_0 in E0 as ->. rewrite app_nil_r.
    split; [done|]. split; [done|]. split; [done|]. rewrite Hr1. change (zlen (@nil Z)) with 0. lia.
  - destruct (MB.Write_spec (bb_storage (dp_buf p)) b1 Hw1) as (b2 & E2 & Hw2 & Ha2 & Hr2 & _).
    { rewrite Hr1. unfold BB.size in *. lia. }
    exists b2. unfold BB.size in *. split; [done|]. split; [done|].
    rewrite Ha2, Ha1, <- app_assoc. split; [done|]. lia.
Qed.

Lemma pack_fits size ps b out :
  MB.wf b → zlen (concat (map frame_bytes ps)) <= MB.GetRemainingSpace b →
  ∃ b', pack size ps b out = Ret (b', out) ∧ MB.wf b' ∧
    MB.active b' = MB.active b ++ concat (map frame_bytes ps).
Proof.
  revert b. induction ps as [|p ps IH]; intros b Hw Hfit; cbn [map concat pack] in *.
  { exists b. by rewrite app_nil_r. }
  rewrite zlen_app in Hfit. pose proof (zlen_nonneg (concat (map frame_bytes ps))).
  pose proof (zlen_frame p) as Hf. rewrite <- Hf.
  rewrite (proj2 (Z.ltb_ge _ _)) by lia. rewrite (proj2 (Z.leb_le _ _)) by lia.
  destruct (write_packet_spec p b Hw) as (b1 & -> & Hw1 & Ha1 & Hr1); [lia|].
  destruct (IH b1 Hw1) as (b2 & -> & Hw2 & Ha2); [lia|].
  exists b2. split; [done|]. split; [done|]. by rewrite Ha2, Ha1, <- app_assoc.
Qed.

Lemma new_sized_spec n :
  0 <= n < 2 ^ 62 →
  MB.wf (MB.new_sized n) ∧ MB.active (MB.new_sized n) = [] ∧
  MB.GetRemainingSpace (MB.new_sized n) = n.
Proof.
  intros Hn. assert (MB.wf (MB.new_sized n)) as Hw
    by (split; cbn; rewrite ?zlen_vresize by lia; lia).
  split; [done|]. split.
  - unfold MB.new_sized in *. rewrite MB.active_mk by done. by apply ztake_0.
  - rewrite (MB.remaining_space _ Hw). cbn. rewrite zlen_vresize by lia. lia.
Qed.

Section sending.
Context {H : Host} {O : OpenSSL}.

(** No query waits: the callbacks do nothing. *)
Lemma ProcessReadyCallbacks_none now closed results (s : st) :
  co_queries (ds_core s.2) = [] → ProcessReadyCallbacks now closed results s = (Ret (), s).
Proof. intros E. unfold ProcessReadyCallbacks, AsyncCallbackProcessor.ProcessReadyCallbacks.
  cbn [snd]. by rewrite E. Qed.

(** C4: when the answers waiting fit the send buffer and no query waits, one
    [Update] of an open socket puts exactly their frames behind what the write
    queue already holds, in order and once each, and empties the queue of answers;
    and a client of either byte order that cuts the frames gets the answers'
    opcodes and payloads back.  (Answers that do not fit together are sent wrongly,
    [full_buffer_sends_twice].) *)
Theorem update_sends_answers (H' : Host) (now : Z) (closed : bool) (results : query → option answer)
    (s : st) :
  let queue := co_bufferQueue (ds_core s.2) in
  let frames := concat (map frame_bytes queue) in
  sk_closed s.1 = false → SocketOps.wr_ok s.1 → co_queries (ds_core s.2) = [] →
  Forall frame_ok queue → zlen frames <= ds_sendBufferSize s.2 < 2 ^ 62 →
  ∃ s', Update (H := H) now closed results s = (Ret true, s') ∧ SocketOps.wr_ok s'.1 ∧
    SocketOps.stream s'.1 = SocketOps.stream s.1 ++ frames ∧
    co_bufferQueue (ds_core s'.2) = [] ∧
    unframe (H := H') (S (length queue)) frames =
      map (λ p, (dp_opcode p, bb_storage (dp_buf p))) queue.
Proof.
  intros queue frames Hcl Hok Hq Hfr Hfit.
  assert (unframe (H := H') (S (length queue)) frames
    = map (λ p, (dp_opcode p, bb_storage (dp_buf p))) queue) as Hun
    by (by apply unframe_frames; [|lia]).
  destruct s as [sk d]. cbn [fst snd] in *.
  unfold Update. pose proof (SocketOps.Update_spec OnClose sk d Hok) as U.
  pose proof (SocketOps.Update_derived OnClose
    (λ d', co_bufferQueue (ds_core d') = queue ∧ co_queries (ds_core d') = [] ∧
           ds_sendBufferSize d' = ds_sendBufferSize d) (λ d' Hd, Hd) (sk, d)) as D.
  destruct (SocketOps.Update OnClose (sk, d)) as [r [sk1 d1]]. cbn [fst snd] in D.
  destruct U as (Hok1 & Hst1 & -> & _). rewrite Hcl. cbn [negb].
  destruct D as (Dq & Dqu & Ds); [done|]. rewrite Dq, Ds.
  pose proof (zlen_nonneg frames).
  destruct (new_sized_spec (ds_sendBufferSize d)) as (Hnw & Hna & Hnr); [lia|].
  destruct (pack_fits (ds_sendBufferSize d) queue (MB.new_sized (ds_sendBufferSize d)) [] Hnw)
    as (b & -> & Hbw & Hba); [fold frames; lia|].
  rewrite Hna in Hba. cbn [app] in Hba. fold frames in Hba.
  rewrite <- (MB.zlen_active b Hbw), Hba.
  set (sk2 := fold_left _ _ sk1). set (d2 := set_core _ d1).
  rewrite ProcessReadyCallbacks_none by done.
  exists (sk2, d2). cbn [fst snd].
  assert (SocketOps.wr_ok sk2 ∧ SocketOps.stream sk2 = SocketOps.stream sk ++ frames) as [W S2];
    [|by rewrite S2].
  rewrite <- Hst1. unfold sk2. destruct (Z.ltb_spec 0 (zlen frames)).
  - pose proof (SocketOps.run_op_spec OnClose (SocketOps.OQueuePacket b) (sk1, d1) Hok1) as R.
    cbn [SocketOps.run_op SocketOps.queued fst snd app fold_left] in R |- *. rewrite Hba in R.
    apply R. split; [done|]. intros E. rewrite <- Hba, E in *.
    match goal with H : 0 < zlen [] |- _ => vm_compute in H; discriminate H end.
  - assert (frames = []) as -> by (apply zlen_0; lia). cbn. by rewrite app_nil_r.
Qed.
End sending.

(** Two answers of a session, packed into one buffer. *)
Definition answering (sendBufferSize : Z) (queue : list DiscordPacket) : st :=
  let s := DS.new [] [] [] in
  (s.1, SetSendBufferSize sendBufferSize (set_core (set_bufferQueue queue (ds_core s.2)) s.2)).

Definition pong : DiscordPacket := mkPacket 7 (mkBB 0 3 [1; 2; 3]).

Lemma update_sends_answers_witness :
  ∃ s', @Update LittleEndian SRP6.toy_openssl 0 false (λ _, None) (answering 64 [pong; pong])
      = (Ret true, s') ∧ SocketOps.wr_ok s'.1 ∧
    SocketOps.stream s'.1 = [] ++ [0; 0; 0; 5; 7; 0; 1; 2; 3; 0; 0; 0; 5; 7; 0; 1; 2; 3] ∧
    co_bufferQueue (ds_core s'.2) = [] ∧
    unframe (H := BigEndian) 3 [0; 0; 0; 5; 7; 0; 1; 2; 3; 0; 0; 0; 5; 7; 0; 1; 2; 3] =
      [(7, [1; 2; 3]); (7, [1; 2; 3])].
Proof.
  apply (@update_sends_answers LittleEndian SRP6.toy_openssl BigEndian 0 false (λ _, None)
    (answering 64 [pong; pong])).
  - done.
  - split; constructor.
  - done.
  - repeat constructor; vm_compute; done.
  - split; vm_compute; done.
Defined.

(** When they do not fit: the bytes already queued for sending stay in the
    common buffer, and go out a second time. *)
Example full_buffer_sends_twice :
  SocketOps.stream (exec (@Update LittleEndian SRP6.toy_openssl 0 false (λ _, None))
    (answering 12 [pong; pong])).1 =
  [0; 0; 0; 5; 7; 0; 1; 2; 3] ++ [0; 0; 0; 5; 7; 0; 1; 2; 3] ++ [0; 0; 0; 5; 7; 0; 1; 2; 3].
Proof. by vm_compute. Qed.
