(* ===== verification/Login.v ===== *)
(** * Login: who gets a session

    The life of one connection as runs of labelled events, the operations of
    [DiscordSocket] with what the network, the database and the bot contribute
    to each, and the invariant that ties a session to them: to the bytes the
    client sent, the row the database answered and the answers of the bot. *)

From S2P Require Import Prelude MessageBuffer Utf8 Strings BigNumber Srp6 Timer Enums ByteBuffer Wire Packets.
From S2P Require Import Queues Async Socket Session DiscordSocket Framing.
Open Scope Z_scope.
Import DS.

(** ** Events *)

Inductive event :=
  (** the outstanding read completes with bytes or an error; the write side
      becomes writable *)
  | EvRead (result : option (list Z))
  | EvWritable
  (** the network thread starts and updates the connection, with the answers of
      the database that have come by then *)
  | EvStart
  | EvUpdate (now : Z) (closed : bool) (results : query → option answer)
  (** the bot answers *)
  | EvBotInGuild (auth : AuthSession) (a : AccountInfo) (isExist : bool)
  | EvChannels (auth : AuthSession) (a : AccountInfo) (channelList : list Z)
  (** the rest of the server: packets are sent, the session works, is kicked *)
  | EvSend (packet : DiscordPacket)
  | EvClose
  | EvSession.

Definition bytes_of (e : event) : list Z :=
  match e with EvRead (Some data) => data | _ => [] end.

(** All that the client has sent, in order. *)
Definition received (es : list event) : list Z := concat (map bytes_of es).

Lemma received_app es es' : received (es ++ es') = received es ++ received es'.
Proof. unfold received. by rewrite map_app, concat_app. Qed.

Lemma received_snoc es e : received (es ++ [e]) = received es ++ bytes_of e.
Proof. rewrite received_app. unfold received at 2. cbn. by rewrite app_nil_r. Qed.

Section login.
Context {H : Host} {O : OpenSSL}.

(** A sequence of complete packets. *)
Inductive whole : list Z → Prop :=
  | whole_nil : whole []
  | whole_packet hdr payload rest :
      zlen hdr = HEADER → Header.h_size (Header.decode hdr) = zlen payload + 2 →
      whole rest → whole (hdr ++ payload ++ rest).

Lemma whole_app a b : whole a → whole b → whole (a ++ b).
Proof. intros Ha Hb. induction Ha; [done|]. rewrite <- !app_assoc. by constructor. Qed.

(** The stream holds, as one of its packets, the authentication request that
    reads as [auth]. *)
Definition sent (bytes : list Z) (auth : AuthSession) : Prop :=
  ∃ before hdr payload after, bytes = before ++ hdr ++ payload ++ after ∧ whole before ∧
    zlen hdr = HEADER ∧ Header.h_size (Header.decode hdr) = zlen payload + 2 ∧
    Header.h_cmd (Header.decode hdr) = DiscordCode.value DiscordCode.CLIENT_AUTH_SESSION ∧
    eval read_auth (mkBB 0 0 payload) = Ret auth.

Lemma sent_app a b auth : sent a auth → sent (a ++ b) auth.
Proof.
  intros (x & h & p & y & -> & Hs). exists x, h, p, (y ++ b). split; [|done].
  by rewrite <- !app_assoc.
Qed.

Lemma sent_after u b auth : whole u → sent b auth → sent (u ++ b) auth.
Proof.
  intros Hu (x & h & p & y & -> & Hx & Hs). exists (u ++ x), h, p, y. split; [by rewrite <- app_assoc|].
  split; [by apply whole_app|done].
Qed.

(** In the events so far: an update, while the server was not closing, to which
    the database answered the request [auth] the client had sent with a row that
    bars the account in no way the server checks and against which the key of
    the request was accepted. *)
Definition admitted (es : list event) (auth : AuthSession) (a : AccountInfo) : Prop :=
  ∃ es1 now results es2 row, es = es1 ++ EvUpdate now false results :: es2 ∧
    sent (received es1) auth ∧
    results (QAccountInfo auth) = Some (AAccountInfo (Some row)) ∧ a = AccountInfo_new now row ∧
    CheckKey (au_Account auth) (au_Key auth) a = Ret true ∧
    ai_IsPermanentlyBanned a = false ∧ ai_IsBanned a = false.

(** And after it the bot found itself in the guild. *)
Definition found (es : list event) (auth : AuthSession) (a : AccountInfo) : Prop :=
  ∃ es1 es2, es = es1 ++ EvBotInGuild auth a true :: es2 ∧ admitted es1 auth a.

(** And after it the bot named the seven channels [l]. *)
Definition opened (es : list event) (auth : AuthSession) (a : AccountInfo) (l : list Z) : Prop :=
  ∃ es1 es2, es = es1 ++ EvChannels auth a l :: es2 ∧ found es1 auth a ∧ zlen l = 7.

Lemma admitted_app es es' auth a : admitted es auth a → admitted (es ++ es') auth a.
Proof.
  intros (e1 & now & rs & e2 & row & -> & Ha). exists e1, now, rs, (e2 ++ es'), row.
  split; [|done]. by rewrite <- app_assoc.
Qed.

Lemma found_app es es' auth a : found es auth a → found (es ++ es') auth a.
Proof. intros (e1 & e2 & -> & Ha). exists e1, (e2 ++ es'). split; [|done]. by rewrite <- app_assoc. Qed.

Lemma opened_app es es' auth a l : opened es auth a l → opened (es ++ es') auth a l.
Proof. intros (e1 & e2 & -> & Ha). exists e1, (e2 ++ es'). split; [|done]. by rewrite <- app_assoc. Qed.

(** ** Runs *)

(** A change of the session that keeps its identity. *)
Definition same_session (ses ses' : DiscordSession) : Prop :=
  s_accountId ses' = s_accountId ses ∧ s_guildID ses' = s_guildID ses ∧
  s_channels ses' = s_channels ses.

(** The system writes at most what the buffer it was given has room for. *)
Definition delivered (s : st) (result : option (list Z)) : Prop :=
  sk_reading s.1 = true ∧
  match result with
  | Some chunk => Forall is_byte chunk ∧ zlen chunk <= MB.GetRemainingSpace (sk_readBuffer s.1)
  | None => True
  end.

Inductive step : event → st → st → Prop :=
  | step_read result s s' :
      delivered s result → ReadHandlerInternal result s = (Ret (), s') → step (EvRead result) s s'
  | step_writable s : step EvWritable s (SocketOps.WriteHandlerWrapper OnClose s)
  | step_start s : step EvStart s (Start s)
  | step_update now closed results s b s' :
      Update now closed results s = (Ret b, s') → step (EvUpdate now closed results) s s'
  | step_bot auth a isExist s :
      RBotInGuild auth a ∈ co_requests (ds_core s.2) →
      step (EvBotInGuild auth a isExist) s (OnBotInGuild auth a isExist s)
  | step_channels auth a l s :
      RChannels auth a ∈ co_requests (ds_core s.2) →
      step (EvChannels auth a l) s (OnChannels auth a l s)
  | step_send packet s : step (EvSend packet) s (SendPacket packet s)
  | step_close s : step EvClose s (CloseSocket s)
  | step_session ses ses' s :
      co_session (ds_core s.2) = Some ses → same_session ses ses' →
      step EvSession s (on_core (set_session (Some ses')) s).

Inductive run (s0 : st) : list event → st → Prop :=
  | run_nil : run s0 [] s0
  | run_snoc es e s s' : run s0 es s → step e s s' → run s0 (es ++ [e]) s'.

(** ** The invariant *)

Definition request_ok (es : list event) (r : bot_request) : Prop :=
  match r with
  | RBotInGuild auth a => admitted es auth a
  | RChannels auth a => found es auth a
  end.

Definition query_ok (es : list event) (q : query) : Prop :=
  match q with QIpInfo => True | QAccountInfo auth => sent (received es) auth end.

(** The session is the one that was opened. *)
Definition session_ok (es : list event) (ses : DiscordSession) : Prop :=
  ∃ auth a l, opened es auth a l ∧ s_accountId ses = ai_ID a ∧ s_guildID ses = ai_GuildID a ∧
    s_channels ses = l.

Record inv_core (es : list event) (closed : bool) (c : Core) : Prop := {
  inv_requests : Forall (request_ok es) (co_requests c);
  inv_queries : Forall (query_ok es) (co_queries c);
  inv_session ses : co_session c = Some ses → session_ok es ses;
  inv_authed : co_authed c = true → closed = true ∨ is_Some (co_session c)
}.

(** What was taken off the stream is a sequence of complete packets and [p] of
    the next one; [data] waits in the read buffer. *)
Definition stream_ok (es : list event) (s : st) : Prop :=
  SocketOps.IsOpen s.1 = true →
  ∃ used p data, received es = used ++ p ++ data ∧ whole used ∧ rel s (ds_core s.2) p data.

Record inv (es : list event) (s : st) : Prop := {
  inv_bytes : Forall is_byte (received es);
  inv_stream : stream_ok es s;
  inv_state : inv_core es (sk_closed s.1) (ds_core s.2)
}.

(** An operation that leaves the receiving side alone; it may close. *)
Record still (s s' : st) : Prop := {
  still_open : SocketOps.IsOpen s'.1 = true → SocketOps.IsOpen s.1 = true;
  still_read : sk_readBuffer s'.1 = sk_readBuffer s.1;
  still_header : ds_headerBuffer s'.2 = ds_headerBuffer s.2;
  still_packet : ds_packetBuffer s'.2 = ds_packetBuffer s.2
}.

#[local] Instance still_preorder : PreOrder still.
Proof.
  split; [by intros s; split|]. intros s1 s2 s3 [A1 A2 A3 A4] [B1 B2 B3 B4].
  split; [auto|congruence..].
Qed.

Lemma frame_ext d d' p :
  ds_headerBuffer d' = ds_headerBuffer d → ds_packetBuffer d' = ds_packetBuffer d →
  frame d p → frame d' p.
Proof.
  intros E1 E2 [q Hq Hh Hi|hdr h q H1 H2 H3 H4 H5 H6].
  - apply frame_header; by rewrite ?E1, ?E2.
  - apply (frame_payload _ hdr h); by rewrite ?E1, ?E2.
Qed.

Lemma stream_still es s s' : still s s' → stream_ok es s → stream_ok es s'.
Proof.
  intros [Ho Hr Hh Hp] Hs Hopen. destruct (Hs (Ho Hopen)) as (u & p & data & E & Hu & []).
  exists u, p, data. split; [done|]. split; [done|].
  split; rewrite ?Hr; try done. by apply (frame_ext s.2).
Qed.

Lemma inv_core_app es es' closed c : inv_core es closed c → inv_core (es ++ es') closed c.
Proof.
  intros [Hr Hq Hs Ha]. split; [| | |done].
  - eapply Forall_impl; [exact Hr|]. intros []; [apply admitted_app|apply found_app].
  - eapply Forall_impl; [exact Hq|]. intros []; [done|]. cbn. rewrite received_app. apply sent_app.
  - intros ses E. destruct (Hs ses E) as (auth & a & l & Hop & Hrest). exists auth, a, l.
    split; [by apply opened_app|done].
Qed.

(** An event without bytes. *)
Lemma inv_app es e s : bytes_of e = [] → inv es s → inv (es ++ [e]) s.
Proof.
  intros E [Hb Hs Hc]. assert (received (es ++ [e]) = received es) as Er
    by (by rewrite received_snoc, E, app_nil_r).
  split; [by rewrite Er| |by apply inv_core_app]. unfold stream_ok. by rewrite Er.
Qed.

Section events.
Context (es : list event).

(** ** Each operation keeps it *)

Lemma login_inv_step s s' :
  still s s' →
  (inv_core es (sk_closed s.1) (ds_core s.2) → inv_core es (sk_closed s'.1) (ds_core s'.2)) →
  inv es s → inv es s'.
Proof. intros Hst Hc [Hb Hs Hi]. split; [done|by eapply stream_still|auto]. Qed.

Lemma inv_same s s' :
  still s s' → sk_closed s'.1 = sk_closed s.1 → ds_core s'.2 = ds_core s.2 → inv es s → inv es s'.
Proof. intros Hst E1 E2. apply login_inv_step; [done|]. by rewrite E1, E2. Qed.

Lemma inv_on_core f s :
  (inv_core es (sk_closed s.1) (ds_core s.2) → inv_core es (sk_closed s.1) (f (ds_core s.2))) →
  inv es s → inv es (on_core f s).
Proof. intros Hf. apply login_inv_step; [by split|done]. Qed.

Lemma inv_core_ext closed c c' :
  co_requests c' = co_requests c → co_queries c' = co_queries c →
  co_session c' = co_session c → co_authed c' = co_authed c →
  inv_core es closed c → inv_core es closed c'.
Proof. intros E1 E2 E3 E4 []. split; by rewrite ?E1, ?E2, ?E3, ?E4. Qed.

Lemma inv_OnClose sk d :
  inv_core es (sk_closed sk) (ds_core d) → inv_core es true (ds_core (OnClose d)).
Proof. intros [Hr Hq Hs Ha]. split; cbn; [done|done|done|by left]. Qed.

Lemma still_CloseSocket s : still s (CloseSocket s).
Proof.
  destruct s as [sk d]. unfold CloseSocket, SocketOps.CloseSocket. destruct (sk_closed sk) eqn:E; [done|].
  split; cbn; [|done..]. unfold SocketOps.IsOpen. by rewrite E.
Qed.

Lemma inv_CloseSocket s : inv es s → inv es (CloseSocket s).
Proof.
  apply login_inv_step; [apply still_CloseSocket|]. destruct s as [sk d].
  unfold CloseSocket, SocketOps.CloseSocket. destruct (sk_closed sk) eqn:E; cbn; rewrite E; [done|].
  rewrite <- E. apply inv_OnClose.
Qed.

(** [AsyncRead] compacts the read buffer and makes room in it. *)
Lemma rel_AsyncRead s c p data :
  rel s c p data → zlen data < 2 ^ 58 → rel (AsyncRead s) c p data.
Proof.
  intros [Ho Hw Hsz Ha Hc Hf] Hd. destruct s as [sk d]. cbn [fst snd] in *.
  unfold READ_BLOCK_SIZE in Hsz.
  unfold AsyncRead, SocketOps.AsyncRead. cbn [fst snd]. rewrite Ho. cbn [negb].
  destruct (MB.Normalize_spec _ Hw) as (Hw' & Ha' & Hr' & Hwp' & Hs').
  set (b := MB.Normalize (sk_readBuffer sk)) in *.
  assert (mb_wpos b = zlen data) as Hwd by (by rewrite Hwp', <- (MB.zlen_active _ Hw), Ha).
  destruct (MB.EnsureFreeSpace_spec b Hw') as (He & Hea & _); [lia|].
  assert (4096 <= zlen (mb_storage (MB.EnsureFreeSpace b)) < 2 ^ 60) as Hes.
  { unfold MB.EnsureFreeSpace. rewrite (MB.remaining_space b Hw').
    destruct (Z.eqb_spec (zlen (mb_storage b) - mb_wpos b) 0); [|lia]. cbn [mb_storage].
    rewrite wrap_small by lia. pose proof (Z.div_mod (zlen (mb_storage b) * 3) 2 ltac:(lia)).
    pose proof (Z.mod_pos_bound (zlen (mb_storage b) * 3) 2 ltac:(lia)).
    rewrite zlen_vresize; lia. }
  split; cbn [fst snd sk_readBuffer SocketOps.set_reading SocketOps.set_readBuffer]; try done.
  by rewrite Hea, Ha'.
Qed.

Lemma inv_AsyncRead s : zlen (received es) < 2 ^ 58 → inv es s → inv es (AsyncRead s).
Proof.
  intros Hlen [Hb Hs Hc]. destruct (SocketOps.IsOpen s.1) eqn:Ho; destruct s as [sk d]; cbn in Ho;
    unfold AsyncRead, SocketOps.AsyncRead; cbn [fst snd]; rewrite Ho; cbn [negb]; [|done].
  split; [done| |done]. intros _. destruct (Hs Ho) as (u & p & data & Er & Hu & Hrel).
  pose proof (zlen_nonneg u). pose proof (zlen_nonneg p).
  assert (zlen (received es) = zlen u + (zlen p + zlen data)) as El by (by rewrite Er, !zlen_app).
  exists u, p, data. split; [done|]. split; [done|].
  apply (rel_AsyncRead _ _ _ _) in Hrel; [|lia].
  unfold AsyncRead, SocketOps.AsyncRead in Hrel. cbn [fst snd] in Hrel. by rewrite Ho in Hrel.
Qed.

Lemma inv_SendPacket p s : inv es s → inv es (SendPacket p s).
Proof.
  apply login_inv_step; [by split|]. destruct s as [sk d]. unfold SendPacket. cbn. apply inv_core_ext;
    unfold core_SendPacket; by destruct (SocketOps.IsOpen sk).
Qed.

Lemma inv_reject code s : inv es s → inv es (reject code s).
Proof.
  intros Hi%(inv_SendPacket (build (DiscordCode.value DiscordCode.SERVER_SEND_AUTH_RESPONSE)
       (BB.write_int 1 (u8 (DiscordAuthResponseCodes.value code))))).
  revert Hi. apply inv_same; try done. split; try done. cbn. unfold SocketOps.IsOpen. cbn.
  by rewrite andb_false_r.
Qed.

Lemma inv_set_session closed c ses ses' :
  co_session c = Some ses → same_session ses ses' →
  inv_core es closed c → inv_core es closed (set_session (Some ses') c).
Proof.
  intros Es (E1 & E2 & E3) [Hr Hq Hs Ha]. split; cbn; [done|done| |intros _; right; by eexists].
  intros ? [= <-]. destruct (Hs _ Es) as (auth & a & l & H1 & H2 & H3 & H4).
  exists auth, a, l. by rewrite E1, E2, E3.
Qed.

(** *** Reading *)

(** What the packets of a stream change: a session keeps its identity, and the
    queries that are added ask for what the stream says. *)
Record parsed (p : list Z) (c c' : Core) : Prop := {
  pa_requests : co_requests c' = co_requests c;
  pa_authed : co_authed c' = co_authed c;
  pa_session : is_Some (co_session c') ↔ is_Some (co_session c);
  pa_same ses' : co_session c' = Some ses' → ∃ ses, co_session c = Some ses ∧ same_session ses ses';
  pa_queries q : q ∈ co_queries c' →
    q ∈ co_queries c ∨ ∃ auth, q = QAccountInfo auth ∧ sent p auth
}.

Lemma same_session_refl ses : same_session ses ses.
Proof. by split. Qed.

Lemma parsed_refl p c : parsed p c c.
Proof. split; try done; [intros ses E; exists ses; by split|by left]. Qed.

Lemma parsed_ext p c c' :
  co_requests c' = co_requests c → co_queries c' = co_queries c →
  co_session c' = co_session c → co_authed c' = co_authed c → parsed p c c'.
Proof.
  intros E1 E2 E3 E4. split; rewrite ?E1, ?E2, ?E3, ?E4; try done; [|by left].
  intros ses E. exists ses. by split.
Qed.

Lemma parsed_set_session p c ses ses' :
  co_session c = Some ses → same_session ses ses' → parsed p c (set_session (Some ses') c).
Proof.
  intros E Hs. split; cbn [set_session co_requests co_authed co_session co_queries]; try done;
    [intros ? [= <-]; by exists ses|by left].
Qed.

Lemma parsed_trans p c1 c2 c3 : parsed p c1 c2 → parsed p c2 c3 → parsed p c1 c3.
Proof.
  intros [A1 A2 A3 A4 A5] [B1 B2 B3 B4 B5]. split.
  - by rewrite B1.
  - by rewrite B2.
  - by rewrite B3.
  - intros s3 (s2 & E2 & C1 & C2 & C3)%B4. destruct (A4 s2 E2) as (s1 & E1 & D1 & D2 & D3).
    exists s1. split; [done|]. split; [congruence|]. split; congruence.
  - intros q [Hq|]%B5; [by apply A5|by right].
Qed.

Lemma parsed_after u p c c' : whole u → parsed p c c' → parsed (u ++ p) c c'.
Proof.
  intros Hu [H1 H2 H3 H4 H5]. split; [done..|]. intros q [Hq|(auth & -> & Hs)]%H5; [by left|right].
  exists auth. split; [done|]. by apply sent_after.
Qed.

Lemma parsed_app p r c c' : parsed p c c' → parsed (p ++ r) c c'.
Proof.
  intros [H1 H2 H3 H4 H5]. split; [done..|]. intros q [Hq|(auth & -> & Hs)]%H5; [by left|right].
  exists auth. split; [done|]. by apply sent_app.
Qed.

(** One packet. *)
Lemma parsed_Dispatch hdr payload c r c' :
  zlen hdr = HEADER → Header.h_size (Header.decode hdr) = zlen payload + 2 →
  Dispatch true (Header.h_cmd (Header.decode hdr))
    (mkPacket (Header.h_cmd (Header.decode hdr)) (mkBB 0 0 payload)) c = (Ret r, c') →
  parsed (hdr ++ payload) c c'.
Proof.
  intros Hl Hn. unfold Dispatch. set (opcode := Header.h_cmd _).
  destruct (_ =? DiscordCode.value DiscordCode.CLIENT_SEND_PING).
  - unfold HandlePing. fold read_ping. destruct (read_ping _) as [[[t l]|e| |] b']; intros E; try done;
      [|simplify_eq; apply parsed_refl].
    destruct (read_clock c) as [now clock].
    set (c1 := set_ping _ _ _ c) in E. cbn zeta in E.
    assert (parsed (hdr ++ payload) c c1) as P1 by (by apply parsed_ext).
    destruct (_ && _ && _ && _); [by simplify_eq|].
    change (co_session c1) with (co_session c) in E.
    destruct (co_session c) as [ses|] eqn:Es; [|by simplify_eq]. simplify_eq.
    apply (parsed_trans _ _ (set_session (Some (Session.SetLatency l ses)) c)); [|by apply parsed_ext].
    by apply (parsed_set_session _ _ ses).
  - destruct (Z.eqb_spec opcode (DiscordCode.value DiscordCode.CLIENT_AUTH_SESSION)) as [Eop|_].
    + destruct (co_authed c).
      { destruct (co_session c); [|done]. intros E. simplify_eq. apply parsed_refl. }
      unfold HandleAuthSession. cbn [dp_buf].
      destruct (eval read_auth _) as [auth| | |] eqn:Ea; intros E; simplify_eq; [|apply parsed_refl].
      split; cbn; try done; [intros ses E; exists ses; by split|].
      intros q [Hq| ->%list_elem_of_singleton]%elem_of_app; [by left|right]. exists auth. split; [done|].
      exists [], hdr, payload, []. rewrite app_nil_r. split; [done|]. split; [constructor|done].
    + destruct (co_session c) as [ses|] eqn:Es; intros E; [|simplify_eq; apply parsed_refl].
      destruct (Opcodes.lookup _ _) as [[h|]| | |]; simplify_eq; [|apply parsed_refl].
      by apply (parsed_set_session _ _ ses).
Qed.

(** What the parser took: complete packets, unless it closes. *)
Lemma parse_parsed f c p v c' p' :
  Forall is_byte p → parse f c p = (Ret v, c', p') →
  match v with
  | SClosed => ∃ c1, parsed p c c1 ∧ c' = set_session None c1
  | _ => parsed p c c' ∧ ∃ u, p = u ++ p' ∧ whole u
  end.
Proof.
  revert c p. induction f as [|f IH]; intros c p Hb; cbn [parse]; [done|].
  assert (parsed p c c ∧ ∃ u, p = u ++ p ∧ whole u) as Hsame
    by (split; [apply parsed_refl|exists []; split; [done|constructor]]).
  destruct (Z.ltb_spec (zlen p) HEADER) as [|Hp]; [by intros E; simplify_eq|].
  set (h := Header.decode (ztake HEADER p)). cbn zeta.
  destruct (Header.IsValidSize h) eqn:Es; cbn [negb orb];
    [|intros E; simplify_eq; eexists; by split; [apply parsed_refl|]].
  destruct (Header.IsValidOpcode h); cbn [negb];
    [|intros E; simplify_eq; eexists; by split; [apply parsed_refl|]].
  set (n := Header.h_size h - 2). set (hdr := ztake HEADER p) in *. set (body := zdrop HEADER p).
  destruct (Z.ltb_spec (zlen body) n) as [|Hn]; [by intros E; simplify_eq|].
  unfold Header.IsValidSize in Es. apply andb_true_iff in Es as [Es%Z.leb_le _].
  assert (zlen hdr = HEADER) as Hl by (unfold hdr; rewrite zlen_ztake; unfold HEADER,
    Header.sizeof_DiscordClientPktHeader in *; lia).
  assert (Header.h_size h = zlen (ztake n body) + 2) as Hsz by (rewrite zlen_ztake; lia).
  assert (p = (hdr ++ ztake n body) ++ zdrop n body) as Ep
    by (by rewrite <- app_assoc, ztake_zdrop; unfold hdr, body; rewrite ztake_zdrop).
  assert (whole (hdr ++ ztake n body)) as Hw.
  { rewrite <- (app_nil_r (ztake n body)). constructor; [done|done|constructor]. }
  destruct (Dispatch _ _ _ c) as [[r| | |] c1] eqn:ED; try done.
  pose proof (parsed_Dispatch _ _ _ _ _ Hl Hsz ED) as P1.
  destruct r; intros E.
  - apply IH in E; [|by apply Forall_zdrop, Forall_zdrop].
    assert (∀ c2, parsed (zdrop n body) c1 c2 → parsed p c c2) as Htr.
    { intros c2 P2. rewrite Ep. eapply parsed_trans; [by apply parsed_app|by apply parsed_after]. }
    assert ((∃ u, zdrop n body = u ++ p' ∧ whole u) → ∃ u, p = u ++ p' ∧ whole u) as Hwh.
    { intros (u & Eu & Hu). exists ((hdr ++ ztake n body) ++ u).
      split; [by rewrite <- app_assoc, <- Eu|by apply whole_app]. }
    destruct v; [destruct E as [E1 E2]; split; auto| |destruct E as [E1 E2]; split; auto].
    destruct E as (c2 & P2 & ->). exists c2. split; [auto|done].
  - simplify_eq. exists c1. split; [|done]. rewrite Ep. by apply parsed_app.
  - simplify_eq. split; [rewrite Ep; by apply parsed_app|].
    exists (hdr ++ ztake n body). split; [exact Ep|done].
Qed.

Lemma rel_receive s c p data chunk :
  rel s c p data → zlen chunk <= MB.GetRemainingSpace (sk_readBuffer s.1) →
  rel (SocketOps.set_readBuffer (SocketOps.receive chunk (sk_readBuffer s.1))
         (SocketOps.set_reading false s.1), s.2) c p (data ++ chunk).
Proof.
  intros [Ho Hw Hsz Ha Hc Hf] Hch. pose proof (zlen_nonneg chunk).
  set (b := sk_readBuffer s.1) in *.
  destruct (MB.Write_spec chunk b Hw Hch) as (b' & E & Hw' & Ha' & _ & Hr' & Hwp' & Hs').
  assert (SocketOps.receive chunk b = b') as Eb.
  { unfold MB.Write in E. unfold SocketOps.receive, MB.WriteCompleted. cbn [mb_wpos mb_rpos mb_storage].
    destruct (Z.eqb_spec (zlen chunk) 0) as [E0|E0].
    - apply zlen_0 in E0 as ->. injection E as <-. destruct b as [w r st]. destruct Hw. cbn in *.
      rewrite zlen_nil, Z.add_0_r, wrap_small by lia. unfold overwrite. cbn [app].
      by rewrite zlen_nil, Z.add_0_r, ztake_zdrop.
    - destruct (_ && _); [|done]. injection E as <-. by rewrite ztake_all by lia. }
  rewrite Eb. split; cbn [fst snd sk_readBuffer SocketOps.set_readBuffer]; try done.
  - by rewrite Hs'.
  - by rewrite Ha', Ha.
Qed.

Lemma inv_parsed closed u p c c' :
  Forall (query_ok es) (co_queries c) → received es = u ++ p → whole u → parsed p c c' →
  inv_core es closed c → inv_core es closed c'.
Proof.
  intros Hq0 Er Hu [P1 P2 P3 P4 P5] [Hr Hq Hs Ha]. split.
  - by rewrite P1.
  - apply Forall_forall. intros q [Hin|(auth & -> & Hsent)]%P5.
    + rewrite Forall_forall in Hq0. by apply Hq0.
    + cbn. rewrite Er. by apply sent_after.
  - intros ses (ses0 & E0 & E1 & E2 & E3)%P4. destruct (Hs _ E0) as (auth & a & l & H1 & H2 & H3 & H4).
    exists auth, a, l. by rewrite E1, E2, E3.
  - rewrite P2, P3. exact Ha.
Qed.

(** The loop of [ReadHandler] over what has arrived. *)
Lemma inv_loop u p data s1 s' :
  Forall is_byte (received es) → zlen (received es) < 2 ^ 58 →
  received es = u ++ p ++ data → whole u → rel s1 (ds_core s1.2) p data →
  inv_core es (sk_closed s1.1) (ds_core s1.2) →
  (active ← readActive; more ← ReadHandler_loop (Z.to_nat active);
   if (more : bool) then modify AsyncRead else mret ()) s1 = (Ret (), s') → inv es s'.
Proof.
  intros Hb Hlen Er Hu Hrel Hc. unfold readActive. rewrite bind_gets.
  rewrite <- (MB.zlen_active _ (rel_wf _ _ _ _ Hrel)), (rel_active _ _ _ _ Hrel).
  unfold zlen at 1. rewrite Nat2Z.id. pose proof Hb as Hbp. rewrite Er in Hbp.
  apply Forall_app in Hbp as [_ Hbp].
  pose proof (ReadHandler_loop_spec (length data) s1 _ p data Hrel Hbp ltac:(lia)) as L.
  unfold mbind, M_bind. destruct (ReadHandler_loop _ s1) as [o s2].
  destruct (parse_stream (ds_core s1.2) (p ++ data)) as [[v c'] p'] eqn:Ep.
  destruct o as [more| | |]; try done. intros E.
  assert (sk_closed s1.1 = false) as Hcl.
  { pose proof (rel_open _ _ _ _ Hrel) as Ho. unfold SocketOps.IsOpen in Ho. by destruct (sk_closed _). }
  rewrite Hcl in Hc. pose proof (inv_queries _ _ _ Hc) as Hq0.
  destruct v as [[]| | |]; cbn [loop_ok fst snd] in L; try done;
    destruct L as [L1 L2]; injection L1 as ->;
    unfold parse_stream in Ep; apply parse_parsed in Ep; try done.
  - destruct Ep as [P (u' & Eu & Hu')]. injection E as <-. apply inv_AsyncRead; [done|].
    assert (inv_core es false c') as Hc' by (by eapply (inv_parsed _ u (p ++ data))).
    split; [done| |].
    + intros _. exists (u ++ u'), p', []. rewrite app_nil_r, <- app_assoc, <- Eu.
      split; [done|]. split; [by apply whole_app|]. by rewrite (rel_core _ _ _ _ L2).
    + rewrite (rel_core _ _ _ _ L2). pose proof (rel_open _ _ _ _ L2) as Ho.
      unfold SocketOps.IsOpen in Ho. by destruct (sk_closed s2.1).
  - destruct Ep as (c1 & P & ->). injection E as <-. destruct L2 as [L2 L3].
    assert (inv_core es false c1) as [Hr' Hq' Hs' Ha'] by (by eapply (inv_parsed _ u (p ++ data))).
    split; [done|unfold stream_ok, SocketOps.IsOpen; by rewrite L2|].
    rewrite L2, L3. by split; [| | |left].
  - destruct Ep as [P (u' & Eu & Hu')]. injection E as <-.
    assert (inv_core es false c') as Hc' by (by eapply (inv_parsed _ u (p ++ data))).
    split; [done| |].
    + intros _. exists (u ++ u'), [], p'. cbn [app]. rewrite <- app_assoc, <- Eu.
      split; [done|]. split; [by apply whole_app|]. by rewrite (rel_core _ _ _ _ L2).
    + rewrite (rel_core _ _ _ _ L2). pose proof (rel_open _ _ _ _ L2) as Ho.
      unfold SocketOps.IsOpen in Ho. by destruct (sk_closed s2.1).
Qed.

(** *** Writing *)

Lemma still_write_some data sk (d : DiscordSocket) : still (sk, d) ((SocketOps.write_some data sk).2, d) ∧
  sk_closed (SocketOps.write_some data sk).2 = sk_closed sk.
Proof. unfold SocketOps.write_some. repeat case_match; by repeat split. Qed.

Lemma inv_pop sk d : inv es (sk, d) → inv es (SocketOps.pop_and_close OnClose (sk, d)).
Proof.
  intros Hi. unfold SocketOps.pop_and_close. cbn zeta.
  set (sk' := SocketOps.set_writeQueue _ sk).
  assert (inv es (sk', d)) as Hi' by (revert Hi; by apply inv_same).
  destruct (sk_writeQueue sk'); [|done]. destruct (sk_closing sk'); [|done].
  by apply (inv_CloseSocket (sk', d)).
Qed.

Lemma inv_writing sk d v q :
  inv es (sk, d) →
  inv es (SocketOps.set_isWritingAsync v (SocketOps.set_writeQueue q sk), d) ∧
  inv es (SocketOps.set_writeQueue q sk, d) ∧ inv es (SocketOps.set_isWritingAsync v sk, d).
Proof. intros Hi. split; [|split]; revert Hi; by apply inv_same. Qed.

Lemma inv_HandleQueue s : inv es s → inv es (SocketOps.HandleQueue OnClose s).2.
Proof.
  destruct s as [sk d]. intros Hi. unfold SocketOps.HandleQueue.
  destruct (sk_writeQueue sk) as [|m rest]; [done|].
  destruct (still_write_some (MB.active m) sk d) as [Hst Hc].
  destruct (SocketOps.write_some (MB.active m) sk) as [r sk1]. cbn [snd] in Hst, Hc.
  assert (inv es (sk1, d)) as Hi1 by (revert Hi; by apply inv_same).
  pose proof (inv_pop sk1 d Hi1) as Hp. unfold SocketOps.AsyncProcessQueue.
  destruct r as [| |n]; [destruct (sk_isWritingAsync sk1); cbn; [done|]; by apply (inv_writing _ _ true [])|done|].
  destruct (n =? 0); [done|]. destruct (n <? _);
    [destruct (sk_isWritingAsync _); cbn; by apply (inv_writing sk1 d true)|].
  by destruct (SocketOps.pop_and_close OnClose (sk1, d)).
Qed.

Lemma inv_SocketUpdate s : inv es s → inv es (SocketOps.Update OnClose s).2.
Proof.
  destruct s as [sk d]. intros Hi. unfold SocketOps.Update.
  destruct (sk_closed sk); [done|]. destruct (_ || _); [done|]. cbn [snd].
  generalize (S (length (sk_writeQueue sk))). intros fuel. revert Hi. generalize (sk, d).
  induction fuel as [|fuel IH]; intros s Hi; cbn [SocketOps.HandleQueue_loop]; [done|].
  pose proof (inv_HandleQueue s Hi) as Hq.
  destruct (SocketOps.HandleQueue OnClose s) as [[|] s1]; [by apply IH|done].
Qed.

(** *** Callbacks *)

Context (short : zlen (received es) < 2 ^ 58).

Lemma inv_CheckIpCallback rows s : inv es s → inv es (CheckIpCallback rows s).
Proof using short.
  induction rows as [|[b p] rows IH]; intros Hi; cbn [CheckIpCallback]; [by apply inv_AsyncRead|].
  destruct (negb (p =? 0)); [by apply inv_reject|].
  destruct (negb (b =? 0)); [by apply inv_reject|auto].
Qed.

Lemma inv_add_effect e s : inv es s → inv es (on_core (add_effect e) s).
Proof. apply inv_on_core. intros Hc. by apply (inv_core_ext _ (ds_core s.2)). Qed.

Lemma inv_add_request r s : request_ok es r → inv es s → inv es (on_core (add_request r) s).
Proof.
  intros Hr. apply inv_on_core. intros [Hq Hu Hs Ha]. split; cbn; [|done..].
  apply Forall_app. split; [done|]. by constructor; [|constructor].
Qed.

Lemma inv_account now closed auth result s :
  (∀ row, closed = false → result = Some row →
     let a := AccountInfo_new now row in
     CheckKey (au_Account auth) (au_Key auth) a = Ret true →
     ai_IsPermanentlyBanned a = false → ai_IsBanned a = false → admitted es auth a) →
  inv es s → inv es (HandleAuthSessionCallback now closed auth result s).2.
Proof.
  intros Hadm Hi. unfold HandleAuthSessionCallback. destruct result as [fields|]; [|by apply inv_reject].
  destruct (ai_IsPermanentlyBanned _) eqn:Ep; [by apply inv_add_effect, inv_reject|].
  destruct (ai_IsBanned _) eqn:Eb; [by apply inv_add_effect, inv_reject|].
  destruct closed; [by apply inv_reject|].
  destruct (CheckKey _ _ _) as [[|]| | |] eqn:Ek; try done; [|by apply inv_reject].
  apply inv_add_request; [|done]. by apply (Hadm fields).
Qed.

Lemma inv_OnChannels auth a l s :
  (zlen l = 7 → opened es auth a l) → inv es s → inv es (OnChannels auth a l s).
Proof using short.
  intros Ha Hi. unfold OnChannels. destruct l as [|c l]; [by apply inv_reject|].
  destruct (Z.eqb_spec (zlen (c :: l)) DEFAULT_CHANNELS_COUNT) as [E|]; cbn [negb];
    [|by apply inv_reject].
  apply inv_AsyncRead; [done|]. revert Hi. apply inv_on_core. intros [Hr Hq Hs Hau].
  split; cbn [add_effect set_session set_authed co_requests co_queries co_session co_authed];
    [done|done| |intros _; right; by eexists].
  intros ses [= <-]. exists auth, a, (c :: l). split; [by apply Ha|done].
Qed.

(** A pass over the waiting queries. *)
Lemma inv_remove_if now closed results l s :
  (∀ auth row, closed = false → sent (received es) auth →
     results (QAccountInfo auth) = Some (AAccountInfo (Some row)) →
     let a := AccountInfo_new now row in
     CheckKey (au_Account auth) (au_Key auth) a = Ret true →
     ai_IsPermanentlyBanned a = false → ai_IsBanned a = false → admitted es auth a) →
  Forall (query_ok es) l → inv es s.2 →
  let r := AsyncCallbackProcessor.remove_if (InvokeIfReady now closed results) l s in
  inv es r.2.2 ∧ Forall (query_ok es) r.1.
Proof using short.
  revert s. induction l as [|q l IH]; intros s Hadm Hq Hi; cbn [AsyncCallbackProcessor.remove_if]; [done|].
  inversion_clear Hq as [|? ? Hq1 Hql].
  assert (inv es (InvokeIfReady now closed results q s).2.2) as H1.
  { unfold InvokeIfReady. destruct (s.1); try done.
    destruct q as [|auth], (results _) as [[]|] eqn:Er; try done; cbn [snd].
    - by apply inv_CheckIpCallback.
    - apply inv_account; [|done]. intros row0 Hc ->. by apply (Hadm auth row0). }
  destruct (InvokeIfReady _ _ _ q s) as [ready s1]. cbn [snd] in H1.
  destruct (IH s1 Hadm Hql H1) as [IH1 IH2].
  destruct (AsyncCallbackProcessor.remove_if _ l s1) as [kept s2]. cbn [fst snd] in *.
  split; [done|]. destruct ready; [done|by constructor].
Qed.

Lemma inv_set_queries l s :
  Forall (query_ok es) l → inv es s → inv es (on_core (set_queries l) s).
Proof. intros Hl. apply inv_on_core. intros [Hr Hq Hs Ha]. by split. Qed.

Lemma inv_Update now closed results s :
  (∀ auth row, closed = false → sent (received es) auth →
     results (QAccountInfo auth) = Some (AAccountInfo (Some row)) →
     let a := AccountInfo_new now row in
     CheckKey (au_Account auth) (au_Key auth) a = Ret true →
     ai_IsPermanentlyBanned a = false → ai_IsBanned a = false → admitted es auth a) →
  inv es s → inv es (Update now closed results s).2.
Proof using short.
  intros Hadm Hi. unfold Update. pose proof (inv_SocketUpdate s Hi) as H1.
  destruct (SocketOps.Update OnClose s) as [alive [sk d]]. cbn [snd] in H1.
  destruct alive; cbn [negb]; [|done].
  destruct (pack _ _ _ _) as [[buffer out]| | |]; try done.
  set (out' := if 0 <? _ then _ else out). set (sk' := fold_left _ out' sk). set (d' := set_core _ d).
  assert (inv es (sk', d')) as H2.
  { assert (inv es (sk, d')) as H2.
    { revert H1. apply login_inv_step; [by split|]. intros Hc. by apply (inv_core_ext _ (ds_core d)). }
    unfold sk'. clear -H2. revert sk H2. induction out' as [|b o IH]; intros sk H2; cbn; [done|].
    apply IH. revert H2. by apply inv_same. }
  unfold ProcessReadyCallbacks, AsyncCallbackProcessor.ProcessReadyCallbacks. cbn [fst snd].
  destruct (co_queries (ds_core d')) as [|q qs] eqn:El; [done|].
  destruct (inv_remove_if now closed results (q :: qs) (Ret (), on_core (set_queries []) (sk', d')))
    as [H3 H4].
  { exact Hadm. }
  { rewrite <- El. apply H2. }
  { by apply inv_set_queries. }
  destruct (AsyncCallbackProcessor.remove_if _ _ _) as [kept [o s3]]. cbn [fst snd] in *.
  apply inv_set_queries; [|done]. apply Forall_app. split; [apply H3|done].
Qed.
End events.

(** ** Every event keeps it *)

Lemma inv_read es result s s' :
  zlen (received (es ++ [EvRead result])) < 2 ^ 58 → inv es s → delivered s result →
  ReadHandlerInternal result s = (Ret (), s') → inv (es ++ [EvRead result]) s'.
Proof.
  intros Hlen Hi [_ Hd] E. destruct s as [sk d]. destruct result as [chunk|].
  2:{ injection E as <-. apply inv_app; [done|]. apply (inv_CloseSocket es (SocketOps.set_reading false sk, d)).
      revert Hi. by apply inv_same. }
  destruct Hd as [Hby Hfit], Hi as [Hb Hs Hc]. cbn [fst snd] in *.
  assert (Forall is_byte (received (es ++ [EvRead (Some chunk)]))) as Hb'
    by (rewrite received_snoc; by apply Forall_app).
  set (s1 := (SocketOps.set_readBuffer (SocketOps.receive chunk (sk_readBuffer sk))
         (SocketOps.set_reading false sk), d) : st).
  change (ReadHandler s1 = (Ret (), s')) in E. unfold ReadHandler in E.
  rewrite bind_gets in E. change (SocketOps.IsOpen s1.1) with (SocketOps.IsOpen sk) in E.
  destruct (SocketOps.IsOpen sk) eqn:Ho; cbn [negb] in E.
  2:{ injection E as <-. split; [done| |by apply inv_core_app]. unfold stream_ok.
      change (SocketOps.IsOpen s1.1) with (SocketOps.IsOpen sk). by rewrite Ho. }
  destruct (Hs Ho) as (u & p & data & Er & Hu & Hrel).
  apply (rel_receive _ _ _ _ chunk) in Hrel; [|done].
  apply (inv_loop _ u p (data ++ chunk) s1); try done.
  - rewrite received_snoc, Er. cbn [bytes_of]. by rewrite <- !app_assoc.
  - by apply inv_core_app.
Qed.

Lemma step_inv es e s s' :
  zlen (received (es ++ [e])) < 2 ^ 58 → inv es s → step e s s' → inv (es ++ [e]) s'.
Proof.
  intros Hlen Hi Hst.
  destruct Hst as [result s s' Hd E|s|s|now closed results s b s' E|
    auth a isExist s Hr|auth a l s Hr|p s|s|ses ses' s Es Hsame];
    [by eapply inv_read|
     match goal with |- inv (_ ++ [?e]) _ => pose proof (inv_app es e s eq_refl Hi) as Hi' end..].
  - unfold SocketOps.WriteHandlerWrapper. destruct s as [sk d].
    apply (inv_HandleQueue _ (SocketOps.set_isWritingAsync false sk, d)).
    revert Hi'. by apply inv_same.
  - revert Hi'. apply inv_on_core. intros [Hr Hq Hs Ha]. split; cbn; try done.
    apply Forall_app. split; [done|by constructor].
  - replace s' with (Update now closed results s).2 by (by rewrite E).
    apply inv_Update; [done| |done]. intros auth row -> Hsent Hres a Hk Hp Hb.
    rewrite received_snoc, app_nil_r in Hsent. by exists es, now, results, [], row.
  - unfold OnBotInGuild. destruct isExist; cbn [negb]; [|by apply inv_reject].
    apply inv_add_request; [|done]. exists es, []. split; [done|].
    pose proof (inv_requests _ _ _ (inv_state _ _ Hi)) as Hf. rewrite Forall_forall in Hf.
    by apply (Hf (RBotInGuild auth a)).
  - apply inv_OnChannels; [done| |done]. intros Hl. exists es, []. split; [done|]. split; [|done].
    pose proof (inv_requests _ _ _ (inv_state _ _ Hi)) as Hf. rewrite Forall_forall in Hf.
    by apply (Hf (RChannels auth a)).
  - by apply inv_SendPacket.
  - by apply inv_CloseSocket.
  - revert Hi'. apply inv_on_core. by apply (inv_set_session _ _ _ ses).
Qed.

Lemma inv_new clock address os : inv [] (DS.new clock address os).
Proof.
  split; [constructor| |split; cbn; try done; constructor].
  intros _. exists [], [], []. split; [done|]. split; [constructor|].
  pose proof (rel_new clock address os (ds_core (DS.new clock address os).2)) as R. exact R.
Qed.

Lemma run_inv clock address os es s :
  zlen (received es) < 2 ^ 58 → run (DS.new clock address os) es s → inv es s.
Proof.
  intros Hlen Hr. induction Hr as [|es e s s' Hr IH Hst]; [apply inv_new|].
  eapply step_inv; [done|apply IH|done].
  rewrite received_snoc, zlen_app in Hlen. pose proof (zlen_nonneg (bytes_of e)). lia.
Qed.

(** C3: whatever the order of deliveries, updates, query results and answers of
    the bot in the life of a connection, and however the client's bytes are cut:
    if there is a session then, in this order, the client sent an authentication
    request as one of its packets; an update found the database's answer to it, a
    row under the name of the request whose ban columns barred it in no way the
    server checks, and the key of the request was accepted against that row; the
    bot found itself in the guild of the row; and it named the seven channels;
    the session has the account and the guild of that row and those channels.  And
    while the socket is not closed an authenticated connection has its session, so
    that the null checks left out in the dispatch are not needed.  (The client has
    sent less than 2^58 bytes, so that positions in buffers do not overflow.) *)
Theorem session_only_if_admitted (clock : list Z) (address : list Z) (os : list write_result)
    (es : list event) (s : st) :
  run (DS.new clock address os) es s → zlen (received es) < 2 ^ 58 →
  (∀ ses, co_session (ds_core s.2) = Some ses →
     ∃ es1 now results es2 es3 es4 auth row l,
       es = es1 ++ EvUpdate now false results :: es2 ++ EvBotInGuild auth (AccountInfo_new now row) true ::
            es3 ++ EvChannels auth (AccountInfo_new now row) l :: es4 ∧
       sent (received es1) auth ∧
       results (QAccountInfo auth) = Some (AAccountInfo (Some row)) ∧
       CheckKey (au_Account auth) (au_Key auth) (AccountInfo_new now row) = Ret true ∧
       ai_IsPermanentlyBanned (AccountInfo_new now row) = false ∧
       ai_IsBanned (AccountInfo_new now row) = false ∧ zlen l = 7 ∧
       s_accountId ses = row_ID row ∧ s_guildID ses = row_GuildID row ∧ s_channels ses = l) ∧
  (co_authed (ds_core s.2) = true → sk_closed s.1 = false → is_Some (co_session (ds_core s.2))).
Proof.
  intros Hr Hlen. destruct (run_inv _ _ _ _ _ Hlen Hr) as [_ _ [_ _ Hs Ha]]. split.
  - intros ses (auth & a & l & (es' & es4 & -> & (es'' & es3 & -> & Hadm) & Hl) & E1 & E2 & E3)%Hs.
    destruct Hadm as (es1 & now & results & es2 & row & -> & Hsent & Hres & -> & Hk & Hp & Hb).
    exists es1, now, results, es2, es3, es4, auth, row, l. rewrite <- !app_assoc. cbn [app].
    by split_and!.
  - intros Hau Hc. destruct (Ha Hau) as [E|]; [congruence|done].
Qed.
End login.
(** A client that logs in: the connection starts and is checked, the client
    sends its name and key, the database knows the account, the bot is in the
    guild and has made the channels. *)
Definition demo_row : AccountRow :=
  mkAccountRow 5 [1; 2; 3]
    [212; 4; 240; 98; 25; 189; 3; 108; 166; 217; 26; 253; 225; 170; 21; 212; 111; 205; 155; 18;
     238; 201; 208; 79; 39; 19; 229; 116; 34; 226; 177; 121]
    77 [] [] [] 0 None None.

Definition demo_answers (q : query) : option answer :=
  match q with
  | QIpInfo => Some (AIpInfo [])
  | QAccountInfo _ => Some (AAccountInfo (Some demo_row))
  end.

Definition demo_hello : list Z :=
  let payload := str "User" ++ [0] ++ str "secret" ++ [0; 0; 0] ++ [1; 0; 0; 0] in
  [0; 0; 0; zlen payload + 2; 2; 0] ++ payload.

Definition demo_auth : AuthSession := mkAuth (str "User") (str "secret") [] [] 1.

Definition demo_listening : st :=
  (@Update LittleEndian SRP6.toy_openssl 0 false demo_answers (Start (DS.new [] [] []))).2.
Definition demo_heard : st := (@ReadHandlerInternal LittleEndian (Some demo_hello) demo_listening).2.
Definition demo_asked : st :=
  (@Update LittleEndian SRP6.toy_openssl 0 false demo_answers demo_heard).2.
Definition demo_found : st :=
  @OnBotInGuild LittleEndian demo_auth (AccountInfo_new 0 demo_row) true demo_asked.
Definition demo_session : st :=
  @OnChannels LittleEndian demo_auth (AccountInfo_new 0 demo_row) [1; 2; 3; 4; 5; 6; 7] demo_found.

Definition demo_events : list event :=
  [EvStart; EvUpdate 0 false demo_answers; EvRead (Some demo_hello);
   EvUpdate 0 false demo_answers; EvBotInGuild demo_auth (AccountInfo_new 0 demo_row) true;
   EvChannels demo_auth (AccountInfo_new 0 demo_row) [1; 2; 3; 4; 5; 6; 7]].

Lemma demo_run : @run LittleEndian SRP6.toy_openssl (DS.new [] [] []) demo_events demo_session.
Proof.
  apply (run_snoc _ [_; _; _; _; _] _ demo_found); [apply (run_snoc _ [_; _; _; _] _ demo_asked);
    [apply (run_snoc _ [_; _; _] _ demo_heard); [apply (run_snoc _ [_; _] _ demo_listening);
      [apply (run_snoc _ [_] _ (Start (DS.new [] [] []))); [apply (run_snoc _ [] _ (DS.new [] [] []));
        [apply run_nil|apply step_start]|]|]|]|]|].
  - apply (step_update _ _ _ _ true). by vm_compute.
  - apply step_read; [|by vm_compute]. split; [by vm_compute|]. split; [|by vm_compute].
    unfold is_byte. vm_compute. repeat constructor; intros E; done.
  - apply (step_update _ _ _ _ true). by vm_compute.
  - apply step_bot.
    assert (co_requests (ds_core demo_asked.2) = [RBotInGuild demo_auth (AccountInfo_new 0 demo_row)])
      as -> by (by vm_compute). left.
  - apply step_channels.
    assert (co_requests (ds_core demo_found.2) = [RBotInGuild demo_auth (AccountInfo_new 0 demo_row);
      RChannels demo_auth (AccountInfo_new 0 demo_row)]) as -> by (by vm_compute).
    right. left.
Qed.

Lemma session_only_if_admitted_witness :
  (∃ ses, co_session (ds_core demo_session.2) = Some ses ∧ s_accountId ses = 5) ∧
  (∀ ses, co_session (ds_core demo_session.2) = Some ses →
     ∃ es1 now results es2 es3 es4 auth row l,
       demo_events = es1 ++ EvUpdate now false results :: es2 ++
            EvBotInGuild auth (AccountInfo_new now row) true ::
            es3 ++ EvChannels auth (AccountInfo_new now row) l :: es4 ∧
       @sent LittleEndian (received es1) auth ∧
       results (QAccountInfo auth) = Some (AAccountInfo (Some row)) ∧
       @CheckKey SRP6.toy_openssl (au_Account auth) (au_Key auth) (AccountInfo_new now row) = Ret true ∧
       ai_IsPermanentlyBanned (AccountInfo_new now row) = false ∧
       ai_IsBanned (AccountInfo_new now row) = false ∧ zlen l = 7 ∧
       s_accountId ses = row_ID row ∧ s_guildID ses = row_GuildID row ∧ s_channels ses = l) ∧
  (co_authed (ds_core demo_session.2) = true → sk_closed demo_session.1 = false →
     is_Some (co_session (ds_core demo_session.2))).
Proof.
  split; [eexists; split; by vm_compute|].
  apply (@session_only_if_admitted LittleEndian SRP6.toy_openssl [] [] [] demo_events demo_session).
  - apply demo_run.
  - by vm_compute.
Defined.
