(* ===== verification/Scheduler.v ===== *)
(** * Scheduler: tasks to run in the near future

    Model of [TaskScheduler] and [TaskContext]
    ([src/src/common/Utilities/TaskScheduler.h] and [.cpp]).

    Tasks are shared between the queue and the context of a running handler, so
    they live in a store and the queue holds their names.  What a handler or an
    asynchronous callable does is the client's: a parameter that lists its calls
    on the scheduler.  Times are counts of the steady clock.  A scheduler that is
    destroyed by one of its own handlers is not modelled. *)

From Stdlib Require Import Sorted.
From S2P Require Import Prelude.
Open Scope Z_scope.

Record Task (handler : Type) := mkTask {
  t_end : Z;
  t_duration : Z;
  t_group : option Z;
  t_repeated : Z;
  t_task : handler
}.
Arguments mkTask {handler}.
Arguments t_end {handler}.
Arguments t_duration {handler}.
Arguments t_group {handler}.
Arguments t_repeated {handler}.
Arguments t_task {handler}.

(** What was called: an asynchronous callable, or a task's handler at the time
    it was due and with its repeat counter. *)
Inductive call (callable : Type) :=
  | CalledAsync (c : callable)
  | CalledTask (task : nat) (due repeated : Z).
Arguments CalledAsync {callable}.
Arguments CalledTask {callable}.

(** Operations on the scheduler, by their C++ names. *)
Inductive operation (handler callable : Type) :=
  | Async (c : callable)
  | Schedule (time : Z) (group : option Z) (task : handler)
  | CancelAll
  | CancelGroup (group : Z)
  | CancelGroupsOf (groups : list Z)
  | DelayAll (duration : Z)
  | DelayGroup (group duration : Z)
  | RescheduleAll (duration : Z)
  | RescheduleGroup (group duration : Z).
Arguments Async {handler callable}.
Arguments Schedule {handler callable}.
Arguments CancelAll {handler callable}.
Arguments CancelGroup {handler callable}.
Arguments CancelGroupsOf {handler callable}.
Arguments DelayAll {handler callable}.
Arguments DelayGroup {handler callable}.
Arguments RescheduleAll {handler callable}.
Arguments RescheduleGroup {handler callable}.

(** Operations on the context of a running task. *)
Inductive command (handler callable : Type) :=
  | Repeat (duration : option Z)
  | SetGroup (group : Z)
  | ClearGroup
  | ContextSchedule (time : Z) (group : option Z) (task : handler)
  | OnScheduler (o : operation handler callable).
Arguments Repeat {handler callable}.
Arguments SetGroup {handler callable}.
Arguments ClearGroup {handler callable}.
Arguments ContextSchedule {handler callable}.
Arguments OnScheduler {handler callable}.

Record TaskScheduler (handler callable : Type) := mkTS {
  ts_now : Z;
  ts_tasks : gmap nat (Task handler);
  ts_fresh : nat;
  ts_holder : list nat;
  ts_async : list callable;
  ts_predicate : list (call callable) → bool;
  ts_calls : list (call callable)
}.
Arguments mkTS {handler callable}.
Arguments ts_now {handler callable}.
Arguments ts_tasks {handler callable}.
Arguments ts_fresh {handler callable}.
Arguments ts_holder {handler callable}.
Arguments ts_async {handler callable}.
Arguments ts_predicate {handler callable}.
Arguments ts_calls {handler callable}.

Record TaskContext := mkContext { tc_task : nat; tc_consumed : bool }.

(** The fuel of a loop ran out. *)
Inductive diverged := Diverged.

Module Scheduler.
Section scheduler.
Context {handler callable : Type}.
Implicit Types t : Task handler.
Implicit Types tasks : gmap nat (Task handler).
Implicit Types l cache : list nat.

Abbreviation TS := (TaskScheduler handler callable).

(** *** Updates of one field *)

Definition set_now (v : Z) (s : TS) : TS :=
  mkTS v (ts_tasks s) (ts_fresh s) (ts_holder s) (ts_async s) (ts_predicate s) (ts_calls s).
Definition set_queue (tasks : gmap nat (Task handler)) (holder : list nat) (s : TS) : TS :=
  mkTS (ts_now s) tasks (ts_fresh s) holder (ts_async s) (ts_predicate s) (ts_calls s).
Definition set_async (v : list callable) (s : TS) : TS :=
  mkTS (ts_now s) (ts_tasks s) (ts_fresh s) (ts_holder s) v (ts_predicate s) (ts_calls s).
Definition log (c : call callable) (s : TS) : TS :=
  mkTS (ts_now s) (ts_tasks s) (ts_fresh s) (ts_holder s) (ts_async s) (ts_predicate s)
    (ts_calls s ++ [c]).

Definition set_end (v : Z) (t : Task handler) : Task handler :=
  mkTask v (t_duration t) (t_group t) (t_repeated t) (t_task t).
Definition set_group (v : option Z) (t : Task handler) : Task handler :=
  mkTask (t_end t) (t_duration t) v (t_repeated t) (t_task t).

(** The constructors: without a predicate every task may run. *)
Definition new (now : Z) : TS := mkTS now ∅ 0 [] [] (λ _, true) [].
Definition new_with (predicate : list (call callable) → bool) (now : Z) : TS :=
  mkTS now ∅ 0 [] [] predicate [].
Definition SetValidator (predicate : list (call callable) → bool) (s : TS) : TS :=
  mkTS (ts_now s) (ts_tasks s) (ts_fresh s) (ts_holder s) (ts_async s) predicate (ts_calls s).
Definition ClearValidator (s : TS) : TS := SetValidator (λ _, true) s.

(** *** The task queue: a multiset ordered by [_end], equal ones in the order of
    insertion *)

Definition end_of (tasks : gmap nat (Task handler)) (n : nat) : Z :=
  default 0 (t_end <$> tasks !! n).

Fixpoint insert (tasks : gmap nat (Task handler)) (n : nat) (l : list nat) : list nat :=
  match l with
  | [] => [n]
  | m :: l' => if end_of tasks n <? end_of tasks m then n :: l else m :: insert tasks n l'
  end.

Definition Push (n : nat) (s : TS) : TS :=
  set_queue (ts_tasks s) (insert (ts_tasks s) n (ts_holder s)) s.
Definition First (s : TS) : option nat := head (ts_holder s).
Definition Pop (s : TS) : TS := set_queue (ts_tasks s) (tail (ts_holder s)) s.
Definition Clear (s : TS) : TS := set_queue (ts_tasks s) [] s.
Definition IsEmpty (s : TS) : bool := match ts_holder s with [] => true | _ => false end.

Definition select (p : Task handler → bool) (tasks : gmap nat (Task handler)) (n : nat) : bool :=
  match tasks !! n with Some t => p t | None => false end.

Definition RemoveIf (p : Task handler → bool) (s : TS) : TS :=
  set_queue (ts_tasks s) (filter (λ n, select p (ts_tasks s) n = false) (ts_holder s)) s.

(** The selected tasks leave the queue, are changed and go back in. *)
Definition ModifyIf (p : Task handler → bool) (f : Task handler → Task handler) (s : TS) : TS :=
  let cache := filter (λ n, select p (ts_tasks s) n = true) (ts_holder s) in
  let rest := filter (λ n, select p (ts_tasks s) n = false) (ts_holder s) in
  let tasks := fold_left (λ m n, alter f n m) cache (ts_tasks s) in
  set_queue tasks (fold_left (λ l n, insert tasks n l) cache rest) s.

(** *** Operations *)

Definition IsInGroup (group : Z) (t : Task handler) : bool := bool_decide (t_group t = Some group).

Definition InsertTask (t : Task handler) (s : TS) : TS :=
  let n := ts_fresh s in
  Push n (mkTS (ts_now s) (<[n := t]> (ts_tasks s)) (S n) (ts_holder s) (ts_async s)
            (ts_predicate s) (ts_calls s)).

Definition ScheduleAt (end_ time : Z) (group : option Z) (task : handler) (s : TS) : TS :=
  InsertTask (mkTask (end_ + time) time group 0 task) s.

Definition delay_all (duration : Z) (s : TS) : TS :=
  ModifyIf (λ _, true) (λ t, set_end (t_end t + duration) t) s.
Definition delay_group (group duration : Z) (s : TS) : TS :=
  ModifyIf (IsInGroup group) (λ t, set_end (t_end t + duration) t) s.
Definition reschedule_all (duration : Z) (s : TS) : TS :=
  let end_ := ts_now s + duration in ModifyIf (λ _, true) (set_end end_) s.
Definition reschedule_group (group duration : Z) (s : TS) : TS :=
  let end_ := ts_now s + duration in ModifyIf (IsInGroup group) (set_end end_) s.

Definition apply (o : operation handler callable) (s : TS) : TS :=
  match o with
  | Async c => set_async (ts_async s ++ [c]) s
  | Schedule time group task => ScheduleAt (ts_now s) time group task s
  | CancelAll => set_async [] (Clear s)
  | CancelGroup g => RemoveIf (IsInGroup g) s
  | CancelGroupsOf gs => fold_left (λ s g, RemoveIf (IsInGroup g) s) gs s
  | DelayAll d => delay_all d s
  | DelayGroup g d => delay_group g d s
  | RescheduleAll d => reschedule_all d s
  | RescheduleGroup g d => reschedule_group g d s
  end.

(** *** The context of a running task *)

Abbreviation CM := (M diverged (TaskContext * TS)).

Definition alter_task (f : Task handler → Task handler) (n : nat) (s : TS) : TS :=
  set_queue (alter f n (ts_tasks s)) (ts_holder s) s.

Definition GetRepeatCounter (c : TaskContext) (s : TS) : Z :=
  default 0 (t_repeated <$> ts_tasks s !! tc_task c).

Definition repeat_task (duration : option Z) (t : Task handler) : Task handler :=
  let d := default (t_duration t) duration in
  mkTask (t_end t + d) d (t_group t) (u32 (t_repeated t + 1)) (t_task t).

Definition run_command (c : command handler callable) : CM () :=
  match c with
  | Repeat d =>
      consumed ← gets (λ s : TaskContext * TS, tc_consumed s.1);
      assert_ (negb consumed) ;;
      modify (λ s : TaskContext * TS,
        (mkContext (tc_task s.1) true,
         Push (tc_task s.1) (alter_task (repeat_task d) (tc_task s.1) s.2)))
  | SetGroup g =>
      modify (λ s : TaskContext * TS, (s.1, alter_task (set_group (Some g)) (tc_task s.1) s.2))
  | ClearGroup =>
      modify (λ s : TaskContext * TS, (s.1, alter_task (set_group None) (tc_task s.1) s.2))
  | ContextSchedule time group task =>
      modify (λ s : TaskContext * TS,
        (s.1, ScheduleAt (end_of (ts_tasks s.2) (tc_task s.1)) time group task s.2))
  | OnScheduler o => modify (λ s : TaskContext * TS, (s.1, apply o s.2))
  end.

Fixpoint run_commands (cs : list (command handler callable)) : CM () :=
  match cs with
  | [] => mret ()
  | c :: cs => run_command c ;; run_commands cs
  end.

(** *** Dispatching *)

(** What the client's functions do: a handler may look at its repeat counter and
    its group. *)
Variable body : handler → Z → option Z → list (command handler callable).
Variable async_body : callable → list (operation handler callable).

Abbreviation SM := (M diverged TS).

Definition Invoke (n : nat) : SM () := λ s,
  match ts_tasks s !! n with
  | Some t =>
      let '(o, (_, s)) :=
        run_commands (body (t_task t) (t_repeated t) (t_group t))
          (mkContext n false, log (CalledTask n (t_end t) (t_repeated t)) s) in (o, s)
  | None => (UB, s)
  end.

(** The callable runs while it is at the front; then the front is popped, which
    an empty queue does not allow. *)
Definition run_async (c : callable) : SM () :=
  modify (λ s, fold_left (λ s o, apply o s) (async_body c) (log (CalledAsync c) s)) ;;
  left ← gets ts_async;
  match left with
  | [] => undefined
  | _ :: rest => modify (set_async rest)
  end.

Definition valid : SM bool := gets (λ s, ts_predicate s (ts_calls s)).

(** The loops say whether the validation let them finish. *)
Fixpoint run_asyncs (fuel : nat) : SM bool :=
  holder ← gets ts_async;
  match holder with
  | [] => mret true
  | c :: _ =>
      match fuel with
      | O => throw Diverged
      | S fuel =>
          run_async c ;;
          ok ← valid;
          if (ok : bool) then run_asyncs fuel else mret false
      end
  end.

Fixpoint run_tasks (fuel : nat) : SM bool :=
  holder ← gets ts_holder;
  match holder with
  | [] => mret true
  | n :: _ =>
      late ← gets (λ s, ts_now s <? end_of (ts_tasks s) n);
      if (late : bool) then mret true
      else
        match fuel with
        | O => throw Diverged
        | S fuel =>
            modify Pop ;;
            Invoke n ;;
            ok ← valid;
            if (ok : bool) then run_tasks fuel else mret false
        end
  end.

(** [Dispatch]: the answer is whether the final callback is called. *)
Definition Dispatch (fuel : nat) : SM bool :=
  ok ← valid;
  if negb ok then mret false
  else
    ok ← run_asyncs fuel;
    if negb ok then mret false else run_tasks fuel.

Definition Update (fuel : nat) (difftime : Z) : SM bool :=
  modify (λ s, set_now (ts_now s + difftime) s) ;; Dispatch fuel.

Definition UpdateNow (fuel : nat) (clock : Z) : SM bool :=
  modify (set_now clock) ;; Dispatch fuel.

(** ** The queue *)

Lemma insert_perm tasks n l : insert tasks n l ≡ₚ n :: l.
Proof.
  induction l as [|m l IH]; cbn [insert]; [done|].
  destruct (_ <? _); [done|]. rewrite IH. apply perm_swap.
Qed.

Definition due_sorted (tasks : gmap nat (Task handler)) (l : list nat) : Prop :=
  StronglySorted (λ m n, end_of tasks m <= end_of tasks n) l.

Lemma insert_sorted tasks n l : due_sorted tasks l → due_sorted tasks (insert tasks n l).
Proof.
  unfold due_sorted. induction 1 as [|m l Hs IH Hm]; cbn [insert]; [by repeat constructor|].
  destruct (Z.ltb_spec (end_of tasks n) (end_of tasks m)) as [E|E].
  - constructor; [by constructor|]. constructor; [lia|].
    eapply Forall_impl; [exact Hm|]. cbn. lia.
  - constructor; [done|]. rewrite insert_perm. by constructor; [lia|].
Qed.

Lemma inserts_perm tasks cache l : fold_left (λ l n, insert tasks n l) cache l ≡ₚ cache ++ l.
Proof.
  revert l. induction cache as [|n cache IH]; intros l; cbn [fold_left app]; [done|].
  by rewrite IH, insert_perm, Permutation_middle.
Qed.

Lemma inserts_sorted tasks cache l :
  due_sorted tasks l → due_sorted tasks (fold_left (λ l n, insert tasks n l) cache l).
Proof.
  revert l. induction cache as [|n cache IH]; intros l Hl; cbn [fold_left]; [done|].
  by apply IH, insert_sorted.
Qed.

Lemma filter_sorted (P : nat → Prop) `{∀ n, Decision (P n)} tasks l :
  due_sorted tasks l → due_sorted tasks (filter P l).
Proof.
  unfold due_sorted. induction 1 as [|m l Hs IH Hm]; [constructor|].
  rewrite filter_cons. case_decide; [|done]. constructor; [done|].
  rewrite Forall_forall in Hm |- *. intros x [_ Hx]%list_elem_of_filter. by apply Hm.
Qed.

Lemma due_sorted_ext tasks tasks' l :
  (∀ n, n ∈ l → end_of tasks' n = end_of tasks n) → due_sorted tasks l → due_sorted tasks' l.
Proof.
  unfold due_sorted. intros He. induction 1 as [|m l Hs IH Hm]; [constructor|].
  constructor; [apply IH; intros; apply He; by right|].
  rewrite Forall_forall in Hm |- *. intros x Hx.
  rewrite !He by (by constructor). by apply Hm.
Qed.

Lemma alters_lookup (f : Task handler → Task handler) cache tasks n :
  NoDup cache →
  fold_left (λ m n, alter f n m) cache tasks !! n =
    if decide (n ∈ cache) then f <$> tasks !! n else tasks !! n.
Proof.
  revert tasks. induction cache as [|m cache IH]; intros tasks Hn; cbn [fold_left].
  { by rewrite decide_False by apply not_elem_of_nil. }
  apply NoDup_cons in Hn as [Hm Hn]. rewrite IH by done.
  destruct (decide (n = m)) as [->|Hd].
  - rewrite lookup_alter_eq, decide_False by done. by rewrite decide_True by (by left).
  - rewrite lookup_alter_ne by done.
    destruct (decide (n ∈ cache)); [by rewrite decide_True by (by right)|].
    rewrite decide_False; [done|]. intros [?|?]%elem_of_cons; congruence.
Qed.

Lemma split_perm (P : nat → bool) l :
  filter (λ n, P n = true) l ++ filter (λ n, P n = false) l ≡ₚ l.
Proof.
  induction l as [|n l IH]; [done|]. rewrite !filter_cons. destruct (P n).
  - rewrite decide_True, decide_False by done. cbn [app]. by constructor.
  - rewrite decide_False, decide_True by done. rewrite <- Permutation_middle. by constructor.
Qed.

(** ** What the operations keep

    Beside well-formedness: [e] bounds the time of every task still queued, and a
    weight bounds the work that is left.  A task that is due weighs a power of a
    base; one that is not due yet weighs nothing. *)

Record wf (s : TS) : Prop := {
  wf_known : Forall (λ n, is_Some (ts_tasks s !! n)) (ts_holder s);
  wf_nodup : NoDup (ts_holder s);
  wf_fresh n t : ts_tasks s !! n = Some t → (n < ts_fresh s)%nat;
  wf_sorted : due_sorted (ts_tasks s) (ts_holder s);
  wf_period n t : ts_tasks s !! n = Some t → 0 < t_duration t
}.

Fixpoint weight (B now : Z) (tasks : gmap nat (Task handler)) (l : list nat) : Z :=
  match l with
  | [] => 0
  | n :: l => B ^ (now - end_of tasks n) + weight B now tasks l
  end.

Lemma weight_perm B now tasks l l' : l ≡ₚ l' → weight B now tasks l = weight B now tasks l'.
Proof. induction 1; cbn [weight]; lia. Qed.

Lemma weight_app B now tasks l l' :
  weight B now tasks (l ++ l') = weight B now tasks l + weight B now tasks l'.
Proof. induction l as [|n l IH]; cbn [weight app]; lia. Qed.

Lemma weight_nonneg B now tasks l : 0 <= B → 0 <= weight B now tasks l.
Proof. intros. induction l as [|n l IH]; cbn [weight]; [lia|]. pose proof (Z.pow_nonneg B (now - end_of tasks n)). lia. Qed.

Lemma weight_le B now tasks tasks' l :
  (∀ n, n ∈ l → B ^ (now - end_of tasks' n) <= B ^ (now - end_of tasks n)) →
  weight B now tasks' l <= weight B now tasks l.
Proof.
  induction l as [|n l IH]; intros Hl; cbn [weight]; [lia|].
  pose proof (Hl n ltac:(by left)). assert (weight B now tasks' l <= weight B now tasks l); [|lia].
  apply IH. intros; apply Hl; by right.
Qed.

Lemma weight_filter (P : nat → Prop) `{∀ n, Decision (P n)} B now tasks l :
  0 <= B → weight B now tasks (filter P l) <= weight B now tasks l.
Proof.
  intros HB. induction l as [|n l IH]; [done|]. rewrite filter_cons. cbn [weight].
  pose proof (Z.pow_nonneg B (now - end_of tasks n) HB). case_decide; cbn [weight]; lia.
Qed.

Record kept (B e c : Z) (s s' : TS) : Prop := {
  kept_wf : wf s → wf s';
  kept_now : ts_now s' = ts_now s;
  kept_predicate : ts_predicate s' = ts_predicate s;
  kept_calls : ts_calls s' = ts_calls s;
  kept_fresh : (ts_fresh s <= ts_fresh s')%nat;
  kept_known n : is_Some (ts_tasks s !! n) → is_Some (ts_tasks s' !! n);
  kept_end n : (n < ts_fresh s)%nat → e <= end_of (ts_tasks s) n → e <= end_of (ts_tasks s') n;
  kept_holder n : n ∈ ts_holder s' →
    n ∈ ts_holder s ∨ (ts_fresh s <= n < ts_fresh s')%nat ∧ e <= end_of (ts_tasks s') n;
  kept_weight : wf s →
    weight B (ts_now s) (ts_tasks s') (ts_holder s') <=
    weight B (ts_now s) (ts_tasks s) (ts_holder s) + c
}.

Lemma kept_refl B e s : kept B e 0 s s.
Proof. split; auto; try lia. Qed.

Lemma kept_trans B e c1 c2 s1 s2 s3 :
  wf s1 → kept B e c1 s1 s2 → kept B e c2 s2 s3 → kept B e (c1 + c2) s1 s3.
Proof.
  intros Hwf H1 H2. split.
  - intros. by apply H2, H1.
  - by rewrite (kept_now _ _ _ _ _ H2), (kept_now _ _ _ _ _ H1).
  - by rewrite (kept_predicate _ _ _ _ _ H2), (kept_predicate _ _ _ _ _ H1).
  - by rewrite (kept_calls _ _ _ _ _ H2), (kept_calls _ _ _ _ _ H1).
  - pose proof (kept_fresh _ _ _ _ _ H1). pose proof (kept_fresh _ _ _ _ _ H2). lia.
  - intros n Hn. by apply H2, H1.
  - intros n Hn He. apply H2; [pose proof (kept_fresh _ _ _ _ _ H1); lia|]. by apply H1.
  - intros n Hn. pose proof (kept_fresh _ _ _ _ _ H1). pose proof (kept_fresh _ _ _ _ _ H2).
    apply H2 in Hn as [Hn|[??]]; [|right; split; [lia|done]].
    apply H1 in Hn as [Hn|[??]]; [by left|]. right. split; [lia|]. apply H2; [lia|done].
  - intros. pose proof (kept_weight _ _ _ _ _ H1 Hwf) as W1.
    pose proof (kept_weight _ _ _ _ _ H2 (kept_wf _ _ _ _ _ H1 Hwf)) as W2.
    rewrite (kept_now _ _ _ _ _ H1) in W2. lia.
Qed.

Lemma kept_cost B e c c' s s' : c <= c' → kept B e c s s' → kept B e c' s s'.
Proof. intros Hc []. split; auto. intros. specialize (kept_weight0 ltac:(done)). lia. Qed.

Lemma end_of_insert_ne tasks n m t : n ≠ m → end_of (<[n := t]> tasks) m = end_of tasks m.
Proof. intros. unfold end_of. by rewrite lookup_insert_ne. Qed.
Lemma end_of_insert tasks n t : end_of (<[n := t]> tasks) n = t_end t.
Proof. unfold end_of. by rewrite lookup_insert_eq. Qed.

Lemma holder_fresh s n : wf s → n ∈ ts_holder s → (n < ts_fresh s)%nat.
Proof.
  intros Hwf Hn. pose proof (wf_known s Hwf) as Hk. rewrite Forall_forall in Hk.
  destruct (Hk n Hn) as [t Ht]. by eapply wf_fresh.
Qed.

Lemma kept_InsertTask B e c t s :
  0 < t_duration t → e <= t_end t → B ^ (ts_now s - t_end t) <= c →
  kept B e c s (InsertTask t s).
Proof.
  intros Hd He Hc.
  set (n := ts_fresh s). set (tasks := <[n := t]> (ts_tasks s)).
  assert (wf s → ∀ m, m ∈ ts_holder s → end_of tasks m = end_of (ts_tasks s) m) as Hold.
  { intros Hwf m Hm. apply end_of_insert_ne. pose proof (holder_fresh s m Hwf Hm). subst n. lia. }
  split; unfold InsertTask, Push; cbn [set_queue ts_now ts_tasks ts_fresh ts_holder ts_async
    ts_predicate ts_calls]; fold n tasks; try done; try lia.
  - intros Hwf. split; cbn [ts_tasks ts_holder ts_fresh set_queue].
    + rewrite insert_perm. constructor; [unfold tasks; by rewrite lookup_insert_eq|].
      eapply Forall_impl; [apply Hwf|]. cbn. intros m [t' Ht'].
      unfold tasks. destruct (decide (n = m)) as [<-|]; [by rewrite lookup_insert_eq|].
      rewrite lookup_insert_ne by done. by eexists.
    + rewrite insert_perm. constructor; [|apply Hwf].
      intros Hm%holder_fresh; [subst n; lia|done].
    + intros m t' [[<- <-]|[_ Hm]]%lookup_insert_Some; [lia|].
      apply (wf_fresh s Hwf) in Hm. lia.
    + apply insert_sorted. apply (due_sorted_ext (ts_tasks s)); [by apply Hold|apply Hwf].
    + intros m t' [[<- <-]|[_ Hm]]%lookup_insert_Some; [done|]. by eapply wf_period.
  - intros m [t' Ht']. unfold tasks. destruct (decide (n = m)) as [<-|]; [by rewrite lookup_insert_eq|].
    rewrite lookup_insert_ne by done. by eexists.
  - intros m Hm Hm'. subst tasks. rewrite end_of_insert_ne by lia. done.
  - intros m. rewrite insert_perm. intros [->|?]%elem_of_cons; [|by left].
    right. split; [lia|]. subst tasks. by rewrite end_of_insert.
  - intros Hwf. rewrite (weight_perm _ _ _ _ _ (insert_perm _ _ _)). cbn [weight].
    subst tasks. rewrite end_of_insert.
    assert (weight B (ts_now s) (<[n := t]> (ts_tasks s)) (ts_holder s) <=
            weight B (ts_now s) (ts_tasks s) (ts_holder s)); [|lia].
    apply weight_le. intros m Hm. by rewrite (Hold Hwf m Hm).
Qed.

(** Leaving tasks out of the queue. *)
Lemma kept_sub B e s (P : nat → Prop) `{∀ n, Decision (P n)} :
  0 <= B → kept B e 0 s (set_queue (ts_tasks s) (filter P (ts_holder s)) s).
Proof.
  intros HB. split; cbn [set_queue ts_now ts_tasks ts_fresh ts_holder ts_predicate ts_calls];
    try done; try lia.
  - intros Hwf. split; cbn [set_queue ts_tasks ts_holder ts_fresh]; try apply Hwf.
    + apply Forall_forall. intros n [_ Hn]%list_elem_of_filter. revert n Hn.
      apply Forall_forall, Hwf.
    + apply NoDup_filter, Hwf.
    + apply filter_sorted, Hwf.
  - intros n [_ Hn]%list_elem_of_filter. by left.
  - intros _. pose proof (weight_filter P B (ts_now s) (ts_tasks s) (ts_holder s) HB). lia.
Qed.

Lemma alters_keep (Q : option (Task handler) → Prop) f cache tasks n :
  (∀ o, Q o → Q (f <$> o)) → Q (tasks !! n) →
  Q (fold_left (λ m n, alter f n m) cache tasks !! n).
Proof.
  intros HQ. revert tasks. induction cache as [|m cache IH]; intros tasks Ht; cbn [fold_left]; [done|].
  apply IH. destruct (decide (m = n)) as [->|]; [rewrite lookup_alter_eq; auto|].
  by rewrite lookup_alter_ne.
Qed.

Section modify.
Context (p : Task handler → bool) (f : Task handler → Task handler) (s : TS).
Let cache := filter (λ n, select p (ts_tasks s) n = true) (ts_holder s).
Let others := filter (λ n, select p (ts_tasks s) n = false) (ts_holder s).
Let tasks := fold_left (λ m n, alter f n m) cache (ts_tasks s).

Lemma modify_perm : fold_left (λ l n, insert tasks n l) cache others ≡ₚ ts_holder s.
Proof. rewrite inserts_perm. apply (split_perm (select p (ts_tasks s))). Qed.

Lemma modify_lookup n :
  wf s → tasks !! n = ts_tasks s !! n ∨ tasks !! n = f <$> ts_tasks s !! n.
Proof.
  intros Hwf. unfold tasks. rewrite alters_lookup by (apply NoDup_filter, Hwf).
  case_decide; [by right|by left].
Qed.

Lemma modify_wf : (∀ t, t_duration (f t) = t_duration t) → wf s → wf (ModifyIf p f s).
Proof.
  intros Hd Hwf. split; unfold ModifyIf; fold cache others tasks;
    cbn [set_queue ts_tasks ts_holder ts_fresh].
  - rewrite modify_perm. eapply Forall_impl; [apply Hwf|]. cbn. intros n [t Ht].
    destruct (modify_lookup n Hwf) as [-> | ->]; rewrite Ht; by eexists.
  - rewrite modify_perm. apply Hwf.
  - intros n t' Ht'. destruct (modify_lookup n Hwf) as [E|E]; rewrite Ht' in E.
    + by apply (wf_fresh s Hwf n t').
    + symmetry in E. apply fmap_Some in E as (t & Ht & _). by apply (wf_fresh s Hwf n t).
  - apply inserts_sorted. apply (due_sorted_ext (ts_tasks s)); [|apply filter_sorted, Hwf].
    intros n [Hn _]%list_elem_of_filter. unfold end_of, tasks.
    rewrite alters_lookup by (apply NoDup_filter, Hwf). rewrite decide_False; [done|].
    intros [Hn' _]%list_elem_of_filter. congruence.
  - intros n t' Ht'. destruct (modify_lookup n Hwf) as [E|E]; rewrite Ht' in E.
    + by apply (wf_period s Hwf n t').
    + symmetry in E. apply fmap_Some in E as (t & Ht & ->). rewrite Hd. by apply (wf_period s Hwf n t).
Qed.

Lemma kept_ModifyIf B e :
  (∀ t, t_duration (f t) = t_duration t) →
  (∀ t, e <= t_end t → e <= t_end (f t)) →
  (∀ t, B ^ (ts_now s - t_end (f t)) <= B ^ (ts_now s - t_end t)) →
  kept B e 0 s (ModifyIf p f s).
Proof.
  intros Hd He HB. pose proof (modify_wf Hd) as Hw.
  split; auto; unfold ModifyIf in *; fold cache others tasks in Hw |- *;
    cbn [set_queue ts_now ts_tasks ts_fresh ts_holder ts_predicate ts_calls]; try done; try lia.
  - intros n Hn. unfold tasks. apply (alters_keep is_Some); [|done].
    intros o Ho. by apply fmap_is_Some.
  - intros n _ Hn. unfold end_of, tasks. apply (alters_keep (λ o, e <= default 0 (t_end <$> o))); [|done].
    intros [t|]; cbn; auto.
  - intros n. rewrite modify_perm. by left.
  - intros Hwf. rewrite (weight_perm _ _ _ _ _ modify_perm). rewrite Z.add_0_r. apply weight_le.
    intros n _. unfold end_of. destruct (modify_lookup n Hwf) as [-> | ->]; [lia|].
    destruct (ts_tasks s !! n); [apply HB|done].
Qed.
End modify.

Lemma kept_set_async B e v s : kept B e 0 s (set_async v s).
Proof. split; cbn; auto; try lia. by intros []; split. Qed.

Lemma kept_CancelGroup B e g s : 0 <= B → kept B e 0 s (RemoveIf (IsInGroup g) s).
Proof. intros. by apply kept_sub. Qed.

Lemma kept_Clear B e s : 0 <= B → kept B e 0 s (Clear s).
Proof.
  intros HB. unfold Clear. pose proof (kept_sub B e s (λ _, False) HB) as H.
  assert (∀ l : list nat, filter (λ _, False) l = []) as E by (induction l as [|n l IH]; [done|exact IH]).
  by rewrite E in H.
Qed.

Lemma wf_new now : wf (new now).
Proof. split; cbn; try constructor; by intros n t; rewrite lookup_empty. Qed.

(** *** Well-behaved clients *)

(** Delays are not negative, and what is scheduled or put off lies ahead. *)
Definition good_operation (o : operation handler callable) : Prop :=
  match o with
  | Schedule time _ _ => 0 < time
  | DelayAll d | DelayGroup _ d => 0 <= d
  | RescheduleAll d | RescheduleGroup _ d => 0 < d
  | _ => True
  end.

Lemma kept_apply B e o s :
  1 <= B → e <= ts_now s → good_operation o → wf s → kept B e 0 s (apply o s).
Proof.
  intros HB He Ho Hwf.
  assert (∀ x y, x <= y → B ^ (ts_now s - y) <= B ^ (ts_now s - x)) as Hmono
    by (intros; apply Z.pow_le_mono_r; lia).
  assert (∀ x y, ts_now s < y → B ^ (ts_now s - y) <= B ^ (ts_now s - x)) as Hlate.
  { intros x y Hy. rewrite (Z.pow_neg_r B (ts_now s - y)) by lia. apply Z.pow_nonneg. lia. }
  destruct o; cbn [apply good_operation] in *.
  - apply kept_set_async.
  - unfold ScheduleAt. apply kept_InsertTask; cbn [t_duration t_end]; [done|lia|].
    rewrite Z.pow_neg_r by lia. lia.
  - apply (kept_trans B e 0 0 s (Clear s)); [done|apply kept_Clear; lia|apply kept_set_async].
  - apply kept_CancelGroup. lia.
  - revert s Hwf He Hmono Hlate. induction groups as [|g gs IH]; intros; cbn [fold_left];
      [apply kept_refl|].
    pose proof (kept_CancelGroup B e g s ltac:(lia)) as H1.
    apply (kept_trans B e 0 0 s _ _ Hwf H1). apply IH; [by apply H1|done..].
  - apply kept_ModifyIf; cbn; [done|lia|]. intros t. apply Hmono. lia.
  - apply kept_ModifyIf; cbn; [done|lia|]. intros t. apply Hmono. lia.
  - apply kept_ModifyIf; cbn; [done|lia|]. intros t. apply Hlate. lia.
  - apply kept_ModifyIf; cbn; [done|lia|]. intros t. apply Hlate. lia.
Qed.

Lemma wf_apply o s : good_operation o → wf s → wf (apply o s).
Proof. intros Ho Hs. apply (kept_apply 1 (ts_now s) o s); done || lia. Qed.

Definition good_command (c : command handler callable) : Prop :=
  match c with
  | Repeat (Some d) => 0 < d
  | ContextSchedule time _ _ => 0 < time
  | OnScheduler o => good_operation o
  | _ => True
  end.

Definition is_repeat (c : command handler callable) : bool :=
  match c with Repeat _ => true | _ => false end.

(** At most one [Repeat], and [K] calls. *)
Definition good_body (K : nat) (cs : list (command handler callable)) : Prop :=
  Forall good_command cs ∧ (length (filter (λ c, is_repeat c = true) cs) <= 1)%nat ∧
  (length cs <= K)%nat.

(** An asynchronous callable that adds another could keep the loop going for
    ever, and one that cancels everything leaves nothing to pop. *)
Definition good_async (os : list (operation handler callable)) : Prop :=
  Forall (λ o, good_operation o ∧ match o with Async _ | CancelAll => False | _ => True end) os.

(** ** A task runs *)

Record context_ok (e : Z) (c : TaskContext) (s : TS) : Prop := {
  co_wf : wf s;
  co_known : is_Some (ts_tasks s !! tc_task c);
  co_end : e <= end_of (ts_tasks s) (tc_task c);
  co_holder : Forall (λ n, e <= end_of (ts_tasks s) n) (ts_holder s);
  co_once : tc_consumed c = false → tc_task c ∉ ts_holder s;
  co_due : e <= ts_now s
}.

Abbreviation load B s := (weight B (ts_now s) (ts_tasks s) (ts_holder s)).

(** What stays the same, and how the work left grows. *)
Definition ran (B cost : Z) (s s' : TS) : Prop :=
  ts_now s' = ts_now s ∧ ts_predicate s' = ts_predicate s ∧ ts_calls s' = ts_calls s ∧
  load B s' <= load B s + cost.

Lemma context_kept B e cost c s s' :
  context_ok e c s → kept B e cost s s' → context_ok e c s' ∧ ran B cost s s'.
Proof.
  intros [Hwf Hk He Hh Ho Hd] K.
  assert (tc_task c < ts_fresh s)%nat as Hf by (destruct Hk; by eapply wf_fresh).
  split; [split|split; [apply K|split; [apply K|split; [apply K|]]]].
  - by apply K.
  - by apply K.
  - by apply K.
  - rewrite Forall_forall in Hh |- *. intros n Hn.
    destruct (kept_holder _ _ _ _ _ K n Hn) as [Hn'|[_ ?]]; [|done].
    apply K; [by apply holder_fresh|by apply Hh].
  - intros Hc Hn. destruct (kept_holder _ _ _ _ _ K _ Hn) as [?|[[??] _]]; [by apply Ho|lia].
  - by rewrite (kept_now _ _ _ _ _ K).
  - rewrite (kept_now _ _ _ _ _ K). by apply K.
Qed.


Lemma end_of_alter_ne f tasks n m : n ≠ m → end_of (alter f n tasks) m = end_of tasks m.
Proof. intros. unfold end_of. by rewrite lookup_alter_ne. Qed.

Lemma known_alter f tasks n m : is_Some (tasks !! m) → is_Some (alter f n tasks !! m).
Proof.
  intros Hm. destruct (decide (n = m)) as [->|]; [rewrite lookup_alter_eq; by apply fmap_is_Some|].
  by rewrite lookup_alter_ne.
Qed.

Lemma wf_alter f n s :
  (∀ t, 0 < t_duration t → 0 < t_duration (f t)) →
  (∀ m, m ∈ ts_holder s → end_of (alter f n (ts_tasks s)) m = end_of (ts_tasks s) m) →
  wf s → wf (alter_task f n s).
Proof.
  intros Hd He Hwf. split; unfold alter_task; cbn [set_queue ts_tasks ts_holder ts_fresh].
  - eapply Forall_impl; [apply Hwf|]. intros m. apply known_alter.
  - apply Hwf.
  - intros m t. rewrite lookup_alter_Some. intros [(<- & t' & Ht & _)|[_ Ht]]; by apply (wf_fresh s Hwf) in Ht.
  - apply (due_sorted_ext (ts_tasks s)); [done|apply Hwf].
  - intros m t. rewrite lookup_alter_Some. intros [(<- & t' & Ht & ->)|[_ Ht]];
      [apply Hd|]; by apply (wf_period s Hwf) in Ht.
Qed.

Lemma kept_alter B e f n s :
  (∀ t, t_duration (f t) = t_duration t) → (∀ t, t_end (f t) = t_end t) →
  kept B e 0 s (alter_task f n s).
Proof.
  intros Hd Hf.
  assert (∀ m, end_of (alter f n (ts_tasks s)) m = end_of (ts_tasks s) m) as He.
  { intros m. destruct (decide (n = m)) as [->|]; [|by apply end_of_alter_ne].
    unfold end_of. rewrite lookup_alter_eq. destruct (ts_tasks s !! m); cbn; [apply Hf|done]. }
  split; unfold alter_task; cbn [set_queue ts_now ts_tasks ts_fresh ts_holder ts_predicate ts_calls];
    try done; try lia.
  - apply wf_alter; [|done]. intros t. by rewrite Hd.
  - intros m. apply known_alter.
  - intros m _. by rewrite He.
  - by left.
  - intros _. rewrite Z.add_0_r. apply weight_le. intros m _. rewrite He. lia.
Qed.

Lemma context_Repeat B e d c s :
  1 <= B → default 1 d > 0 → tc_consumed c = false → context_ok e c s →
  let s' := Push (tc_task c) (alter_task (repeat_task d) (tc_task c) s) in
  context_ok e (mkContext (tc_task c) true) s' ∧ ran B (B ^ (ts_now s - e - 1)) s s'.
Proof.
  intros HB Hd Hc [Hwf [t Ht] He Hh Ho Hdue]. specialize (Ho Hc).
  destruct c as [n consumed]; cbn [tc_task tc_consumed] in *. cbn zeta.
  pose proof (wf_period s Hwf n t Ht) as Hp.
  assert (0 < default (t_duration t) d) as Hd' by (destruct d; cbn in *; lia).
  assert (∀ m, m ∈ ts_holder s → end_of (alter (repeat_task d) n (ts_tasks s)) m
    = end_of (ts_tasks s) m) as Hm.
  { intros m Hm. apply end_of_alter_ne. congruence. }
  assert (end_of (alter (repeat_task d) n (ts_tasks s)) n = t_end t + default (t_duration t) d) as Hn.
  { unfold end_of. by rewrite lookup_alter_eq, Ht. }
  assert (wf (alter_task (repeat_task d) n s)) as Hw1.
  { apply wf_alter; [|done|done]. intros t' Ht'. unfold repeat_task. cbn. destruct d; cbn in *; lia. }
  unfold end_of in He. rewrite Ht in He. cbn in He.
  assert (∃ tasks, tasks = alter (repeat_task d) n (ts_tasks s)) as [tasks Et] by by eexists.
  unfold Push, alter_task in *. cbn [set_queue ts_now ts_tasks ts_fresh ts_holder] in *.
  rewrite <- Et in *.
  split; [split; cbn [tc_task tc_consumed set_queue ts_now ts_tasks ts_holder]|].
  - split; cbn [set_queue ts_tasks ts_holder ts_fresh].
    + rewrite insert_perm. constructor; [|apply Hw1].
      rewrite Et. apply known_alter. by eexists.
    + rewrite insert_perm. constructor; [done|apply Hwf].
    + apply (wf_fresh _ Hw1).
    + apply insert_sorted, Hw1.
    + apply (wf_period _ Hw1).
  - rewrite Et. apply known_alter. by eexists.
  - rewrite Hn. lia.
  - rewrite insert_perm. constructor; [rewrite Hn; lia|].
    rewrite Forall_forall in Hh |- *. intros m Hm'. rewrite Hm by done. by apply Hh.
  - done.
  - done.
  - split; [done|]. split; [done|]. split; [done|]. cbn [set_queue ts_now ts_tasks ts_holder].
    rewrite (weight_perm _ _ _ _ _ (insert_perm _ _ _)). cbn [weight]. rewrite Hn.
    pose proof (weight_le B (ts_now s) (ts_tasks s) tasks (ts_holder s)) as W.
    assert (B ^ (ts_now s - (t_end t + default (t_duration t) d)) <= B ^ (ts_now s - e - 1))
      by (apply Z.pow_le_mono_r; lia).
    specialize (W ltac:(intros m Hm'; rewrite Hm by done; lia)). lia.
Qed.

Lemma ran_cost B c c' s s' : c <= c' → ran B c s s' → ran B c' s s'.
Proof. intros Hc (?&?&?&?). repeat split; try done. lia. Qed.

Lemma run_command_ok B e k c s :
  1 <= B → good_command k → context_ok e c s → (is_repeat k = true → tc_consumed c = false) →
  ∃ c' s', run_command k (c, s) = (Ret (), (c', s')) ∧ context_ok e c' s' ∧
    tc_task c' = tc_task c ∧ tc_consumed c' = tc_consumed c || is_repeat k ∧
    ran B (B ^ (ts_now s - e - 1)) s s'.
Proof.
  intros HB Hk Hc Hr.
  assert (∀ s', kept B e 0 s s' → context_ok e c s' ∧ ran B (B ^ (ts_now s - e - 1)) s s') as Hkept.
  { intros s' K. destruct (context_kept B e 0 c s s' Hc K) as [? R]. split; [done|].
    eapply ran_cost; [|exact R]. apply Z.pow_nonneg. lia. }
  destruct k as [d|g| |time g task|o]; cbn [run_command is_repeat good_command] in *.
  - specialize (Hr eq_refl). rewrite bind_gets. cbn [fst]. rewrite Hr. cbn [negb].
    destruct (context_Repeat B e d c s HB) as [H1 H2]; [destruct d; cbn in *; lia|done..|].
    eexists _, _. split; [done|]. by rewrite orb_true_r.
  - edestruct Hkept as [? ?]; [apply kept_alter with (f := set_group (Some g)); done|].
    eexists _, _. by rewrite orb_false_r.
  - edestruct Hkept as [? ?]; [apply kept_alter with (f := set_group None); done|].
    eexists _, _. by rewrite orb_false_r.
  - pose proof (co_end _ _ _ Hc).
    eexists _, _. split; [done|]. rewrite orb_false_r. cbn [fst snd].
    enough (context_ok e c (ScheduleAt (end_of (ts_tasks s) (tc_task c)) time g task s) ∧
      ran B (B ^ (ts_now s - e - 1)) s (ScheduleAt (end_of (ts_tasks s) (tc_task c)) time g task s))
      as [??] by done.
    apply context_kept; [done|].
    apply kept_InsertTask; cbn [t_duration t_end]; [done|lia|]. apply Z.pow_le_mono_r; lia.
  - edestruct Hkept as [? ?]; [apply (kept_apply B e o s); [done|apply Hc|done|apply Hc]|].
    eexists _, _. by rewrite orb_false_r.
Qed.

Lemma run_commands_ok B e ks c s :
  1 <= B → Forall good_command ks → context_ok e c s →
  (length (filter (λ k, is_repeat k = true) ks) <= if tc_consumed c then 0 else 1)%nat →
  ∃ c' s', run_commands ks (c, s) = (Ret (), (c', s')) ∧ context_ok e c' s' ∧
    ran B (zlen ks * B ^ (ts_now s - e - 1)) s s'.
Proof.
  intros HB Hg. revert c s. induction Hg as [|k ks Hk _ IH]; intros c s Hc Hr; cbn [run_commands].
  { eexists _, _. split; [done|]. split; [done|]. repeat split; try done. unfold zlen; cbn [length]; lia. }
  rewrite filter_cons in Hr.
  destruct (run_command_ok B e k c s HB Hk Hc) as (c1 & s1 & E1 & H1 & Ht & Hcons & R1).
  { intros E. rewrite decide_True in Hr by done. cbn in Hr. destruct (tc_consumed c); [lia|done]. }
  destruct (IH c1 s1 H1) as (c2 & s2 & E2 & H2 & R2).
  { rewrite Hcons. destruct (is_repeat k).
    - rewrite decide_True in Hr by done. cbn in Hr. rewrite orb_true_r. destruct (tc_consumed c); lia.
    - rewrite decide_False in Hr by done. by rewrite orb_false_r. }
  exists c2, s2. split; [by rewrite (bind_run _ _ _ _ _ E1)|]. split; [done|].
  destruct R1 as (N1 & P1 & C1 & W1), R2 as (N2 & P2 & C2 & W2).
  rewrite N1 in *. repeat split; try congruence. rewrite N2, zlen_cons in *. lia.
Qed.

(** ** Dispatch *)

Definition well_behaved (K : nat) : Prop :=
  (∀ h r g, good_body K (body h r g)) ∧ (∀ c, good_async (async_body c)).

Definition due_of (c : call callable) : option Z :=
  match c with CalledTask _ due _ => Some due | CalledAsync _ => None end.

(** The times at which the tasks called were due. *)
Definition dues (cs : list (call callable)) : list Z := omap due_of cs.

Lemma load_Pop B s n l : ts_holder s = n :: l →
  load B s = B ^ (ts_now s - end_of (ts_tasks s) n) + load B (Pop s).
Proof. intros E. unfold Pop. cbn [set_queue ts_now ts_tasks ts_holder]. by rewrite E. Qed.

Lemma wf_Pop s n l : wf s → ts_holder s = n :: l →
  wf (Pop s) ∧ n ∉ l ∧ is_Some (ts_tasks s !! n) ∧
  Forall (λ m, end_of (ts_tasks s) n <= end_of (ts_tasks s) m) l.
Proof.
  intros [Hk Hn Hf Hs Hp] E. rewrite E in *. apply Forall_cons in Hk as [Hk1 Hk2].
  apply NoDup_cons in Hn as [Hn1 Hn2]. apply StronglySorted_inv in Hs as [Hs1 Hs2].
  repeat split; unfold Pop; cbn [set_queue ts_tasks ts_holder ts_fresh]; rewrite ?E; try done.
Qed.

Lemma wf_log c s : wf s → wf (log c s).
Proof. by intros []; split. Qed.

(** One turn: less work is left than before. *)
Lemma Invoke_ok K s n l :
  well_behaved K → wf s → ts_holder s = n :: l → end_of (ts_tasks s) n <= ts_now s →
  ∃ r s', Invoke n (Pop s) = (Ret (), s') ∧ wf s' ∧
    ts_now s' = ts_now s ∧ ts_predicate s' = ts_predicate s ∧
    ts_calls s' = ts_calls s ++ [CalledTask n (end_of (ts_tasks s) n) r] ∧
    Forall (λ m, end_of (ts_tasks s) n <= end_of (ts_tasks s') m) (ts_holder s') ∧
    0 <= load (Z.of_nat K + 1) s' < load (Z.of_nat K + 1) s.
Proof.
  intros [Hb _] Hwf E Hdue. set (B := Z.of_nat K + 1).
  destruct (wf_Pop s n l Hwf E) as (Hw1 & Hn & [t Ht] & Hl).
  destruct (Hb (t_task t) (t_repeated t) (t_group t)) as (G1 & G2 & G3).
  set (e := end_of (ts_tasks s) n) in *.
  set (s1 := log (CalledTask n e (t_repeated t)) (Pop s)).
  assert (context_ok e (mkContext n false) s1) as Hc.
  { assert (ts_holder s1 = l) as El by (unfold s1, Pop; cbn; by rewrite E).
    split; rewrite ?El; try done. by apply wf_log. }
  destruct (run_commands_ok B e (body (t_task t) (t_repeated t) (t_group t)) (mkContext n false) s1)
    as (c' & s' & E' & H' & N & P & C & W); [lia|done|done|cbn [tc_consumed]; lia|].
  change (load B s1) with (load B (Pop s)) in W. change (ts_now s1) with (ts_now s) in *.
  exists (t_repeated t), s'. split.
  { unfold Invoke. change (ts_tasks (Pop s)) with (ts_tasks s). rewrite Ht.
    assert (t_end t = e) as -> by (unfold e, end_of; by rewrite Ht). fold s1. by rewrite E'. }
  split; [apply H'|]. split; [done|]. split; [done|]. split; [done|]. split; [apply H'|].
  split; [apply weight_nonneg; lia|]. rewrite N, (load_Pop B s n l E). fold e.
  rewrite N in W.
  assert (zlen (body (t_task t) (t_repeated t) (t_group t)) * B ^ (ts_now s - e - 1)
    < B ^ (ts_now s - e)); [|lia].
  unfold zlen. destruct (Z.eq_dec (ts_now s) e) as [Hz|Hz].
  - rewrite Hz, Z.sub_diag, (Z.pow_neg_r B (0 - 1)) by lia. lia.
  - replace (ts_now s - e) with (Z.succ (ts_now s - e - 1)) at 2 by lia.
    rewrite Z.pow_succ_r by lia.
    pose proof (Z.pow_pos_nonneg B (ts_now s - e - 1)). nia.
Qed.

Lemma run_tasks_eq fuel s :
  run_tasks fuel s =
  match ts_holder s with
  | [] => (Ret true, s)
  | n :: _ =>
      if ts_now s <? end_of (ts_tasks s) n then (Ret true, s)
      else
        match fuel with
        | O => (Throw Diverged, s)
        | S fuel =>
            (Invoke n ;; ok ← valid; if (ok : bool) then run_tasks fuel else mret false) (Pop s)
        end
  end.
Proof.
  destruct fuel; cbn [run_tasks]; unfold gets, mbind, M_bind;
    destruct (ts_holder s) as [|n l]; try done; by destruct (_ <? _).
Qed.

(** The outcome of the loop over the tasks: what it called, in which order, and
    why it stopped. *)
Definition tasks_ran (s : TS) (m : outcome diverged bool * TS) : Prop :=
  ∃ r s' new, m = (Ret r, s') ∧ wf s' ∧ ts_now s' = ts_now s ∧
    ts_predicate s' = ts_predicate s ∧ ts_calls s' = ts_calls s ++ new ∧
    Forall (λ c, is_Some (due_of c)) new ∧ StronglySorted Z.le (dues new) ∧
    Forall (λ d, d <= ts_now s) (dues new) ∧
    (∀ e, Forall (λ n, e <= end_of (ts_tasks s) n) (ts_holder s) → Forall (Z.le e) (dues new)) ∧
    (if r then Forall (λ n, ts_now s < end_of (ts_tasks s') n) (ts_holder s')
     else ts_predicate s (ts_calls s') = false).

Lemma tasks_ran_none s :
  wf s → Forall (λ n, ts_now s < end_of (ts_tasks s) n) (ts_holder s) →
  tasks_ran s (Ret true, s).
Proof.
  intros. exists true, s, []. rewrite app_nil_r. do 5 (split; [done|]).
  split; [constructor|]. split; [constructor|]. split; [constructor|]. split; [|done].
  intros. constructor.
Qed.

Lemma run_tasks_ok K fuel s :
  well_behaved K → wf s → load (Z.of_nat K + 1) s <= Z.of_nat fuel →
  tasks_ran s (run_tasks fuel s).
Proof.
  intros Hb. revert s. induction fuel as [|fuel IH]; intros s Hwf HW; rewrite run_tasks_eq;
    (destruct (ts_holder s) as [|n l] eqn:E;
     [apply tasks_ran_none; [done|]; rewrite E; constructor|]);
    destruct (wf_Pop s n l Hwf E) as (_ & _ & _ & Hl);
    (destruct (Z.ltb_spec (ts_now s) (end_of (ts_tasks s) n)) as [L|L];
     [apply tasks_ran_none; [done|]; rewrite E; constructor; [done|];
      eapply Forall_impl; [exact Hl|]; cbn; lia|]).
  - pose proof (weight_nonneg (Z.of_nat K + 1) (ts_now s) (ts_tasks s) l ltac:(lia)).
    pose proof (load_Pop (Z.of_nat K + 1) s n l E) as HP.
    unfold Pop in HP; cbn [set_queue ts_now ts_tasks ts_holder] in HP. rewrite E in HP. cbn [tail] in HP.
    pose proof (Z.pow_pos_nonneg (Z.of_nat K + 1) (ts_now s - end_of (ts_tasks s) n)).
    cbn [weight] in HW. lia.
  - destruct (Invoke_ok K s n l Hb Hwf E L) as (r1 & s1 & E1 & W1 & N1 & P1 & C1 & H1 & D1).
    rewrite E in D1. rewrite (bind_run _ _ _ _ _ E1). unfold valid. rewrite bind_gets, P1.
    destruct (ts_predicate s (ts_calls s1)) eqn:V.
    + destruct (IH s1 W1 ltac:(lia)) as (r & s' & new & E2 & W2 & N2 & P2 & C2 & T2 & S2 & D2 & F2 & R2).
      exists r, s', (CalledTask n (end_of (ts_tasks s) n) r1 :: new). rewrite E2, N1, P1 in *.
      split; [done|]. split; [done|]. split; [done|]. split; [done|].
      split; [by rewrite C2, C1, <- app_assoc|].
      split; [constructor; [by eexists|done]|]. unfold dues in *. cbn [omap list_omap due_of].
      split; [constructor; [done|by apply F2]|]. split; [by constructor|].
      split; [|done]. intros e He. rewrite E in He. apply Forall_cons in He as [He _].
      constructor; [done|]. apply F2. eapply Forall_impl; [exact H1|]. cbn. lia.
    + exists false, s1, [CalledTask n (end_of (ts_tasks s) n) r1].
      do 5 (split; [done|]). split; [repeat constructor; by eexists|]. cbn [dues omap list_omap due_of].
      do 2 (split; [by repeat constructor|]). split; [|done].
      intros e He. rewrite E in He. apply Forall_cons in He as [He _]. by repeat constructor.
Qed.

(** *** Asynchronous callables *)

Lemma apply_async_same o s :
  match o with Async _ | CancelAll => False | _ => True end → ts_async (apply o s) = ts_async s.
Proof.
  destruct o; cbn [apply]; try done.
  intros _. revert s. induction groups as [|g gs IH]; intros s; cbn [fold_left]; [done|].
  by rewrite IH.
Qed.

Lemma fold_apply_ok B os s :
  1 <= B → good_async os → wf s →
  kept B (ts_now s) 0 s (fold_left (λ s o, apply o s) os s) ∧
  ts_async (fold_left (λ s o, apply o s) os s) = ts_async s.
Proof.
  intros HB Hg. revert s. induction Hg as [|o os [Ho1 Ho2] _ IH]; intros s Hwf; cbn [fold_left].
  { split; [apply kept_refl|done]. }
  pose proof (kept_apply B (ts_now s) o s HB ltac:(lia) Ho1 Hwf) as K.
  destruct (IH (apply o s)) as [K2 A2]; [by apply K|].
  rewrite (kept_now _ _ _ _ _ K) in K2. split.
  - apply (kept_trans B (ts_now s) 0 0 s (apply o s)); done.
  - rewrite A2. by apply apply_async_same.
Qed.

Lemma run_asyncs_eq fuel s :
  run_asyncs fuel s =
  match ts_async s with
  | [] => (Ret true, s)
  | c :: _ =>
      match fuel with
      | O => (Throw Diverged, s)
      | S fuel => (run_async c ;; ok ← valid; if (ok : bool) then run_asyncs fuel else mret false) s
      end
  end.
Proof.
  destruct fuel; cbn [run_asyncs]; unfold gets, mbind, M_bind; by destruct (ts_async s) as [|c l].
Qed.

Lemma run_async_ok B c (l : list callable) s :
  1 <= B → good_async (async_body c) → wf s → ts_async s = c :: l →
  ∃ s', run_async c s = (Ret (), s') ∧ wf s' ∧ ts_now s' = ts_now s ∧
    ts_predicate s' = ts_predicate s ∧ ts_calls s' = ts_calls s ++ [CalledAsync c] ∧
    ts_async s' = l ∧ load B s' <= load B s.
Proof.
  intros HB Hg Hwf E. destruct (fold_apply_ok B (async_body c) (log (CalledAsync c) s) HB Hg) as [K A];
    [by apply wf_log|].
  set (s1 := fold_left _ _ _) in *. exists (set_async l s1). split.
  { unfold run_async. rewrite bind_modify. fold s1. rewrite bind_gets, A. cbn [log ts_async].
    by rewrite E. }
  split; [by apply (kept_set_async B 0), K, wf_log|].
  split; [apply K|]. split; [apply K|]. split; [apply K|]. split; [done|].
  pose proof (kept_weight _ _ _ _ _ K (wf_log _ _ Hwf)) as W. cbn [log ts_now ts_tasks ts_holder] in W.
  cbn [set_async ts_now ts_tasks ts_holder]. rewrite (kept_now _ _ _ _ _ K).
  cbn [log ts_now]. lia.
Qed.

Lemma run_asyncs_ok B fuel s :
  1 <= B → (∀ c, good_async (async_body c)) → wf s → (length (ts_async s) <= fuel)%nat →
  ∃ r s' (l : list callable), run_asyncs fuel s = (Ret r, s') ∧ wf s' ∧ ts_now s' = ts_now s ∧
    ts_predicate s' = ts_predicate s ∧ ts_calls s' = ts_calls s ++ map CalledAsync l ∧
    load B s' <= load B s ∧
    (if r then l = ts_async s ∧ ts_async s' = []
     else ts_predicate s (ts_calls s') = false).
Proof.
  intros HB Hg. revert s. induction fuel as [|fuel IH]; intros s Hwf Hl; rewrite run_asyncs_eq;
    (destruct (ts_async s) as [|c l] eqn:E;
     [exists true, s, []; rewrite app_nil_r; do 5 (split; [done|]); split; [lia|done]|]);
    cbn [length] in Hl; [lia|].
  destruct (run_async_ok B c l s HB (Hg c) Hwf E) as (s1 & E1 & W1 & N1 & P1 & C1 & A1 & D1).
  rewrite (bind_run _ _ _ _ _ E1). unfold valid. rewrite bind_gets, P1.
  destruct (ts_predicate s (ts_calls s1)) eqn:V.
  - destruct (IH s1 W1) as (r & s' & l' & E2 & W2 & N2 & P2 & C2 & D2 & R2); [rewrite A1; lia|].
    exists r, s', (c :: l'). rewrite E2, N1, P1 in *. do 4 (split; [done|]).
    split; [by rewrite C2, C1, <- app_assoc|]. split; [lia|].
    destruct r; [|done]. destruct R2 as [-> ?]. by rewrite A1.
  - exists false, s1, [c]. do 5 (split; [done|]). by split.
Qed.

(** What one [Dispatch] comes to. *)
Lemma Dispatch_due (K : nat) (s : TS) :
  well_behaved K → wf s →
  ∃ enough, ∀ fuel, (enough <= fuel)%nat →
  ∃ finished s' asyncs called, Dispatch fuel s = (Ret finished, s') ∧ wf s' ∧
    ts_calls s' = ts_calls s ++ map CalledAsync asyncs ++ called ∧
    Forall (λ c, is_Some (due_of c)) called ∧
    StronglySorted Z.le (dues called) ∧ Forall (λ d, d <= ts_now s) (dues called) ∧
    (if finished
     then asyncs = ts_async s ∧
          Forall (λ n, ts_now s < end_of (ts_tasks s') n) (ts_holder s')
     else ts_predicate s (ts_calls s') = false).
Proof.
  intros Hb Hwf. set (B := Z.of_nat K + 1).
  pose proof (weight_nonneg B (ts_now s) (ts_tasks s) (ts_holder s) ltac:(lia)).
  exists (Nat.max (length (ts_async s)) (Z.to_nat (load B s))). intros fuel Hf.
  unfold Dispatch. unfold valid at 1. rewrite bind_gets.
  destruct (ts_predicate s (ts_calls s)) eqn:V; cbn [negb].
  2: { exists false, s, [], []. rewrite app_nil_r. do 3 (split; [done|]).
       split; [constructor|]. split; [constructor|]. by split; [constructor|]. }
  destruct (run_asyncs_ok B fuel s ltac:(lia) (proj2 Hb) Hwf ltac:(lia))
    as (r & s1 & l & E1 & W1 & N1 & P1 & C1 & D1 & R1).
  rewrite (bind_run _ _ _ _ _ E1). destruct r; cbn [negb].
  2: { exists false, s1, l, []. rewrite app_nil_r. do 3 (split; [done|]).
       split; [constructor|]. split; [constructor|]. by split; [constructor|]. }
  destruct (run_tasks_ok K fuel s1 Hb W1 ltac:(fold B; lia))
    as (r & s' & new & E2 & W2 & N2 & P2 & C2 & T2 & S2 & D2 & _ & R2).
  exists r, s', l, new. split; [done|]. split; [done|]. split; [by rewrite C2, C1, <- app_assoc|].
  split; [done|]. split; [done|]. rewrite N1 in *. split; [done|].
  destruct r; [by destruct R1|]. by rewrite P1 in R2.
Qed.

(** ** The calls replayed

    What the calls do, apart from the loops that make them: an asynchronous
    callable at the front runs and is taken off; the task at the front of the queue,
    which is due, is taken off and its handler's commands are carried out. *)

Inductive replays : list (call callable) → TS → TS → Prop :=
  | replays_nil s : replays [] s s
  | replays_async c d (l rest : list callable) cs s s1 s2 :
      ts_async s = c :: l →
      fold_left (λ s o, apply o s) (async_body c) (log (CalledAsync c) s) = s1 →
      ts_async s1 = d :: rest → replays cs (set_async rest s1) s2 →
      replays (CalledAsync c :: cs) s s2
  | replays_task n t l cs context s s1 s2 :
      ts_holder s = n :: l → ts_tasks s !! n = Some t → t_end t <= ts_now s →
      run_commands (body (t_task t) (t_repeated t) (t_group t))
        (mkContext n false, log (CalledTask n (t_end t) (t_repeated t)) (Pop s)) =
        (Ret (), (context, s1)) →
      replays cs s1 s2 → replays (CalledTask n (t_end t) (t_repeated t) :: cs) s s2.

Lemma replays_app cs1 cs2 s1 s2 s3 :
  replays cs1 s1 s2 → replays cs2 s2 s3 → replays (cs1 ++ cs2) s1 s3.
Proof.
  intros H1 H2. induction H1; cbn [app];
  [done|eapply replays_async; eauto|eapply replays_task; eauto].
Qed.

Lemma apply_calls o s : ts_calls (apply o s) = ts_calls s.
Proof.
  destruct o; try done. cbn [apply]. revert s.
  induction groups as [|g gs IH]; intros s; cbn [fold_left]; [done|]. by rewrite IH.
Qed.

Lemma fold_apply_calls os s : ts_calls (fold_left (λ s o, apply o s) os s) = ts_calls s.
Proof. revert s. induction os as [|o os IH]; intros s; cbn [fold_left]; [done|]. by rewrite IH, apply_calls. Qed.

Lemma run_commands_calls ks c s c' s' :
  run_commands ks (c, s) = (Ret (), (c', s')) → ts_calls s' = ts_calls s.
Proof.
  revert c s. induction ks as [|k ks IH]; intros c s E; cbn [run_commands] in E; [by injection E as <- <-|].
  apply bind_ret_inv in E as ([] & [c1 s1] & E1 & E). rewrite (IH _ _ E). clear IH E.
  destruct k as [d|g| |time g task|o]; cbn [run_command] in E1;
    try (injection E1 as <- <-; done); [|injection E1 as <- <-; apply apply_calls].
  rewrite bind_gets in E1. cbn [fst] in E1. destruct (tc_consumed c); [done|].
  by injection E1 as <- <-.
Qed.

Lemma run_asyncs_replays fuel s r s' :
  run_asyncs fuel s = (Ret r, s') →
  ∃ cs, ts_calls s' = ts_calls s ++ cs ∧ replays cs s s'.
Proof.
  revert s. induction fuel as [|fuel IH]; intros s E; rewrite run_asyncs_eq in E;
    (destruct (ts_async s) as [|c l] eqn:El;
     [injection E as <- <-; exists []; rewrite app_nil_r; split; [done|constructor]|]); [done|].
  apply bind_ret_inv in E as ([] & s2 & E1 & E). unfold run_async in E1. rewrite bind_modify, bind_gets in E1.
  set (s1 := fold_left _ _ _) in E1. destruct (ts_async s1) as [|d rest] eqn:Ed; [done|].
  injection E1 as <-. unfold valid in E. rewrite bind_gets in E.
  assert (ts_calls s1 = ts_calls s ++ [CalledAsync c]) as C1 by apply fold_apply_calls.
  assert (∀ cs, replays cs (set_async rest s1) s' → replays (CalledAsync c :: cs) s s') as R
    by (intros cs; by apply (replays_async c d l rest)).
  destruct (ts_predicate _ _).
  - apply IH in E as (cs & C & Rs). exists (CalledAsync c :: cs). split; [|by apply R].
    rewrite C. cbn [set_async ts_calls]. by rewrite C1, <- app_assoc.
  - injection E as <- <-. exists [CalledAsync c]. split; [done|]. apply R. constructor.
Qed.

Lemma run_tasks_replays fuel s r s' :
  run_tasks fuel s = (Ret r, s') →
  ∃ cs, ts_calls s' = ts_calls s ++ cs ∧ replays cs s s'.
Proof.
  revert s. induction fuel as [|fuel IH]; intros s E; rewrite run_tasks_eq in E;
    (destruct (ts_holder s) as [|n l] eqn:El;
     [injection E as <- <-; exists []; rewrite app_nil_r; split; [done|constructor]|]);
    (destruct (Z.ltb_spec (ts_now s) (end_of (ts_tasks s) n)) as [|Hdue];
     [injection E as <- <-; exists []; rewrite app_nil_r; split; [done|constructor]|]); [done|].
  apply bind_ret_inv in E as ([] & s1 & E1 & E). unfold Invoke in E1.
  change (ts_tasks (Pop s)) with (ts_tasks s) in E1.
  destruct (ts_tasks s !! n) as [t|] eqn:Et; [|done].
  destruct (run_commands _ _) as [o [c s2]] eqn:Er. injection E1 as -> <-.
  unfold valid in E. rewrite bind_gets in E.
  assert (t_end t <= ts_now s) as Hd by (unfold end_of in Hdue; by rewrite Et in Hdue).
  pose proof (run_commands_calls _ _ _ _ _ Er) as C1. cbn [log Pop set_queue ts_calls] in C1.
  assert (∀ cs, replays cs s2 s' → replays (CalledTask n (t_end t) (t_repeated t) :: cs) s s') as R
    by (intros cs; by apply (replays_task n t l cs c)).
  destruct (ts_predicate _ _).
  - apply IH in E as (cs & C & Rs). exists (CalledTask n (t_end t) (t_repeated t) :: cs).
    split; [|by apply R]. by rewrite C, C1, <- app_assoc.
  - injection E as <- <-. eexists [_]. split; [done|]. apply R. constructor.
Qed.

Lemma Dispatch_replays fuel s r s' :
  Dispatch fuel s = (Ret r, s') → ∃ cs, ts_calls s' = ts_calls s ++ cs ∧ replays cs s s'.
Proof.
  unfold Dispatch. unfold valid at 1. rewrite bind_gets. intros E.
  destruct (negb _); [injection E as <- <-; exists []; rewrite app_nil_r; split; [done|constructor]|].
  apply bind_ret_inv in E as (ok & s1 & E1 & E). apply run_asyncs_replays in E1 as (cs1 & C1 & R1).
  destruct (negb ok).
  - injection E as <- <-. by exists cs1.
  - apply run_tasks_replays in E as (cs2 & C2 & R2). exists (cs1 ++ cs2).
    split; [by rewrite C2, C1, <- app_assoc|by eapply replays_app].
Qed.

(** *** Clients that leave planned tasks alone: nothing is cancelled, put off or
    planned anew *)

Definition adds_only (o : operation handler callable) : Prop :=
  match o with Async _ | Schedule _ _ _ => True | _ => False end.

Definition quiet : Prop :=
  (∀ h r g, Forall (λ k, match k with OnScheduler o => adds_only o | _ => True end) (body h r g)) ∧
  (∀ c, Forall adds_only (async_body c)).

(** A task still planned as it was. *)
Definition planned (n : nat) (t : Task handler) (s : TS) : Prop :=
  n ∈ ts_holder s ∧ ts_tasks s !! n = Some t ∧ (n < ts_fresh s)%nat.

Lemma planned_InsertTask n t u s : planned n t s → planned n t (InsertTask u s).
Proof.
  intros (H1 & H2 & H3). split; [|split]; cbn.
  - rewrite insert_perm. by right.
  - by rewrite lookup_insert_ne by lia.
  - lia.
Qed.

Lemma planned_fold n t os s :
  Forall adds_only os → planned n t s → planned n t (fold_left (λ s o, apply o s) os s).
Proof.
  intros Hos. revert s. induction Hos as [|o os Ho _ IH]; intros s Hp; cbn [fold_left]; [done|].
  apply IH. destruct o; try done. by apply planned_InsertTask.
Qed.

Lemma planned_commands n t m ks b s c' s' :
  n ≠ m → Forall (λ k, match k with OnScheduler o => adds_only o | _ => True end) ks →
  planned n t s → run_commands ks (mkContext m b, s) = (Ret (), (c', s')) → planned n t s'.
Proof.
  intros Hn Hks. revert b s. induction Hks as [|k ks Hk _ IH]; intros b s Hp E;
    cbn [run_commands] in E; [by injection E as <- <-|].
  apply bind_ret_inv in E as ([] & [c1 s1] & E1 & E).
  assert (∀ f, planned n t (alter_task f m s)) as Halter.
  { intros f. destruct Hp as (H1 & H2 & H3). split; [done|]. split; [|done].
    cbn. by rewrite lookup_alter_ne. }
  enough (∃ b', c1 = mkContext m b' ∧ planned n t s1) as (b' & -> & Hp1) by (by eapply IH).
  destruct k as [d|g| |time g task|o]; cbn [run_command tc_task] in E1.
  - rewrite bind_gets in E1. cbn [fst tc_consumed] in E1. destruct b; [done|].
    injection E1 as <- <-. exists true. split; [done|]. destruct (Halter (repeat_task d)) as (H1 & H2 & H3).
    split; [|done]. cbn. rewrite insert_perm. by right.
  - injection E1 as <- <-. by exists b.
  - injection E1 as <- <-. by exists b.
  - injection E1 as <- <-. exists b. split; [done|]. by apply planned_InsertTask.
  - injection E1 as <- <-. exists b. split; [done|]. by apply (planned_fold n t [o]); [constructor|].
Qed.

(** A task planned is called as it was planned, or is still planned. *)
Lemma planned_called cs s s' n t :
  quiet → replays cs s s' → planned n t s →
  CalledTask n (t_end t) (t_repeated t) ∈ cs ∨ planned n t s'.
Proof.
  intros [Qb Qa] R. induction R as [s|c d l rest cs s s1 s2 _ E1 _ _ IH|
    m u l cs ctx s s1 s2 E1 E2 E3 E4 _ IH]; intros Hp; [by right| |].
  - destruct IH as [Hc|Hp']; [|left; by right|by right]. rewrite <- E1.
    by apply (planned_fold n t (async_body c) (log (CalledAsync c) s)).
  - destruct (decide (n = m)) as [->|Hn].
    { destruct Hp as (_ & Hp & _). simplify_eq. left. by left. }
    destruct IH as [Hc|Hp']; [|left; by right|by right].
    eapply (planned_commands n t m); [done|apply Qb| |exact E4].
    destruct Hp as (H1 & H2 & H3). split; [|by split]. cbn. rewrite E1 in H1 |- *.
    by apply elem_of_cons in H1 as [|].
Qed.


(** ** A task that repeats itself

    [context.Repeat()] counts from the time the task was due, not from the time it
    ran, so ticks are neither lost nor shifted by late updates. *)

Fixpoint Updates (fuel : nat) (difftimes : list Z) : SM () :=
  match difftimes with
  | [] => mret ()
  | d :: ds => Update fuel d ;; Updates fuel ds
  end.

Section periodic.
Context (h : handler) (Hh : ∀ r g, body h r g = [Repeat None]).
Context (start period : Z) (Hperiod : 0 < period).

Definition tick (i : nat) : call callable :=
  CalledTask 0%nat (start + (Z.of_nat i + 1) * period) (u32 (Z.of_nat i)).

(** The scheduler after [k] ticks. *)
Definition ticked (k : nat) (now : Z) : TS :=
  mkTS now {[0%nat := mkTask (start + (Z.of_nat k + 1) * period) period None (u32 (Z.of_nat k)) h]}
    1 [0%nat] [] (λ _, true) (map tick (seq 0 k)).

Lemma ticked_0 : apply (Schedule period None h) (new start) = ticked 0 start.
Proof.
  unfold ticked. replace (start + (Z.of_nat 0 + 1) * period) with (start + period) by lia.
  reflexivity.
Qed.

Lemma Repeat_once d n s :
  run_commands [Repeat d] (mkContext n false, s) =
    (Ret (), (mkContext n true, Push n (alter_task (repeat_task d) n s))).
Proof. reflexivity. Qed.

Lemma run_tasks_ticked fuel k n now :
  start + Z.of_nat n * period <= now < start + (Z.of_nat n + 1) * period →
  (k <= n <= fuel + k)%nat →
  run_tasks fuel (ticked k now) = (Ret true, ticked n now).
Proof using Hh Hperiod.
  intros Hn. revert k. induction fuel as [|fuel IH]; intros k Hk; rewrite run_tasks_eq;
    cbn [ticked ts_holder ts_now ts_tasks]; unfold end_of at 1; rewrite lookup_singleton_eq;
    cbn [fmap option_fmap option_map default t_end id].
  - assert (k = n) as -> by lia. by rewrite (proj2 (Z.ltb_lt _ _)) by lia.
  - destruct (decide (k = n)) as [->|Hd]; [by rewrite (proj2 (Z.ltb_lt _ _)) by lia|].
    rewrite (proj2 (Z.ltb_ge _ _)) by nia.
    rewrite <- (IH (S k)) by lia.
    assert (Invoke 0%nat (Pop (ticked k now)) = (Ret (), ticked (S k) now)) as E.
    { unfold Invoke, Pop, ticked. cbn [set_queue ts_tasks tail ts_holder].
      rewrite lookup_singleton_eq. cbn [t_task t_repeated t_group t_end].
      rewrite Hh, Repeat_once. unfold Push, alter_task, log.
      cbn [set_queue ts_tasks ts_holder insert ts_now ts_fresh ts_async ts_predicate ts_calls].
      rewrite alter_singleton_eq. unfold repeat_task.
      cbn [t_duration t_end t_group t_repeated t_task default].
      assert (start + (Z.of_nat k + 1) * period + period = start + (Z.of_nat (S k) + 1) * period)
        as -> by lia.
      assert (u32 (u32 (Z.of_nat k) + 1) = u32 (Z.of_nat (S k))) as ->
        by (unfold wrap; rewrite Zplus_mod_idemp_l; f_equal; lia).
      by rewrite seq_S, map_app. }
    rewrite (bind_run _ _ _ _ _ E). unfold valid. by rewrite bind_gets.
Qed.

Lemma Update_ticked fuel k n now d :
  let now' := now + d in
  start + Z.of_nat n * period <= now' < start + (Z.of_nat n + 1) * period →
  (k <= n <= fuel + k)%nat →
  Update fuel d (ticked k now) = (Ret true, ticked n now').
Proof using Hh Hperiod.
  intros now' Hn Hk. unfold Update. rewrite bind_modify. unfold Dispatch, valid. rewrite bind_gets.
  cbn [ticked set_now ts_predicate negb].
  assert (run_asyncs fuel (ticked k now') = (Ret true, ticked k now')) as E
    by (by rewrite run_asyncs_eq).
  change (mkTS _ _ _ _ _ _ _) with (ticked k now').
  rewrite (bind_run _ _ _ _ _ E). cbn [negb]. by apply run_tasks_ticked.
Qed.

Lemma Updates_ticked fuel (k : nat) (at_ : Z) (ds : list Z) :
  start + Z.of_nat k * period <= at_ < start + (Z.of_nat k + 1) * period → Forall (Z.le 0) ds →
  let now := at_ + fold_right Z.add 0 ds in
  let n := Z.to_nat ((now - start) / period) in
  (n <= fuel)%nat →
  Updates fuel ds (ticked k at_) = (Ret (), ticked n now).
Proof using Hh Hperiod.
  intros Hk Hds. revert k at_ Hk. induction Hds as [|d ds Hd Hds IH];
    intros k at_ Hk now n Hf; cbn [Updates fold_right] in *.
  - subst n now. rewrite Z.add_0_r in *.
    assert ((at_ - start) / period = Z.of_nat k) as ->
      by (symmetry; apply (Z.div_unique _ _ _ (at_ - start - Z.of_nat k * period)); nia).
    by rewrite Nat2Z.id.
  - set (m := Z.to_nat ((at_ + d - start) / period)).
    pose proof (Z.div_mod (at_ + d - start) period ltac:(lia)).
    pose proof (Z.mod_pos_bound (at_ + d - start) period Hperiod).
    assert (0 <= fold_right Z.add 0 ds) by (clear -Hds; induction Hds; cbn; lia).
    assert (Z.of_nat k <= (at_ + d - start) / period) by (apply Z.div_le_lower_bound; nia).
    assert ((at_ + d - start) / period <= (now - start) / period) by (apply Z.div_le_mono; lia).
    assert (start + Z.of_nat m * period <= at_ + d < start + (Z.of_nat m + 1) * period) as Hm
      by (unfold m; rewrite Z2Nat.id by lia; nia).
    rewrite (bind_run _ _ _ _ _ (Update_ticked fuel k m at_ d Hm ltac:(lia))).
    subst n now. rewrite Z.add_assoc in *. by apply (IH m (at_ + d) Hm).
Qed.

(** A task that repeats itself, such as the one that keeps the database
    connection alive, is called exactly once for every multiple of its period
    that passes, with its repeat counter and at the times it was due, however the
    updates cut the time. *)
Theorem periodic_exact (fuel : nat) (difftimes : list Z) :
  let now := start + fold_right Z.add 0 difftimes in
  let ticks := Z.to_nat ((now - start) / period) in
  Forall (Z.le 0) difftimes → (ticks <= fuel)%nat →
  ∃ s, Updates fuel difftimes (apply (Schedule period None h) (new start)) = (Ret (), s) ∧
    ts_now s = now ∧ ts_calls s = map tick (seq 0 ticks).
Proof using Hh Hperiod.
  intros now ticks Hds Hf. rewrite ticked_0. exists (ticked ticks now).
  split; [|done]. apply Updates_ticked; [nia|done|done].
Qed.
End periodic.
End scheduler.

(** A client with a task that repeats itself and plans others, one that cancels a
    group and one that does nothing. *)
Definition demo_body (h : nat) (repeated : Z) (group : option Z) : list (command nat nat) :=
  match h with
  | O => [ContextSchedule 3 (Some 7) 2%nat; Repeat (Some 10); OnScheduler (DelayGroup 7 2)]
  | S O => [OnScheduler (CancelGroup 7); OnScheduler (Async 5%nat)]
  | _ => []
  end.
Definition demo_async (c : nat) : list (operation nat nat) := [Schedule 1 None 2%nat].

Definition demo_scheduler : TaskScheduler nat nat :=
  set_now 30 (apply (Async 4%nat) (apply (Schedule 25 None 1%nat) (apply (Schedule 5 None 0%nat) (new 0)))).

Lemma demo_wf : wf demo_scheduler.
Proof.
  assert (∀ v (s : TaskScheduler nat nat), wf s → wf (set_now v s)) as H' by (by intros v s []; split).
  apply H'. do 3 (apply wf_apply; [done|]). apply wf_new.
Qed.

Example demo_calls :
  ts_calls (exec (Dispatch demo_body demo_async 20) demo_scheduler) =
  [CalledAsync 4; CalledTask 0 5 0; CalledTask 3 10 0; CalledTask 0 15 1; CalledTask 4 20 0;
   CalledTask 1 25 0; CalledTask 0 25 2; CalledTask 5 30 0]%nat.
Proof. vm_compute. reflexivity. Qed.


(** Half an hour, in updates of up to three hours. *)
Lemma periodic_exact_witness :
  ∃ s, Updates (λ _ _ _, [Repeat None]) (λ _ : nat, []) 20 [100; 1700; 5; 10795; 0; 1799]
         (apply (Schedule 1800 None tt) (new 50)) = (Ret (), s) ∧
    ts_now s = 50 + 14399 ∧ ts_calls s = map (tick 50 1800) (seq 0 7).
Proof.
  apply (periodic_exact (λ _ _ _, [Repeat None]) (λ _ : nat, []) tt (λ _ _, eq_refl) 50 1800
    ltac:(lia) 20 [100; 1700; 5; 10795; 0; 1799]).
  - repeat constructor; lia.
  - vm_compute. lia.
Defined.

(** [Async] is said to be safe for callables that change the scheduler; one that
    cancels everything leaves an empty queue to pop. *)
Example async_cancel_all :
  (Dispatch (λ (_ : ()) _ _, []) (λ _ : (), [CancelAll]) 5 (apply (Async tt) (new 0))).1 = UB.
Proof. by vm_compute. Qed.
End Scheduler.
