(* ===== verification/TaskContexts.v ===== *)
(** * TaskContexts: the scheduler through a task's context, and random durations

    The rest of [TaskScheduler.h] and [TaskScheduler.cpp] under
    [src/src/common/Utilities]: a context holds its scheduler weakly and forwards to
    it, and most operations have a form that draws their duration.  Durations are
    counts of the steady clock, which has [per_ms] of them in a millisecond. *)

From S2P Require Import Prelude Utf8 Containers Scheduler.
Open Scope Z_scope.

Module TaskContexts.
Section contexts.
Context {handler callable : Type}.

Abbreviation TS := (TaskScheduler handler callable).
Abbreviation CM := (M diverged (TaskContext * TS)).

(** *** Forwarding *)

(** [_owner.lock()] fails when the scheduler is gone. *)
Definition IsExpired (owner : bool) : bool := negb owner.

Definition Dispatch (owner : bool) (apply : TS → TS) : CM () :=
  if owner then modify (λ s : TaskContext * TS, (s.1, apply s.2)) else skip.

Definition IsInGroup (group : Z) (s : TaskContext * TS) : bool :=
  match ts_tasks s.2 !! tc_task s.1 with
  | Some task => Scheduler.IsInGroup group task
  | None => false
  end.

Definition Async (owner : bool) (c : callable) : CM () :=
  Dispatch owner (Scheduler.apply (Async c)).
Definition CancelAll (owner : bool) : CM () := Dispatch owner (Scheduler.apply CancelAll).
Definition CancelGroup (owner : bool) (group : Z) : CM () :=
  Dispatch owner (Scheduler.apply (CancelGroup group)).
Definition CancelGroupsOf (owner : bool) (groups : list Z) : CM () :=
  Dispatch owner (Scheduler.apply (CancelGroupsOf groups)).
Definition DelayAll (owner : bool) (duration : Z) : CM () :=
  Dispatch owner (Scheduler.apply (DelayAll duration)).
Definition DelayGroup (owner : bool) (group duration : Z) : CM () :=
  Dispatch owner (Scheduler.apply (DelayGroup group duration)).
Definition RescheduleAll (owner : bool) (duration : Z) : CM () :=
  Dispatch owner (Scheduler.apply (RescheduleAll duration)).
Definition RescheduleGroup (owner : bool) (group duration : Z) : CM () :=
  Dispatch owner (Scheduler.apply (RescheduleGroup group duration)).

Definition AssertOnConsumed : CM () :=
  consumed ← gets (λ s : TaskContext * TS, tc_consumed s.1);
  assert_ (negb consumed).

(** While the scheduler is there, a context does what [run_command] says. *)
Lemma forwarded (o : operation handler callable) s :
  Dispatch true (Scheduler.apply o) s = Scheduler.run_command (OnScheduler o) s.
Proof. done. Qed.

(** A handler that outlives its scheduler changes nothing through its context. *)
Lemma expired_does_nothing apply s : Dispatch false apply s = (Ret (), s).
Proof. done. Qed.

(** *** Random durations *)

Context {G : Type} {GG : Generator G} (per_ms : Z).

(** Both bounds in whole milliseconds, of which the low 32 bits are taken. *)
Definition RandomDurationBetween (min max : Z) : M Empty_set G Z :=
  let milli_min := Z.quot min per_ms in
  let milli_max := Z.quot max per_ms in
  d ← Random.urand (u32 milli_min) (u32 milli_max);
  mret (d * per_ms).

(** An operation of the scheduler with a duration that is drawn first. *)
Definition drawn (min max : Z) (o : Z → operation handler callable) : M Empty_set (G * TS) () :=
  λ '(g, s),
  match RandomDurationBetween min max g with
  | (Ret d, g) => (Ret (), (g, Scheduler.apply (o d) s))
  | (AssertFail, g) => (AssertFail, (g, s))
  | (_, g) => (UB, (g, s))
  end.

Definition Schedule_between (min max : Z) (group : option Z) (task : handler) :=
  drawn min max (λ time, Schedule time group task).
Definition DelayAll_between (min max : Z) := drawn min max (@Scheduler.DelayAll handler callable).
Definition DelayGroup_between (group min max : Z) :=
  drawn min max (@Scheduler.DelayGroup handler callable group).
Definition RescheduleAll_between (min max : Z) :=
  drawn min max (@Scheduler.RescheduleAll handler callable).
Definition RescheduleGroup_between (group min max : Z) :=
  drawn min max (@Scheduler.RescheduleGroup handler callable group).

(** The same from within a task. *)
Definition context_drawn (min max : Z) (c : Z → command handler callable) :
    M diverged (G * (TaskContext * TS)) () := λ '(g, s),
  match RandomDurationBetween min max g with
  | (Ret d, g) => let '(o, s) := Scheduler.run_command (c d) s in (o, (g, s))
  | (AssertFail, g) => (AssertFail, (g, s))
  | (_, g) => (UB, (g, s))
  end.

Definition Repeat_between (min max : Z) := context_drawn min max (λ d, Repeat (Some d)).
Definition ContextSchedule_between (min max : Z) (group : option Z) (task : handler) :=
  context_drawn min max (λ time, ContextSchedule time group task).
Definition ContextDelayAll_between (min max : Z) :=
  context_drawn min max (λ d, OnScheduler (Scheduler.DelayAll d)).
Definition ContextDelayGroup_between (group min max : Z) :=
  context_drawn min max (λ d, OnScheduler (Scheduler.DelayGroup group d)).
Definition ContextRescheduleAll_between (min max : Z) :=
  context_drawn min max (λ d, OnScheduler (Scheduler.RescheduleAll d)).
Definition ContextRescheduleGroup_between (group min max : Z) :=
  context_drawn min max (λ d, OnScheduler (Scheduler.RescheduleGroup group d)).

Context {Laws : GeneratorLaws G}.

Lemma RandomDurationBetween_run min max g :
  0 < per_ms → 0 <= min <= max → max / per_ms < 2 ^ 32 →
  ∃ n g', RandomDurationBetween min max g = (Ret (n * per_ms), g') ∧
    min / per_ms <= n <= max / per_ms.
Proof using Laws.
  intros Hp Hm Hw. unfold RandomDurationBetween. rewrite !Z.quot_div_nonneg by lia.
  assert (0 <= min / per_ms) by (apply Z.div_pos; lia).
  assert (min / per_ms <= max / per_ms) by (apply Z.div_le_mono; lia).
  rewrite !wrap_small by lia.
  destruct (Random.urand_run (min / per_ms) (max / per_ms) g ltac:(lia)) as (d & g' & E & R).
  rewrite (bind_run _ _ _ _ _ E). by exists d, g'.
Qed.

(** An operation with a random duration is the operation with some whole number
    of milliseconds between the bounds, as long as these fit 32 bits. *)
Lemma drawn_between min max o g s :
  0 < per_ms → 0 <= min <= max → max / per_ms < 2 ^ 32 →
  ∃ n g', drawn min max o (g, s) = (Ret (), (g', Scheduler.apply (o (n * per_ms)) s)) ∧
    min / per_ms <= n <= max / per_ms.
Proof using Laws.
  intros Hp Hm Hw. destruct (RandomDurationBetween_run min max g Hp Hm Hw) as (n & g' & E & R).
  exists n, g'. split; [|done]. unfold drawn. by rewrite E.
Qed.

(** Of an upper bound of 2^32 milliseconds, some fifty days, nothing is left, and
    the assertion on the bounds ends the server. *)
Lemma long_range_asserts min o g s :
  0 < per_ms → per_ms <= min < 2 ^ 32 * per_ms →
  drawn min (2 ^ 32 * per_ms) o (g, s) = (AssertFail, (g, s)).
Proof using.
  intros Hp Hm. unfold drawn, RandomDurationBetween. rewrite !Z.quot_div_nonneg by lia.
  rewrite Z.div_mul by lia.
  assert (1 <= min / per_ms) by (apply Z.div_le_lower_bound; lia).
  assert (min / per_ms < 2 ^ 32) by (apply Z.div_lt_upper_bound; lia).
  rewrite (wrap_small _ (min / per_ms)) by lia.
  unfold mbind, M_bind. rewrite Random.urand_empty; [done|].
  change (u32 (2 ^ 32)) with 0. lia.
Qed.
End contexts.
End TaskContexts.
