(* ===== verification/World.v ===== *)
(** * World: the server's sessions and its shutdown

    Model of [Discord.h]/[.cpp] under [src/src/server/Discord] and of
    [UpdateTime] under [src/src/server/Time].  A session is kept with its socket,
    any type with the interface of [Session]; sockets let go of by the server stay
    with the network and are recorded in [w_released].  The order in which the
    unordered map of sessions is walked is an argument.

    The database, the bot and the scheduler that [Discord::Update] also updates
    are modelled elsewhere or not at all. *)

From S2P Require Import Prelude MessageBuffer Utf8 Strings BigNumber Srp6 Timer Enums ByteBuffer Wire Packets.
From S2P Require Import Queues Async Socket Session DiscordSocket.
Open Scope Z_scope.

(** Exit codes. *)
Definition SHUTDOWN_EXIT_CODE : Z := 0.
Definition ERROR_EXIT_CODE : Z := 1.
Definition RESTART_EXIT_CODE : Z := 2.

Record World (S : Type) := mkWorld {
  w_stopEvent : bool;
  w_exitCode : Z;
  w_shutdownTimer : Z;
  w_isClosed : bool;
  w_sessions : gmap Z (DiscordSession * S);
  w_maxActiveSessionCount : Z;
  w_sessionCount : Z;
  w_maxSessionCount : Z;
  w_GameTime : Z;
  w_released : list S;
  w_messages : list Z
}.
Arguments mkWorld {S}.
Arguments w_stopEvent {S}.
Arguments w_exitCode {S}.
Arguments w_shutdownTimer {S}.
Arguments w_isClosed {S}.
Arguments w_sessions {S}.
Arguments w_maxActiveSessionCount {S}.
Arguments w_sessionCount {S}.
Arguments w_maxSessionCount {S}.
Arguments w_GameTime {S}.
Arguments w_released {S}.
Arguments w_messages {S}.

(** The socket of a server connection seen by its session. *)
#[export] Instance DiscordSocket_session : SessionSocket DS.st := {
  sock_IsOpen s := SocketOps.IsOpen s.1;
  sock_SendPacket := DS.SendPacket;
  sock_CloseSocket := DS.CloseSocket
}.

#[export] Instance DiscordSocket_session_laws : SessionSocketLaws DS.st.
Proof.
  split; [|done]. intros [sk d]. cbn [sock_IsOpen sock_CloseSocket DiscordSocket_session].
  unfold DS.CloseSocket, SocketOps.CloseSocket, SocketOps.IsOpen.
  destruct (sk_closed sk) eqn:E; cbn; by rewrite ?E.
Qed.

Module Discord.
Section world.
Context {H : Host} {S : Type} {SS : SessionSocket S}.
Implicit Types w : World S.

Definition set_sessions (v : gmap Z (DiscordSession * S)) (released : list S) (w : World S) : World S :=
  mkWorld (w_stopEvent w) (w_exitCode w) (w_shutdownTimer w) (w_isClosed w) v
    (w_maxActiveSessionCount w) (w_sessionCount w) (w_maxSessionCount w) (w_GameTime w)
    released (w_messages w).
Definition set_shutdown (stop : bool) (code timer : Z) (w : World S) : World S :=
  mkWorld stop code timer (w_isClosed w) (w_sessions w) (w_maxActiveSessionCount w)
    (w_sessionCount w) (w_maxSessionCount w) (w_GameTime w) (w_released w) (w_messages w).
Definition set_GameTime (v : Z) (w : World S) : World S :=
  mkWorld (w_stopEvent w) (w_exitCode w) (w_shutdownTimer w) (w_isClosed w) (w_sessions w)
    (w_maxActiveSessionCount w) (w_sessionCount w) (w_maxSessionCount w) v (w_released w)
    (w_messages w).
Definition set_counts (active count max : Z) (w : World S) : World S :=
  mkWorld (w_stopEvent w) (w_exitCode w) (w_shutdownTimer w) (w_isClosed w) (w_sessions w)
    active count max (w_GameTime w) (w_released w) (w_messages w).

(** The constructor, with the time the process starts. *)
Definition new (now : Z) : World S :=
  mkWorld false SHUTDOWN_EXIT_CODE 0 false ∅ 0 0 0 now [] [].

Definition IsClosed (w : World S) : bool := w_isClosed w.
Definition SetClosed (val : bool) (w : World S) : World S :=
  mkWorld (w_stopEvent w) (w_exitCode w) (w_shutdownTimer w) val (w_sessions w)
    (w_maxActiveSessionCount w) (w_sessionCount w) (w_maxSessionCount w) (w_GameTime w)
    (w_released w) (w_messages w).

(** *** Sessions *)

Definition sessionsSize (w : World S) : Z := Z.of_nat (size (w_sessions w)).
Definition GetActiveSessionCount (w : World S) : Z := u32 (sessionsSize w).

Definition FindSession (id : Z) (w : World S) : option (DiscordSession * S) := w_sessions w !! id.

Definition KickSession (id : Z) (w : World S) : World S :=
  match w_sessions w !! id with
  | Some (session, sock) =>
      set_sessions (<[id := Session.KickSession false session sock]> (w_sessions w)) (w_released w) w
  | None => w
  end.

(** [delete session]: the destructor closes a socket that is still held. *)
Definition delete_session (e : DiscordSession * S) : S :=
  if s_socket e.1 then sock_CloseSocket e.2 else e.2.

Definition UpdateMaxSessionCounters (w : World S) : World S :=
  set_counts (Z.max (w_maxActiveSessionCount w) (sessionsSize w)) (w_sessionCount w)
    (w_maxSessionCount w) w.

Definition AddSession (session : DiscordSession) (sock : S) (w : World S) : World S :=
  let id := s_accountId session in
  let w := KickSession id w in
  let w :=
    match w_sessions w !! id with
    | Some old => set_sessions (delete id (w_sessions w)) (w_released w ++ [delete_session old]) w
    | None => w
    end in
  let w := set_sessions (<[id := (session, sock)]> (w_sessions w)) (w_released w) w in
  let w := UpdateMaxSessionCounters w in
  let sock := Session.SendAuthResponse DiscordAuthResponseCodes.Ok session sock in
  set_sessions (<[id := (session, sock)]> (w_sessions w)) (w_released w) w.

Definition IncreaseSessionCount (w : World S) : World S :=
  let n := u32 (w_sessionCount w + 1) in
  set_counts (w_maxActiveSessionCount w) n (Z.max (w_maxSessionCount w) n) w.
Definition DecreaseSessionCount (w : World S) : World S :=
  set_counts (w_maxActiveSessionCount w) (u32 (w_sessionCount w - 1)) (w_maxSessionCount w) w.

(** The sessions are kicked and forgotten, not deleted. *)
Definition KickAll (order : list Z) (w : World S) : World S :=
  let kicked := omap (λ id, w_sessions w !! id) order in
  set_sessions ∅
    (w_released w ++ map (λ e : DiscordSession * S, (Session.KickSession true e.1 e.2).2) kicked) w.

(** [~Discord]: the sessions that are still in the map are deleted. *)
Definition destroy (order : list Z) (w : World S) : World S :=
  set_sessions ∅ (w_released w ++ map delete_session (omap (λ id, w_sessions w !! id) order)) w.

(** The loop of [UpdateSessions] over the accounts in the order of the map. *)
Fixpoint UpdateSessions (order : list Z) : M exn (World S) () := λ w,
  match order with
  | [] => (Ret (), w)
  | id :: order =>
      match w_sessions w !! id with
      | None => (UB, w)
      | Some (session, sock) =>
          match Session.Update sock session with
          | (Ret alive, session) =>
              UpdateSessions order
                (if alive
                 then set_sessions (<[id := (session, sock)]> (w_sessions w)) (w_released w) w
                 else set_sessions (delete id (w_sessions w))
                        (w_released w ++ [delete_session (session, sock)]) w)
          | (Throw e, _) => (Throw e, w)
          | (AssertFail, _) => (AssertFail, w)
          | (UB, _) => (UB, w)
          end
      end
  end.

(** *** Shutdown *)

Definition IsStopped (w : World S) : bool := w_stopEvent w.
Definition IsShuttingDown (w : World S) : bool := 0 <? w_shutdownTimer w.
Definition StopNow (exitcode : Z) (w : World S) : World S :=
  set_shutdown true exitcode (w_shutdownTimer w) w.

Definition MINUTE : Z := 60.
Definition HOUR : Z := 3600.

Definition shows (show : bool) (timer : Z) : bool :=
  show || ((timer <? 5 * MINUTE) && (Z.rem timer 15 =? 0))
  || ((timer <? 15 * MINUTE) && (Z.rem timer MINUTE =? 0))
  || ((timer <? 30 * MINUTE) && (Z.rem timer (5 * MINUTE) =? 0))
  || ((timer <? 12 * HOUR) && (Z.rem timer HOUR =? 0))
  || ((12 * HOUR <? timer) && (Z.rem timer (12 * HOUR) =? 0)).

Definition ShutdownMsg (show : bool) (w : World S) : World S :=
  if shows show (w_shutdownTimer w)
  then mkWorld (w_stopEvent w) (w_exitCode w) (w_shutdownTimer w) (w_isClosed w) (w_sessions w)
         (w_maxActiveSessionCount w) (w_sessionCount w) (w_maxSessionCount w) (w_GameTime w)
         (w_released w) (w_messages w ++ [w_shutdownTimer w])
  else w.

Definition ShutdownServ (time exitcode : Z) (w : World S) : World S :=
  if IsStopped w then w
  else
    let time := if (time <? 2) && negb (GetActiveSessionCount w =? 0) then 2 else time in
    if time =? 0 then set_shutdown true exitcode (w_shutdownTimer w) w
    else ShutdownMsg true (set_shutdown (w_stopEvent w) exitcode time w).

Definition ShutdownCancel (w : World S) : World S :=
  if (w_shutdownTimer w =? 0) || w_stopEvent w then w
  else set_shutdown (w_stopEvent w) SHUTDOWN_EXIT_CODE 0 w.

(** [_UpdateGameTime] at a reading of the clock. *)
Definition UpdateGameTime (clock : Z) (w : World S) : World S :=
  let elapsed := clock - w_GameTime w in
  let w := set_GameTime clock w in
  if negb (IsStopped w) && (0 <? w_shutdownTimer w) && (0 <? elapsed) then
    if w_shutdownTimer w <=? elapsed
    then set_shutdown true (w_exitCode w) (w_shutdownTimer w) w
    else ShutdownMsg false
           (set_shutdown (w_stopEvent w) (w_exitCode w) (w_shutdownTimer w - elapsed) w)
  else w.

(** ** One session per account *)

(** After [KickAll] there is nothing left to delete: its sessions leak. *)
Lemma destroy_after_KickAll order order' (w : World S) :
  destroy order (KickAll order' w) = KickAll order' w.
Proof.
  unfold destroy, KickAll. cbn [w_sessions w_released set_sessions].
  assert (omap (λ id, (∅ : gmap Z (DiscordSession * S)) !! id) order = []) as ->
    by (induction order as [|id order IH]; [done|by cbn; rewrite lookup_empty, IH]).
  cbn [map]. by rewrite app_nil_r.
Qed.

Definition auth_ok : DiscordPacket := mkPacket 6 (mkBB 0 1 [0]).

Lemma SendAuthResponse_ok session (sock : S) :
  Session.SendAuthResponse DiscordAuthResponseCodes.Ok session sock =
  if s_socket session then sock_SendPacket auth_ok sock else sock.
Proof.
  unfold Session.SendAuthResponse. cbn.
  assert (Payload.AuthResponse_Write 0 (Packet.new 6) = (Ret (), auth_ok)) as ->
    by (by destruct H; vm_compute).
  unfold Session.SendPacket. cbn. by destruct (s_socket session).
Qed.

Context {Laws : SessionSocketLaws S}.

(** Adding a session never leaves two for one account: the account's entry is
    the new session, which gets exactly the positive answer on its socket; the
    session it replaces is kicked and deleted, its socket no longer open; no other
    session is touched, and the peak count covers the new one. *)
Theorem add_session (session : DiscordSession) (sock : S) (w : World S) :
  let id := s_accountId session in
  let w' := AddSession session sock w in
  FindSession id w' =
    Some (session, if s_socket session then sock_SendPacket auth_ok sock else sock) ∧
  (∀ id', id' ≠ id → FindSession id' w' = FindSession id' w) ∧
  match FindSession id w with
  | Some (old, old_sock) =>
      ∃ k, w_released w' = w_released w ++ [k] ∧ (s_socket old = true → sock_IsOpen k = false)
  | None => w_released w' = w_released w
  end ∧
  w_maxActiveSessionCount w' = Z.max (w_maxActiveSessionCount w) (sessionsSize w').
Proof using Laws.
  cbn zeta. unfold AddSession, FindSession. rewrite SendAuthResponse_ok.
  set (id := s_accountId session). unfold KickSession, UpdateMaxSessionCounters, sessionsSize.
  destruct (w_sessions w !! id) as [[old old_sock]|] eqn:E; rewrite ?E;
    cbn [w_sessions set_sessions set_counts w_released w_maxActiveSessionCount];
    rewrite ?lookup_insert_eq, ?delete_insert_eq;
    cbn [w_sessions set_sessions set_counts w_released w_maxActiveSessionCount].
  - split; [done|].
    split; [by intros id' Hd; rewrite !lookup_insert_ne, lookup_delete_ne by done|].
    split; [|by rewrite insert_insert_eq, !map_size_insert].
    eexists. split; [done|]. unfold delete_session, Session.KickSession. cbn.
    intros ->. apply close_not_open.
  - split; [done|].
    split; [by intros id' Hd; rewrite !lookup_insert_ne by done|].
    split; [done|]. by rewrite insert_insert_eq, !map_size_insert.
Qed.

(** ** The update of all sessions *)

(** As the network adds and feeds it. *)
Definition healthy (session : DiscordSession) : Prop :=
  s_socket session = true ∧ length (s_channels session) = 7%nat ∧
  Forall Session.packet_ok (PacketQueue.queue (s_recvQueue session)).

(** A session after its update, if it lives on. *)
Definition updated (e : DiscordSession * S) : option (DiscordSession * S) :=
  let n := Nat.min 101 (length (PacketQueue.queue (s_recvQueue e.1))) in
  if sock_IsOpen e.2 then Some (Session.set_socket true (Session.processed n e.1), e.2) else None.

Definition gone (w : World S) (id : Z) : option S :=
  e ← FindSession id w; if sock_IsOpen e.2 then None else Some e.2.

Lemma UpdateSessions_spec (order : list Z) (w : World S) :
  NoDup order → (∀ id, id ∈ order → ∃ session sock, FindSession id w = Some (session, sock) ∧ healthy session) →
  ∃ w', UpdateSessions order w = (Ret (), w') ∧
    (∀ id, FindSession id w' =
      if decide (id ∈ order) then FindSession id w ≫= updated else FindSession id w) ∧
    w_released w' = w_released w ++ omap (gone w) order.
Proof.
  intros Hn. revert w. induction Hn as [|id order Hid _ IH]; intros w Hw; cbn [UpdateSessions].
  { exists w. rewrite app_nil_r. split; [done|]. split; [|done]. intros id.
    by rewrite decide_False by apply not_elem_of_nil. }
  destruct (Hw id ltac:(by left)) as (session & sock & E & Hs & Hc & Hq).
  unfold FindSession in E. rewrite E, Session.session_Update_eq by done.
  set (n := Nat.min 101 _). set (session' := Session.set_socket _ _).
  set (w1 := if sock_IsOpen sock then _ else _).
  assert (∀ id', id' ≠ id → FindSession id' w1 = FindSession id' w) as Hother.
  { intros id' Hd. subst w1. unfold FindSession.
    destruct (sock_IsOpen sock); cbn; [by rewrite lookup_insert_ne|by rewrite lookup_delete_ne]. }
  assert (FindSession id w1 = updated (session, sock)) as Hthis.
  { subst w1 session'. unfold FindSession, updated. cbn [fst snd]. fold n.
    destruct (sock_IsOpen sock); cbn; [by rewrite lookup_insert_eq|by rewrite lookup_delete_eq]. }
  assert (w_released w1 = w_released w ++ option_list (gone w id)) as Hrel.
  { subst w1 session'. unfold gone, FindSession. rewrite E. cbn.
    destruct (sock_IsOpen sock); cbn; [by rewrite app_nil_r|done]. }
  destruct (IH w1) as (w' & E' & H1 & H2).
  { intros id' Hin. rewrite Hother by congruence. apply Hw. by right. }
  exists w'. split; [done|]. split.
  - intros id'. rewrite H1. destruct (decide (id' = id)) as [->|Hd].
    + rewrite decide_False, decide_True by (done || by left). rewrite Hthis.
      unfold FindSession. by rewrite E.
    + rewrite Hother by done. destruct (decide (id' ∈ order)); [by rewrite decide_True by (by right)|].
      rewrite decide_False; [done|]. by intros [|]%elem_of_cons.
  - rewrite H2, Hrel, <- app_assoc. f_equal. cbn [omap list_omap].
    assert (omap (gone w1) order = omap (gone w) order) as ->.
    { apply list_omap_ext. apply Forall2_same_length_lookup_2; [done|]. intros i x y Hx Hy.
      assert (x = y) as <- by congruence. unfold gone. rewrite Hother; [done|].
      intros ->. by apply Hid, (list_elem_of_lookup_2 _ i). }
    by destruct (gone w id).
Qed.

(** C28: one update of all sessions gives each its update exactly once, whatever
    order the map is walked in: a session whose socket is open has handled its
    packets, one whose socket is not is deleted and leaves its socket to the
    network; nothing fails or is left out. *)
Theorem update_sessions (order : list Z) (w : World S) :
  NoDup order → (∀ id, id ∈ order ↔ is_Some (FindSession id w)) →
  (∀ id session sock, FindSession id w = Some (session, sock) → healthy session) →
  ∃ w', UpdateSessions order w = (Ret (), w') ∧
    (∀ id, FindSession id w' = FindSession id w ≫= updated) ∧
    w_released w' = w_released w ++ omap (gone w) order.
Proof.
  intros Hn Ho Hh. destruct (UpdateSessions_spec order w Hn) as (w' & E & H1 & H2).
  { intros id [[session sock] E]%Ho. exists session, sock. split; [done|]. by eapply Hh. }
  exists w'. split; [done|]. split; [|done]. intros id. rewrite H1. case_decide as D; [done|].
  destruct (FindSession id w) eqn:E'; [|done]. exfalso. apply D, Ho. by rewrite E'.
Qed.

(** ** Shutdown *)

Definition clocks_pass (clocks : list Z) (w : World S) : World S :=
  fold_left (λ w c, UpdateGameTime c w) clocks w.

(** The last reading, and that the clock never goes back. *)
Definition last_clock (clocks : list Z) (now : Z) : Z := fold_left (λ _ c, c) clocks now.
Fixpoint forward (now : Z) (clocks : list Z) : Prop :=
  match clocks with [] => True | c :: cs => now <= c ∧ forward c cs end.

Lemma forward_last now clocks : forward now clocks → now <= last_clock clocks now.
Proof.
  revert now. induction clocks as [|c cs IH]; intros now; cbn; [lia|].
  intros [Hc Hf]. specialize (IH c Hf). unfold last_clock in IH. lia.
Qed.

Lemma ShutdownMsg_fields show w :
  w_stopEvent (ShutdownMsg show w) = w_stopEvent w ∧
  w_exitCode (ShutdownMsg show w) = w_exitCode w ∧
  w_shutdownTimer (ShutdownMsg show w) = w_shutdownTimer w ∧
  w_GameTime (ShutdownMsg show w) = w_GameTime w.
Proof. unfold ShutdownMsg. by destruct (shows _ _). Qed.

Lemma UpdateGameTime_idle c w :
  w_stopEvent w = true ∨ w_shutdownTimer w <= 0 ∨ c <= w_GameTime w →
  UpdateGameTime c w = set_GameTime c w.
Proof.
  intros Hi. unfold UpdateGameTime, IsStopped.
  cbn [w_stopEvent w_shutdownTimer set_GameTime].
  destruct (w_stopEvent w); [done|]. cbn [negb andb].
  destruct (Z.ltb_spec 0 (w_shutdownTimer w)); [|done]. cbn [andb].
  destruct (Z.ltb_spec 0 (c - w_GameTime w)); [|done]. naive_solver lia.
Qed.

Lemma clocks_pass_idle clocks w :
  w_stopEvent w = true ∨ w_shutdownTimer w <= 0 →
  w_stopEvent (clocks_pass clocks w) = w_stopEvent w ∧
  w_exitCode (clocks_pass clocks w) = w_exitCode w.
Proof.
  revert w. induction clocks as [|c cs IH]; intros w Hi; cbn [clocks_pass fold_left]; [done|].
  rewrite UpdateGameTime_idle by naive_solver. by apply (IH (set_GameTime c w)).
Qed.

Lemma clocks_pass_counts clocks w :
  w_stopEvent w = false → 0 < w_shutdownTimer w → forward (w_GameTime w) clocks →
  let elapsed := last_clock clocks (w_GameTime w) - w_GameTime w in
  let w' := clocks_pass clocks w in
  w_stopEvent w' = (w_shutdownTimer w <=? elapsed) ∧ w_exitCode w' = w_exitCode w ∧
  (elapsed < w_shutdownTimer w → w_shutdownTimer w' = w_shutdownTimer w - elapsed).
Proof.
  revert w. induction clocks as [|c cs IH]; intros w Hs Ht Hf.
  { cbn. rewrite Hs, Z.sub_diag. destruct (Z.leb_spec (w_shutdownTimer w) 0); [lia|].
    repeat split; try done. lia. }
  destruct Hf as [Hc Hf]. pose proof (forward_last c cs Hf) as Hl.
  cbn [clocks_pass last_clock fold_left]. fold (last_clock cs c) (clocks_pass cs (UpdateGameTime c w)).
  destruct (Z.eq_dec c (w_GameTime w)) as [->|Hd].
  { rewrite UpdateGameTime_idle by lia. by apply (IH (set_GameTime (w_GameTime w) w)). }
  unfold UpdateGameTime, IsStopped. cbn [w_stopEvent w_shutdownTimer set_GameTime].
  rewrite Hs, (proj2 (Z.ltb_lt _ _)), (proj2 (Z.ltb_lt _ _)) by lia. cbn [negb andb].
  destruct (Z.leb_spec (w_shutdownTimer w) (c - w_GameTime w)) as [L|L].
  - cbv zeta. set (w1 := set_shutdown true _ _ _).
    destruct (clocks_pass_idle cs w1) as [-> ->]; [by left|].
    rewrite (proj2 (Z.leb_le _ _)) by lia. repeat split; try done. lia.
  - set (w0 := set_shutdown _ _ _ _).
    destruct (ShutdownMsg_fields false w0) as (F1 & F2 & F3 & F4).
    specialize (IH (ShutdownMsg false w0)). rewrite F1, F2, F3, F4 in IH.
    destruct IH as (I1 & I2 & I3); cbn [w0 set_shutdown set_GameTime w_stopEvent w_shutdownTimer
      w_GameTime w_exitCode] in *; [done|lia|done|].
    cbv zeta. rewrite I1, I2. split; [|split; [done|]].
    + destruct (Z.leb_spec (w_shutdownTimer w - (c - w_GameTime w)) (last_clock cs c - c)),
        (Z.leb_spec (w_shutdownTimer w) (last_clock cs c - w_GameTime w)); done || lia.
    + intros. rewrite I3 by lia. lia.
Qed.

(** C29: a planned shutdown of a running server stops it at the first update at
    which the grace has passed, counted on the game clock over however many
    updates, with the exit code given.  The grace is the time asked for, except
    that with sessions a time below two seconds becomes two seconds (five, says the
    comment of the code); until it has passed the timer shows exactly what is left;
    and a shutdown cancelled while there is some grace never stops the server and
    leaves the default exit code. *)
Theorem shutdown_exact (time exitcode : Z) (clocks : list Z) (w : World S) :
  w_stopEvent w = false → 0 <= time → forward (w_GameTime w) clocks →
  let grace := if (time <? 2) && negb (GetActiveSessionCount w =? 0) then 2 else time in
  let elapsed := last_clock clocks (w_GameTime w) - w_GameTime w in
  let planned := ShutdownServ time exitcode w in
  IsStopped (clocks_pass clocks planned) = (grace <=? elapsed) ∧
  w_exitCode (clocks_pass clocks planned) = exitcode ∧
  (elapsed < grace → w_shutdownTimer (clocks_pass clocks planned) = grace - elapsed) ∧
  (0 < grace →
   IsStopped (clocks_pass clocks (ShutdownCancel planned)) = false ∧
   w_exitCode (clocks_pass clocks (ShutdownCancel planned)) = SHUTDOWN_EXIT_CODE).
Proof.
  intros Hs Ht Hf grace elapsed planned. subst elapsed planned.
  assert (0 <= grace) by (subst grace; destruct (_ && _); lia).
  pose proof (forward_last _ _ Hf) as Hl. unfold ShutdownServ, IsStopped. rewrite Hs. fold grace.
  destruct (Z.eqb_spec grace 0) as [Ez|Ez].
  - set (w1 := set_shutdown true _ _ _). destruct (clocks_pass_idle clocks w1) as [-> ->]; [by left|].
    rewrite (proj2 (Z.leb_le _ _)) by lia. repeat split; try done; lia.
  - set (w1 := set_shutdown false _ _ _). destruct (ShutdownMsg_fields true w1) as (F1 & F2 & F3 & F4).
    destruct (clocks_pass_counts clocks (ShutdownMsg true w1)) as (C1 & C2 & C3).
    { by rewrite F1. } { rewrite F3. cbn. lia. } { by rewrite F4. }
    rewrite F2, F3, F4 in *. split; [exact C1|]. split; [exact C2|]. split; [exact C3|].
    intros _. unfold ShutdownCancel. rewrite F1, F3. cbn [w1 set_shutdown w_shutdownTimer w_stopEvent].
    rewrite (proj2 (Z.eqb_neq _ _)) by lia. cbn [orb].
    set (w2 := set_shutdown false _ _ _). by destruct (clocks_pass_idle clocks w2) as [-> ->]; [by right|].
Qed.
End world.

(** A session with a message for its second channel. *)
Definition demo_session (id : Z) : DiscordSession :=
  mkSession true [] id 2 [] 0 false [70; 71; 72; 73; 74; 75; 76]
    (PacketQueue.mk [mkPacket 3 (mkBB 0 0 [1; 104; 105; 0])] false) [].

(** A second connection of account 5 replaces the first. *)
Lemma add_session_witness :
  let ses := demo_session 5 in
  let w := @AddSession LittleEndian DS.st _ ses (DS.new [] [] []) (new 0) in
  let w' := @AddSession LittleEndian DS.st _ ses (DS.new [1] [] []) w in
  FindSession 5 w' = Some (ses, DS.SendPacket auth_ok (DS.new [1] [] [])) ∧
  (∀ id', id' ≠ 5 → FindSession id' w' = FindSession id' w) ∧
  match FindSession 5 w with
  | Some (old, old_sock) =>
      ∃ k, w_released w' = w_released w ++ [k] ∧ (s_socket old = true → sock_IsOpen k = false)
  | None => w_released w' = w_released w
  end ∧
  w_maxActiveSessionCount w' = Z.max (w_maxActiveSessionCount w) (sessionsSize w').
Proof.
  apply (@add_session LittleEndian DS.st _ DiscordSocket_session_laws (demo_session 5)).
Defined.

#[local] Instance flag_socket : SessionSocket bool := {
  sock_IsOpen b := b; sock_SendPacket _ b := b; sock_CloseSocket _ := false
}.

(** Two sessions, the second without its client. *)
Definition demo_world : World bool :=
  set_sessions {[1 := (demo_session 1, true); 2 := (demo_session 2, false)]} [] (new 0).

Lemma update_sessions_witness :
  (∃ s, FindSession 1 demo_world ≫= updated (H := LittleEndian) = Some (s, true) ∧
    s_out s = [SendDefaultMessage 71 [104; 105]]) ∧
  ∃ w', UpdateSessions (H := LittleEndian) [2; 1] demo_world = (Ret (), w') ∧
    (∀ id, FindSession id w' = FindSession id demo_world ≫= updated (H := LittleEndian)) ∧
    w_released w' = w_released demo_world ++ omap (gone demo_world) [2; 1].
Proof.
  split; [eexists; split; by vm_compute|].
  apply (update_sessions (H := LittleEndian)).
  - apply NoDup_cons; split; [set_solver|]. apply NoDup_singleton.
  - intros id. unfold FindSession, demo_world. cbn [w_sessions set_sessions].
    rewrite lookup_insert_is_Some, lookup_singleton_is_Some. set_solver by lia.
  - intros id session sock. unfold FindSession, demo_world. cbn [w_sessions set_sessions].
    rewrite lookup_insert_Some, lookup_singleton_Some.
    intros [(<- & [= <- <-])|(_ & <- & [= <- <-])]; split; [done| |done| ]; split; try done;
      repeat constructor; unfold is_byte; cbn; lia.
Defined.

(** A shutdown in twenty seconds, and two sessions: the timer after some seconds. *)
Lemma shutdown_exact_witness :
  let w := demo_world in
  let planned := ShutdownServ 20 RESTART_EXIT_CODE w in
  IsStopped (clocks_pass [3; 3; 19] planned) = false ∧
  w_exitCode (clocks_pass [3; 3; 19] planned) = RESTART_EXIT_CODE ∧
  (19 < 20 → w_shutdownTimer (clocks_pass [3; 3; 19] planned) = 1) ∧
  (0 < 20 →
   IsStopped (clocks_pass [3; 3; 19] (ShutdownCancel planned)) = false ∧
   w_exitCode (clocks_pass [3; 3; 19] (ShutdownCancel planned)) = SHUTDOWN_EXIT_CODE).
Proof.
  apply (shutdown_exact 20 RESTART_EXIT_CODE [3; 3; 19] demo_world); [done|lia|cbn; lia].
Defined.
End Discord.
