(* ===== verification/Accounts.v ===== *)
(** * Accounts: the accounts of the server and the bans

    Model of [AccountMgr] and [BanMgr] ([src/src/server/Account]).  Statements
    given to the database are recorded in the order in which they are executed;
    the rows the database answers with, random bytes and the order in which an
    unordered map is walked are arguments. *)

From S2P Require Import Prelude MessageBuffer Utf8 Containers Strings BigNumber Srp6 Timer Enums ByteBuffer Wire Packets.
From S2P Require Import Queues Async Socket Session DiscordSocket World.
Open Scope Z_scope.

Definition MAX_ACCOUNT_STR : Z := 50.
Definition MAX_PASS_STR : Z := 50.

Record DiscordAccountInfo := mkInfo {
  acc_ID : Z;
  acc_GuildID : Z;
  acc_Name : list Z;
  acc_RealmName : list Z
}.

(** Prepared statements, by their names, with their arguments. *)
Inductive statement :=
  | DISCORD_INS_ACCOUNT (name salt verifier : list Z) (guildID : Z) (realmName : list Z)
  | DISCORD_UPD_LOGON (salt verifier : list Z) (id : Z)
  | DISCORD_UPD_ACCOUNT_BAN_EXPIRED
  | DISCORD_UPD_IP_BAN_EXPIRED
  | DISCORD_INS_ACCOUNT_BAN (id duration : Z) (bannedBy reason : list Z)
  | DISCORD_DEL_BAN_ACCOUNT (id : Z)
  | DISCORD_INS_IP_BAN (ip : list Z) (duration : Z) (bannedBy reason : list Z)
  | DISCORD_DEL_BAN_IP (ip : list Z).

(** A [string_view]: of a text of the program, which is always there, or of a text
    whose owner lent it. *)
Inductive string_view := Literal (text : list Z) | Borrowed (text : list Z).
Definition view_text (v : string_view) : list Z :=
  match v with Literal text | Borrowed text => text end.

(** A new account whose id is being asked for: what the lambda of [CreateAccount]
    captures, the name by value and the realm as a view. *)
Record pending := mkPending { pe_username : list Z; pe_guildID : Z; pe_realmName : string_view }.

Record AccountMgr := mkAM {
  am_accounts : gmap Z DiscordAccountInfo;
  am_queries : list pending;
  am_db : list statement
}.

(** The order in which the map of accounts is walked. *)
Class AccountOrder := account_order : gmap Z DiscordAccountInfo → list Z.
Class AccountOrderLaws (W : AccountOrder) : Prop :=
  account_order_spec m id : id ∈ account_order m ↔ is_Some (m !! id).

Module Accounts.
Section accounts.
Context {O : OpenSSL} {W : AccountOrder}.

Definition new : AccountMgr := mkAM ∅ [] [].

Definition set_accounts (v : gmap Z DiscordAccountInfo) (s : AccountMgr) : AccountMgr :=
  mkAM v (am_queries s) (am_db s).
Definition set_queries (v : list pending) (s : AccountMgr) : AccountMgr :=
  mkAM (am_accounts s) v (am_db s).
Definition Execute (stmt : statement) (s : AccountMgr) : AccountMgr :=
  mkAM (am_accounts s) (am_queries s) (am_db s ++ [stmt]).

Definition GetAccountInfo (id : Z) (s : AccountMgr) : option DiscordAccountInfo :=
  am_accounts s !! id.

Definition AddAccountInfo (info : DiscordAccountInfo) (s : AccountMgr) : AccountMgr :=
  match GetAccountInfo (acc_ID info) s with
  | Some _ => s
  | None => set_accounts (<[acc_ID info := info]> (am_accounts s)) s
  end.

(** [Initialize], with the rows of DISCORD_SEL_ACCOUNTS: an empty result is no
    result. *)
Definition Initialize (rows : list (Z * list Z * Z * list Z)) (s : AccountMgr) : AccountMgr :=
  fold_left (λ s '(id, name, guildID, realmName), AddAccountInfo (mkInfo id guildID name realmName) s)
    rows (set_accounts ∅ s).

Definition name_matches (m : gmap Z DiscordAccountInfo) (accountName : list Z) (id : Z) : bool :=
  match m !! id with
  | Some info => Strings.StringEqualI (acc_Name info) accountName
  | None => false
  end.

Definition GetID (accountName : list Z) (s : AccountMgr) : Z :=
  default 0 (find (name_matches (am_accounts s) accountName) (account_order (am_accounts s))).

Definition GetName (id : Z) (s : AccountMgr) : list Z :=
  match am_accounts s !! id with Some info => acc_Name info | None => [] end.
Definition GetRealmName (id : Z) (s : AccountMgr) : list Z :=
  match am_accounts s !! id with Some info => acc_RealmName info | None => [] end.

(** [CheckAccount], with the callback of [CreateAccount]. *)
Definition CheckAccount (p : pending) (s : AccountMgr) : AccountMgr :=
  set_queries (am_queries s ++ [p]) s.

(** [random] is the salt drawn; [realmName] is lent by the caller. *)
Definition CreateAccount (random username key : list Z) (guildID : Z) (realmName : list Z)
  : M Empty_set AccountMgr AccountResponceResult.t := λ s,
  let '(n, username) := Strings.utf8length username in
  if MAX_ACCOUNT_STR <? n then (Ret AccountResponceResult.LongName, s)
  else
    let '(n, key) := Strings.utf8length key in
    if MAX_PASS_STR <? n then (Ret AccountResponceResult.LongKey, s)
    else
      let username := (Strings.Utf8ToUpperOnlyLatin username).2 in
      let key := (Strings.Utf8ToUpperOnlyLatin key).2 in
      if negb (GetID username s =? 0) then (Ret AccountResponceResult.NameAlreadyExist, s)
      else
        let realmName := match realmName with [] => Literal (str "WarheadCore") | _ => Borrowed realmName end in
        match SRP6.MakeRegistrationData random username key with
        | Ret (salt, verifier) =>
            let s := Execute (DISCORD_INS_ACCOUNT username salt verifier guildID (view_text realmName)) s in
            (Ret AccountResponceResult.Ok, CheckAccount (mkPending username guildID realmName) s)
        | AssertFail => (AssertFail, s)
        | _ => (UB, s)
        end.

Definition ChangeKey (random name newPassword : list Z)
  : M Empty_set AccountMgr AccountResponceResult.t := λ s,
  let safeUser := (Strings.Utf8ToUpperOnlyLatin name).2 in
  let newPassword := (Strings.Utf8ToUpperOnlyLatin newPassword).2 in
  let accountID := GetID safeUser s in
  if accountID =? 0 then (Ret AccountResponceResult.NameNotExist, s)
  else
    let '(n, newPassword) := Strings.utf8length newPassword in
    if MAX_PASS_STR <? n then (Ret AccountResponceResult.LongKey, s)
    else
      match SRP6.MakeRegistrationData random safeUser newPassword with
      | Ret (salt, verifier) =>
          (Ret AccountResponceResult.Ok, Execute (DISCORD_UPD_LOGON salt verifier accountID) s)
      | AssertFail => (AssertFail, s)
      | _ => (UB, s)
      end.

(** Reading a view whose owner is gone is undefined; [alive] says which of the texts
    that were lent are still there. *)
Definition read_view (alive : list Z → bool) (v : string_view) : M Empty_set AccountMgr (list Z) :=
  match v with
  | Literal text => mret text
  | Borrowed text => if alive text then mret text else undefined
  end.

(** The callback of [CheckAccount] with the row found, if any: the id 0 stands for
    no row. *)
Definition execute (alive : list Z → bool) (p : pending) (row : option Z) : M Empty_set AccountMgr () :=
  let accountID := default 0 row in
  if accountID =? 0 then mret ()
  else
    realmName ← read_view alive (pe_realmName p);
    modify (AddAccountInfo (mkInfo accountID (pe_guildID p) (pe_username p) realmName)).

(** The state comes with the outcome so far: after undefined behaviour nothing more
    is said. *)
Definition InvokeIfReady (alive : list Z → bool) (results : pending → option (option Z)) (p : pending)
    (x : outcome Empty_set () * AccountMgr) : bool * (outcome Empty_set () * AccountMgr) :=
  match results p, x with
  | Some row, (Ret (), s) => (true, execute alive p row s)
  | Some _, _ => (true, x)
  | None, _ => (false, x)
  end.

(** [Update], with the answers that have come. *)
Definition Update (alive : list Z → bool) (results : pending → option (option Z))
  : M Empty_set AccountMgr () := λ s,
  AsyncCallbackProcessor.ProcessReadyCallbacks (λ x, am_queries x.2) (λ v x, (x.1, set_queries v x.2))
    (InvokeIfReady alive results) (Ret (), s).

(** *** A random key *)

(** Both generators draw from one list of numbers. *)
Definition rand : M Empty_set (list Z) Z := λ draws,
  match draws with d :: draws => (Ret d, draws) | [] => (Ret 0, []) end.

(** [n] characters from [first] on, of a range of [count]. *)
Fixpoint random_chars (n : nat) (count first : Z) : M Empty_set (list Z) (list Z) :=
  match n with
  | 0%nat => mret []
  | S n =>
      d ← rand;
      rest ← random_chars n count first;
      mret (Z.rem d count + first :: rest)
  end.

(** The shuffle of the standard library is an argument. *)
Definition GetRandomKey (RandomShuffle : list Z → list Z) : M Empty_set (list Z) (list Z) :=
  smallChars ← Random.urand 1 MAX_PASS_STR;
  bigChars ← Random.urand 1 (u32 (MAX_PASS_STR - smallChars));
  let numbers := u32 (MAX_PASS_STR - smallChars - bigChars) in
  a ← random_chars (Z.to_nat numbers) 10 48;
  b ← random_chars (Z.to_nat bigChars) 26 65;
  c ← random_chars (Z.to_nat smallChars) 26 97;
  mret (RandomShuffle (a ++ b ++ c)).

(** ** Names *)

Lemma tolower_toupper c : Strings.tolower (Strings.toupper c) = Strings.tolower c.
Proof.
  unfold Strings.tolower, Strings.toupper, Strings.in_range.
  destruct (Z.leb_spec 97 c), (Z.leb_spec c 122); cbn [andb]; try done.
  destruct (Z.leb_spec 65 (c - 32)), (Z.leb_spec (c - 32) 90), (Z.leb_spec 65 c),
    (Z.leb_spec c 90); cbn [andb]; lia.
Qed.

Lemma toupper_toupper c : Strings.toupper (Strings.toupper c) = Strings.toupper c.
Proof.
  unfold Strings.toupper, Strings.in_range.
  destruct (Z.leb_spec 97 c), (Z.leb_spec c 122); cbn [andb]; try done.
  - destruct (Z.leb_spec 97 (c - 32)); cbn [andb]; [lia|done].
  - destruct (Z.leb_spec 97 c); [|lia]. by destruct (Z.leb_spec c 122); [lia|].
  - by rewrite (proj2 (Z.leb_gt 97 c)) by lia.
  - by rewrite (proj2 (Z.leb_gt 97 c)) by lia.
Qed.

Lemma lower_upper l : map Strings.tolower (map Strings.toupper l) = map Strings.tolower l.
Proof. rewrite map_map. apply map_ext, tolower_toupper. Qed.
Lemma upper_upper l : map Strings.toupper (map Strings.toupper l) = map Strings.toupper l.
Proof. rewrite map_map. apply map_ext, toupper_toupper. Qed.
Lemma upper_lower_eq a b :
  map Strings.toupper a = map Strings.toupper b → map Strings.tolower a = map Strings.tolower b.
Proof. intros E. by rewrite <- (lower_upper a), E, lower_upper. Qed.

Lemma upper_bytes l : Forall is_byte l → Forall is_byte (map Strings.toupper l).
Proof.
  intros Hl. apply Forall_fmap. eapply Forall_impl; [exact Hl|]. unfold is_byte. cbn. intros c Hc.
  unfold Strings.toupper, Strings.in_range. destruct (Z.leb_spec 97 c); case_match; lia.
Qed.

Lemma Utf8Upper_valid l : Forall is_byte l → Utf8.is_valid l = true →
  (Strings.Utf8ToUpperOnlyLatin l).2 = map Strings.toupper l.
Proof. intros Hl Hv. by rewrite Strings.Utf8ToUpperOnlyLatin_cases, Hv. Qed.

Lemma utf8length_valid l : Forall is_byte l → Utf8.is_valid l = true →
  (Strings.utf8length l).2 = l.
Proof.
  intros Hl Hv. apply Utf8.is_valid_encode in Hv as (cps & Hc & ->); [|done].
  unfold Strings.utf8length. by rewrite Utf8.distance_encode.
Qed.

Lemma utf8length_upper l : Forall is_byte l → Utf8.is_valid l = true →
  Strings.utf8length (map Strings.toupper l) =
    ((Strings.utf8length l).1, map Strings.toupper l).
Proof.
  intros Hl Hv. apply Utf8.is_valid_encode in Hv as (cps & Hc & ->); [|done].
  destruct (Strings.upper_encode cps Hc) as (H1 & _ & H3). unfold Strings.utf8length.
  rewrite <- H3, !Utf8.distance_encode by done. cbn [fst]. unfold zlen. by rewrite length_map.
Qed.

(** Whatever the client writes, both its name and its key are upper-cased. *)
Lemma CheckKey_upper name key a :
  Forall is_byte name → Forall is_byte key →
  DS.CheckKey name key a =
    SRP6.CheckLogin (map Strings.toupper name) (map Strings.toupper key) (ai_Salt a) (ai_Verifier a).
Proof.
  intros Hn Hk. unfold DS.CheckKey.
  rewrite !Strings.Utf8ToUpperOnlyLatin_cases by (auto using upper_bytes).
  by repeat case_match; cbn [fst snd]; rewrite ?upper_upper.
Qed.

(** ** Looking accounts up *)

Context {OL : OpenSSLLaws O} {WL : AccountOrderLaws W}.

Lemma name_matches_spec m name id :
  name_matches m name id = true ↔
  ∃ info, m !! id = Some info ∧ map Strings.tolower (acc_Name info) = map Strings.tolower name.
Proof using.
  unfold name_matches. destruct (m !! id) as [info|]; [|naive_solver].
  rewrite Strings.StringEqualI_lower, bool_decide_eq_true. naive_solver.
Qed.

Lemma GetID_found name s id :
  GetID name s = id → id ≠ 0 → ∃ info, am_accounts s !! id = Some info ∧
    map Strings.tolower (acc_Name info) = map Strings.tolower name.
Proof using.
  unfold GetID. destruct (find _ _) as [i|] eqn:E; cbn; intros <- Hd; [|done].
  apply find_some in E as [_ E]. by apply name_matches_spec.
Qed.

Lemma GetID_none name s : am_accounts s !! 0 = None → GetID name s = 0 →
  ∀ id, name_matches (am_accounts s) name id = false.
Proof using WL.
  unfold GetID. intros H0 E id. destruct (name_matches (am_accounts s) name id) eqn:M; [|done].
  destruct (find _ _) as [i|] eqn:F; cbn in E.
  - subst i. apply find_some in F as [_ F]. unfold name_matches in F. by rewrite H0 in F.
  - pose proof (find_none _ _ F id) as N. rewrite M in N. unfold name_matches in M.
    discriminate N. apply list_elem_of_In, account_order_spec. by destruct (am_accounts s !! id).
Qed.

Lemma GetID_unique name s id :
  name_matches (am_accounts s) name id = true →
  (∀ i, name_matches (am_accounts s) name i = true → i = id) →
  GetID name s = id.
Proof using WL.
  intros Hm Hu. unfold GetID. destruct (find _ _) as [i|] eqn:F; cbn.
  - apply find_some in F as [_ F]. by apply Hu.
  - pose proof (find_none _ _ F id) as N. rewrite Hm in N. discriminate N.
    apply list_elem_of_In, account_order_spec. unfold name_matches in Hm.
    by destruct (am_accounts s !! id).
Qed.

(** ** Registration and login *)

Definition realm_of (realmName : list Z) : list Z :=
  match realmName with [] => str "WarheadCore" | _ => realmName end.

Definition short (limit : Z) (text : list Z) : Prop :=
  Forall is_byte text ∧ Utf8.is_valid text = true ∧ (Strings.utf8length text).1 <= limit.

Lemma short_length limit text : short limit text →
  ∃ n, Strings.utf8length text = (n, text) ∧ n <= limit.
Proof using.
  intros (Hb & Hv & Hl). pose proof (utf8length_valid text Hb Hv) as E.
  destruct (Strings.utf8length text) as [n t]. cbn in *. subst t. by exists n.
Qed.

Definition view_of (realmName : list Z) : string_view :=
  match realmName with [] => Literal (str "WarheadCore") | _ => Borrowed realmName end.

Lemma view_text_of realmName : view_text (view_of realmName) = realm_of realmName.
Proof using. by destruct realmName. Qed.

Lemma one_answer alive p id s :
  am_queries s = [p] → id ≠ 0 → am_accounts s !! id = None →
  Update alive (λ _, Some (Some id)) s =
    match read_view alive (pe_realmName p) (set_queries [] s) with
    | (Ret realmName, s) =>
        (Ret (), mkAM (<[id := mkInfo id (pe_guildID p) (pe_username p) realmName]> (am_accounts s))
          [] (am_db s))
    | (_, s) => (UB, s)
    end.
Proof using.
  intros E Hid Hf. unfold Update, AsyncCallbackProcessor.ProcessReadyCallbacks. cbn [snd]. rewrite E.
  cbn [AsyncCallbackProcessor.remove_if InvokeIfReady fst snd].
  unfold execute. change (default 0 (Some id)) with id. cbv zeta.
  rewrite (proj2 (Z.eqb_neq id 0)) by done.
  destruct (pe_realmName p) as [text|text]; cbn [read_view]; [|destruct (alive text)];
    unfold mbind, M_bind, mret, M_ret, modify, undefined, AddAccountInfo, GetAccountInfo;
    cbn [set_queries am_accounts acc_ID fst snd]; rewrite ?Hf; reflexivity.
Qed.

(** What [CreateAccount] leaves behind, and that the key logs in. *)
Lemma CreateAccount_registers random name key guildID realmName s :
  short MAX_ACCOUNT_STR name → short MAX_PASS_STR key →
  GetID (map Strings.toupper name) s = 0 →
  ∃ verifier, zlen verifier = SRP6.VERIFIER_LENGTH ∧
    CreateAccount random name key guildID realmName s = (Ret AccountResponceResult.Ok,
      CheckAccount (mkPending (map Strings.toupper name) guildID (view_of realmName))
        (Execute (DISCORD_INS_ACCOUNT (map Strings.toupper name) random verifier guildID
           (realm_of realmName)) s)) ∧
    (∀ name' key' now row, Forall is_byte name' → Forall is_byte key' →
      map Strings.toupper name' = map Strings.toupper name →
      map Strings.toupper key' = map Strings.toupper key →
      row_Salt row = random → row_Verifier row = verifier →
      DS.CheckKey name' key' (DS.AccountInfo_new now row) = Ret true).
Proof using OL.
  intros Hn Hk Hfree. destruct (short_length _ _ Hn) as (n & En & Ln).
  destruct (short_length _ _ Hk) as (k & Ek & Lk).
  destruct Hn as (Hnb & Hnv & _), Hk as (Hkb & Hkv & _).
  destruct (SRP6.CheckLogin_registered random (map Strings.toupper name) (map Strings.toupper key))
    as (verifier & Er & Hv & Hlogin).
  exists verifier. split; [done|]. split.
  { unfold CreateAccount. rewrite En, (proj2 (Z.ltb_ge _ _)), Ek, (proj2 (Z.ltb_ge _ _)) by done.
    rewrite !Utf8Upper_valid, Hfree, Er by done. cbv zeta. fold (view_of realmName).
    by rewrite view_text_of. }
  intros name' key' now row Hn' Hk' En' Ek' Es Ev. rewrite CheckKey_upper by done.
  rewrite En', Ek'. unfold DS.AccountInfo_new. cbn [ai_Salt ai_Verifier]. by rewrite Es, Ev.
Qed.

(** The new account is the only one of its name. *)
Lemma found_by_name name s id guildID realm db :
  GetID (map Strings.toupper name) s = 0 → am_accounts s !! 0 = None →
  ∀ name', map Strings.toupper name' = map Strings.toupper name →
  GetID name' (mkAM (<[id := mkInfo id guildID (map Strings.toupper name) realm]> (am_accounts s)) [] db) = id.
Proof using WL.
  intros Hfree H0 name' En'. pose proof (upper_lower_eq _ _ En') as El.
  apply GetID_unique; cbn [am_accounts].
  - apply name_matches_spec. eexists. rewrite lookup_insert_eq. split; [done|]. cbn.
    by rewrite lower_upper.
  - intros i Hi. destruct (decide (i = id)) as [->|Hd]; [done|].
    pose proof (GetID_none _ s H0 Hfree i) as Hno. apply not_true_iff_false in Hno.
    destruct Hno. apply name_matches_spec in Hi as (info & Hi & Hl). apply name_matches_spec.
    rewrite lookup_insert_ne in Hi by done. exists info. by rewrite lower_upper, <- El.
Qed.

(** C33: an account created with a valid name and key can log in with them in any
    case of letters: the salt and verifier given to the database are the ones the
    login check accepts; and once the database has answered with the account's id,
    the server finds that id under the name, in any case of letters.  The answer is
    handled after [CreateAccount] has returned, with a view of the realm name it was
    given: that it was given none, which is how the bot calls it, or that the text
    is still there is needed, and otherwise the behaviour is undefined. *)
Theorem register_then_login (random name key : list Z) (guildID : Z) (realmName : list Z)
    (s : AccountMgr) :
  short MAX_ACCOUNT_STR name → short MAX_PASS_STR key →
  GetID (map Strings.toupper name) s = 0 →
  ∃ verifier s', CreateAccount random name key guildID realmName s = (Ret AccountResponceResult.Ok, s') ∧
    am_db s' = am_db s ++
      [DISCORD_INS_ACCOUNT (map Strings.toupper name) random verifier guildID (realm_of realmName)] ∧
    (∀ name' key' now row, Forall is_byte name' → Forall is_byte key' →
      map Strings.toupper name' = map Strings.toupper name →
      map Strings.toupper key' = map Strings.toupper key →
      row_Salt row = random → row_Verifier row = verifier →
      DS.CheckKey name' key' (DS.AccountInfo_new now row) = Ret true) ∧
    (∀ id alive, am_queries s = [] → id ≠ 0 → am_accounts s !! id = None → am_accounts s !! 0 = None →
      if bool_decide (realmName = []) || alive realmName
      then ∃ s'', Update alive (λ _, Some (Some id)) s' = (Ret (), s'') ∧
        ∀ name', map Strings.toupper name' = map Strings.toupper name → GetID name' s'' = id
      else eval (Update alive (λ _, Some (Some id))) s' = UB).
Proof using OL WL.
  intros Hn Hk Hfree.
  destruct (CreateAccount_registers random name key guildID realmName s Hn Hk Hfree)
    as (verifier & _ & E & Hlogin).
  eexists verifier, _. split; [exact E|]. split; [done|]. split; [exact Hlogin|].
  intros id alive Hq Hid Hnew H0. unfold eval.
  rewrite (one_answer alive (mkPending (map Strings.toupper name) guildID (view_of realmName)) id)
    by (done || by unfold CheckAccount; cbn; rewrite Hq).
  assert (∀ realm, ∃ s'',
    mkAM (<[id := mkInfo id guildID (map Strings.toupper name) realm]> (am_accounts s)) []
      (am_db (Execute (DISCORD_INS_ACCOUNT (map Strings.toupper name) random verifier guildID
         (realm_of realmName)) s)) = s'' ∧
    ∀ name', map Strings.toupper name' = map Strings.toupper name → GetID name' s'' = id) as Found.
  { intros realm. eexists. split; [reflexivity|]. by apply found_by_name. }
  destruct realmName as [|c realmName]; [|cbn [bool_decide orb]].
  - destruct (Found (str "WarheadCore")) as (s'' & <- & F). by eexists.
  - rewrite bool_decide_eq_false_2 by done. cbn [orb view_of pe_realmName read_view].
    destruct (alive (c :: realmName)); [|done].
    destruct (Found (c :: realmName)) as (s'' & <- & F). by eexists.
Qed.

(** A new key replaces the old one under the id of the account, found in any
    case of letters, and is accepted at the next login; an unknown name is
    reported and changes nothing. *)
Theorem change_key (random name newPassword : list Z) (s : AccountMgr) :
  short MAX_ACCOUNT_STR name → short MAX_PASS_STR newPassword →
  let id := GetID (map Strings.toupper name) s in
  if id =? 0
  then ChangeKey random name newPassword s = (Ret AccountResponceResult.NameNotExist, s)
  else ∃ verifier info,
    ChangeKey random name newPassword s =
      (Ret AccountResponceResult.Ok, Execute (DISCORD_UPD_LOGON random verifier id) s) ∧
    am_accounts s !! id = Some info ∧
    map Strings.tolower (acc_Name info) = map Strings.tolower name ∧
    ∀ name' key' now row, Forall is_byte name' → Forall is_byte key' →
      map Strings.toupper name' = map Strings.toupper name →
      map Strings.toupper key' = map Strings.toupper newPassword →
      row_Salt row = random → row_Verifier row = verifier →
      DS.CheckKey name' key' (DS.AccountInfo_new now row) = Ret true.
Proof using OL.
  intros (Hnb & Hnv & _) (Hkb & Hkv & Hkl) id.
  unfold ChangeKey. rewrite !Utf8Upper_valid by done. fold id.
  destruct (Z.eqb_spec id 0) as [E|E]; [done|].
  destruct (GetID_found (map Strings.toupper name) s id eq_refl E) as (info & Hi & Hl).
  destruct (SRP6.CheckLogin_registered random (map Strings.toupper name)
    (map Strings.toupper newPassword)) as (verifier & Er & _ & Hlogin).
  exists verifier, info. rewrite utf8length_upper, (proj2 (Z.ltb_ge _ _)), Er by done.
  split; [done|]. split; [done|]. split; [by rewrite Hl, lower_upper|].
  intros name' key' now row Hn' Hk' En' Ek' Es Ev. rewrite CheckKey_upper by done.
  rewrite En', Ek'. unfold DS.AccountInfo_new. cbn [ai_Salt ai_Verifier]. by rewrite Es, Ev.
Qed.

(** ** Random keys *)

Definition alnum (c : Z) : Prop :=
  Strings.in_range 48 c 57 || Strings.in_range 65 c 90 || Strings.in_range 97 c 122 = true.

Lemma alnum_ascii c : alnum c → 0 <= c < 0x80.
Proof using.
  unfold alnum, Strings.in_range. rewrite !orb_true_iff, !andb_true_iff, !Z.leb_le. lia.
Qed.

Lemma encode_ascii l : Forall (λ c, 0 <= c < 0x80) l → Utf8.encode l = l ∧ Forall Utf8.valid_cp l.
Proof using.
  induction 1 as [|c l Hc Hl [IH1 IH2]]; [done|].
  rewrite Utf8.encode_cons, IH1. unfold Utf8.enc. rewrite (proj2 (Z.ltb_lt _ _)) by lia.
  split; [done|]. constructor; [unfold Utf8.valid_cp; lia|done].
Qed.

Lemma alnum_short l : Forall alnum l → zlen l <= MAX_PASS_STR → short MAX_PASS_STR l.
Proof using.
  intros Ha Hl.
  assert (Forall (λ c, 0 <= c < 0x80) l) as Hascii by (eapply Forall_impl; [exact Ha|]; apply alnum_ascii).
  destruct (encode_ascii l Hascii) as [E V].
  assert (Forall is_byte l) as Hb by (eapply Forall_impl; [exact Hascii|]; unfold is_byte; cbn; lia).
  split; [done|]. split; [apply Utf8.is_valid_encode; [done|by exists l]|].
  unfold Strings.utf8length. pose proof (Utf8.distance_encode l V) as D. rewrite E in D. by rewrite D.
Qed.

Lemma random_chars_ok n count first draws :
  0 < count → Forall (Z.le 0) draws →
  ∃ l rest, random_chars n count first draws = (Ret l, rest) ∧ length l = n ∧
    Forall (λ c, first <= c < first + count) l ∧ Forall (Z.le 0) rest.
Proof using.
  intros Hc. revert draws. induction n as [|n IH]; intros draws Hd; cbn [random_chars].
  { by exists [], draws. }
  assert (∃ d ds, rand draws = (Ret d, ds) ∧ 0 <= d ∧ Forall (Z.le 0) ds) as (d & ds & E & Hd0 & Hds).
  { destruct Hd as [|d ds]; [by exists 0, []|by exists d, ds]. }
  destruct (IH ds Hds) as (l & rest & E2 & H1 & H2 & H3).
  rewrite (bind_run _ _ _ _ _ E), (bind_run _ _ _ _ _ E2).
  eexists _, rest. split; [done|]. split; [cbn; by rewrite H1|]. split; [|done].
  constructor; [|done]. pose proof (Z.rem_bound_pos d count). lia.
Qed.

Lemma GetRandomKey_run RandomShuffle smallChars bigChars draws :
  (∀ l, RandomShuffle l ≡ₚ l) → 1 <= smallChars < MAX_PASS_STR → Forall (Z.le 0) draws →
  1 <= bigChars <= MAX_PASS_STR - smallChars →
  ∃ key rest, GetRandomKey RandomShuffle (smallChars :: bigChars :: draws) = (Ret key, rest) ∧
    zlen key = 50 ∧ Forall alnum key ∧ short MAX_PASS_STR key.
Proof using.
  unfold MAX_PASS_STR at 1 2. intros Hs Hsm Hd Hb. unfold GetRandomKey.
  assert (Random.urand 1 MAX_PASS_STR (smallChars :: bigChars :: draws) =
    (Ret smallChars, bigChars :: draws)) as E0
    by (apply Random.urand_draws; unfold MAX_PASS_STR; lia).
  rewrite (bind_run _ _ _ _ _ E0).
  rewrite wrap_small by (unfold MAX_PASS_STR; lia).
  assert (Random.urand 1 (MAX_PASS_STR - smallChars) (bigChars :: draws) = (Ret bigChars, draws)) as E
    by (apply Random.urand_draws; unfold MAX_PASS_STR; lia).
  rewrite (bind_run _ _ _ _ _ E). cbv zeta.
  rewrite wrap_small by (unfold MAX_PASS_STR; lia).
  destruct (random_chars_ok (Z.to_nat (MAX_PASS_STR - smallChars - bigChars)) 10 48 draws)
    as (a & d1 & E1 & L1 & A1 & D1); [lia|done|]. rewrite (bind_run _ _ _ _ _ E1).
  destruct (random_chars_ok (Z.to_nat bigChars) 26 65 d1) as (b & d2 & E2 & L2 & A2 & D2);
    [lia|done|]. rewrite (bind_run _ _ _ _ _ E2).
  destruct (random_chars_ok (Z.to_nat smallChars) 26 97 d2) as (c & d3 & E3 & L3 & A3 & D3);
    [lia|done|]. rewrite (bind_run _ _ _ _ _ E3).
  assert (zlen (RandomShuffle (a ++ b ++ c)) = 50) as Hl.
  { unfold zlen. rewrite Hs, !length_app, L1, L2, L3. unfold MAX_PASS_STR. lia. }
  assert (Forall alnum (RandomShuffle (a ++ b ++ c))) as Ha.
  { rewrite Hs, !Forall_app. unfold alnum, Strings.in_range.
    repeat split; (eapply Forall_impl; [eassumption|]); cbn; intros x Hx;
      rewrite !orb_true_iff, !andb_true_iff, !Z.leb_le; lia. }
  exists (RandomShuffle (a ++ b ++ c)), d3. do 3 (split; [done|]).
  apply alnum_short; [done|]. rewrite Hl. done.
Qed.

(** A generated key has fifty letters and digits, so that an account can be
    created with it; but when the first draw takes all fifty characters for small
    letters, the second draw is from an empty range and its assertion ends the
    server. *)
Theorem random_key (RandomShuffle : list Z → list Z) (smallChars bigChars : Z) (draws : list Z) :
  (∀ l, RandomShuffle l ≡ₚ l) → 1 <= smallChars <= MAX_PASS_STR → Forall (Z.le 0) draws →
  (smallChars < MAX_PASS_STR → 1 <= bigChars <= MAX_PASS_STR - smallChars) →
  if smallChars =? MAX_PASS_STR
  then eval (GetRandomKey RandomShuffle) (smallChars :: bigChars :: draws) = AssertFail
  else ∃ key, eval (GetRandomKey RandomShuffle) (smallChars :: bigChars :: draws) = Ret key ∧
    zlen key = 50 ∧ Forall alnum key ∧ short MAX_PASS_STR key.
Proof using.
  intros Hs Hsm Hd Hb. destruct (Z.eqb_spec smallChars MAX_PASS_STR) as [->|Hne]; [done|].
  destruct (GetRandomKey_run RandomShuffle smallChars bigChars draws Hs ltac:(lia) Hd ltac:(lia))
    as (key & rest & E & Hk).
  exists key. split; [|exact Hk]. unfold eval. by rewrite E.
Qed.
End accounts.
End Accounts.

(** ** Bans *)

Module BanResponceCode.

Inductive t := Ok | Error | NotFound | Exist.
End BanResponceCode.

Record BanInfo := mkBan { Duration : Z; BanDate : Z; UnabanDate : Z }.

(** The constructor at a game time. *)
Definition BanInfo_new (duration banDate gameTime : Z) : BanInfo :=
  mkBan duration (if banDate =? 0 then gameTime else banDate) (banDate + duration).

Definition IsPermanently (b : BanInfo) : bool := (Duration b =? 0) || (BanDate b =? UnabanDate b).

Record BanMgr := mkBans {
  bm_storeAccount : gmap (list Z) BanInfo;
  bm_storeIp : gmap (list Z) BanInfo
}.

(** What the ban manager works on: itself, the accounts with the database, and
    the sessions with the game time. *)
Record Server (S : Type) := mkServer {
  sv_bans : BanMgr;
  sv_accounts : AccountMgr;
  sv_world : World S
}.
Arguments mkServer {S}.
Arguments sv_bans {S}.
Arguments sv_accounts {S}.
Arguments sv_world {S}.

Module Bans.
Section bans.
Context {W : AccountOrder} {S : Type} {SS : SessionSocket S}.

Definition set_bans (v : BanMgr) (s : Server S) : Server S := mkServer v (sv_accounts s) (sv_world s).
Definition set_world (v : World S) (s : Server S) : Server S := mkServer (sv_bans s) (sv_accounts s) v.
Definition Execute (stmt : statement) (s : Server S) : Server S :=
  mkServer (sv_bans s) (Accounts.Execute stmt (sv_accounts s)) (sv_world s).

Definition Initialize (s : Server S) : Server S :=
  Execute DISCORD_UPD_IP_BAN_EXPIRED (Execute DISCORD_UPD_ACCOUNT_BAN_EXPIRED s).

Definition GetBanInfoAccount (accountName : list Z) (s : Server S) : option BanInfo :=
  bm_storeAccount (sv_bans s) !! accountName.
Definition GetBanInfoIp (ip : list Z) (s : Server S) : option BanInfo :=
  bm_storeIp (sv_bans s) !! ip.

Definition AddAccount (accountName : list Z) (banType : BanInfo) (s : Server S) : Server S :=
  set_bans (mkBans (<[accountName := banType]> (bm_storeAccount (sv_bans s)))
              (bm_storeIp (sv_bans s))) s.
Definition AddIp (ip : list Z) (banType : BanInfo) (s : Server S) : Server S :=
  set_bans (mkBans (bm_storeAccount (sv_bans s)) (<[ip := banType]> (bm_storeIp (sv_bans s)))) s.

Definition DeleteAccount (accountName : list Z) (s : Server S) : Server S :=
  match GetBanInfoAccount accountName s with
  | None => s
  | Some _ =>
      let accountID := Accounts.GetID accountName (sv_accounts s) in
      if accountID =? 0 then s
      else
        let s := Execute (DISCORD_DEL_BAN_ACCOUNT accountID) s in
        set_bans (mkBans (delete accountName (bm_storeAccount (sv_bans s)))
                    (bm_storeIp (sv_bans s))) s
  end.

Definition DeleteIp (ip : list Z) (s : Server S) : Server S :=
  match GetBanInfoIp ip s with
  | None => s
  | Some _ =>
      let s := Execute (DISCORD_DEL_BAN_IP ip) s in
      set_bans (mkBans (bm_storeAccount (sv_bans s)) (delete ip (bm_storeIp (sv_bans s)))) s
  end.

(** The ban is in force. *)
Definition stands (banInfo : option BanInfo) (gameTime : Z) : bool :=
  match banInfo with
  | Some b => IsPermanently b || (gameTime <? UnabanDate b)
  | None => false
  end.

(** A session is kicked where it is. *)
Definition kick_where (p : Z → DiscordSession * S → bool) (w : World S) : World S :=
  Discord.set_sessions
    (map_imap (λ id e, Some (if p id e then Session.KickSession true e.1 e.2 else e)) (w_sessions w))
    (w_released w) w.

Definition BanAccount (accountName : list Z) (duration : Z) (reason : list Z) (s : Server S)
  : BanResponceCode.t * Server S :=
  match accountName with
  | [] => (BanResponceCode.Error, s)
  | _ =>
      let accountID := Accounts.GetID accountName (sv_accounts s) in
      if accountID =? 0 then (BanResponceCode.NotFound, s)
      else if stands (GetBanInfoAccount accountName s) (w_GameTime (sv_world s))
      then (BanResponceCode.Exist, s)
      else
        let s := DeleteAccount accountName s in
        let s := Execute (DISCORD_INS_ACCOUNT_BAN accountID duration (str "Console") reason) s in
        let s := set_world (kick_where (λ id _, id =? accountID) (sv_world s)) s in
        (BanResponceCode.Ok,
         AddAccount accountName (BanInfo_new duration 0 (w_GameTime (sv_world s))) s)
  end.

Definition BanIp (ip : list Z) (duration : Z) (reason : list Z) (s : Server S)
  : BanResponceCode.t * Server S :=
  match ip with
  | [] => (BanResponceCode.Error, s)
  | _ =>
      if stands (GetBanInfoIp ip s) (w_GameTime (sv_world s)) then (BanResponceCode.Exist, s)
      else
        let s := DeleteIp ip s in
        let s := Execute (DISCORD_INS_IP_BAN ip duration (str "Console") reason) s in
        let s := set_world (kick_where (λ _ e, bool_decide (s_address e.1 = ip)) (sv_world s)) s in
        (BanResponceCode.Ok, AddIp ip (BanInfo_new duration 0 (w_GameTime (sv_world s))) s)
  end.

(** ** What a ban does *)

Lemma kick_where_spec p (w : World S) id :
  Discord.FindSession id (kick_where p w) =
  (λ e, if p id e then Session.KickSession true e.1 e.2 else e) <$> Discord.FindSession id w.
Proof.
  unfold Discord.FindSession, kick_where. cbn [w_sessions Discord.set_sessions].
  rewrite map_lookup_imap. by destruct (w_sessions w !! id).
Qed.

Lemma DeleteAccount_fields accountName s :
  sv_world (DeleteAccount accountName s) = sv_world s ∧
  am_accounts (sv_accounts (DeleteAccount accountName s)) = am_accounts (sv_accounts s).
Proof. unfold DeleteAccount. repeat case_match; done. Qed.

Lemma DeleteIp_fields ip s :
  sv_world (DeleteIp ip s) = sv_world s ∧
  am_accounts (sv_accounts (DeleteIp ip s)) = am_accounts (sv_accounts s).
Proof. unfold DeleteIp. repeat case_match; done. Qed.

Lemma GetID_same name s s' :
  am_accounts s = am_accounts s' → Accounts.GetID name s = Accounts.GetID name s'.
Proof. unfold Accounts.GetID. by intros ->. Qed.

Context {Laws : SessionSocketLaws S}.

(** Banning an account that is not banned yet tells the database, puts the
    ban in the store and kicks exactly the account's session, whose connection is
    no longer open; nobody else is touched.  A second ban right after it is refused
    only when the first has no duration or one at least as long as the time since
    the epoch: the end of a ban is reckoned from the epoch, not from the ban. *)
Theorem ban_account (accountName reason : list Z) (duration duration' : Z) (s : Server S) :
  accountName ≠ [] → Accounts.GetID accountName (sv_accounts s) ≠ 0 →
  stands (GetBanInfoAccount accountName s) (w_GameTime (sv_world s)) = false →
  let id := Accounts.GetID accountName (sv_accounts s) in
  let now := w_GameTime (sv_world s) in
  let '(code, s') := BanAccount accountName duration reason s in
  code = BanResponceCode.Ok ∧
  GetBanInfoAccount accountName s' = Some (mkBan duration now duration) ∧
  (∃ before, am_db (sv_accounts s') =
     before ++ [DISCORD_INS_ACCOUNT_BAN id duration (str "Console") reason]) ∧
  (∀ i, i ≠ id → Discord.FindSession i (sv_world s') = Discord.FindSession i (sv_world s)) ∧
  match Discord.FindSession id (sv_world s) with
  | Some (session, sock) => ∃ sock',
      Discord.FindSession id (sv_world s') = Some (Session.SetKicked true session, sock') ∧
      (s_socket session = true → sock_IsOpen sock' = false)
  | None => Discord.FindSession id (sv_world s') = None
  end ∧
  ((BanAccount accountName duration' reason s').1 = BanResponceCode.Exist ↔
   duration = 0 ∨ now <= duration).
Proof using Laws.
  intros Hne Hid Hst id now. unfold BanAccount at 1. destruct accountName as [|c n]; [done|].
  fold id. rewrite (proj2 (Z.eqb_neq _ _)), Hst by done.
  set (s1 := DeleteAccount (c :: n) s). destruct (DeleteAccount_fields (c :: n) s) as [Hw Ha].
  fold s1 in Hw, Ha. cbv zeta.
  set (s2 := AddAccount _ _ _). split; [done|].
  assert (sv_world s2 = kick_where (λ i _, i =? id) (sv_world s)) as Ew by (by rewrite <- Hw).
  assert (GetBanInfoAccount (c :: n) s2 = Some (mkBan duration now duration)) as Eb.
  { unfold GetBanInfoAccount, s2, AddAccount. cbn [set_bans sv_bans bm_storeAccount].
    rewrite lookup_insert_eq. unfold now. by rewrite <- Hw. }
  assert (am_accounts (sv_accounts s2) = am_accounts (sv_accounts s)) as Ea by done.
  split; [done|]. split; [by eexists|]. rewrite Ew.
  split; [intros i Hi; rewrite kick_where_spec, (proj2 (Z.eqb_neq i id)) by done;
    by destruct (Discord.FindSession i (sv_world s))|].
  split.
  - rewrite kick_where_spec, Z.eqb_refl.
    destruct (Discord.FindSession id (sv_world s)) as [[session sock]|]; [|done].
    eexists. split; [done|]. cbn. intros ->. apply close_not_open.
  - unfold BanAccount. rewrite (GetID_same _ _ _ Ea). fold id.
    rewrite (proj2 (Z.eqb_neq _ _)), Eb, Ew by done.
    unfold stands, IsPermanently. cbn [Duration BanDate UnabanDate].
    change (w_GameTime (kick_where _ (sv_world s))) with now.
    destruct (Z.eqb_spec duration 0), (Z.eqb_spec now duration), (Z.ltb_spec now duration);
      cbn [orb fst]; split; intros; try done; try lia.
Qed.

(** Banning an address that is not banned yet kicks exactly the sessions that
    come from it, however many, and no other; their connections are no longer
    open. *)
Theorem ban_ip (ip reason : list Z) (duration : Z) (s : Server S) :
  ip ≠ [] → stands (GetBanInfoIp ip s) (w_GameTime (sv_world s)) = false →
  let '(code, s') := BanIp ip duration reason s in
  code = BanResponceCode.Ok ∧
  GetBanInfoIp ip s' = Some (mkBan duration (w_GameTime (sv_world s)) duration) ∧
  (∃ before, am_db (sv_accounts s') =
     before ++ [DISCORD_INS_IP_BAN ip duration (str "Console") reason]) ∧
  ∀ id, match Discord.FindSession id (sv_world s) with
        | Some (session, sock) =>
            if bool_decide (s_address session = ip)
            then ∃ sock', Discord.FindSession id (sv_world s') =
                   Some (Session.SetKicked true session, sock') ∧
                 (s_socket session = true → sock_IsOpen sock' = false)
            else Discord.FindSession id (sv_world s') = Some (session, sock)
        | None => Discord.FindSession id (sv_world s') = None
        end.
Proof using Laws.
  intros Hne Hst. unfold BanIp. destruct ip as [|c n]; [done|]. rewrite Hst.
  set (s1 := DeleteIp (c :: n) s). destruct (DeleteIp_fields (c :: n) s) as [Hw _]. fold s1 in Hw.
  cbv zeta. set (s2 := AddIp _ _ _). split; [done|].
  assert (sv_world s2 = kick_where (λ _ e, bool_decide (s_address e.1 = c :: n)) (sv_world s)) as Ew
    by (by rewrite <- Hw).
  split; [unfold GetBanInfoIp, s2, AddIp; cbn [set_bans sv_bans bm_storeIp];
    rewrite lookup_insert_eq; by rewrite <- Hw|].
  split; [by eexists|]. intros id. rewrite Ew, kick_where_spec.
  destruct (Discord.FindSession id (sv_world s)) as [[session sock]|]; [|done]. cbn [fmap option_fmap option_map fst snd].
  case_bool_decide; [|done]. eexists. split; [done|]. cbn. intros ->. apply close_not_open.
Qed.
End bans.
End Bans.

(** ** Examples *)

#[local] Instance key_order : AccountOrder := λ m, (map_to_list m).*1.
#[local] Instance key_order_laws : AccountOrderLaws key_order.
Proof.
  intros m id. unfold account_order, key_order. rewrite list_elem_of_fmap. split.
  - intros ([i x] & -> & Hx%elem_of_map_to_list). by eexists.
  - intros [x Hx]. exists (id, x). split; [done|]. by apply elem_of_map_to_list.
Qed.

Lemma bytes_by_computation l :
  forallb (λ b, (0 <=? b) && (b <? 256)) l = true → Forall is_byte l.
Proof.
  rewrite forallb_forall. intros Hb. apply Forall_forall. intros b Hin%list_elem_of_In.
  specialize (Hb b Hin). unfold is_byte. rewrite andb_true_iff, Z.leb_le, Z.ltb_lt in Hb. lia.
Qed.

Lemma short_by_computation limit text :
  forallb (λ b, (0 <=? b) && (b <? 256)) text && Utf8.is_valid text
    && ((Strings.utf8length text).1 <=? limit) = true →
  Accounts.short limit text.
Proof.
  rewrite !andb_true_iff, forallb_forall, Z.leb_le. intros [[Hb Hv] Hl]. split; [|done].
  apply Forall_forall. intros b Hin. apply list_elem_of_In, Hb in Hin. unfold is_byte.
  rewrite andb_true_iff, Z.leb_le, Z.ltb_lt in Hin. lia.
Qed.

Lemma register_then_login_witness :
  let name := str "Bot" ++ [195; 169] in
  ∃ verifier s', Accounts.CreateAccount (O := SRP6.toy_openssl) [4; 5] name (str "kEy9") 77 []
      Accounts.new = (Ret AccountResponceResult.Ok, s') ∧
    am_db s' = [] ++ [DISCORD_INS_ACCOUNT (str "BOT" ++ [195; 169]) [4; 5] verifier 77 (str "WarheadCore")] ∧
    (∀ name' key' now row, Forall is_byte name' → Forall is_byte key' →
      map Strings.toupper name' = map Strings.toupper name →
      map Strings.toupper key' = map Strings.toupper (str "kEy9") →
      row_Salt row = [4; 5] → row_Verifier row = verifier →
      DS.CheckKey (O := SRP6.toy_openssl) name' key' (DS.AccountInfo_new now row) = Ret true) ∧
    ∃ s'', Accounts.Update (λ _, false) (λ _, Some (Some 5)) s' = (Ret (), s'') ∧
      Accounts.GetID (str "bOT" ++ [195; 169]) s'' = 5.
Proof.
  intros name. destruct (Accounts.register_then_login (OL := SRP6.toy_openssl_laws) [4; 5] name (str "kEy9")
    77 [] Accounts.new) as (verifier & s' & E & D & L & F);
    [apply short_by_computation; by vm_compute|apply short_by_computation; by vm_compute|done|].
  exists verifier, s'. split; [exact E|]. split; [exact D|]. split; [exact L|].
  destruct (F 5 (λ _, false) eq_refl ltac:(done) eq_refl eq_refl) as (s'' & U & G).
  exists s''. split; [exact U|]. by apply G; vm_compute.
Defined.

(** A realm name that was lent and is gone when the database answers. *)
Example realm_name_dangles :
  match Accounts.CreateAccount (O := SRP6.toy_openssl) [4; 5] (str "user") (str "key") 77 (str "My realm")
    Accounts.new with
  | (Ret AccountResponceResult.Ok, s') =>
      (Accounts.Update (λ _, false) (λ _, Some (Some 5)) s').1 = UB ∧
      (Accounts.Update (λ _, true) (λ _, Some (Some 5)) s').1 = Ret ()
  | _ => False
  end.
Proof. vm_compute. done. Qed.

Definition demo_accounts : AccountMgr :=
  Accounts.AddAccountInfo (mkInfo 5 77 (str "BOT") (str "realm")) Accounts.new.

Lemma change_key_witness :
  ∃ verifier info,
    Accounts.ChangeKey (O := SRP6.toy_openssl) [4; 5] (str "bot") (str "new") demo_accounts =
      (Ret AccountResponceResult.Ok, Accounts.Execute (DISCORD_UPD_LOGON [4; 5] verifier 5) demo_accounts) ∧
    am_accounts demo_accounts !! 5 = Some info ∧
    map Strings.tolower (acc_Name info) = map Strings.tolower (str "bot") ∧
    ∀ name' key' now row, Forall is_byte name' → Forall is_byte key' →
      map Strings.toupper name' = map Strings.toupper (str "bot") →
      map Strings.toupper key' = map Strings.toupper (str "new") →
      row_Salt row = [4; 5] → row_Verifier row = verifier →
      DS.CheckKey (O := SRP6.toy_openssl) name' key' (DS.AccountInfo_new now row) = Ret true.
Proof.
  assert (Accounts.GetID (map Strings.toupper (str "bot")) demo_accounts = 5) as E by (by vm_compute).
  pose proof (Accounts.change_key (OL := SRP6.toy_openssl_laws) [4; 5] (str "bot") (str "new")
    demo_accounts ltac:(apply short_by_computation; by vm_compute)
    ltac:(apply short_by_computation; by vm_compute)) as H.
  rewrite E in H. exact H.
Defined.

Lemma random_key_witness :
  ∃ key, eval (Accounts.GetRandomKey (@rev Z)) [20; 10; 7; 3] = Ret key ∧
    zlen key = 50 ∧ Forall Accounts.alnum key ∧ Accounts.short MAX_PASS_STR key.
Proof.
  apply (Accounts.random_key (@rev Z) 20 10 [7; 3]).
  - intros l. symmetry. apply Permutation_rev.
  - unfold MAX_PASS_STR. lia.
  - repeat constructor; lia.
  - unfold MAX_PASS_STR. lia.
Defined.

#[local] Existing Instance Discord.flag_socket.
#[local] Instance flag_socket_laws : SessionSocketLaws bool.
Proof. by split. Qed.

(** Account 5 is online twice over: once itself, once someone else's session. *)
Definition demo_server : Server bool :=
  mkServer (mkBans ∅ ∅) demo_accounts
    (Discord.set_sessions {[5 := (Discord.demo_session 5, true); 6 := (Discord.demo_session 6, true)]} []
       (Discord.new 1000000)).

Lemma ban_account_witness :
  let '(code, s') := Bans.BanAccount (str "Bot") 600 (str "spam") demo_server in
  code = BanResponceCode.Ok ∧
  Bans.GetBanInfoAccount (str "Bot") s' = Some (mkBan 600 1000000 600) ∧
  (∃ before, am_db (sv_accounts s') =
     before ++ [DISCORD_INS_ACCOUNT_BAN 5 600 (str "Console") (str "spam")]) ∧
  (∀ i, i ≠ 5 → Discord.FindSession i (sv_world s') = Discord.FindSession i (sv_world demo_server)) ∧
  match Discord.FindSession 5 (sv_world demo_server) with
  | Some (session, sock) => ∃ sock',
      Discord.FindSession 5 (sv_world s') = Some (Session.SetKicked true session, sock') ∧
      (s_socket session = true → sock_IsOpen sock' = false)
  | None => Discord.FindSession 5 (sv_world s') = None
  end ∧
  ((Bans.BanAccount (str "Bot") 60 (str "spam") s').1 = BanResponceCode.Exist ↔
   600 = 0 ∨ 1000000 <= 600).
Proof.
  assert (Accounts.GetID (str "Bot") (sv_accounts demo_server) = 5) as E by (by vm_compute).
  pose proof (Bans.ban_account (Laws := flag_socket_laws) (str "Bot") (str "spam") 600 60 demo_server
    ltac:(by vm_compute) ltac:(by vm_compute) ltac:(by vm_compute)) as H.
  rewrite E in H. exact H.
Defined.

Lemma ban_ip_witness :
  let '(code, s') := Bans.BanIp (str "10.0.0.1") 600 (str "spam") demo_server in
  code = BanResponceCode.Ok ∧
  Bans.GetBanInfoIp (str "10.0.0.1") s' = Some (mkBan 600 1000000 600) ∧
  (∃ before, am_db (sv_accounts s') =
     before ++ [DISCORD_INS_IP_BAN (str "10.0.0.1") 600 (str "Console") (str "spam")]) ∧
  ∀ id, match Discord.FindSession id (sv_world demo_server) with
        | Some (session, sock) =>
            if bool_decide (s_address session = str "10.0.0.1")
            then ∃ sock', Discord.FindSession id (sv_world s') =
                   Some (Session.SetKicked true session, sock') ∧
                 (s_socket session = true → sock_IsOpen sock' = false)
            else Discord.FindSession id (sv_world s') = Some (session, sock)
        | None => Discord.FindSession id (sv_world s') = None
        end.
Proof.
  apply (Bans.ban_ip (Laws := flag_socket_laws) (str "10.0.0.1") (str "spam") 600 demo_server);
    by vm_compute.
Defined.

(** A name that is not UTF-8 is emptied by the check of its length, and an account
    without a name is made. *)
Example invalid_name_is_empty :
  match (Accounts.CreateAccount (O := SRP6.toy_openssl) [4] [255; 65] (str "key") 1 [] Accounts.new).2 with
  | mkAM _ _ [DISCORD_INS_ACCOUNT name _ _ _ _] => name = []
  | _ => False
  end.
Proof. by vm_compute. Qed.
