(* ===== verification/Network.v ===== *)
(** * Network: threads, the acceptor and who serves a connection

    Model of [NetworkThread.h], [SocketMgr.h] and [AsyncAcceptor.h] under
    [src/src/shared/Network], and of [DiscordSocketMgr]
    ([src/src/server/Server/DiscordSocketMgr.cpp]).  A thread is its state; its
    1 ms timer is a call of [Update].  A socket is any type with the interface
    [NetSocket]; what the system answers to calls on sockets is an argument. *)

From S2P Require Import Prelude MessageBuffer Utf8 Strings BigNumber Srp6 Timer Enums ByteBuffer Wire Packets.
From S2P Require Import Queues Async Socket Session DiscordSocket.
Open Scope Z_scope.

(** What a network thread needs of a socket: [net_Update] says whether the socket
    lives on. *)
Class NetSocket (S : Type) := {
  net_IsOpen : S → bool;
  net_Update : S → bool * S;
  net_CloseSocket : S → S;
  net_Start : S → S;
  net_SetSendBufferSize : Z → S → S
}.

Class NetSocketLaws (S : Type) `{NetSocket S} : Prop :=
  net_close_not_open (s : S) : net_IsOpen (net_CloseSocket s) = false.

(** The connections of game servers, updated with the answers that have come. *)
#[export] Instance DiscordSocket_net `{Host, OpenSSL} (now : Z) (closed : bool)
    (results : query → option DS.answer) : NetSocket DS.st := {
  net_IsOpen s := SocketOps.IsOpen s.1;
  net_Update s := let '(o, s) := DS.Update now closed results s in
                  (match o with Ret alive => alive | _ => false end, s);
  net_CloseSocket := DS.CloseSocket;
  net_Start := DS.Start;
  net_SetSendBufferSize n s := (s.1, DS.SetSendBufferSize n s.2)
}.

Record NetworkThread (S : Type) := mkThread {
  th_connections : Z;
  th_stopped : bool;
  th_thread : bool;
  th_sockets : list S;
  th_newSockets : list S;
  th_removed : list S
}.
Arguments mkThread {S}.
Arguments th_connections {S}.
Arguments th_stopped {S}.
Arguments th_thread {S}.
Arguments th_sockets {S}.
Arguments th_newSockets {S}.
Arguments th_removed {S}.

Record SocketMgr (S : Type) := mkMgr {
  mg_threads : list (NetworkThread S);
  mg_acceptor : bool;
  mg_closed : bool;
  mg_accepting : option Z;
  mg_systemSendBufferSize : Z;
  mg_applicationSendBufferSize : Z;
  mg_tcpNoDelay : bool
}.
Arguments mkMgr {S}.
Arguments mg_threads {S}.
Arguments mg_acceptor {S}.
Arguments mg_closed {S}.
Arguments mg_accepting {S}.
Arguments mg_systemSendBufferSize {S}.
Arguments mg_applicationSendBufferSize {S}.
Arguments mg_tcpNoDelay {S}.

Inductive acceptor_call := AOpen | AReuseAddress | ABind | AListen.

Module Network.
Section network.
Context {S : Type} {NS : NetSocket S}.

(** *** A thread *)

Definition new : NetworkThread S := mkThread 0 false false [] [] [].

Definition Stop (t : NetworkThread S) : NetworkThread S :=
  mkThread (th_connections t) true (th_thread t) (th_sockets t) (th_newSockets t) (th_removed t).

Definition Start (t : NetworkThread S) : bool * NetworkThread S :=
  if th_thread t then (false, t)
  else (true, mkThread (th_connections t) (th_stopped t) true (th_sockets t) (th_newSockets t)
                (th_removed t)).

(** [Wait]: the thread runs to its end, which drops its sockets. *)
Definition Wait : M Empty_set (NetworkThread S) () :=
  running ← gets th_thread;
  assert_ running ;;
  modify (λ t, mkThread (th_connections t) (th_stopped t) false [] [] (th_removed t)).

Definition GetConnectionCount (t : NetworkThread S) : Z := th_connections t.

(** [AddSocket], with the hook of [DiscordSocketThread]. *)
Definition AddSocket (applicationSendBufferSize : Z) (sock : S) (t : NetworkThread S)
  : NetworkThread S :=
  mkThread (i32 (th_connections t + 1)) (th_stopped t) (th_thread t) (th_sockets t)
    (th_newSockets t ++ [net_SetSendBufferSize applicationSendBufferSize sock]) (th_removed t).

Definition remove (sock : S) (t : NetworkThread S) : NetworkThread S :=
  mkThread (i32 (th_connections t - 1)) (th_stopped t) (th_thread t) (th_sockets t)
    (th_newSockets t) (th_removed t ++ [sock]).
Definition set_sockets (v : list S) (t : NetworkThread S) : NetworkThread S :=
  mkThread (th_connections t) (th_stopped t) (th_thread t) v (th_newSockets t) (th_removed t).
Definition set_newSockets (v : list S) (t : NetworkThread S) : NetworkThread S :=
  mkThread (th_connections t) (th_stopped t) (th_thread t) (th_sockets t) v (th_removed t).

Definition AddNewSockets (t : NetworkThread S) : NetworkThread S :=
  let add t sock :=
    if negb (net_IsOpen sock) then remove sock t else set_sockets (th_sockets t ++ [sock]) t in
  set_newSockets [] (fold_left add (th_newSockets t) t).

(** The predicate of [remove_if]: it keeps a socket or closes and removes it. *)
Definition update_socket (t : NetworkThread S) (sock : S) : NetworkThread S :=
  let '(alive, sock) := net_Update sock in
  if alive then set_sockets (th_sockets t ++ [sock]) t
  else
    let sock := if net_IsOpen sock then net_CloseSocket sock else sock in
    remove sock t.

Definition UpdateSockets (t : NetworkThread S) : NetworkThread S :=
  fold_left update_socket (th_sockets t) (set_sockets [] t).

Definition Update (t : NetworkThread S) : NetworkThread S :=
  if th_stopped t then t else UpdateSockets (AddNewSockets t).

(** *** The manager *)

Definition new_mgr : SocketMgr S := mkMgr [] false false None (-1) 65536 true.

(** The loop over the threads from [i] on. *)
Fixpoint min_loop (i min : nat) (counts rest : list Z) : nat :=
  match rest with
  | [] => min
  | c :: rest =>
      min_loop (Datatypes.S i) (if c <? default 0 (counts !! min) then i else min) counts rest
  end.

Definition counts (m : SocketMgr S) : list Z := map GetConnectionCount (mg_threads m).

Definition SelectThreadWithMinConnections (m : SocketMgr S) : nat :=
  min_loop 1 0 (counts m) (tail (counts m)).

Definition set_threads (v : list (NetworkThread S)) (m : SocketMgr S) : SocketMgr S :=
  mkMgr v (mg_acceptor m) (mg_closed m) (mg_accepting m) (mg_systemSendBufferSize m)
    (mg_applicationSendBufferSize m) (mg_tcpNoDelay m).
Definition set_acceptor (acceptor closed : bool) (accepting : option Z) (m : SocketMgr S)
  : SocketMgr S :=
  mkMgr (mg_threads m) acceptor closed accepting (mg_systemSendBufferSize m)
    (mg_applicationSendBufferSize m) (mg_tcpNoDelay m).

(** [AsyncAcceptWithCallback]: wait for a client, to be served by the thread that
    has the fewest connections now. *)
Definition AsyncAccept : M Empty_set (SocketMgr S) () := λ m,
  match mg_threads m with
  | [] => (UB, m)
  | _ => (Ret (), set_acceptor (mg_acceptor m) (mg_closed m)
                    (Some (Z.of_nat (SelectThreadWithMinConnections m))) m)
  end.

(** [AsyncAcceptor::Close]: a pending accept will complete with an error. *)
Definition close_acceptor (m : SocketMgr S) : SocketMgr S :=
  if mg_closed m then m else set_acceptor (mg_acceptor m) true (mg_accepting m) m.

(** [AsyncAcceptor::Bind]: calls on the acceptor, each of which the operating system
    answers; the calls made are recorded. *)
Definition acceptor_does (call : acceptor_call) (answer : acceptor_call → bool) :
    M Empty_set (list acceptor_call) bool := λ calls, (Ret (answer call), calls ++ [call]).

Definition Bind (answer : acceptor_call → bool) : M Empty_set (list acceptor_call) bool :=
  opened ← acceptor_does AOpen answer;
  if negb opened then mret false
  else
    reused ← acceptor_does AReuseAddress answer;
    if negb reused then mret false
    else
      bound ← acceptor_does ABind answer;
      if negb bound then mret false
      else
        listens ← acceptor_does AListen answer;
        if negb listens then mret false else mret true.

(** [StartNetwork]; [bound] says whether the acceptor could be made for the address
    and its [Bind] gave [true]. *)
Definition StartNetwork (bound : bool) (threadCount : Z) : M Empty_set (SocketMgr S) bool :=
  assert_ (0 <? threadCount) ;;
  if negb bound then mret false
  else
    modify (λ m, set_threads (replicate (Z.to_nat threadCount) (Start new).2)
                   (set_acceptor true false None m)) ;;
    mret true.

Definition StartDiscordNetwork (tcpNoDelay : bool) (outKBuff outUBuff : Z) (bound : bool)
    (threadCount : Z) : M Empty_set (SocketMgr S) bool :=
  modify (λ m, mkMgr (mg_threads m) (mg_acceptor m) (mg_closed m) (mg_accepting m) outKBuff
                 outUBuff tcpNoDelay) ;;
  if outUBuff <=? 0 then mret false
  else
    started ← StartNetwork bound threadCount;
    if negb started then mret false
    else AsyncAccept ;; mret true.

(** [SocketMgr::OnSocketOpen]: the index addresses the threads; [created] says
    whether the client's address could be had. *)
Definition add_open (created : bool) (sock : S) (threadIndex : Z)
  : M Empty_set (SocketMgr S) () := λ m,
  if negb created then (Ret (), m)
  else
    let newSocket := net_Start sock in
    match mg_threads m !! Z.to_nat threadIndex with
    | Some t =>
        (Ret (), set_threads
          (<[Z.to_nat threadIndex := AddSocket (mg_applicationSendBufferSize m) newSocket t]>
             (mg_threads m)) m)
    | None => (UB, m)
    end.

(** [OnSocketOpen]; [kbuff_ok] and [nodelay_ok] say whether the options could be
    set. *)
Definition OnSocketOpen (kbuff_ok nodelay_ok created : bool) (sock : S) (threadIndex : Z)
  : M Empty_set (SocketMgr S) () :=
  m ← gets id;
  if (0 <=? mg_systemSendBufferSize m) && negb kbuff_ok then mret ()
  else if mg_tcpNoDelay m && negb nodelay_ok then mret ()
  else add_open created sock threadIndex.

(** The accept completes, with a socket or an error; unless the acceptor was
    closed, the next client is waited for.  A handler that runs when the acceptor
    is gone reads freed memory. *)
Definition accepted (kbuff_ok nodelay_ok created : bool) (result : option S)
  : M Empty_set (SocketMgr S) () :=
  m ← gets id;
  match mg_accepting m with
  | None => mret ()
  | Some threadIndex =>
      if negb (mg_acceptor m) then undefined
      else
        modify (λ m, set_acceptor (mg_acceptor m) (mg_closed m) None m) ;;
        match result with
        | Some sock => OnSocketOpen kbuff_ok nodelay_ok created sock threadIndex
        | None => mret ()
        end ;;
        closed ← gets mg_closed;
        if (closed : bool) then mret () else AsyncAccept
  end.

Definition UpdateThread (i : nat) (m : SocketMgr S) : SocketMgr S :=
  set_threads (alter Update i (mg_threads m)) m.

(** [SocketMgr::Wait] *)
Definition WaitAll : M Empty_set (SocketMgr S) () := λ m,
  if forallb th_thread (mg_threads m)
  then (Ret (), set_threads (map (λ t, exec Wait t) (mg_threads m)) m)
  else (AssertFail, m).

Definition StopNetwork : M Empty_set (SocketMgr S) () :=
  acceptor ← gets mg_acceptor;
  if negb acceptor then undefined
  else
    modify close_acceptor ;;
    modify (λ m, set_threads (map Stop (mg_threads m)) m) ;;
    WaitAll ;;
    modify (λ m, set_threads [] (set_acceptor false true (mg_accepting m) m)).

(** ** A thread keeps count of its connections *)

(** What happens to a thread: the acceptor adds sockets, whenever, between and
    during its own updates; then it is stopped. *)
Inductive thread_op :=
  | OAdd (applicationSendBufferSize : Z) (sock : S)
  | ONew
  | OSockets
  | OStop.

Definition run_thread_op (t : NetworkThread S) (o : thread_op) : NetworkThread S :=
  match o with
  | OAdd n sock => AddSocket n sock t
  | ONew => AddNewSockets t
  | OSockets => UpdateSockets t
  | OStop => Stop t
  end.

Definition adds (os : list thread_op) : nat :=
  length (List.filter (λ o, match o with OAdd _ _ => true | _ => false end) os).

(** The sockets a thread has, or has yet to look at. *)
Definition held (t : NetworkThread S) : nat := length (th_sockets t) + length (th_newSockets t).

(** [k] sockets were added so far. *)
Record accounted (k : nat) (t : NetworkThread S) : Prop := {
  acc_count : th_connections t = Z.of_nat (held t);
  acc_all : k = (length (th_removed t) + held t)%nat;
  acc_closed : Forall (λ sock, net_IsOpen sock = false) (th_removed t)
}.

(** [Bind] goes on as long as its calls succeed: what it did is the shortest run of
    calls that ends in a failure, or all of them. *)
Lemma Bind_spec answer :
  let calls := [AOpen; AReuseAddress; ABind; AListen] in
  Bind answer [] =
    match list_find (λ c, answer c = false) calls with
    | Some (i, _) => (Ret false, take (Datatypes.S i) calls)
    | None => (Ret true, calls)
    end.
Proof.
  unfold Bind, acceptor_does, mbind, M_bind. cbn.
  destruct (answer AOpen), (answer AReuseAddress), (answer ABind), (answer AListen); reflexivity.
Qed.

Section laws.
Context {Laws : NetSocketLaws S}.

Lemma i32_nat (n : nat) : Z.of_nat n < 2 ^ 31 → i32 (Z.of_nat n) = Z.of_nat n.
Proof using. intros. apply swrap_small; lia. Qed.

Lemma accounted_AddSocket n sock k t :
  accounted k t → Z.of_nat (Datatypes.S k) < 2 ^ 31 →
  accounted (Datatypes.S k) (AddSocket n sock t).
Proof using.
  intros [C A F] Hk. unfold AddSocket. split; cbn; [|unfold held in *; cbn; rewrite length_app; cbn; lia|done].
  rewrite C. unfold held in *. cbn. rewrite length_app. cbn.
  replace (Z.of_nat _ + 1) with (Z.of_nat (Datatypes.S (length (th_sockets t) + length (th_newSockets t))))
    by lia.
  rewrite i32_nat by lia. lia.
Qed.

(** The loops of a thread move sockets one by one; [todo] are those not looked at
    yet, which are in neither list. *)
Record moving (k todo : nat) (t : NetworkThread S) : Prop := {
  mov_count : th_connections t = Z.of_nat (length (th_sockets t) + todo);
  mov_all : k = (length (th_removed t) + (length (th_sockets t) + todo))%nat;
  mov_closed : Forall (λ sock, net_IsOpen sock = false) (th_removed t)
}.

Lemma moving_remove sock k todo t :
  moving k (Datatypes.S todo) t → Z.of_nat k < 2 ^ 31 → net_IsOpen sock = false →
  moving k todo (remove sock t).
Proof using.
  intros [C A F] Hk Hs. unfold remove. split; cbn.
  - rewrite C. replace (_ - 1) with (Z.of_nat (length (th_sockets t) + todo)) by lia.
    apply i32_nat. lia.
  - rewrite length_app. cbn. lia.
  - rewrite Forall_app. auto.
Qed.

Lemma moving_keep sock k todo t :
  moving k (Datatypes.S todo) t → moving k todo (set_sockets (th_sockets t ++ [sock]) t).
Proof using. intros [C A F]. split; cbn; [rewrite C|rewrite A|done]; rewrite length_app; cbn; lia. Qed.
Lemma update_socket_moving sock k todo t :
  moving k (Datatypes.S todo) t → Z.of_nat k < 2 ^ 31 →
  moving k todo (update_socket t sock) ∧
  th_newSockets (update_socket t sock) = th_newSockets t.
Proof using Laws.
  intros Hm Hk. unfold update_socket. destruct (net_Update sock) as [[] sock'].
  - split; [by apply moving_keep|done].
  - split; [|done]. apply moving_remove; [done..|].
    destruct (net_IsOpen sock') eqn:E; [apply net_close_not_open|done].
Qed.

Lemma update_sockets_moving l k todo t :
  moving k (length l + todo) t → Z.of_nat k < 2 ^ 31 →
  moving k todo (fold_left update_socket l t) ∧
  th_newSockets (fold_left update_socket l t) = th_newSockets t.
Proof using Laws.
  revert t. induction l as [|sock l IH]; cbn; intros t Hm Hk; [done|].
  destruct (update_socket_moving sock k _ t Hm Hk) as [Hm' E].
  destruct (IH _ Hm' Hk) as [? E']. by rewrite E', E.
Qed.

Lemma accounted_UpdateSockets k t :
  accounted k t → Z.of_nat k < 2 ^ 31 → accounted k (UpdateSockets t).
Proof using Laws.
  intros [C A F] Hk. unfold UpdateSockets.
  destruct (update_sockets_moving (th_sockets t) k (length (th_newSockets t)) (set_sockets [] t))
    as [[C' A' F'] E]; [split; cbn; [rewrite C|rewrite A|done]; unfold held; lia|done|].
  cbn in E. split; unfold held; rewrite ?E; done.
Qed.

Lemma accounted_AddNewSockets k t :
  accounted k t → Z.of_nat k < 2 ^ 31 → accounted k (AddNewSockets t).
Proof using.
  intros [C A F] Hk. unfold AddNewSockets.
  assert (Hl : ∀ l todo t, moving k (length l + todo) t →
    moving k todo (fold_left (λ t sock, if negb (net_IsOpen sock) then remove sock t
                              else set_sockets (th_sockets t ++ [sock]) t) l t)).
  { induction l as [|sock l IH]; cbn; intros todo t' Hm; [done|].
    apply IH. destruct (net_IsOpen sock) eqn:E; cbn; [by apply moving_keep|by apply moving_remove]. }
  destruct (Hl (th_newSockets t) 0%nat t) as [C' A' F'];
    [split; [rewrite C|rewrite A|done]; unfold held; lia|].
  split; unfold held; cbn; done.
Qed.

Lemma accounted_Update k t : accounted k t → Z.of_nat k < 2 ^ 31 → accounted k (Update t).
Proof using Laws.
  intros Ha Hk. unfold Update. destruct (th_stopped t); [done|].
  apply accounted_UpdateSockets; [by apply accounted_AddNewSockets|done].
Qed.

Lemma accounted_run o k t :
  accounted k t → Z.of_nat (k + adds [o]) < 2 ^ 31 → accounted (k + adds [o]) (run_thread_op t o).
Proof using Laws.
  intros Ha Hk. destruct o; cbn in *; rewrite ?Nat.add_0_r in *.
  - replace (k + 1)%nat with (Datatypes.S k) in * by lia. by apply accounted_AddSocket.
  - by apply accounted_AddNewSockets.
  - by apply accounted_UpdateSockets.
  - destruct Ha. by split.
Qed.

Lemma accounted_runs os k t :
  accounted k t → Z.of_nat (k + adds os) < 2 ^ 31 →
  accounted (k + adds os) (fold_left run_thread_op os t).
Proof using Laws.
  revert k t. induction os as [|o os IH]; intros k t Ha Hk; cbn [fold_left].
  { by rewrite Nat.add_0_r. }
  replace (adds (o :: os)) with (adds [o] + adds os)%nat in *
    by (unfold adds; destruct o; reflexivity).
  rewrite Nat.add_assoc in *. apply IH; [apply accounted_run; [done|lia]|done].
Qed.

Lemma accounted_new : accounted 0 new.
Proof using. by split. Qed.

(** Whenever the acceptor adds sockets, the count of a thread's connections is
    the number of sockets it has or has yet to look at; each socket ever added is
    among these or was let go, once, and is then no longer open. *)
Theorem thread_keeps_count (os : list thread_op) :
  Z.of_nat (adds os) < 2 ^ 31 →
  let t := fold_left run_thread_op os new in
  GetConnectionCount t = Z.of_nat (held t) ∧
  adds os = (length (th_removed t) + held t)%nat ∧
  Forall (λ sock, net_IsOpen sock = false) (th_removed t).
Proof using Laws.
  intros Hk t. destruct (accounted_runs os 0 new accounted_new Hk). auto.
Qed.
End laws.

(** ** Who serves a connection *)

(** The first of the threads with the fewest connections. *)
Definition least (cs : list Z) (i : nat) : Prop :=
  ∃ c, cs !! i = Some c ∧ ∀ j c', cs !! j = Some c' → c <= c' ∧ ((j < i)%nat → c < c').

Lemma min_loop_least cs i min rest :
  cs = firstn i cs ++ rest → (i <= length cs)%nat → (min < i)%nat →
  least (firstn i cs) min → least cs (min_loop i min cs rest).
Proof.
  revert i min. induction rest as [|c rest IH]; intros i min E Hi Hmin Hl; cbn [min_loop].
  { rewrite app_nil_r in E. by rewrite E. }
  assert (Hc : cs !! i = Some c).
  { rewrite E, lookup_app_r; rewrite length_take; [|lia].
    replace (i - _)%nat with 0%nat by lia. done. }
  assert (Hlt : (i < length cs)%nat) by by apply lookup_lt_Some in Hc.
  assert (E' : firstn (Datatypes.S i) cs = firstn i cs ++ [c]) by by apply take_S_r.
  destruct Hl as (m & Hm & Hall). rewrite lookup_take_lt in Hm by done. rewrite Hm. change (default 0 (Some m)) with m.
  apply IH; [by rewrite E', <-app_assoc|lia|case_match; lia|].
  exists (if c <? m then c else m). split.
  { case_match; rewrite lookup_take_lt by lia; done. }
  intros j c' Hj. rewrite E' in Hj.
  apply lookup_app_Some in Hj as [Hj|[Hj1 Hj2]].
  - destruct (Hall j c' Hj) as [H1 H2]. apply lookup_lt_Some in Hj. rewrite length_take in Hj.
    case_match; split; intros; try specialize (H2 ltac:(lia)); lia.
  - rewrite length_take in *. apply list_lookup_singleton_Some in Hj2 as [Hj2 <-].
    case_match; split; intros; lia.
Qed.

Lemma SelectThread_least m :
  mg_threads m ≠ [] → least (counts m) (SelectThreadWithMinConnections m).
Proof.
  unfold SelectThreadWithMinConnections. intros Hne.
  assert (counts m ≠ []) as Hc by (unfold counts; by destruct (mg_threads m)).
  destruct (counts m) as [|c cs] eqn:E; [done|]. cbn [tail].
  apply min_loop_least; cbn; [done|lia|lia|].
  exists c. split; [done|]. intros [|j] c' Hj; [by simplify_eq/=; split; lia|done].
Qed.

(** What happens while the network runs: an accept completes, or a thread does one
    of the two halves of its update. *)
Inductive mgr_op :=
  | MAccept (kbuff_ok nodelay_ok created : bool) (result : option S)
  | MNew (i : nat)
  | MSockets (i : nat).

Definition run_mgr_op (o : mgr_op) : M Empty_set (SocketMgr S) () :=
  match o with
  | MAccept kbuff_ok nodelay_ok created result => accepted kbuff_ok nodelay_ok created result
  | MNew i => modify (λ m, set_threads (alter AddNewSockets i (mg_threads m)) m)
  | MSockets i => modify (λ m, set_threads (alter UpdateSockets i (mg_threads m)) m)
  end.

Fixpoint run_mgr (os : list mgr_op) : M Empty_set (SocketMgr S) () :=
  match os with
  | [] => mret ()
  | o :: os => run_mgr_op o ;; run_mgr os
  end.

(** Whether an accept gives a thread a connection. *)
Definition opens (m : SocketMgr S) (o : mgr_op) : bool :=
  match o with
  | MAccept kbuff_ok nodelay_ok created (Some _) =>
      negb ((0 <=? mg_systemSendBufferSize m) && negb kbuff_ok) &&
      negb (mg_tcpNoDelay m && negb nodelay_ok) && created
  | _ => false
  end.

Definition opened (m : SocketMgr S) (os : list mgr_op) : nat :=
  length (List.filter (opens m) os).

(** How many sockets a thread was ever given. *)
Definition given (t : NetworkThread S) : nat := length (th_removed t) + held t.
Definition total (m : SocketMgr S) : nat := sum_list (given <$> mg_threads m).

Definition same_options (m m' : SocketMgr S) : Prop :=
  mg_systemSendBufferSize m' = mg_systemSendBufferSize m ∧ mg_tcpNoDelay m' = mg_tcpNoDelay m.

(** The network runs: every thread keeps its count and the acceptor waits for a
    client on behalf of a thread there is. *)
Record running (n : nat) (m : SocketMgr S) : Prop := {
  run_acceptor : mg_acceptor m = true;
  run_closed : mg_closed m = false;
  run_length : length (mg_threads m) = n;
  run_started : Forall (λ t, th_thread t = true) (mg_threads m);
  run_counts : Forall (λ t, accounted (given t) t) (mg_threads m);
  run_accepting : ∃ i, mg_accepting m = Some (Z.of_nat i) ∧ (i < n)%nat
}.

Lemma opened_same m m' os : same_options m m' → opened m' os = opened m os.
Proof.
  intros [E1 E2]. unfold opened. f_equal. apply List.filter_ext. intros []; cbn; by rewrite ?E1, ?E2.
Qed.

Lemma sum_list_insert_add (l : list nat) i x y :
  l !! i = Some x → (sum_list (<[i := y]> l) + x = sum_list l + y)%nat.
Proof.
  revert i. induction l as [|z l IH]; intros [|i] Hi; [done..| |]; simplify_eq/=; [lia|].
  specialize (IH i Hi). lia.
Qed.

Lemma total_insert m i t t' :
  mg_threads m !! i = Some t →
  (total (set_threads (<[i := t']> (mg_threads m)) m) + given t = total m + given t')%nat.
Proof.
  intros Hi. unfold total. cbn. rewrite list_fmap_insert.
  apply sum_list_insert_add. by rewrite list_lookup_fmap, Hi.
Qed.

Lemma given_AddSocket n sock t : given (AddSocket n sock t) = Datatypes.S (given t).
Proof. unfold given, held. cbn. rewrite length_app. cbn. lia. Qed.

Lemma given_le m i t : mg_threads m !! i = Some t → (given t <= total m)%nat.
Proof.
  intros Hi. pose proof (total_insert m i t t Hi).
  assert (Hn : ∀ l j x, l !! j = Some x → (x <= sum_list l)%nat).
  { induction l as [|y l IH]; intros [|j] x Hj; cbn in *; [done..|simplify_eq; lia|].
    specialize (IH _ _ Hj). lia. }
  apply (Hn _ i). by rewrite list_lookup_fmap, Hi.
Qed.

Lemma running_AsyncAccept n m acceptor_waits :
  mg_acceptor m = true → mg_closed m = false → length (mg_threads m) = n → (0 < n)%nat →
  Forall (λ t, th_thread t = true) (mg_threads m) →
  Forall (λ t, accounted (given t) t) (mg_threads m) →
  AsyncAccept (set_acceptor (mg_acceptor m) (mg_closed m) acceptor_waits m) =
    (Ret (), set_acceptor true false (Some (Z.of_nat (SelectThreadWithMinConnections m))) m) ∧
  running n (set_acceptor true false (Some (Z.of_nat (SelectThreadWithMinConnections m))) m).
Proof.
  intros E1 E2 El Hn Hs Hc. split.
  - unfold AsyncAccept. cbn. rewrite E1, E2. destruct (mg_threads m) eqn:E; [cbn in El; lia|].
    unfold SelectThreadWithMinConnections, counts. cbn. by rewrite E.
  - split; cbn; try done. eexists. split; [done|].
    assert (mg_threads m ≠ []) as Hne by (intros E; rewrite E in El; cbn in El; lia).
    destruct (SelectThread_least m Hne) as (c & Hl & _). apply lookup_lt_Some in Hl.
    unfold counts in Hl. by rewrite length_map, El in Hl.
Qed.

Lemma accounted_given k t : accounted k t → k = given t.
Proof. by intros [_ -> _]. Qed.

Lemma fold_thread {X} (f : NetworkThread S → X → NetworkThread S) l t :
  (∀ t x, th_thread (f t x) = th_thread t) → th_thread (fold_left f l t) = th_thread t.
Proof. intros Hf. revert t. induction l as [|x l IH]; cbn; intros t; [done|by rewrite IH]. Qed.

Lemma thread_UpdateSockets t : th_thread (UpdateSockets t) = th_thread t.
Proof.
  unfold UpdateSockets. rewrite fold_thread; [done|].
  intros t' sock. unfold update_socket. by destruct (net_Update sock) as [[] sock'].
Qed.

Lemma thread_AddNewSockets t : th_thread (AddNewSockets t) = th_thread t.
Proof.
  unfold AddNewSockets. cbn. rewrite fold_thread; [done|]. intros t' sock. by destruct (net_IsOpen sock).
Qed.

Lemma alter_lookup {X} (f : X → X) (l : list X) (i : nat) :
  alter f i l = match l !! i with Some x => <[i := f x]> l | None => l end.
Proof.
  apply list_eq. intros j. destruct (decide (i = j)) as [<-|Hne].
  - rewrite list_lookup_alter_eq. destruct (l !! i) as [x|] eqn:E; [|by rewrite E].
    rewrite list_lookup_insert_eq; [done|]. by apply lookup_lt_Some in E.
  - rewrite list_lookup_alter_ne by done. case_match; [by rewrite list_lookup_insert_ne|done].
Qed.

Lemma running_alter (f : NetworkThread S → NetworkThread S) n m i :
  (∀ k t, accounted k t → Z.of_nat k < 2 ^ 31 → accounted k (f t)) →
  (∀ t, th_thread (f t) = th_thread t) →
  running n m → Z.of_nat (total m) < 2 ^ 31 →
  let m' := set_threads (alter f i (mg_threads m)) m in
  running n m' ∧ total m' = total m ∧ same_options m m'.
Proof.
  intros Hf Ht HR Hk m'. pose proof HR as [R1 R2 R3 R4 R5 R6].
  pose proof (alter_lookup f (mg_threads m) i) as Ea.
  destruct (mg_threads m !! i) as [t|] eqn:E; [|subst m'; rewrite Ea; by destruct m].
  pose proof (Forall_lookup_1 _ _ _ _ R5 E) as Hacc.
  pose proof (given_le m i t E).
  assert (Hacc' : accounted (given t) (f t)) by (apply Hf; [done|lia]).
  assert (Hg : given t = given (f t)) by by apply accounted_given.
  subst m'. rewrite Ea. split; [|split; [|done]].
  - split; cbn; try done.
    + by rewrite length_insert.
    + apply Forall_insert; [done|]. rewrite Ht. by apply (Forall_lookup_1 _ _ _ _ R4 E).
    + apply Forall_insert; [done|]. by rewrite <-Hg.
  - pose proof (total_insert m i t (f t) E). lia.
Qed.

Lemma total_options m acceptor closed accepting :
  total (set_acceptor acceptor closed accepting m) = total m.
Proof. done. Qed.

(** A completed accept: the waiting thread gets the connection, if it opens. *)
Lemma accepted_running n m kbuff_ok nodelay_ok created result :
  running n m →
  Z.of_nat (total m + opened m [MAccept kbuff_ok nodelay_ok created result]) < 2 ^ 31 →
  ∃ m', accepted kbuff_ok nodelay_ok created result m = (Ret (), m') ∧ running n m' ∧
    total m' = (total m + opened m [MAccept kbuff_ok nodelay_ok created result])%nat ∧
    same_options m m' ∧
    mg_accepting m' = Some (Z.of_nat (SelectThreadWithMinConnections m')) ∧
    ∃ i, mg_accepting m = Some (Z.of_nat i) ∧ mg_threads m' =
      match result with
      | Some sock =>
          if opens m (MAccept kbuff_ok nodelay_ok created result)
          then alter (AddSocket (mg_applicationSendBufferSize m) (net_Start sock)) i (mg_threads m)
          else mg_threads m
      | None => mg_threads m
      end.
Proof.
  intros [R1 R2 R3 R4 R5 (i & R6 & Hi)] Hk.
  assert (Hstep : ∀ threads,
    length threads = n → Forall (λ t, th_thread t = true) threads →
    Forall (λ t, accounted (given t) t) threads →
    ∃ m', AsyncAccept (set_threads threads (set_acceptor true false None m)) = (Ret (), m') ∧
      running n m' ∧ mg_threads m' = threads ∧ same_options m m' ∧
      mg_accepting m' = Some (Z.of_nat (SelectThreadWithMinConnections m'))).
  { intros threads El Hs Hc.
    destruct (running_AsyncAccept n (set_threads threads (set_acceptor true false None m)) None)
      as [E HR]; [done..|lia|done|done|].
    cbn in E. eexists. split; [exact E|]. by split. }
  unfold accepted. rewrite bind_gets. unfold id. rewrite R6, R1. cbn [negb].
  rewrite bind_modify, R1, R2.
  destruct (opens m (MAccept kbuff_ok nodelay_ok created result)) eqn:Eo;
    unfold opened in *; cbn [List.filter] in *; rewrite Eo in *; cbn [length] in *.
  - destruct result as [sock|]; [|done].
    destruct (lookup_lt_is_Some_2 (mg_threads m) i) as [t Et]; [lia|].
    set (t' := AddSocket (mg_applicationSendBufferSize m) (net_Start sock) t).
    pose proof (Forall_lookup_1 _ _ _ _ R5 Et) as Hacc. pose proof (given_le m i t Et).
    destruct (Hstep (<[i := t']> (mg_threads m))) as (m' & E & HR & Ht & Ho & Hw).
    { by rewrite length_insert. }
    { apply Forall_insert; [done|]. by apply (Forall_lookup_1 _ _ _ _ R4 Et). }
    { apply Forall_insert; [done|]. subst t'. rewrite given_AddSocket.
      apply accounted_AddSocket; [done|lia]. }
    assert (EO : OnSocketOpen kbuff_ok nodelay_ok created sock (Z.of_nat i)
                   (set_acceptor true false None m) =
                 (Ret (), set_threads (<[i := t']> (mg_threads m)) (set_acceptor true false None m))).
    { unfold OnSocketOpen. rewrite bind_gets. cbn in *.
      destruct ((0 <=? mg_systemSendBufferSize m) && negb kbuff_ok); [done|].
      destruct (mg_tcpNoDelay m && negb nodelay_ok); [done|]. destruct created; [|done].
      unfold add_open. cbn. by rewrite Nat2Z.id, Et. }
    rewrite (bind_run _ _ _ _ _ EO). rewrite bind_gets. cbn [mg_closed set_threads set_acceptor].
    exists m'. split; [exact E|]. split; [done|]. split; [|split; [done|split; [done|]]].
    + unfold total. rewrite Ht. pose proof (total_insert m i t t' Et) as Hs.
      assert (Hg : given t' = Datatypes.S (given t)) by apply given_AddSocket.
      unfold total in Hs. cbn [mg_threads set_threads] in Hs. lia.
    + exists i. split; [done|]. rewrite Ht, alter_lookup, Et. done.
  - destruct (Hstep (mg_threads m) R3 R4 R5) as (m' & E & HR & Ht & Ho & Hw).
    exists m'. split.
    2:{ split; [done|]. split; [|split; [done|split; [done|]]].
        - unfold total. rewrite Ht. lia.
        - exists i. split; [done|]. rewrite Ht. by destruct result. }
    destruct result as [sock|].
    + assert (EO : OnSocketOpen kbuff_ok nodelay_ok created sock (Z.of_nat i)
                   (set_acceptor true false None m) = (Ret (), set_acceptor true false None m)).
      { unfold OnSocketOpen. rewrite bind_gets. cbn in *.
        destruct ((0 <=? mg_systemSendBufferSize m) && negb kbuff_ok); [done|].
        destruct (mg_tcpNoDelay m && negb nodelay_ok); [done|]. by destruct created. }
      rewrite (bind_run _ _ _ _ _ EO), bind_gets. cbn [mg_closed set_acceptor].
      rewrite <-E. by destruct m.
    + rewrite bind_ret_l, bind_gets. cbn [mg_closed set_acceptor]. rewrite <-E. by destruct m.
Qed.

Section laws.
Context {Laws : NetSocketLaws S}.

Lemma run_mgr_op_running o n m :
  running n m → Z.of_nat (total m + opened m [o]) < 2 ^ 31 →
  ∃ m', run_mgr_op o m = (Ret (), m') ∧ running n m' ∧
    total m' = (total m + opened m [o])%nat ∧ same_options m m'.
Proof using Laws.
  intros HR Hk. destruct o as [kb nd cr r|i|i]; cbn [run_mgr_op].
  - destruct (accepted_running n m kb nd cr r HR Hk) as (m' & ? & ? & ? & ? & _). by exists m'.
  - replace (opened m [MNew i]) with 0%nat in * by done. rewrite Nat.add_0_r in *.
    destruct (running_alter AddNewSockets n m i) as (? & ? & ?);
      [apply accounted_AddNewSockets|apply thread_AddNewSockets|done..|]. by eexists.
  - replace (opened m [MSockets i]) with 0%nat in * by done. rewrite Nat.add_0_r in *.
    destruct (running_alter UpdateSockets n m i) as (? & ? & ?);
      [apply accounted_UpdateSockets|apply thread_UpdateSockets|done..|]. by eexists.
Qed.

Lemma opened_cons m o os : opened m (o :: os) = (opened m [o] + opened m os)%nat.
Proof using. unfold opened. cbn. by destruct (opens m o). Qed.

Lemma run_mgr_running os n m :
  running n m → Z.of_nat (total m + opened m os) < 2 ^ 31 →
  ∃ m', run_mgr os m = (Ret (), m') ∧ running n m' ∧ total m' = (total m + opened m os)%nat.
Proof using Laws.
  revert m. induction os as [|o os IH]; intros m HR Hk; cbn [run_mgr].
  { exists m. rewrite Nat.add_0_r. done. }
  rewrite opened_cons in *.
  destruct (run_mgr_op_running o n m HR) as (m1 & E1 & HR1 & T1 & Ho1); [lia|].
  pose proof (opened_same m m1 os Ho1) as Eo.
  destruct (IH m1 HR1) as (m2 & E2 & HR2 & T2); [lia|].
  exists m2. rewrite (bind_run _ _ _ _ _ E1). split; [done|]. split; [done|lia].
Qed.

Lemma total_fresh n (m : SocketMgr S) :
  mg_threads m = replicate n (Start new).2 → total m = 0%nat.
Proof using. intros E. unfold total. rewrite E. clear E. induction n; [done|exact IHn]. Qed.

Lemma StartDiscordNetwork_running tcpNoDelay outKBuff outUBuff threadCount :
  0 < threadCount → 0 < outUBuff →
  ∃ m, StartDiscordNetwork tcpNoDelay outKBuff outUBuff true threadCount new_mgr = (Ret true, m) ∧
    running (Z.to_nat threadCount) m ∧ mg_threads m = replicate (Z.to_nat threadCount) (Start new).2 ∧
    mg_accepting m = Some (Z.of_nat (SelectThreadWithMinConnections m)).
Proof using.
  intros Ht Ho. unfold StartDiscordNetwork. rewrite bind_modify.
  replace (outUBuff <=? 0) with false by lia.
  set (m := set_threads (replicate (Z.to_nat threadCount) (Start new).2) (set_acceptor true false None
              (mkMgr [] false false None outKBuff outUBuff tcpNoDelay))).
  assert (ES : StartNetwork true threadCount (mkMgr [] false false None outKBuff outUBuff tcpNoDelay) =
               (Ret true, m)).
  { unfold StartNetwork. replace (0 <? threadCount) with true by lia. done. }
  rewrite (bind_run _ _ _ _ _ ES). cbn [negb].
  destruct (running_AsyncAccept (Z.to_nat threadCount) m None) as [E HR]; subst m;
    [done|done|by cbn; rewrite length_replicate|lia|by apply Forall_replicate|
     by apply Forall_replicate; split|].
  eexists. split; [etrans; [exact (bind_run _ (λ _, mret true) _ _ _ E)|done]|]. by split; [exact HR|].
Qed.

Lemma StopNetwork_running n m :
  running n m → ∃ m', StopNetwork m = (Ret (), m') ∧ mg_threads m' = [] ∧ mg_acceptor m' = false.
Proof using.
  intros [R1 R2 R3 R4 R5 R6]. unfold StopNetwork. rewrite bind_gets, R1. cbn [negb].
  rewrite !bind_modify. unfold close_acceptor. rewrite R2.
  unfold mbind, M_bind, WaitAll. cbn.
  replace (forallb th_thread (map Stop (mg_threads m))) with true; [by eexists|].
  symmetry. apply forallb_forall. intros t Ht. apply in_map_iff in Ht as (t' & <- & Hin).
  cbn. by apply (proj1 (List.Forall_forall _ _) R4).
Qed.

(** C30: once started, the network serves every client it can: whenever accepts
    complete, with a socket or an error, between the halves of the threads'
    updates, nothing fails, the acceptor waits for the next client on behalf of a
    thread there is, each thread keeps its count, and every connection opened was
    given to exactly one thread; and it can then be stopped. *)
Theorem network_serves (tcpNoDelay : bool) (outKBuff outUBuff threadCount : Z) (os : list mgr_op) :
  0 < threadCount → 0 < outUBuff →
  ∃ m0, StartDiscordNetwork tcpNoDelay outKBuff outUBuff true threadCount new_mgr = (Ret true, m0) ∧
  (Z.of_nat (opened m0 os) < 2 ^ 31 →
   ∃ m m', run_mgr os m0 = (Ret (), m) ∧ running (Z.to_nat threadCount) m ∧
     total m = opened m0 os ∧
     StopNetwork m = (Ret (), m') ∧ mg_threads m' = [] ∧ mg_acceptor m' = false).
Proof using Laws.
  intros Ht Ho.
  destruct (StartDiscordNetwork_running tcpNoDelay outKBuff outUBuff threadCount Ht Ho)
    as (m0 & E & HR & E0 & _).
  exists m0. split; [done|]. intros Hk. pose proof (total_fresh _ _ E0) as T0.
  destruct (run_mgr_running os _ m0 HR) as (m & Em & HRm & Tm); [by rewrite T0|].
  destruct (StopNetwork_running _ m HRm) as (m' & ? & ? & ?).
  exists m, m'. rewrite T0 in Tm. done.
Qed.

(** Counts that differ by at most one, the least of them at [i]. *)
Definition level (cs : list Z) (i : nat) : Prop :=
  least cs i ∧ ∀ j k c c', cs !! j = Some c → cs !! k = Some c' → c' <= c + 1.

Lemma level_step (cs : list Z) (i : nat) (c : Z) :
  level cs i → cs !! i = Some c →
  ∀ j k d d', <[i := c + 1]> cs !! j = Some d → <[i := c + 1]> cs !! k = Some d' → d' <= d + 1.
Proof using.
  intros [(c0 & Hc0 & Hl) Hd] Hc. assert (c0 = c) as -> by congruence.
  assert (Hin : ∀ j d, <[i := c + 1]> cs !! j = Some d → d = c + 1 ∨ cs !! j = Some d).
  { intros j d Hj. apply list_lookup_insert_Some in Hj as [(_ & <- & _)|(_ & Hj)]; auto. }
  intros j k d d' Hj Hk.
  destruct (Hin _ _ Hj) as [->|Hj'], (Hin _ _ Hk) as [->|Hk']; try lia.
  - pose proof (Hd _ _ _ _ Hc Hk'). lia.
  - pose proof (proj1 (Hl _ _ Hj')). lia.
  - by apply (Hd j k).
Qed.

Definition is_accept (o : mgr_op) : Prop :=
  match o with MAccept _ _ _ _ => True | _ => False end.

Definition waits_level (m : SocketMgr S) : Prop :=
  level (counts m) (SelectThreadWithMinConnections m) ∧
  mg_accepting m = Some (Z.of_nat (SelectThreadWithMinConnections m)).

Lemma counts_alter n sock i m t :
  mg_threads m !! i = Some t → accounted (given t) t → Z.of_nat (given t) + 1 < 2 ^ 31 →
  map GetConnectionCount (alter (AddSocket n sock) i (mg_threads m)) =
    <[i := GetConnectionCount t + 1]> (counts m).
Proof using.
  intros Hi [C A F] Hk. unfold counts. rewrite alter_lookup, Hi.
  apply list_eq. intros j. rewrite !list_lookup_fmap.
  destruct (decide (j = i)) as [->|Hne].
  - pose proof (lookup_lt_Some _ _ _ Hi) as Hlt.
    rewrite !list_lookup_insert_eq by (rewrite ?length_map; done).
    cbn. unfold GetConnectionCount. cbn. f_equal.
    apply swrap_small; unfold given in Hk; lia.
  - by rewrite !list_lookup_insert_ne, list_lookup_fmap by done.
Qed.

Lemma accept_level n m o :
  is_accept o → running n m → Z.of_nat (total m + opened m [o]) < 2 ^ 31 → waits_level m →
  waits_level (exec (run_mgr_op o) m).
Proof using.
  intros Ho HR Hk [Hl Hw]. destruct o as [kb nd cr r|i|i]; [|done..]. cbn [run_mgr_op].
  destruct (accepted_running n m kb nd cr r HR Hk) as (m' & E & HR' & _ & _ & Hw' & i & Hi & Et).
  unfold exec. rewrite E. cbn [snd]. split; [|done].
  assert (i = SelectThreadWithMinConnections m) as -> by (apply Nat2Z.inj; congruence).
  assert (Hne : mg_threads m' ≠ []).
  { intros E'. destruct HR' as [_ _ R3 _ _ (j & _ & Hj)]. rewrite E' in R3. cbn in R3. lia. }
  split; [by apply SelectThread_least|].
  assert (Hc : counts m' = counts m ∨
               ∃ c, counts m !! SelectThreadWithMinConnections m = Some c ∧
                    counts m' = <[SelectThreadWithMinConnections m := c + 1]> (counts m)).
  { unfold counts at 1 4. rewrite Et. destruct r as [sock|]; [|by left].
    destruct (opens m (MAccept kb nd cr (Some sock))) eqn:Eo; [|by left]. right.
    destruct Hl as [(c & Hc & _) _]. unfold counts in Hc. rewrite list_lookup_fmap in Hc.
    destruct (mg_threads m !! SelectThreadWithMinConnections m) as [t|] eqn:Hlt; [|done].
    cbn in Hc. injection Hc as Hc. exists c. split.
    - unfold counts. by rewrite list_lookup_fmap, Hlt, <-Hc.
    - rewrite (counts_alter _ _ _ _ t Hlt); [by rewrite Hc| |].
      + destruct HR as [_ _ _ _ R5 _]. by apply (Forall_lookup_1 _ _ _ _ R5 Hlt).
      + pose proof (given_le m _ t Hlt). unfold opened in Hk. cbn [List.filter] in Hk.
        rewrite Eo in Hk. cbn [length] in Hk. lia. }
  destruct Hc as [->|(c & Hc & ->)]; [by apply Hl|by apply (level_step _ _ _ Hl)].
Qed.

Lemma accepts_level os n m :
  Forall is_accept os → running n m → Z.of_nat (total m + opened m os) < 2 ^ 31 →
  waits_level m → ∃ m', run_mgr os m = (Ret (), m') ∧ running n m' ∧ waits_level m'.
Proof using Laws.
  revert m. induction os as [|o os IH]; intros m Hos HR Hk Hw; [by exists m|].
  inversion Hos as [|? ? Ho Hos']; subst. rewrite opened_cons in Hk.
  destruct (run_mgr_op_running o n m HR) as (m1 & E1 & HR1 & T1 & Ho1); [lia|].
  pose proof (accept_level n m o Ho HR ltac:(lia) Hw) as Hw1. unfold exec in Hw1. rewrite E1 in Hw1.
  destruct (IH m1 Hos' HR1) as (m2 & E2 & HR2 & Hw2); [rewrite (opened_same m m1 os Ho1); lia|done|].
  exists m2. cbn [run_mgr]. by rewrite (bind_run _ _ _ _ _ E1).
Qed.

(** The clients that come are spread evenly: while connections open and none
    goes, no thread has more than one connection more than another, and the next
    client is accepted for the first of the threads that have the fewest. *)
Theorem accepts_balance (tcpNoDelay : bool) (outKBuff outUBuff threadCount : Z) (os : list mgr_op) :
  0 < threadCount → 0 < outUBuff → Forall is_accept os →
  ∃ m0, StartDiscordNetwork tcpNoDelay outKBuff outUBuff true threadCount new_mgr = (Ret true, m0) ∧
  (Z.of_nat (opened m0 os) < 2 ^ 31 →
   ∃ m i, run_mgr os m0 = (Ret (), m) ∧ mg_accepting m = Some (Z.of_nat i) ∧ least (counts m) i ∧
     ∀ j k c c', counts m !! j = Some c → counts m !! k = Some c' → c' <= c + 1).
Proof using Laws.
  intros Ht Ho Hos.
  destruct (StartDiscordNetwork_running tcpNoDelay outKBuff outUBuff threadCount Ht Ho)
    as (m0 & E & HR & E0 & Ha0).
  exists m0. split; [done|]. intros Hk. pose proof (total_fresh _ _ E0) as T0.
  destruct (accepts_level os _ m0 Hos HR) as (m & Em & HRm & [Hl Hd] & Hw); [by rewrite T0| |by eauto 10].
  split; [|done]. split.
  - apply SelectThread_least. intros E'. destruct HR as [_ _ R3 _ _ (j & _ & Hj)].
    rewrite E' in R3. cbn in R3. lia.
  - unfold counts. rewrite E0. intros j k c c' Hj Hk'.
    rewrite list_lookup_fmap in Hj, Hk'.
    apply fmap_Some in Hj as (t & Hj & ->), Hk' as (t' & Hk' & ->).
    apply lookup_replicate in Hj as [-> _], Hk' as [-> _]. cbn. lia.
Qed.
End laws.
End network.
End Network.

(** ** Concrete inputs *)

(** A socket that is only open or closed, and lives as long as it is open. *)
Definition flag_net : NetSocket bool := {|
  net_IsOpen b := b;
  net_Update b := (b, b);
  net_CloseSocket _ := false;
  net_Start b := b;
  net_SetSendBufferSize _ b := b
|}.

Lemma flag_net_laws : @NetSocketLaws bool flag_net.
Proof. done. Qed.

Lemma DiscordSocket_net_laws `{Host, OpenSSL} now closed results :
  @NetSocketLaws DS.st (DiscordSocket_net now closed results).
Proof. intros [sk d]. cbn. unfold DS.CloseSocket, SocketOps.CloseSocket. by destruct (sk_closed sk) eqn:E; cbn; unfold SocketOps.IsOpen; rewrite ?E. Qed.

Lemma thread_keeps_count_witness :
  let os := [Network.OAdd 65536 true; Network.OAdd 65536 false; Network.ONew; Network.OSockets] in
  let t := fold_left (@Network.run_thread_op bool flag_net) os Network.new in
  (Network.GetConnectionCount t = 1 ∧ th_removed t = [false]) ∧
  Network.GetConnectionCount t = Z.of_nat (Network.held t).
Proof.
  intros os t. split; [by vm_compute|].
  apply (@Network.thread_keeps_count bool flag_net flag_net_laws os). by vm_compute.
Defined.

Lemma network_serves_witness :
  ∃ m0, Network.StartDiscordNetwork (S := bool) true (-1) 65536 true 2 Network.new_mgr = (Ret true, m0) ∧
  ∃ m m', @Network.run_mgr bool flag_net
      [Network.MAccept true true true (Some true); Network.MAccept true true true None;
       Network.MAccept true true true (Some true); Network.MNew 0; Network.MSockets 0] m0 =
      (Ret (), m) ∧
    Network.total m = 2%nat ∧ @Network.StopNetwork bool m = (Ret (), m') ∧ mg_threads m' = [].
Proof.
  destruct (@Network.network_serves bool flag_net flag_net_laws true (-1) 65536 2
    [Network.MAccept true true true (Some true); Network.MAccept true true true None;
     Network.MAccept true true true (Some true); Network.MNew 0; Network.MSockets 0])
    as (m0 & E & H); [lia|lia|].
  exists m0. split; [done|]. vm_compute in E. injection E as <-.
  destruct H as (m & m' & Em & _ & Ht & Es & Et & _); [by vm_compute|].
  exists m, m'. done.
Defined.

Lemma accepts_balance_witness :
  ∃ m0, Network.StartDiscordNetwork (S := bool) true (-1) 65536 true 2 Network.new_mgr = (Ret true, m0) ∧
  ∃ m i, @Network.run_mgr bool flag_net (replicate 3 (Network.MAccept true true true (Some true))) m0 =
      (Ret (), m) ∧ mg_accepting m = Some (Z.of_nat i) ∧ Network.least (Network.counts m) i.
Proof.
  destruct (@Network.accepts_balance bool flag_net flag_net_laws true (-1) 65536 2
    (replicate 3 (Network.MAccept true true true (Some true)))) as (m0 & E & H);
    [lia|lia|by repeat constructor|].
  exists m0. split; [done|]. vm_compute in E. injection E as <-.
  destruct H as (m & i & Em & Ha & Hl & _); [by vm_compute|].
  exists m, i. done.
Defined.
