(* ===== verification/Config.v ===== *)
(** * Config: configuration files and the options read from them

    Model of [ConfigMgr] ([src/src/common/Configuration/Config.cpp]) and of
    [DiscordConfig] ([src/src/server/Config/DiscordConfig.cpp]).  The file system
    is an argument: what a file holds, and whether reading it breaks off.  What
    is printed is recorded as a format and its arguments; printing and logging
    are taken to succeed.  Options of floating-point types are left out. *)

From S2P Require Import Prelude Utf8 Strings.
Open Scope Z_scope.

Abbreviation text := (list Z).

(** A file: its contents and whether the device fails behind them. *)
Record file := mkFile { f_bytes : text; f_fails : bool }.

Inductive ConfigException :=
  | FailedOpen (file : text)
  | FailureToRead (lineNumber : Z) (file : text)
  | EmptyFile (file : text).

(** What [PrintError] was given. *)
Inductive printed :=
  | IncorrectOption (optionName fileName : text)
  | BadLine (lineNumber : Z) (file : text)
  | Formatted (format : text) (args : list text)
  | Caught (e : ConfigException).

Record ConfigMgr := mkConfig {
  cf_filename : text;
  cf_options : gmap text text;
  cf_usingDistConfig : bool;
  cf_printed : list printed
}.

(** The order in which an unordered map is walked. *)
Class MapOrder := map_order : gmap text text → list text.
Class MapOrderLaws (O : MapOrder) : Prop :=
  map_order_keys (m : gmap text text) : map_order m ≡ₚ (map_to_list m).*1.

(** What a line says. *)
Inductive line_kind := LSkip | LBad | LEntry (name value : text).

Module Config.
Section config.
Context {O : MapOrder}.

Definition new : ConfigMgr := mkConfig [] ∅ false [].

Definition set_options (v : gmap text text) (s : ConfigMgr) : ConfigMgr :=
  mkConfig (cf_filename s) v (cf_usingDistConfig s) (cf_printed s).
Definition set_filename (v : text) (s : ConfigMgr) : ConfigMgr :=
  mkConfig v (cf_options s) (cf_usingDistConfig s) (cf_printed s).
Definition set_usingDist (v : bool) (s : ConfigMgr) : ConfigMgr :=
  mkConfig (cf_filename s) (cf_options s) v (cf_printed s).
Definition PrintError (p : printed) (s : ConfigMgr) : ConfigMgr :=
  mkConfig (cf_filename s) (cf_options s) (cf_usingDistConfig s) (cf_printed s ++ [p]).

(** [s.find(needle) != npos] *)
Fixpoint contains (needle s : text) : bool :=
  bool_decide (take (length needle) s = needle) ||
  match s with [] => false | _ :: s => contains needle s end.

Definition IsLoggingSystemOptions (optionName : text) : bool :=
  contains (str "LogChannel.") optionName || contains (str "Logger.") optionName.

Definition AddKey (optionName optionKey fileName : text) (isOptional isReload : bool)
    (s : ConfigMgr) : ConfigMgr :=
  let itr := cf_options s !! optionName in
  if isOptional && bool_decide (itr = None) &&
     (negb (IsLoggingSystemOptions optionName) && negb isReload)
  then PrintError (IncorrectOption optionName fileName) s
  else
    let s := match itr with
             | Some _ => set_options (delete optionName (cf_options s)) s
             | None => s
             end in
    set_options (<[optionName := optionKey]> (cf_options s)) s.

(** A line of the file, without its line end. *)
Definition parse_line (line : text) : line_kind :=
  let line := Strings.Trim line in
  match line with
  | [] => LSkip
  | c :: _ =>
      if (c =? 35) || (c =? 91) then LSkip
      else
        let line := match Strings.find_char 35 line 0 with
                    | Some found => take found line
                    | None => line
                    end in
        match Strings.find_char 61 line 0 with
        | None => LBad
        | Some equal_pos =>
            if (equal_pos =? length line)%nat then LBad
            else
              let entry := Strings.Trim (take equal_pos line) in
              let value := Strings.Trim (drop (S equal_pos) line) in
              LEntry entry (filter (λ c, c ≠ 34) value)
        end
  end.

(** The options of the file read so far, and their number. *)
Record reading := mkReading { r_configs : gmap text text; r_count : Z }.

(** A line that was read. *)
Definition read_line (file line : text) (lineNumber : Z) (r : reading) (s : ConfigMgr)
  : reading * ConfigMgr :=
  match parse_line line with
  | LSkip => (r, s)
  | LBad => (r, PrintError (BadLine lineNumber file) s)
  | LEntry entry value =>
      if bool_decide (is_Some (r_configs r !! entry))
      then (r, PrintError (Formatted file
             [str "> Config::LoadFile: Dublicate key name '{}' in config file '{}'"; entry; file]) s)
      else (mkReading (<[entry := value]> (r_configs r)) (u32 (r_count r + 1)), s)
  end.

(** The loop over the lines; the device fails in the last one. *)
Fixpoint read_lines (file : text) (lines : list text) (fails : bool) (lineNumber : Z) (r : reading)
  : M ConfigException ConfigMgr reading := λ s,
  match lines with
  | [] => (Ret r, s)
  | line :: lines =>
      let lineNumber := u32 (lineNumber + 1) in
      if fails && match lines with [] => true | _ => false end
      then (Throw (FailureToRead lineNumber file), s)
      else
        let '(r, s) := read_line file line lineNumber r s in
        read_lines file lines fails lineNumber r s
  end.

Definition AddKeys (file : text) (isOptional isReload : bool) (fileConfigs : gmap text text)
    (s : ConfigMgr) : ConfigMgr :=
  fold_left (λ s name, AddKey name (default [] (fileConfigs !! name)) file isOptional isReload s)
    (map_order fileConfigs) s.

Definition ParseFile (files : text → option file) (file : text) (isOptional isReload : bool)
  : M ConfigException ConfigMgr bool :=
  match files file with
  | None => if isOptional then mret false else throw (FailedOpen file)
  | Some f =>
      r ← read_lines file (Strings.split 10 (f_bytes f)) (f_fails f) 0 (mkReading ∅ 0);
      if r_count r =? 0 then (if isOptional then mret false else throw (EmptyFile file))
      else modify (AddKeys file isOptional isReload (r_configs r)) ;; mret true
  end.

(** Exceptions end here. *)
Definition LoadFile (files : text → option file) (file : text) (isOptional isReload : bool)
    (s : ConfigMgr) : bool * ConfigMgr :=
  match ParseFile files file isOptional isReload s with
  | (Ret b, s) => (b, s)
  | (Throw e, s) => (false, PrintError (Caught e) s)
  | (_, s) => (false, s)
  end.

Definition LoadInitial (files : text → option file) (file : text) (isReload : bool) (s : ConfigMgr)
  : bool * ConfigMgr :=
  LoadFile files file false isReload (set_options ∅ s).

Definition LoadAdditionalFile (files : text → option file) (file : text) (isOptional isReload : bool)
    (s : ConfigMgr) : bool * ConfigMgr :=
  LoadFile files file isOptional isReload s.

Definition LoadAppConfigs (files : text → option file) (initFileName : text) (s : ConfigMgr)
  : bool * ConfigMgr :=
  let s := set_filename initFileName s in
  let '(ok, s) := LoadInitial files (cf_filename s ++ str ".dist") false s in
  if negb ok
  then (false, PrintError (Formatted (str "> Bad file path for config file '{}'") [cf_filename s]) s)
  else
    let '(ok, s) := LoadAdditionalFile files (cf_filename s) true false s in
    (true, if negb ok then set_usingDist true s else s).

Definition GetFilename (s : ConfigMgr) : text :=
  if cf_usingDistConfig s then cf_filename s ++ str ".dist" else cf_filename s.

Definition GetKeysByString (name : text) (s : ConfigMgr) : list text :=
  filter (λ optionName, take (length name) optionName = name) (map_order (cf_options s)).

(** ** Options *)

Definition GetValueDefault {T} (StringTo : text → option T) (name : text) (def : T) (s : ConfigMgr) : T :=
  match cf_options s !! name with
  | None => def
  | Some v => default def (StringTo v)
  end.

Definition GetValueDefault_str (name def : text) (s : ConfigMgr) : text :=
  default def (cf_options s !! name).

Definition GetOption_int (T : Strings.int_type) (name : text) (def : Z) (s : ConfigMgr) : Z :=
  GetValueDefault (λ v, Strings.FromString_int T v 10) name def s.
Definition GetOption_str (name def : text) (s : ConfigMgr) : text := GetValueDefault_str name def s.
Definition GetOption_bool (name : text) (def : bool) (s : ConfigMgr) : bool :=
  let val := GetValueDefault_str name (Strings.ToString_bool def) s in
  match Strings.FromString_bool val false with
  | None => def
  | Some boolVal => boolVal
  end.
End config.

(** ** What loading files leaves *)

(** The options a file sets: its entries, the first of each name. *)
Definition entries (lines : list text) : list (text * text) :=
  omap (λ line, match parse_line line with LEntry n v => Some (n, v) | _ => None end) lines.
Definition file_options (f : file) : gmap text text :=
  list_to_map (entries (Strings.split 10 (f_bytes f))).

(** Only messages were printed in between. *)
Record same_but_printed (s s' : ConfigMgr) : Prop := {
  same_filename : cf_filename s' = cf_filename s;
  same_options : cf_options s' = cf_options s;
  same_using : cf_usingDistConfig s' = cf_usingDistConfig s
}.

#[local] Instance same_but_printed_preorder : PreOrder same_but_printed.
Proof. split; [by split|]. intros s1 s2 s3 [] []. split; congruence. Qed.

Lemma same_PrintError p s : same_but_printed s (PrintError p s).
Proof. by split. Qed.

Lemma read_lines_ok file lines n r s :
  r_count r = Z.of_nat (size (r_configs r)) →
  Z.of_nat (size (r_configs r) + length lines) < 2 ^ 32 →
  ∃ r' s', read_lines file lines false n r s = (Ret r', s') ∧ same_but_printed s s' ∧
    r_configs r' = r_configs r ∪ list_to_map (entries lines) ∧
    r_count r' = Z.of_nat (size (r_configs r')).
Proof.
  revert n r s. induction lines as [|line lines IH]; intros n r s Hc Hb; cbn [read_lines].
  { exists r, s. cbn. by rewrite (right_id_L ∅ (∪)). }
  cbn [andb length] in *.
  assert (Hstep : ∃ r1 s1, read_line file line (u32 (n + 1)) r s = (r1, s1) ∧ same_but_printed s s1 ∧
    r_count r1 = Z.of_nat (size (r_configs r1)) ∧
    (size (r_configs r1) <= size (r_configs r) + 1)%nat ∧
    r_configs r1 ∪ list_to_map (entries lines) = r_configs r ∪ list_to_map (entries (line :: lines))).
  { unfold read_line, entries. cbn [omap list_omap]. fold (entries lines).
    destruct (parse_line line) as [| |entry value].
    - exists r, s. split_and!; [done..|lia|done].
    - exists r, (PrintError (BadLine (u32 (n + 1)) file) s).
      split_and!; [done|apply same_PrintError|done|lia|done].
    - cbn [list_to_map foldr fst snd]. case_bool_decide as Hin.
      + eexists r, _. split; [done|]. split_and!; [apply same_PrintError|done|lia|].
        destruct Hin as [v Hv]. apply map_eq. intros k. rewrite !lookup_union.
        destruct (decide (k = entry)) as [->|Hne]; [|by rewrite lookup_insert_ne].
        rewrite Hv. by destruct (list_to_map _ !! entry), (<[entry := value]> _ !! entry).
      + assert (r_configs r !! entry = None) as Hn by by apply eq_None_not_Some.
        eexists _, s. split; [done|]. cbn. rewrite map_size_insert, Hn. split_and!; [done| |lia|].
        * rewrite Hc, wrap_small by lia. lia.
        * by rewrite <-insert_union_r, <-insert_union_l. }
  destruct Hstep as (r1 & s1 & -> & Hs1 & Hc1 & Hsz & Hu).
  destruct (IH (u32 (n + 1)) r1 s1 Hc1) as (r' & s' & E & Hs' & Hu' & Hc'); [lia|].
  exists r', s'. rewrite Hu', Hu. split_and!; [done|by trans s1|done|by rewrite <-Hu, <-Hu'].
Qed.

(** Whether [AddKey] lets a name in that is or is not set already. *)
Definition lets_in (isOptional isReload : bool) (name : text) (old : option text) : bool :=
  negb (isOptional && bool_decide (old = None) &&
        (negb (IsLoggingSystemOptions name) && negb isReload)).

Lemma AddKey_options name value file isOptional isReload s :
  let s' := AddKey name value file isOptional isReload s in
  cf_filename s' = cf_filename s ∧ cf_usingDistConfig s' = cf_usingDistConfig s ∧
  cf_options s' = if lets_in isOptional isReload name (cf_options s !! name)
                  then <[name := value]> (cf_options s) else cf_options s.
Proof.
  unfold AddKey, lets_in. destruct (isOptional && _ && _); cbn [negb]; [done|].
  destruct (cf_options s !! name); cbn; [|done]. by rewrite insert_delete_eq.
Qed.

Lemma AddKeys_fold (file : text) (isOptional isReload : bool) (m : gmap text text) (l : list text)
    (s : ConfigMgr) :
  NoDup l →
  let s' := fold_left (λ s name, AddKey name (default [] (m !! name)) file isOptional isReload s) l s in
  cf_filename s' = cf_filename s ∧ cf_usingDistConfig s' = cf_usingDistConfig s ∧
  ∀ k, cf_options s' !! k =
    if bool_decide (k ∈ l) && lets_in isOptional isReload k (cf_options s !! k)
    then Some (default [] (m !! k)) else cf_options s !! k.
Proof.
  revert s. induction l as [|name l IH]; intros s Hl; cbn [fold_left]; [done|].
  apply NoDup_cons in Hl as [Hn Hl].
  destruct (AddKey_options name (default [] (m !! name)) file isOptional isReload s) as (E1 & E2 & E3).
  destruct (IH (AddKey name (default [] (m !! name)) file isOptional isReload s) Hl) as (I1 & I2 & I3).
  rewrite I1, I2, E1, E2. split_and!; [done..|]. intros k. rewrite I3, E3.
  destruct (decide (k = name)) as [->|Hne].
  - rewrite (bool_decide_eq_false_2 (name ∈ l)), (bool_decide_eq_true_2 (name ∈ name :: l)) by set_solver.
    cbn [andb]. by destruct (lets_in _ _ _ _); [rewrite lookup_insert_eq|].
  - rewrite (bool_decide_ext (k ∈ name :: l) (k ∈ l)) by set_solver.
    assert (E : (if lets_in isOptional isReload name (cf_options s !! name)
                 then <[name := default [] (m !! name)]> (cf_options s) else cf_options s) !! k =
                cf_options s !! k) by (by case_match; [rewrite lookup_insert_ne|]).
    by rewrite E.
Qed.

Lemma read_lines_fails file lines n r s :
  lines ≠ [] → ∃ e s', read_lines file lines true n r s = (Throw e, s') ∧ same_but_printed s s'.
Proof.
  revert n r s. induction lines as [|line lines IH]; intros n r s Hne; [done|]. cbn [read_lines].
  destruct lines as [|line' lines]; cbn [andb]; [by eexists _, s|].
  assert (Hs : same_but_printed s (read_line file line (u32 (n + 1)) r s).2).
  { unfold read_line. repeat case_match; cbn; done || apply same_PrintError. }
  destruct (read_line file line (u32 (n + 1)) r s) as [r1 s1]. cbn in Hs.
  destruct (IH (u32 (n + 1)) r1 s1) as (e & s' & E & Hs'); [done|].
  exists e, s'. rewrite E. split; [done|by trans s1].
Qed.


(** ** Options written to a file are read back *)

Definition no_space (l : text) : Prop := Forall (λ c, Strings.isspace c = false) l.

Lemma drop_spaces_none l : no_space l → Strings.drop_spaces l = l.
Proof. intros H. destruct H as [|c l Hc _]; cbn; [done|by rewrite Hc]. Qed.

Lemma no_space_rev l : no_space l → no_space (rev l).
Proof. apply Forall_rev. Qed.

Lemma Trim_pad l (before after : bool) :
  no_space l → l ≠ [] →
  Strings.Trim ((if before then [32] else []) ++ l ++ (if after then [32] else [])) = l.
Proof.
  intros Hl Hne. unfold Strings.Trim.
  assert (E : Strings.drop_spaces ((if before then [32] else []) ++ l ++ (if after then [32] else [])) =
              l ++ (if after then [32] else [])).
  { assert (Hd : Strings.drop_spaces (l ++ (if after then [32] else [])) = l ++ (if after then [32] else [])).
    { destruct Hl as [|c l Hc Hl]; [done|]. cbn. by rewrite Hc. }
    destruct before; [exact Hd|exact Hd]. }
  rewrite E, rev_app_distr.
  assert (Hr : Strings.drop_spaces (rev (if after then [32] else []) ++ rev l) = rev l).
  { destruct after; cbn; apply drop_spaces_none; by apply no_space_rev. }
  by rewrite Hr, rev_involutive.
Qed.

Lemma filter_absent (c : Z) (l : text) : c ∉ l → filter (λ x, x ≠ c) l = l.
Proof.
  induction l as [|x l IH]; intros H; [done|]. rewrite not_elem_of_cons in H.
  destruct H as [Hx Hl]. rewrite filter_cons_True by done. f_equal. by apply IH.
Qed.

Lemma drop_past {A} (l r : list A) (x : A) : drop (S (length l)) (l ++ x :: r) = r.
Proof. induction l as [|y l IH]; [done|exact IH]. Qed.

Lemma find_char_app (c : Z) (l1 l2 : text) : c ∉ l1 → Strings.find_char c (l1 ++ c :: l2) 0 = Some (length l1).
Proof.
  intros H. unfold Strings.find_char. rewrite drop_0.
  assert (E : list_find (λ x, x = c) (l1 ++ c :: l2) = Some (length l1, c)).
  { apply list_find_Some. split; [by apply list_lookup_middle|]. split; [done|].
    intros j y Hj Hlt ->. rewrite lookup_app_l in Hj by done.
    by apply H, (list_elem_of_lookup_2 _ j). }
  by rewrite E.
Qed.

Lemma find_char_none (c : Z) (l : text) : c ∉ l → Strings.find_char c l 0 = None.
Proof.
  intros H. unfold Strings.find_char. rewrite drop_0.
  assert (E : list_find (λ x, x = c) l = None); [|by rewrite E].
  apply list_find_None, Forall_forall. intros x Hx ->. done.
Qed.

(** A name that an entry can have. *)
Definition name_ok (n : text) : Prop :=
  n ≠ [] ∧ no_space n ∧ 35 ∉ n ∧ 61 ∉ n ∧ head n ≠ Some 91.

#[export] Instance name_ok_dec n : Decision (name_ok n).
Proof. unfold name_ok, no_space. apply _. Defined.

Definition value_ok (v : text) : Prop :=
  v ≠ [] ∧ no_space v ∧ 35 ∉ v ∧ 34 ∉ v.

(** An entry of a file. *)
Definition entry_line (n v : text) : text := n ++ str " = " ++ v.
Definition entry_file (es : list (text * text)) : text :=
  concat (map (λ e, entry_line e.1 e.2 ++ [10]) es).

Lemma not_newline l : no_space l → 10 ∉ l.
Proof. intros H Hin. by apply (proj1 (Forall_forall _ _) H) in Hin. Qed.

Lemma parse_entry n v : name_ok n → value_ok v → parse_line (entry_line n v) = LEntry n v.
Proof.
  intros (Nn & Ns & N1 & N2 & N3) (Vn & Vs & V1 & V2). unfold parse_line, entry_line.
  change (str " = ") with [32; 61; 32].
  assert (ET : Strings.Trim (n ++ [32; 61; 32] ++ v) = n ++ [32; 61; 32] ++ v).
  { unfold Strings.Trim.
    assert (E1 : Strings.drop_spaces (n ++ [32; 61; 32] ++ v) = n ++ [32; 61; 32] ++ v).
    { destruct Ns as [|c n Hc Ns]; [done|]. cbn. by rewrite Hc. }
    rewrite E1, !rev_app_distr. destruct v as [|v0 v _] using rev_ind; [done|].
    rewrite rev_app_distr. cbn. apply Forall_app in Vs as [_ Hv]. inversion Hv as [|? ? Hc _]; subst.
    rewrite Hc. cbn. by rewrite !rev_app_distr, !rev_involutive, <-!app_assoc. }
  rewrite ET. destruct n as [|c n'] eqn:En; [done|]. rewrite <-En in *. cbn [app].
  assert (Hc : ((c =? 35) || (c =? 91)) = false).
  { apply orb_false_iff. split; apply Z.eqb_neq; intros ->.
    - apply N1. rewrite En. by left.
    - rewrite En in N3. done. }
  replace (n ++ 32 :: 61 :: 32 :: v) with (c :: (tail n) ++ 32 :: 61 :: 32 :: v) by by rewrite En.
  rewrite Hc. replace (c :: tail n ++ 32 :: 61 :: 32 :: v) with ((n ++ [32]) ++ 61 :: 32 :: v)
    by (rewrite En, <-app_assoc; done).
  rewrite (find_char_none 35)
    by (rewrite !not_elem_of_app, !not_elem_of_cons; split_and!; auto; set_solver).
  rewrite find_char_app by (rewrite not_elem_of_app; split; [done|set_solver]).
  destruct (Nat.eqb_spec (length (n ++ [32])) (length ((n ++ [32]) ++ 61 :: 32 :: v))) as [E|_].
  { rewrite !length_app in E. cbn in E. lia. }
  rewrite take_app_length.
  rewrite drop_past.
  assert (EN : Strings.Trim (n ++ [32]) = n) by by apply (Trim_pad n false true).
  rewrite EN.
  pose proof (Trim_pad v true false Vs Vn) as EV. cbn [app] in EV.
  rewrite app_nil_r in EV. rewrite EV.
  f_equal. by apply filter_absent.
Qed.

Lemma split_entry_file es :
  Forall (λ e, no_space e.1 ∧ no_space e.2) es →
  Strings.split 10 (entry_file es) = map (λ e, entry_line e.1 e.2) es ++ [[]].
Proof.
  induction 1 as [|[n v] es [Hn Hv] _ IH]; [done|]. unfold entry_file in *. cbn [map concat fst snd].
  rewrite <-app_assoc. cbn [app]. rewrite Strings.split_app; [by rewrite IH|].
  assert (H10 : 10 ∉ str " = ").
  { change (str " = ") with [32; 61; 32]. rewrite !not_elem_of_cons.
    split_and!; [lia..|apply not_elem_of_nil]. }
  unfold entry_line. cbn [fst snd] in *. rewrite !not_elem_of_app.
  split; [by apply not_newline|]. split; [done|by apply not_newline].
Qed.

Lemma entries_entry_file es :
  Forall (λ e, name_ok e.1 ∧ value_ok e.2) es →
  entries (Strings.split 10 (entry_file es)) = es.
Proof.
  intros H. rewrite split_entry_file.
  2:{ eapply Forall_impl; [done|]. intros [n v] [(? & ? & _) (? & ? & _)]. done. }
  unfold entries. rewrite omap_app. cbn. rewrite app_nil_r.
  induction H as [|[n v] es [Hn Hv] _ IH]; [done|]. cbn [map omap list_omap fst snd] in *.
  rewrite parse_entry by done. by rewrite IH.
Qed.

Section load.
Context {O : MapOrder} {L : MapOrderLaws O}.

Lemma AddKeys_options (file : text) (isOptional isReload : bool) (m : gmap text text)
    (s : ConfigMgr) :
  let s' := AddKeys file isOptional isReload m s in
  cf_filename s' = cf_filename s ∧ cf_usingDistConfig s' = cf_usingDistConfig s ∧
  ∀ k, cf_options s' !! k =
    match m !! k with
    | Some v => if lets_in isOptional isReload k (cf_options s !! k) then Some v else cf_options s !! k
    | None => cf_options s !! k
    end.
Proof using L.
  destruct (AddKeys_fold file isOptional isReload m (map_order m) s) as (E1 & E2 & E3).
  { rewrite map_order_keys. apply NoDup_fst_map_to_list. }
  split_and!; [done..|]. intros k. unfold AddKeys. rewrite E3. rewrite (bool_decide_ext _ (is_Some (m !! k))).
  2:{ rewrite map_order_keys, list_elem_of_fmap. split.
      - intros ((k' & v) & -> & H). apply elem_of_map_to_list in H. by exists v.
      - intros [v Hv]. exists (k, v). by rewrite elem_of_map_to_list. }
  by destruct (m !! k) as [v|] eqn:E; cbn.
Qed.

(** A file that can be read and sets something. *)
Definition usable (f : option file) : option (gmap text text) :=
  match f with
  | Some f => if f_fails f || bool_decide (file_options f = ∅) then None else Some (file_options f)
  | None => None
  end.

Definition small (f : option file) : Prop :=
  match f with Some f => zlen (Strings.split 10 (f_bytes f)) < 2 ^ 32 | None => True end.

Lemma LoadFile_ok files name isOptional isReload s :
  small (files name) →
  let '(ok, s') := LoadFile files name isOptional isReload s in
  ok = bool_decide (is_Some (usable (files name))) ∧
  cf_filename s' = cf_filename s ∧ cf_usingDistConfig s' = cf_usingDistConfig s ∧
  ∀ k, cf_options s' !! k =
    match usable (files name) ≫= lookup k with
    | Some v => if lets_in isOptional isReload k (cf_options s !! k) then Some v else cf_options s !! k
    | None => cf_options s !! k
    end.
Proof using L.
  intros Hsm. unfold LoadFile, ParseFile, usable. destruct (files name) as [[bytes fails]|];
    [|by destruct isOptional].
  set (lines := Strings.split 10 bytes) in *. cbn [f_bytes f_fails small] in *.
  assert (lines ≠ []) as Hne by apply Strings.split_nonempty.
  destruct fails; cbn [orb].
  { destruct (read_lines_fails name lines 0 (mkReading ∅ 0) s Hne) as (e & s' & E & [F1 F2 F3]).
    subst lines. rewrite (bind_throw _ _ _ _ _ E). cbn. rewrite F2. by rewrite F1, F3. }
  destruct (read_lines_ok name lines 0 (mkReading ∅ 0) s) as (r & s1 & E & [F1 F2 F3] & Hu & Hc);
    [done|cbn; unfold zlen in Hsm; rewrite map_size_empty; exact Hsm |].
  fold lines. rewrite (bind_run _ _ _ _ _ E). cbn in Hu. rewrite (left_id_L ∅ (∪)) in Hu.
  unfold file_options. cbn [f_bytes]. fold lines. rewrite <-Hu, Hc.
  destruct (decide (r_configs r = ∅)) as [Hemp|Hemp].
  - rewrite (bool_decide_eq_true_2 _ Hemp), Hemp, map_size_empty.
    change (Z.of_nat 0 =? 0) with true. destruct isOptional; cbn; by rewrite F1, F2, F3.
  - rewrite (bool_decide_eq_false_2 _ Hemp).
    destruct (Z.eqb_spec (Z.of_nat (size (r_configs r))) 0) as [Hz|_].
    { exfalso. apply Hemp, map_size_empty_inv. lia. }
    rewrite bind_modify. unfold mret, M_ret. cbv beta iota.
    destruct (AddKeys_options name isOptional isReload (r_configs r) s1) as (E1 & E2 & E3).
    rewrite E1, E2, F1, F3. split_and!; [done..|]. intros k. by rewrite E3, F2.
Qed.

Lemma LoadAppConfigs_spec (files : text → option file) (filename : text) (s : ConfigMgr) :
  let dist := files (filename ++ str ".dist") in
  let conf := files filename in
  small dist → small conf →
  let '(ok, s') := LoadAppConfigs files filename s in
  match usable dist with
  | None => ok = false
  | Some d =>
      ok = true ∧
      (cf_usingDistConfig s = false → GetFilename s' =
         match usable conf with Some _ => filename | None => filename ++ str ".dist" end) ∧
      ∀ k, cf_options s' !! k =
        match usable conf ≫= lookup k with
        | Some v => if bool_decide (is_Some (d !! k)) || IsLoggingSystemOptions k then Some v else d !! k
        | None => d !! k
        end
  end.
Proof using L.
  intros dist conf Hd Hc. unfold LoadAppConfigs, LoadInitial, LoadAdditionalFile, GetFilename.
  cbn [cf_filename set_filename].
  pose proof (LoadFile_ok files (filename ++ str ".dist") false false
                (set_options ∅ (set_filename filename s)) Hd) as H1. fold dist in H1.
  destruct (LoadFile files (filename ++ str ".dist") false false _) as [ok s1].
  destruct H1 as (-> & F1 & U1 & O1). cbn in F1, U1.
  destruct (usable dist) as [d|]; cbn [negb bool_decide is_Some_dec]; [|done].
  assert (∀ k, cf_options s1 !! k = d !! k) as O1'.
  { intros k. rewrite O1. cbn. by destruct (d !! k). }
  pose proof (LoadFile_ok files filename true false s1 Hc) as H2. rewrite F1. fold conf in H2.
  destruct (LoadFile files filename true false s1) as [ok s2].
  destruct H2 as (-> & F2 & U2 & O2). split; [done|].
  assert (∀ k, cf_options s2 !! k =
    match usable conf ≫= lookup k with
    | Some v => if bool_decide (is_Some (d !! k)) || IsLoggingSystemOptions k then Some v else d !! k
    | None => d !! k
    end) as O2'.
  { intros k. rewrite O2, O1'. destruct (usable conf ≫= lookup k) as [v|]; [|done].
    unfold lets_in. destruct (d !! k), (IsLoggingSystemOptions k); done. }
  destruct (usable conf) as [c|]; cbn [is_Some_dec bool_decide negb].
  - split; [|exact O2']. intros Hu. rewrite U2, U1, Hu, F2, F1. done.
  - split; [|exact O2']. intros _. cbn. by rewrite F2, F1.
Qed.

(** C37: loading the configuration leaves exactly the options of the [.dist] file,
    each with the value of the [.conf] file where that sets it, the first of
    several entries of a name counting in either; names the [.dist] file does not
    know are taken from the [.conf] file only for channels and loggers.  It fails
    exactly when the [.dist] file cannot be read or sets nothing, and remembers
    whether the [.conf] file was of use. *)
Theorem load_app_configs (files : text → option file) (filename : text) (s : ConfigMgr) :
  let dist := files (filename ++ str ".dist") in
  let conf := files filename in
  small dist → small conf →
  let '(ok, s') := LoadAppConfigs files filename s in
  match usable dist with
  | None => ok = false
  | Some d =>
      ok = true ∧
      (cf_usingDistConfig s = false → GetFilename s' =
         match usable conf with Some _ => filename | None => filename ++ str ".dist" end) ∧
      ∀ k, cf_options s' !! k =
        match usable conf ≫= lookup k with
        | Some v => if bool_decide (is_Some (d !! k)) || IsLoggingSystemOptions k then Some v else d !! k
        | None => d !! k
        end
  end.
Proof using L. apply LoadAppConfigs_spec. Qed.
End load.
End Config.

(** ** The options of the server

    A cache in front of [ConfigMgr], by type: the default values used when the
    caller gives none, and the conversions. *)

Record option_type := mkOptionType {
  ot_val : Type;
  ot_default : ot_val;
  ot_format : ot_val → text;
  ot_StringTo : text → option ot_val;
  ot_ToString : ot_val → outcome Empty_set text
}.

Module DiscordConfig.

Definition CONF_DEFAULT_BOOL : bool := false.
Definition CONF_DEFAULT_STR : text := [].
Definition CONF_DEFAULT_INT : Z := 0.

(** The values of the type are printed by ["{}"]. *)
Definition option_bool : option_type := {|
  ot_default := CONF_DEFAULT_BOOL;
  ot_format b := if b then str "true" else str "false";
  ot_StringTo v := Strings.FromString_bool v false;
  ot_ToString b := Ret (Strings.ToString_bool b)
|}.
Definition option_int (T : Strings.int_type) : option_type := {|
  ot_default := CONF_DEFAULT_INT;
  ot_format v := Strings.fmt_dec v;
  ot_StringTo v := Strings.FromString_int T v 10;
  ot_ToString v := Strings.ToString_int v
|}.
Definition option_str : option_type := {|
  ot_default := CONF_DEFAULT_STR;
  ot_format v := v;
  ot_StringTo v := Some v;
  ot_ToString v := Ret v
|}.

Definition GetDefaultValueString (T : option_type) (def : option (ot_val T)) : text :=
  ot_format T (default (ot_default T) def).
Definition GetDefaultValue (T : option_type) : ot_val T := ot_default T.

Definition AddOption (T : option_type) (mgr : ConfigMgr) (optionName : text) (def : option (ot_val T))
    (s : gmap text text) : gmap text text :=
  let s := match s !! optionName with Some _ => delete optionName s | None => s end in
  <[optionName := Config.GetOption_str optionName (GetDefaultValueString T def) mgr]> s.

Definition AddOptions (mgr : ConfigMgr) (optionList : list text) (s : gmap text text)
  : gmap text text :=
  fold_left (λ s option, AddOption option_str mgr option None s) optionList s.

Definition GetOption (T : option_type) (mgr : ConfigMgr) (optionName : text)
    (def : option (ot_val T)) (s : gmap text text) : ot_val T * gmap text text :=
  let s := match s !! optionName with
           | None => AddOption T mgr optionName def s
           | Some _ => s
           end in
  match s !! optionName with
  | None => (GetDefaultValue T, s)
  | Some v =>
      match ot_StringTo T v with
      | None => (GetDefaultValue T, s)
      | Some result => (result, s)
      end
  end.

Definition SetOption (T : option_type) (optionName : text) (value : ot_val T)
  : M Empty_set (gmap text text) () := λ s,
  match s !! optionName with
  | None => (Ret (), s)
  | Some _ =>
      match ot_ToString T value with
      | Ret valueStr => (Ret (), <[optionName := valueStr]> (delete optionName s))
      | AssertFail => (AssertFail, s)
      | _ => (UB, s)
      end
  end.
End DiscordConfig.

(** ** Integers through the files *)

(** An entry with the text of an integer. *)
Definition int_entry (e : text * Z) : text * text := (e.1, Strings.fmt_dec e.2).

Lemma int_entry_value (T : Strings.int_type) (v : Z) :
  0 < Strings.int_width T <= 64 → Strings.int_min T <= v <= Strings.int_max T →
  Strings.FromString_int T (Strings.fmt_dec v) 10 = Some v ∧ Config.value_ok (Strings.fmt_dec v).
Proof.
  intros HT Hv. destruct (Strings.int_text T v HT Hv) as (buf & E & Ev & _ & Hd & Hne).
  assert (Strings.fmt_dec v = buf) as ->.
  { unfold Strings.ToString_int, Strings.fmt_dec in *. by destruct (Strings.to_chars 20 v); simplify_eq/=. }
  split; [done|]. rewrite Forall_forall in Hd. unfold Strings.is_digit in Hd. split; [done|].
  split; [|split; intros Hin; specialize (Hd _ Hin); lia].
  apply Forall_forall. intros c Hc. specialize (Hd c Hc). unfold Strings.isspace, Strings.in_range. lia.
Qed.

Lemma small_entry_file es :
  Forall (λ e, Config.name_ok e.1 ∧ Config.value_ok e.2) es → zlen es < 2 ^ 31 →
  Config.small (Some (mkFile (Config.entry_file es) false)).
Proof.
  intros H Hl. unfold Config.small. cbn [f_bytes]. rewrite Config.split_entry_file.
  - rewrite zlen_app. unfold zlen in *. rewrite length_map. cbn. lia.
  - eapply Forall_impl; [done|]. intros [n v] [(? & ? & _) (? & ? & _)]. done.
Qed.

(** Integers written into the configuration file, one to a line, are what the
    server finds under their names, in [ConfigMgr] and behind the cache of
    [DiscordConfig]; a name that is not there gives the default of the caller in
    either. *)
Theorem options_read_back `{O : MapOrder} `{L : !MapOrderLaws O} (files : text → option file)
    (filename : text) (es : list (text * Z)) (T : Strings.int_type) (def : Z) :
  0 < Strings.int_width T <= 64 → Strings.int_min T <= def <= Strings.int_max T →
  es ≠ [] → zlen es < 2 ^ 31 → NoDup es.*1 →
  Forall (λ e, Config.name_ok e.1 ∧ Strings.int_min T <= e.2 <= Strings.int_max T) es →
  files (filename ++ str ".dist") = Some (mkFile (Config.entry_file (map int_entry es)) false) →
  files filename = None →
  let '(ok, s) := Config.LoadAppConfigs files filename Config.new in
  ok = true ∧
  (∀ n v, (n, v) ∈ es →
     Config.GetOption_int T n def s = v ∧
     (DiscordConfig.GetOption (DiscordConfig.option_int T) s n (Some def) ∅).1 = v) ∧
  (∀ n, n ∉ es.*1 →
     Config.GetOption_int T n def s = def ∧
     (DiscordConfig.GetOption (DiscordConfig.option_int T) s n (Some def) ∅).1 = def).
Proof.
  intros HT Hdef Hne Hlen Hnd Hes Hd Hc.
  assert (Hok : Forall (λ e, Config.name_ok e.1 ∧ Config.value_ok e.2) (map int_entry es)).
  { apply Forall_map. eapply Forall_impl; [done|]. intros [n v] [Hn Hv]. split; [done|].
    by apply (int_entry_value T). }
  pose proof (Config.LoadAppConfigs_spec files filename Config.new) as H. cbn zeta in H.
  rewrite Hd, Hc in H. specialize (H (small_entry_file _ Hok ltac:(by unfold zlen; rewrite length_map)) I).
  destruct (Config.LoadAppConfigs files filename Config.new) as [ok s].
  unfold Config.usable, Config.file_options in H. cbn [f_bytes f_fails orb] in H.
  rewrite Config.entries_entry_file in H by done.
  assert (Hmap : ∀ n v, (n, v) ∈ es → (list_to_map (map int_entry es) : gmap text text) !! n =
                                     Some (Strings.fmt_dec v)).
  { intros n v Hin. apply elem_of_list_to_map_1.
    - rewrite <-list_fmap_compose. exact Hnd.
    - apply list_elem_of_fmap. by exists (n, v). }
  rewrite bool_decide_eq_false_2 in H.
  2:{ destruct es as [|[n v] es]; [done|]. intros E. specialize (Hmap n v ltac:(by left)).
      by rewrite E in Hmap. }
  destruct H as (-> & _ & H). split; [done|]. cbn in H. split.
  - intros n v Hin. specialize (H n). rewrite (Hmap n v Hin) in H.
    assert (Strings.int_min T <= v <= Strings.int_max T) as Hv.
    { rewrite Forall_forall in Hes. by destruct (Hes _ Hin). }
    destruct (int_entry_value T v HT Hv) as [E _].
    unfold Config.GetOption_int, Config.GetValueDefault. rewrite H. cbv beta iota. rewrite E. split; [done|].
    unfold DiscordConfig.GetOption, DiscordConfig.AddOption, Config.GetOption_str,
      Config.GetValueDefault_str. rewrite lookup_empty, lookup_insert_eq, H.
    assert (E' : ot_StringTo (DiscordConfig.option_int T) (Strings.fmt_dec v) = Some v) by exact E.
    change (default _ (Some ?x)) with x. by rewrite E'.
  - intros n Hin. specialize (H n). rewrite not_elem_of_list_to_map_1 in H.
    2:{ rewrite <-list_fmap_compose. exact Hin. }
    destruct (int_entry_value T def HT Hdef) as [E _].
    unfold Config.GetOption_int, Config.GetValueDefault. rewrite H. split; [done|].
    unfold DiscordConfig.GetOption, DiscordConfig.AddOption, Config.GetOption_str,
      Config.GetValueDefault_str. rewrite lookup_empty, lookup_insert_eq, H.
    assert (E' : ot_StringTo (DiscordConfig.option_int T) (Strings.fmt_dec def) = Some def) by exact E.
    change (default _ None) with (Strings.fmt_dec def). by rewrite E'.
Qed.

(** ** Concrete inputs *)

#[local] Instance config_order : MapOrder := λ m, (map_to_list m).*1.
#[local] Instance config_order_laws : MapOrderLaws config_order.
Proof. intros m. reflexivity. Qed.

Definition nl : text := [10].

Definition demo_dist : text :=
  str "[server]" ++ nl ++ str "# the port" ++ nl ++ str "Port = 8085 # default" ++ nl ++
  str "Port = 1" ++ nl ++ str "BindIP = 0.0.0.0" ++ nl.
Definition demo_conf : text :=
  str "Port = 9000" ++ nl ++ str "Prot = 1" ++ nl ++ str "Logger.root = 4" ++ nl.

Definition demo_files (name : text) : option file :=
  if bool_decide (name = str "d.conf.dist") then Some (mkFile demo_dist false)
  else if bool_decide (name = str "d.conf") then Some (mkFile demo_conf false)
  else None.

Lemma load_app_configs_witness :
  let s := (Config.LoadAppConfigs demo_files (str "d.conf") Config.new).2 in
  cf_options s !! str "Port" = Some (str "9000") ∧ cf_options s !! str "Prot" = None ∧
  cf_options s !! str "Logger.root" = Some (str "4") ∧
  cf_options s !! str "BindIP" = Some (str "0.0.0.0").
Proof.
  pose proof (Config.load_app_configs demo_files (str "d.conf") Config.new) as H. cbn zeta in H.
  specialize (H ltac:(by vm_compute) ltac:(by vm_compute)).
  destruct (Config.LoadAppConfigs demo_files (str "d.conf") Config.new) as [ok s].
  assert (Ed : Config.usable (demo_files (str "d.conf" ++ str ".dist")) =
               Some (Config.file_options (mkFile demo_dist false))).
  { change (demo_files _) with (Some (mkFile demo_dist false)). unfold Config.usable. cbn [f_fails orb].
    rewrite bool_decide_eq_false_2; [done|]. intros E.
    apply (f_equal (lookup (str "Port"))) in E. by vm_compute in E. }
  rewrite Ed in H. destruct H as (_ & _ & H). cbn. rewrite !H. by vm_compute.
Defined.

Lemma options_read_back_witness :
  let files := λ name, if bool_decide (name = str "d.conf.dist")
    then Some (mkFile (Config.entry_file (map int_entry [(str "Port", 8085); (str "Low", -7)])) false)
    else None in
  let s := (Config.LoadAppConfigs files (str "d.conf") Config.new).2 in
  Config.GetOption_int (Strings.mkInt true 32) (str "Low") 5 s = -7 ∧
  Config.GetOption_int (Strings.mkInt true 32) (str "High") 5 s = 5.
Proof.
  intros files s. subst s.
  pose proof (options_read_back files (str "d.conf") [(str "Port", 8085); (str "Low", -7)]
                (Strings.mkInt true 32) 5) as H.
  destruct (Config.LoadAppConfigs files (str "d.conf") Config.new) as [ok s].
  destruct H as (_ & H1 & H2); [by vm_compute|by vm_compute|done|by vm_compute| | |done|done|].
  - refine (bool_decide_unpack _ _). by vm_compute.
  - refine (bool_decide_unpack _ _). by vm_compute.
  - split; [apply (H1 (str "Low") (-7)); set_solver|apply (H2 (str "High"))].
    refine (bool_decide_unpack _ _). by vm_compute.
Defined.

(** A value that cannot be read gives 0 and not the default of the caller, though
    the message says so. *)
Example bad_value_is_zero :
  let s := Config.set_options {[ str "Port" := str "none" ]} Config.new in
  (DiscordConfig.GetOption (DiscordConfig.option_int (Strings.mkInt false 16)) s (str "Port")
     (Some 8085) ∅).1 = 0.
Proof. by vm_compute. Qed.

(** The message about a name that comes twice has the file's name as its format. *)
Example duplicate_message :
  last (cf_printed (Config.LoadAppConfigs demo_files (str "d.conf") Config.new).2) =
    Some (IncorrectOption (str "Prot") (str "d.conf")) ∧
  head (cf_printed (Config.LoadAppConfigs demo_files (str "d.conf") Config.new).2) =
    Some (Formatted (str "d.conf.dist")
      [str "> Config::LoadFile: Dublicate key name '{}' in config file '{}'"; str "Port";
       str "d.conf.dist"]).
Proof. by vm_compute. Qed.
