(* ===== verification/App.v ===== *)
(** * App: the update loop and the detector of a stuck loop

    Model of [DiscordUpdateLoop] and [FreezeDetector] in [src/src/app/Main.cpp], of
    [UpdateTime] ([src/src/server/Time/UpdateTime.cpp]) and of [GameTime]
    ([src/src/server/Time/GameTime.cpp]).  What the clocks say is an argument; the
    update of the world is the client of the loop. *)

From Stdlib Require Import Sorted.
From S2P Require Import Prelude Utf8 Strings Timer.
Open Scope Z_scope.

(** ** The freeze detector *)

Record FreezeDetector := mkFreeze {
  fd_LoopCounter : Z;
  fd_lastChangeMsTime : Z;
  fd_maxCoreStuckTime : Z
}.

Module Freeze.

Definition new (now : Z) : FreezeDetector := mkFreeze 0 now 60000.

(** [Handler] when its timer expires: [error] is set when the timer was cancelled,
    [alive] says whether the detector still exists.  The result says whether it is
    to be called again in a second; [ABORT] ends the process. *)
Definition Handler (error alive : bool) (curtime loopCounter : Z) : M Empty_set FreezeDetector bool := λ s,
  if error then (Ret false, s)
  else if negb alive then (Ret false, s)
  else if negb (fd_LoopCounter s =? loopCounter) then
    (Ret true, mkFreeze loopCounter curtime (fd_maxCoreStuckTime s))
  else if fd_maxCoreStuckTime s <? Time.GetMSTimeDiff (fd_lastChangeMsTime s) curtime then
    (AssertFail, s)
  else (Ret true, s).

(** The times it is called at, with the loop counter it sees. *)
Fixpoint watch (events : list (Z * Z)) : M Empty_set FreezeDetector () :=
  match events with
  | [] => mret ()
  | (curtime, loopCounter) :: events =>
      again ← Handler false true curtime loopCounter;
      if (again : bool) then watch events else mret ()
  end.

(** The counter was seen unchanged from one time to a later one, more than [max]
    apart. *)
Definition stuck (max : Z) (seen : list (Z * Z)) : Prop :=
  ∃ pre t c mid t' post,
    seen = pre ++ (t, c) :: mid ++ (t', c) :: post ∧ Forall (λ e, e.2 = c) mid ∧ max < t' - t.

Definition in_order (events : list (Z * Z)) : Prop :=
  StronglySorted (λ e e' : Z * Z, e.1 <= e'.1) events.

Lemma in_order_cons t c t' c' events :
  in_order ((t, c) :: (t', c') :: events) →
  t <= t' ∧ in_order ((t', c') :: events) ∧ in_order ((t, c) :: events).
Proof.
  intros H. inversion H as [|? ? H1 H2]; subst. inversion H2; subst. inversion H1; subst.
  split; [done|]. split; [done|by constructor].
Qed.

Lemma stuck_tail max e events : stuck max events → stuck max (e :: events).
Proof. intros (pre & t & c & mid & t' & post & -> & H). by exists (e :: pre), t, c, mid, t', post. Qed.

Lemma stuck_changed max t c t' c' events :
  0 <= max → c ≠ c' → stuck max ((t, c) :: (t', c') :: events) → stuck max ((t', c') :: events).
Proof.
  intros Hm Hc (pre & a & b & mid & a' & post & E & Hmid & Hlt).
  destruct pre as [|x pre]; cbn in E; simplify_eq.
  - destruct mid as [|y mid]; cbn in *; simplify_eq.
    inversion Hmid; subst. done.
  - exists pre, a, b, mid, a', post. done.
Qed.

Lemma stuck_same max t t' c events :
  t' - t <= max → t <= t' →
  stuck max ((t, c) :: (t', c) :: events) ↔ stuck max ((t, c) :: events).
Proof.
  intros Hd Ht. split; intros (pre & a & b & mid & a' & post & E & Hmid & Hlt).
  - destruct pre as [|x [|y pre]]; cbn in E; simplify_eq.
    + destruct mid as [|y mid]; cbn in *; simplify_eq; [lia|].
      inversion Hmid; subst. exists [], a, b, mid, a', post. done.
    + exists [], t, b, mid, a', post. split; [done|]. split; [done|lia].
    + exists ((t, c) :: pre), a, b, mid, a', post. done.
  - destruct pre as [|x pre]; cbn in E; simplify_eq.
    + exists [], a, b, ((t', b) :: mid), a', post. split; [done|]. split; [by constructor|done].
    + exists ((t, c) :: (t', c) :: pre), a, b, mid, a', post. done.
Qed.

Lemma not_stuck_one max e : ¬ stuck max [e].
Proof. intros (pre & t & c & mid & t' & post & E & _). by destruct pre as [|? [|? ?]], mid. Qed.

Lemma watch_spec events c t max :
  0 <= max → in_order ((t, c) :: events) →
  ((watch events (mkFreeze c t max)).1 = Ret () ∧ ¬ stuck max ((t, c) :: events)) ∨
  ((watch events (mkFreeze c t max)).1 = AssertFail ∧ stuck max ((t, c) :: events)).
Proof.
  intros Hm. revert c t. induction events as [|[t' c'] events IH]; intros c t Ho.
  { left. split; [done|apply not_stuck_one]. }
  apply in_order_cons in Ho as (Ht & Ho1 & Ho2). cbn [watch].
  unfold mbind, M_bind, Handler. cbn [fd_LoopCounter fd_lastChangeMsTime fd_maxCoreStuckTime negb].
  destruct (Z.eqb_spec c c') as [->|Hc]; cbn [negb].
  - unfold Time.GetMSTimeDiff. replace (t' <? t) with false by lia.
    destruct (Z.ltb_spec max (t' - t)) as [Hlt|Hle].
    + right. split; [done|]. exists [], t, c', [], t', events. split; [done|]. by split; [constructor|lia].
    + destruct (IH c' t Ho2) as [[E H]|[E H]]; [left|right]; (split; [exact E|]);
        by rewrite stuck_same by lia.
  - destruct (IH c' t' Ho1) as [[E H]|[E H]]; [left|right]; (split; [exact E|]).
    + intros Hs. apply H. by apply (stuck_changed max t c) in Hs.
    + by apply stuck_tail.
Qed.

(** The detector ends the process exactly when the loop stood still: when the
    loop counter was seen unchanged at two times more than a minute apart, the time
    it was started counting with the counter 0; so a loop that turns at least once
    between any two looks a minute apart is never ended, and one that is stuck is
    ended at the first look after a minute. *)
Theorem freeze_detector (start : Z) (events : list (Z * Z)) :
  in_order ((start, 0) :: events) →
  ((watch events (new start)).1 = AssertFail ↔ stuck 60000 ((start, 0) :: events)) ∧
  ((watch events (new start)).1 = Ret () ↔ ¬ stuck 60000 ((start, 0) :: events)).
Proof.
  intros Ho. destruct (watch_spec events 0 start 60000) as [[E H]|[E H]]; [lia|done|..];
    unfold new; rewrite E; naive_solver.
Qed.

Lemma freeze_detector_witness :
  (watch [(1000, 7); (30000, 7); (62000, 7)] (new 0)).1 = AssertFail ∧
  stuck 60000 [(0, 0); (1000, 7); (30000, 7); (62000, 7)].
Proof.
  assert (H : (watch [(1000, 7); (30000, 7); (62000, 7)] (new 0)).1 = AssertFail) by by vm_compute.
  split; [exact H|]. apply (freeze_detector 0 [(1000, 7); (30000, 7); (62000, 7)]); [|exact H].
  repeat constructor; cbn; lia.
Defined.
End Freeze.

(** ** The update loop *)

Module Loop.
Section loop.
Context {W : Type} (IsStopped : W → bool) (Update : Z → W → W).

(** [DiscordUpdateLoop] with the readings of the clock: a turn that comes within
    the millisecond of the last one sleeps and tries again. *)
Fixpoint DiscordUpdateLoop (clocks : list Z) (realPrevTime : Z) (loopCounter : Z) (w : W)
  : Z * Z * W :=
  match clocks with
  | [] => (realPrevTime, loopCounter, w)
  | realCurrTime :: clocks =>
      if IsStopped w then (realPrevTime, loopCounter, w)
      else
        let loopCounter := u32 (loopCounter + 1) in
        let diff := Time.GetMSTimeDiff realPrevTime realCurrTime in
        if diff =? 0 then DiscordUpdateLoop clocks realPrevTime loopCounter w
        else DiscordUpdateLoop clocks realCurrTime loopCounter (Update diff w)
  end.
End loop.

(** The updates asked for, recorded. *)
Definition record (diff : Z) (diffs : list Z) : list Z := diffs ++ [diff].

Fixpoint ascending (t : Z) (clocks : list Z) : Prop :=
  match clocks with [] => True | c :: clocks => t <= c ∧ ascending c clocks end.

Lemma loop_fold {W} (IsStopped : W → bool) Update clocks prev n w :
  (∀ w, IsStopped w = false) → ascending prev clocks → 0 <= n < 2 ^ 32 →
  ∃ diffs, DiscordUpdateLoop IsStopped Update clocks prev n w =
      (prev + fold_right Z.add 0 diffs, u32 (n + zlen clocks), fold_left (λ w d, Update d w) diffs w) ∧
    Forall (Z.lt 0) diffs ∧ prev + fold_right Z.add 0 diffs = List.last clocks prev.
Proof.
  intros Hs. revert prev n w. induction clocks as [|c clocks IH]; intros prev n w Ha Hn;
    cbn [DiscordUpdateLoop].
  { exists []. cbn. rewrite !Z.add_0_r, wrap_small by done. done. }
  destruct Ha as [Hc Ha]. rewrite Hs. unfold Time.GetMSTimeDiff. replace (c <? prev) with false by lia.
  assert (Hw : u32 (u32 (n + 1) + zlen clocks) = u32 (n + zlen (c :: clocks))).
  { rewrite zlen_cons. unfold wrap. rewrite Zplus_mod_idemp_l. f_equal. lia. }
  pose proof (wrap_range 32 (n + 1) ltac:(lia)).
  assert (Hlast : ∀ x, List.last (c :: clocks) x = List.last clocks c).
  { clear. revert c. induction clocks as [|y l IH]; intros c x; [done|].
    change (List.last (c :: y :: l) x) with (List.last (y :: l) x). by rewrite !IH. }
  destruct (Z.eqb_spec (c - prev) 0) as [E|E].
  - assert (c = prev) as -> by lia. destruct (IH prev (u32 (n + 1)) w) as (ds & -> & Hd & Hl); [done..|].
    exists ds. rewrite Hw, Hlast. done.
  - destruct (IH c (u32 (n + 1)) (Update (c - prev) w)) as (ds & -> & Hd & Hl); [done..|].
    exists (c - prev :: ds). rewrite Hw, Hlast, <-Hl. cbn [fold_right fold_left].
    split; [do 2 f_equal; lia|]. split; [constructor; [lia|done]|lia].
Qed.

(** While the server is not stopped the loop loses no time: the world gets
    updates of at least a millisecond each that add up to all the time that passed
    on the clock, and the loop counter counts the turns. *)
Theorem update_loop_loses_no_time {W} (IsStopped : W → bool) (Update : Z → W → W) (clocks : list Z)
    (start : Z) (w : W) :
  (∀ w, IsStopped w = false) → ascending start clocks →
  ∃ diffs realPrevTime,
    DiscordUpdateLoop IsStopped Update clocks start 0 w =
      (realPrevTime, u32 (zlen clocks), fold_left (λ w d, Update d w) diffs w) ∧
    Forall (Z.lt 0) diffs ∧
    fold_right Z.add 0 diffs = List.last clocks start - start ∧ realPrevTime = List.last clocks start.
Proof.
  intros Hs Ha. destruct (loop_fold IsStopped Update clocks start 0 w Hs Ha) as (ds & E & Hd & Hl); [lia|].
  exists ds, (start + fold_right Z.add 0 ds). split; [by rewrite E|]. split; [done|]. lia.
Qed.

Lemma update_loop_loses_no_time_witness :
  DiscordUpdateLoop (λ _, false) record [5; 5; 9; 30] 5 0 [] = (30, 4, [4; 21]) ∧
  ∃ diffs t, DiscordUpdateLoop (λ _, false) record [5; 5; 9; 30] 5 0 [] =
    (t, 4, fold_left (λ w d, record d w) diffs []) ∧ fold_right Z.add 0 diffs = 25.
Proof.
  split; [by vm_compute|].
  destruct (update_loop_loses_no_time (λ _, false) record [5; 5; 9; 30] 5 []) as (ds & t & E & _ & H & _);
    [done|cbn; lia|]. exists ds, t. split; [exact E|exact H].
Defined.
End Loop.

(** ** The game clock *)

Record GameTime := mkGameTime {
  gt_StartTime : Z;
  gt_GameTime : Z;
  gt_GameMSTime : Z;
  gt_SystemPoint : Z;
  gt_SteadyPoint : Z
}.

Module Game.
Definition new (epoch : Z) : GameTime := mkGameTime epoch epoch 0 (- 2 ^ 63) (- 2 ^ 63).
Definition GetStartTime (s : GameTime) : Z := gt_StartTime s.
Definition GetGameTime (s : GameTime) : Z := gt_GameTime s.
Definition GetGameTimeMS (s : GameTime) : Z := gt_GameMSTime s.
Definition GetSystemTime (s : GameTime) : Z := gt_SystemPoint s.
Definition Now (s : GameTime) : Z := gt_SteadyPoint s.
Definition GetUptime (s : GameTime) : Z := gt_GameTime s - gt_StartTime s.
Definition UpdateGameTimers (epoch ms system steady : Z) (s : GameTime) : GameTime :=
  mkGameTime (gt_StartTime s) epoch ms system steady.
End Game.

(** ** The average time of an update *)

Definition AVG_DIFF_COUNT : Z := 1000.

Record UpdateTime := mkUpdateTime {
  ut_table : list Z;
  ut_index : nat;
  ut_last : Z;
  ut_average : Z
}.

Module UpdateTimes.
Definition new : UpdateTime := mkUpdateTime (replicate (Z.to_nat AVG_DIFF_COUNT) 0) 0 0 0.

(** [_updateTimeDataTable[i]]: there is no element at the size of the array. *)
Definition entry (i : nat) : M Empty_set UpdateTime Z := λ s,
  match ut_table s !! i with
  | Some v => (Ret v, s)
  | None => (UB, s)
  end.

Definition set_entry (i : nat) (v : Z) : M Empty_set UpdateTime () := λ s,
  match ut_table s !! i with
  | Some _ => (Ret (), mkUpdateTime (<[i := v]> (ut_table s)) (ut_index s) (ut_last s) (ut_average s))
  | None => (UB, s)
  end.

Definition set_average (v : Z) (s : UpdateTime) : UpdateTime :=
  mkUpdateTime (ut_table s) (ut_index s) (ut_last s) v.

Definition Update (diff : Z) : M Empty_set UpdateTime () :=
  modify (λ s, mkUpdateTime (ut_table s) (ut_index s) diff (ut_average s)) ;;
  s ← gets id;
  set_entry (ut_index s) (ut_last s) ;;
  behind ← entry (length (ut_table s));
  current ← entry (ut_index s);
  (if 0 <? behind then
     modify (λ s, set_average (Z.quot (fold_right Z.add 0 (ut_table s)) (zlen (ut_table s))) s)
   else if 0 <? current then
     modify (λ s, set_average (Z.quot (fold_right Z.add 0 (ut_table s)) (Z.of_nat (ut_index s) + 1)) s)
   else mret ()) ;;
  modify (λ s, mkUpdateTime (ut_table s)
                 (if (length (ut_table s) <=? ut_index s + 1)%nat then 0 else ut_index s + 1)%nat
                 (ut_last s) (ut_average s)).

Lemma Update_outside (diff : Z) (s : UpdateTime) :
  (ut_index s < length (ut_table s))%nat → eval (Update diff) s = UB.
Proof.
  intros Hi. unfold eval, Update. rewrite bind_modify, bind_gets. unfold id.
  set (s1 := mkUpdateTime _ _ _ _). cbn [ut_index ut_last ut_table].
  assert (E : set_entry (ut_index s) diff s1 =
    (Ret (), mkUpdateTime (<[ut_index s := diff]> (ut_table s)) (ut_index s) diff (ut_average s))).
  { unfold set_entry. subst s1. cbn. by destruct (lookup_lt_is_Some_2 _ _ Hi) as [v ->]. }
  subst s1. cbn in *. rewrite (bind_run _ _ _ _ _ E). unfold mbind at 1, M_bind at 1, entry at 1. cbn.
  rewrite (lookup_ge_None_2 (<[ut_index s := diff]> (ut_table s))); [done|].
  by rewrite length_insert.
Qed.
End UpdateTimes.
