(* ===== verification/Statements.v ===== *)
(** * Statements: prepared statements and the values bound to them

    Model of [PreparedStatement.h], [PreparedStatement.cpp],
    [MySQLPreparedStatement.h] and [MySQLPreparedStatement.cpp] under
    [src/src/database/Database].  A [PreparedStatementBase] collects values
    without a database; [MySQLPreparedStatement] turns them into the buffers
    handed to the MySQL client library.  [float] and [double] values are their
    bit patterns. *)

From S2P Require Import Prelude Strings.
Open Scope Z_scope.

(** ** PreparedStatementBase *)

(** The variant of [PreparedStatementData], with the alternatives of the source. *)
Inductive StatementData : Type :=
  | DBool (b : bool)
  | DUInt8 (v : Z) | DUInt16 (v : Z) | DUInt32 (v : Z) | DUInt64 (v : Z)
  | DInt8 (v : Z) | DInt16 (v : Z) | DInt32 (v : Z) | DInt64 (v : Z)
  | DFloat (bits : Z) | DDouble (bits : Z)
  | DString (s : list Z)
  | DBinary (s : list Z)
  | DNull.

#[export] Instance StatementData_eq_dec : EqDecision StatementData.
Proof. solve_decision. Defined.

(** What the overloads of [SetData] take. *)
Inductive Argument : Type :=
  | ArgDefault (v : StatementData)  (** an arithmetic value or a vector of bytes *)
  | ArgEnum (underlying : StatementData)
  | ArgString (s : list Z)
  | ArgNull
  | ArgArray (bytes : list Z)
  | ArgDuration (count : Z) (convertToUin32 : bool).

Record PreparedStatement := mkPreparedStatement {
  m_index : Z;
  statement_data : list StatementData
}.

#[export] Instance PreparedStatement_eq_dec : EqDecision PreparedStatement.
Proof. solve_decision. Defined.

Module Prepared.

(** Every parameter starts as the first alternative of the variant. *)
Definition new (index capacity : Z) : PreparedStatement :=
  mkPreparedStatement index (replicate (Z.to_nat capacity) (DBool false)).

Definition SetValidData (index : Z) (value : StatementData) :
    M Empty_set PreparedStatement () :=
  n ← gets (λ s, zlen (statement_data s));
  _ ← assert_ (index <? n);
  modify (λ s, mkPreparedStatement (m_index s)
                 (<[Z.to_nat index := value]> (statement_data s))).

(** The variant that holds an argument: an enumeration is its underlying
    value, an array becomes a vector, a duration a 64-bit count, cut to 32 bits
    unless told otherwise. *)
Definition stored (a : Argument) : StatementData :=
  match a with
  | ArgDefault v => v
  | ArgEnum v => v
  | ArgString s => DString s
  | ArgNull => DNull
  | ArgArray bytes => DBinary bytes
  | ArgDuration count convert => DInt64 (if (convert : bool) then u32 count else count)
  end.

Definition SetData (index : Z) (value : Argument) : M Empty_set PreparedStatement () :=
  SetValidData index (stored value).

(** The index is an 8-bit counter. *)
Fixpoint SetDataTuple (index : Z) (args : list Argument) : M Empty_set PreparedStatement () :=
  match args with
  | [] => skip
  | a :: args => _ ← SetData index a; SetDataTuple (u8 (index + 1)) args
  end.

Definition SetArguments (args : list Argument) : M Empty_set PreparedStatement () :=
  SetDataTuple 0 args.

(** [PreparedStatementData::ToString], over the formatting of floats. *)
Definition ToString (fmt_float : Z → list Z) (d : StatementData) : list Z :=
  match d with
  | DBool b => str (if b then "true" else "false")
  | DUInt8 v | DUInt16 v | DUInt32 v | DUInt64 v => Strings.fmt_dec v
  | DInt8 v | DInt16 v | DInt32 v | DInt64 v => Strings.fmt_dec v
  | DFloat bits | DDouble bits => fmt_float bits
  | DString s => s
  | DBinary _ => str "BINARY"
  | DNull => str "NULL"
  end.
End Prepared.

(** ** MySQLPreparedStatement *)

Inductive enum_field_types : Type :=
  | MYSQL_TYPE_DECIMAL | MYSQL_TYPE_TINY | MYSQL_TYPE_SHORT | MYSQL_TYPE_LONG
  | MYSQL_TYPE_FLOAT | MYSQL_TYPE_DOUBLE | MYSQL_TYPE_NULL | MYSQL_TYPE_TIMESTAMP
  | MYSQL_TYPE_LONGLONG | MYSQL_TYPE_INT24 | MYSQL_TYPE_DATE | MYSQL_TYPE_TIME
  | MYSQL_TYPE_DATETIME | MYSQL_TYPE_YEAR | MYSQL_TYPE_NEWDATE | MYSQL_TYPE_VARCHAR
  | MYSQL_TYPE_BIT | MYSQL_TYPE_JSON | MYSQL_TYPE_NEWDECIMAL | MYSQL_TYPE_ENUM
  | MYSQL_TYPE_SET | MYSQL_TYPE_TINY_BLOB | MYSQL_TYPE_MEDIUM_BLOB
  | MYSQL_TYPE_LONG_BLOB | MYSQL_TYPE_BLOB | MYSQL_TYPE_VAR_STRING
  | MYSQL_TYPE_STRING | MYSQL_TYPE_GEOMETRY.

#[export] Instance enum_field_types_eq_dec : EqDecision enum_field_types.
Proof. solve_decision. Defined.

(** The members of a [MYSQL_BIND] the code sets; a buffer and a length are
    blocks the bind owns. *)
Record MySQLBind := mkBind {
  buffer_type : enum_field_types;
  buffer : option (list Z);
  buffer_length : Z;
  is_null_value : bool;
  length_ptr : option Z;
  is_unsigned : bool
}.

#[export] Instance MySQLBind_eq_dec : EqDecision MySQLBind.
Proof. solve_decision. Defined.

(** [memset(m_bind, 0, …)]: type 0 is [MYSQL_TYPE_DECIMAL]. *)
Definition zero_bind : MySQLBind := mkBind MYSQL_TYPE_DECIMAL None 0 false None false.

Record MySQLPreparedStatement := mkMySQLStatement {
  m_paramCount : Z;
  m_paramsSet : list bool;
  m_bind : list MySQLBind;
  m_stmt : option PreparedStatement;
  m_queryString : list Z
}.

#[export] Instance MySQLPreparedStatement_eq_dec : EqDecision MySQLPreparedStatement.
Proof. solve_decision. Defined.

Module Bound.

(** [mysql_stmt_param_count] gives the number of parameters. *)
Definition new (paramCount : Z) (queryString : list Z) : MySQLPreparedStatement :=
  mkMySQLStatement paramCount (replicate (Z.to_nat paramCount) false)
    (replicate (Z.to_nat paramCount) zero_bind) None queryString.

Definition clear_bind (b : MySQLBind) : MySQLBind :=
  mkBind (buffer_type b) None (buffer_length b) (is_null_value b) None (is_unsigned b).

Definition ClearParameters (s : MySQLPreparedStatement) : MySQLPreparedStatement :=
  let n := Z.to_nat (m_paramCount s) in
  mkMySQLStatement (m_paramCount s)
    (map (λ _, false) (take n (m_paramsSet s)) ++ drop n (m_paramsSet s))
    (map clear_bind (take n (m_bind s)) ++ drop n (m_bind s))
    (m_stmt s) (m_queryString s).

(** Binding an index twice is only logged. *)
Definition AssertValidIndex (index : Z) : M Empty_set MySQLPreparedStatement () :=
  n ← gets m_paramCount; assert_ (index <? n).

(** The [MYSQL_BIND] after [SetParameter]: numbers are copied as they lie in
    memory and have no length; [is_unsigned] is set for numbers only. *)
Definition number_bind (type : enum_field_types) (size : nat) (unsigned : bool) (v : Z) : MySQLBind :=
  mkBind type (Some (le_bytes size v)) 0 false None unsigned.

Definition data_bind (type : enum_field_types) (s : list Z) (b : MySQLBind) : MySQLBind :=
  mkBind type (Some (ztake (u32 (zlen s)) s)) (u32 (zlen s)) false (Some (u32 (zlen s)))
    (is_unsigned b).

Definition bind_value (d : StatementData) (b : MySQLBind) : MySQLBind :=
  match d with
  | DBool v => number_bind MYSQL_TYPE_TINY 1 true (if v then 1 else 0)
  | DUInt8 v => number_bind MYSQL_TYPE_TINY 1 true v
  | DUInt16 v => number_bind MYSQL_TYPE_SHORT 2 true v
  | DUInt32 v => number_bind MYSQL_TYPE_LONG 4 true v
  | DUInt64 v => number_bind MYSQL_TYPE_LONGLONG 8 true v
  | DInt8 v => number_bind MYSQL_TYPE_TINY 1 false v
  | DInt16 v => number_bind MYSQL_TYPE_SHORT 2 false v
  | DInt32 v => number_bind MYSQL_TYPE_LONG 4 false v
  | DInt64 v => number_bind MYSQL_TYPE_LONGLONG 8 false v
  | DFloat v => number_bind MYSQL_TYPE_FLOAT 4 false v
  | DDouble v => number_bind MYSQL_TYPE_DOUBLE 8 false v
  | DString s => data_bind MYSQL_TYPE_VAR_STRING s b
  | DBinary s => data_bind MYSQL_TYPE_BLOB s b
  | DNull => mkBind MYSQL_TYPE_NULL None 0 true None (is_unsigned b)
  end.

Definition SetParameter (index : Z) (value : StatementData) :
    M Empty_set MySQLPreparedStatement () :=
  _ ← AssertValidIndex index;
  modify (λ s, mkMySQLStatement (m_paramCount s)
    (<[Z.to_nat index := true]> (m_paramsSet s))
    (alter (bind_value value) (Z.to_nat index) (m_bind s))
    (m_stmt s) (m_queryString s)).

Fixpoint BindParameters_loop (pos : Z) (ds : list StatementData) :
    M Empty_set MySQLPreparedStatement () :=
  match ds with
  | [] => skip
  | d :: ds => _ ← SetParameter pos d; BindParameters_loop (u8 (pos + 1)) ds
  end.

Definition BindParameters (stmt : PreparedStatement) : M Empty_set MySQLPreparedStatement () :=
  _ ← modify (λ s, mkMySQLStatement (m_paramCount s) (m_paramsSet s) (m_bind s)
                     (Some stmt) (m_queryString s));
  BindParameters_loop 0 (statement_data stmt).

(** [getQueryString] puts each value in the place of the next question mark
    after the value before; [replace] throws at a position past the end. *)
Fixpoint getQueryString_loop (fmt_float : Z → list Z) (ds : list StatementData)
    (queryString : list Z) (pos : nat) : outcome () (list Z) :=
  match ds with
  | [] => Ret queryString
  | d :: ds =>
      match Strings.find_char 63 queryString pos with
      | None => Throw ()
      | Some pos =>
          let replaceStr := Prepared.ToString fmt_float d in
          getQueryString_loop fmt_float ds
            (take pos queryString ++ replaceStr ++ drop (pos + 1) queryString)
            (pos + length replaceStr)
      end
  end.

Definition getQueryString (fmt_float : Z → list Z) (s : MySQLPreparedStatement) :
    outcome () (list Z) :=
  match m_stmt s with
  | None => UB
  | Some stmt => getQueryString_loop fmt_float (statement_data stmt) (m_queryString s) 0
  end.
End Bound.

(** ** What arrives at the server

    How the client library reads a bind: by its type, its sign and its bytes. *)

Definition signed (w v : Z) : Z := swrap w v.

Definition read_bind (b : MySQLBind) : option StatementData :=
  match buffer_type b, buffer b with
  | MYSQL_TYPE_NULL, _ => if is_null_value b then Some DNull else None
  | MYSQL_TYPE_TINY, Some m =>
      Some (if is_unsigned b then DUInt8 (le_value m) else DInt8 (signed 8 (le_value m)))
  | MYSQL_TYPE_SHORT, Some m =>
      Some (if is_unsigned b then DUInt16 (le_value m) else DInt16 (signed 16 (le_value m)))
  | MYSQL_TYPE_LONG, Some m =>
      Some (if is_unsigned b then DUInt32 (le_value m) else DInt32 (signed 32 (le_value m)))
  | MYSQL_TYPE_LONGLONG, Some m =>
      Some (if is_unsigned b then DUInt64 (le_value m) else DInt64 (signed 64 (le_value m)))
  | MYSQL_TYPE_FLOAT, Some m => Some (DFloat (le_value m))
  | MYSQL_TYPE_DOUBLE, Some m => Some (DDouble (le_value m))
  | MYSQL_TYPE_VAR_STRING, Some m =>
      n ← length_ptr b; if n =? zlen m then Some (DString m) else None
  | MYSQL_TYPE_BLOB, Some m =>
      n ← length_ptr b; if n =? zlen m then Some (DBinary m) else None
  | _, _ => None
  end.

(** A [bool] travels as an 8-bit number; everything else as itself. *)
Definition on_wire (d : StatementData) : StatementData :=
  match d with DBool v => DUInt8 (if v then 1 else 0) | _ => d end.

(** Values of the width their alternative has. *)
Definition fits (d : StatementData) : bool :=
  let unsigned w v := (0 <=? v) && (v <? 2 ^ w) in
  let signed w v := (- 2 ^ (w - 1) <=? v) && (v <? 2 ^ (w - 1)) in
  match d with
  | DBool _ | DNull => true
  | DUInt8 v => unsigned 8 v | DUInt16 v => unsigned 16 v
  | DUInt32 v => unsigned 32 v | DUInt64 v => unsigned 64 v
  | DInt8 v => signed 8 v | DInt16 v => signed 16 v
  | DInt32 v => signed 32 v | DInt64 v => signed 64 v
  | DFloat v => unsigned 32 v | DDouble v => unsigned 64 v
  | DString s | DBinary s => zlen s <? 2 ^ 32
  end.

(** A statement between two executions: as many binds as parameters, none of
    them holding a buffer. *)
Record clean (s : MySQLPreparedStatement) : Prop := {
  clean_sets : m_paramsSet s = replicate (Z.to_nat (m_paramCount s)) false;
  clean_binds : Z.of_nat (length (m_bind s)) = m_paramCount s;
  clean_buffers : Forall (λ b, buffer b = None ∧ length_ptr b = None) (m_bind s)
}.

(** ** Lemmas *)

Lemma read_number (n : nat) (v : Z) (w : Z) :
  w = 8 * Z.of_nat n → 0 <= v < 2 ^ w → le_value (le_bytes n v) = v.
Proof. intros -> H. rewrite le_value_bytes. by apply wrap_small. Qed.

Lemma read_signed (n : nat) (v : Z) (w : Z) :
  w = 8 * Z.of_nat n → 0 < w → - 2 ^ (w - 1) <= v < 2 ^ (w - 1) →
  signed w (le_value (le_bytes n v)) = v.
Proof.
  intros -> Hw H. unfold signed. rewrite le_value_bytes, swrap_wrap.
  by apply swrap_small.
Qed.

Lemma read_data (type : enum_field_types) (s : list Z) (b : MySQLBind) :
  zlen s < 2 ^ 32 →
  Bound.data_bind type s b = mkBind type (Some s) (zlen s) false (Some (zlen s)) (is_unsigned b).
Proof.
  intros H. pose proof (zlen_nonneg s). unfold Bound.data_bind.
  rewrite (wrap_small 32) by lia. by rewrite ztake_all by lia.
Qed.

Lemma read_bind_value d b : fits d = true → read_bind (Bound.bind_value d b) = Some (on_wire d).
Proof.
  destruct d as [[]| | | | | | | | | | |s|s|]; cbn [fits]; intros H; try done;
    try (apply andb_true_iff in H as [H1%Z.leb_le H2%Z.ltb_lt]);
    cbn [Bound.bind_value Bound.number_bind read_bind buffer_type buffer is_unsigned on_wire];
    try (by rewrite (read_number _ _ _ eq_refl));
    try (by rewrite read_signed by (try done; split; assumption)).
  all: apply Z.ltb_lt in H; rewrite read_data by done; cbn; by rewrite Z.eqb_refl.
Qed.

Module Prepared_facts.

(** The loop writes the arguments from [index] on, or stops at the end. *)
Lemma SetDataTuple_spec args i (pre post : list StatementData) idx :
  i = zlen pre → (zlen pre + zlen post < 256)%Z →
  Prepared.SetDataTuple i args (mkPreparedStatement idx (pre ++ post)) =
  (if (length args <=? length post)%nat then Ret () else AssertFail,
   mkPreparedStatement idx
     (pre ++ map Prepared.stored (take (length post) args) ++ drop (length args) post)).
Proof.
  revert i pre post. induction args as [|a args IH]; intros i pre post -> Hn.
  { rewrite take_nil. cbn [map app drop length Nat.leb]. done. }
  cbn [Prepared.SetDataTuple]. unfold Prepared.SetData, Prepared.SetValidData.
  destruct post as [|d post].
  { rewrite app_nil_r. unfold mbind, M_bind, gets, assert_. cbn [statement_data].
    rewrite Z.ltb_irrefl. cbn. by rewrite app_nil_r. }
  unfold gets, assert_, modify, mbind, M_bind. cbn [statement_data m_index].
  rewrite (proj2 (Z.ltb_lt _ _)) by zlen_lia.
  replace (Z.to_nat (zlen pre)) with (length pre + 0)%nat by (unfold zlen; lia).
  cbn [statement_data m_index]. rewrite insert_app_r.
  change (<[0%nat:=Prepared.stored a]> (d :: post)) with (Prepared.stored a :: post).
  rewrite (cons_middle (Prepared.stored a) pre post), (app_assoc pre).
  rewrite IH; [|rewrite wrap_small; zlen_lia|zlen_lia].
  by rewrite <- !app_assoc.
Qed.
End Prepared_facts.

Module Bound_facts.
Import Bound.

(** The loop binds the values from position [pos] on, or stops past the last
    parameter. *)
Lemma BindParameters_loop_spec ds pos n (preS postS : list bool) (preB postB : list MySQLBind) q t :
  pos = zlen preS → length preB = length preS → length postB = length postS →
  n = zlen preS + zlen postS → pos + zlen ds < 256 → (length ds <= length postS)%nat →
  BindParameters_loop pos ds (mkMySQLStatement n (preS ++ postS) (preB ++ postB) q t) =
  (Ret (), mkMySQLStatement n
     (preS ++ replicate (length ds) true ++ drop (length ds) postS)
     (preB ++ zip_with bind_value ds postB ++ drop (length ds) postB) q t).
Proof.
  revert pos preS postS preB postB.
  induction ds as [|d ds IH]; intros pos preS postS preB postB -> EB EP -> Hn Hl; [done|].
  destruct postS as [|x postS]; [cbn in Hl; lia|].
  destruct postB as [|b postB]; [done|].
  cbn [BindParameters_loop]. unfold SetParameter, AssertValidIndex.
  unfold gets, assert_, modify, mbind, M_bind. cbn [m_paramCount].
  rewrite (proj2 (Z.ltb_lt _ _)) by zlen_lia.
  cbn [m_paramsSet m_bind m_paramCount m_stmt m_queryString].
  replace (Z.to_nat (zlen preS)) with (length preS + 0)%nat by (unfold zlen; lia).
  rewrite insert_app_r, <- EB, alter_app_r.
  change (<[0%nat:=true]> (x :: postS)) with ([true] ++ postS).
  change (alter (bind_value d) 0%nat (b :: postB)) with ([bind_value d b] ++ postB).
  rewrite !app_assoc. rewrite (IH _ (preS ++ [true]) postS (preB ++ [bind_value d b]) postB).
  - cbn [length replicate drop zip_with app]. by rewrite <- !app_assoc.
  - rewrite wrap_small; zlen_lia.
  - rewrite !length_app. cbn. lia.
  - cbn in EP. lia.
  - zlen_lia.
  - rewrite wrap_small; zlen_lia.
  - cbn in Hl. lia.
Qed.

Lemma BindParameters_clean stmt s :
  clean s → zlen (statement_data stmt) < 256 →
  zlen (statement_data stmt) <= m_paramCount s →
  BindParameters stmt s =
  (Ret (), mkMySQLStatement (m_paramCount s)
     (replicate (length (statement_data stmt)) true ++
      drop (length (statement_data stmt)) (m_paramsSet s))
     (zip_with bind_value (statement_data stmt) (m_bind s) ++
      drop (length (statement_data stmt)) (m_bind s))
     (Some stmt) (m_queryString s)).
Proof.
  intros [CS CB _] H1 H2. unfold BindParameters. rewrite bind_modify.
  pose proof (f_equal length CS) as L. rewrite length_replicate in L.
  unfold zlen in *.
  rewrite (BindParameters_loop_spec _ 0 _ [] (m_paramsSet s) [] (m_bind s));
    unfold zlen; cbn [length app]; try lia. done.
Qed.

Lemma read_zip ds bs :
  Forall (λ d, fits d = true) ds → (length ds <= length bs)%nat →
  map read_bind (zip_with bind_value ds bs) = map (λ d, Some (on_wire d)) ds.
Proof.
  intros F. revert bs. induction F as [|d ds Hd _ IH]; intros [|b bs] L; cbn in L; try done; [lia|].
  cbn [zip_with map]. rewrite read_bind_value by done. f_equal. apply IH. lia.
Qed.

(** Whatever was bound, [ClearParameters] leaves the statement clean. *)
Lemma ClearParameters_clean s :
  length (m_paramsSet s) = Z.to_nat (m_paramCount s) →
  Z.of_nat (length (m_bind s)) = m_paramCount s → clean (ClearParameters s).
Proof.
  intros LS LB. split; cbn [m_paramsSet m_paramCount m_bind ClearParameters].
  - rewrite take_ge, drop_ge, app_nil_r by lia. rewrite <- LS.
    generalize (m_paramsSet s). clear. induction l as [|x l IH]; cbn; [done|by rewrite IH].
  - rewrite take_ge, drop_ge, app_nil_r by lia. by rewrite length_map.
  - rewrite take_ge, drop_ge, app_nil_r by lia. apply Forall_fmap, Forall_forall. done.
Qed.
End Bound_facts.

(** Arguments for which there is room, from [SetArguments] to the server. *)
Lemma set_then_bind (index capacity : Z) (args : list Argument) (s : MySQLPreparedStatement) :
  0 <= capacity < 256 → clean s → m_paramCount s = capacity →
  Forall (λ a, fits (Prepared.stored a) = true) args → zlen args <= capacity →
  ∃ stmt s', Prepared.SetArguments args (Prepared.new index capacity) = (Ret (), stmt) ∧
    Bound.BindParameters stmt s = (Ret (), s') ∧
    map read_bind (m_bind s') =
      map (λ a, Some (on_wire (Prepared.stored a))) args ++
      replicate (Z.to_nat (capacity - zlen args)) (Some (DUInt8 0)) ∧
    clean (Bound.ClearParameters s').
Proof.
  intros Hcap Hs Hcount Hfits H. unfold Prepared.SetArguments, Prepared.new.
  pose proof (Prepared_facts.SetDataTuple_spec args 0 []
    (replicate (Z.to_nat capacity) (DBool false)) index eq_refl) as E.
  cbn [app] in E. rewrite E by zlen_lia. clear E.
  rewrite length_replicate, drop_replicate, take_ge, (proj2 (Nat.leb_le _ _)) by (unfold zlen in *; lia).
  eexists _, _. split; [reflexivity|].
  rewrite Bound_facts.BindParameters_clean; [split; [reflexivity|]|done| |];
    cbn [statement_data]; [|unfold zlen in *; rewrite length_app, length_map, length_replicate; lia..].
  destruct Hs as [CS CB _]. cbn [m_bind].
  assert (length (map Prepared.stored args ++ replicate (Z.to_nat capacity - length args) (DBool false)) =
    length (m_bind s)) as EQ.
  { unfold zlen in *. rewrite length_app, length_map, length_replicate. lia. }
  split.
  - rewrite EQ, drop_all, app_nil_r, Bound_facts.read_zip by (done || lia || 
      (rewrite Forall_app; split; [by apply Forall_fmap|by apply Forall_replicate])).
    rewrite map_app, map_map. f_equal. rewrite (fmap_replicate (λ d, Some (on_wire d))).
    f_equal. unfold zlen. lia.
  - apply Bound_facts.ClearParameters_clean; cbn [m_paramsSet m_bind m_paramCount].
    + rewrite length_app, length_replicate, CS, length_drop, length_replicate. lia.
    + rewrite length_app, length_zip_with, length_drop. lia.
Qed.

(** C13: the values given to a prepared statement are the values the server is
    sent.  A statement has as many values as the prepared statement has
    parameters; [SetArguments] with no more arguments than that sets the first
    ones and leaves the others [false], with more fails its assertion.
    [BindParameters] then never fails: every bind, read by its type, sign and
    bytes, gives back the argument at its place ([bool] as a number), and
    [ClearParameters] releases every buffer again. *)
Theorem arguments_reach_server (index capacity : Z) (args : list Argument)
    (s : MySQLPreparedStatement)
    (Hcap : 0 <= capacity < 256) (Hs : clean s) (Hcount : m_paramCount s = capacity)
    (Hfits : Forall (λ a, fits (Prepared.stored a) = true) args) :
  let '(o, stmt) := Prepared.SetArguments args (Prepared.new index capacity) in
  let '(b, s') := Bound.BindParameters stmt s in
  o = (if zlen args <=? capacity then Ret () else AssertFail) ∧
  (zlen args <= capacity →
    b = Ret () ∧
    map read_bind (m_bind s') =
      map (λ a, Some (on_wire (Prepared.stored a))) args ++
      replicate (Z.to_nat (capacity - zlen args)) (Some (DUInt8 0)) ∧
    clean (Bound.ClearParameters s')).
Proof.
  destruct (Z.leb_spec (zlen args) capacity) as [H|H].
  - destruct (set_then_bind index capacity args s) as (stmt & s' & E & EB & R); [done..|].
    rewrite E, EB. done.
  - unfold Prepared.SetArguments, Prepared.new.
    pose proof (Prepared_facts.SetDataTuple_spec args 0 []
      (replicate (Z.to_nat capacity) (DBool false)) index eq_refl) as E.
    cbn [app] in E. rewrite E by zlen_lia. rewrite length_replicate.
    rewrite (proj2 (Nat.leb_gt _ _)) by (unfold zlen in *; lia).
    destruct (Bound.BindParameters _ s). split; [done|lia].
Qed.

(** ** The text of a statement in the log

    The reference: the text cut at its question marks, with the values between
    the pieces; question marks left over stay. *)

Fixpoint fill (pieces texts : list (list Z)) : list Z :=
  match pieces, texts with
  | p :: pieces, t :: texts => p ++ t ++ fill pieces texts
  | pieces, _ => Strings.join 63 pieces
  end.

Lemma getQueryString_fill fmt_float ds (q : list Z) (pos : nat) :
  (pos <= length q)%nat →
  Bound.getQueryString_loop fmt_float ds q pos =
  if (length ds <? length (Strings.split 63 (drop pos q)))%nat
  then Ret (take pos q ++
            fill (Strings.split 63 (drop pos q)) (map (Prepared.ToString fmt_float) ds))
  else Throw ().
Proof.
  revert q pos. induction ds as [|d ds IH]; intros q pos Hpos; cbn [Bound.getQueryString_loop].
  - pose proof (Strings.split_nonempty 63 (drop pos q)) as N.
    destruct (Strings.split 63 (drop pos q)) as [|p ps] eqn:E; [done|].
    cbn [length Nat.ltb Nat.leb map fill]. rewrite <- E, Strings.join_split.
    by rewrite take_drop.
  - destruct (Strings.find_char 63 q pos) as [e|] eqn:F.
    + apply Strings.find_char_Some in F as [He ->].
      set (t := Prepared.ToString fmt_float d).
      assert (drop (e + length t) (take e q ++ t ++ drop (e + 1) q) = drop (S e) q) as D.
      { rewrite app_assoc, drop_app_ge by (rewrite length_app, length_take; lia).
        rewrite length_app, length_take, drop_drop. f_equal. lia. }
      rewrite IH, D by (rewrite !length_app, length_take, length_drop; lia).
      replace (length (d :: ds) <? _)%nat with
        (length ds <? length (Strings.split 63 (drop (S e) q)))%nat by done.
      case_match; [|done]. f_equal. cbn [map fill].
      rewrite app_assoc, take_app_le by (rewrite length_app, length_take; lia).
      rewrite take_ge by (rewrite length_app, length_take; lia).
      fold t. rewrite <- (take_drop pos (take e q)), take_take, Nat.min_l by lia.
      rewrite <- !app_assoc. do 2 f_equal. apply skipn_firstn_comm.
    + rewrite (Strings.find_char_None _ _ _ F). cbn [length].
      by destruct ds.
Qed.

(** The text of a statement in the log is its text with the values put in
    the places of the question marks, in order; question marks inside the values
    are left alone.  With more values than question marks [std::string::replace]
    throws. *)
Theorem query_string_filled (fmt_float : Z → list Z) (s : MySQLPreparedStatement)
    (stmt : PreparedStatement) (Hs : m_stmt s = Some stmt) :
  let pieces := Strings.split 63 (m_queryString s) in
  let values := map (Prepared.ToString fmt_float) (statement_data stmt) in
  Bound.getQueryString fmt_float s =
    if (length values <? length pieces)%nat then Ret (fill pieces values) else Throw ().
Proof.
  unfold Bound.getQueryString. rewrite Hs, getQueryString_fill by lia.
  cbn [take drop app]. by rewrite length_map.
Qed.

(** ** Witnesses *)

Definition demo_arguments : list Argument :=
  [ArgString (str "NAME?"); ArgDuration (-1) true; ArgDefault (DUInt32 7); ArgNull].

Lemma arguments_reach_server_witness :
  Forall (λ a, fits (Prepared.stored a) = true) demo_arguments ∧
  clean (Bound.new 5 (str "CALL f(?,?,?,?,?)")) ∧
  let '(o, stmt) := Prepared.SetArguments demo_arguments (Prepared.new 1 5) in
  let '(b, s') := Bound.BindParameters stmt (Bound.new 5 (str "CALL f(?,?,?,?,?)")) in
  b = Ret () ∧
  map read_bind (m_bind s') =
    [Some (DString (str "NAME?")); Some (DInt64 4294967295); Some (DUInt32 7);
     Some DNull; Some (DUInt8 0)].
Proof.
  assert (Forall (λ a, fits (Prepared.stored a) = true) demo_arguments) as F
    by (repeat constructor).
  assert (clean (Bound.new 5 (str "CALL f(?,?,?,?,?)"))) as C
    by (split; [reflexivity|reflexivity|repeat constructor]).
  split; [exact F|split; [exact C|]].
  assert (0 <= 5 < 256) as H5 by lia. assert (zlen demo_arguments <= 5) as HL by done.
  pose proof (arguments_reach_server 1 5 demo_arguments _ H5 C eq_refl F) as W.
  destruct (Prepared.SetArguments _ _) as [o stmt].
  destruct (Bound.BindParameters _ _) as [b s'].
  destruct W as [_ W]. destruct (W HL) as (Hb & Hm & _).
  split; [exact Hb|]. rewrite Hm. reflexivity.
Defined.

Lemma query_string_filled_witness :
  let s := exec (Bound.BindParameters
      (mkPreparedStatement 0 [DString (str "a?b"); DUInt8 3; DBinary [0]]))
    (Bound.new 3 (str "VALUES (?, ?, ?)")) in
  m_stmt s = Some (mkPreparedStatement 0 [DString (str "a?b"); DUInt8 3; DBinary [0]]) ∧
  Bound.getQueryString (λ _, []) s = Ret (str "VALUES (a?b, 3, BINARY)").
Proof.
  intros s. split; [reflexivity|].
  rewrite (query_string_filled (λ _, []) s _ eq_refl). vm_compute. reflexivity.
Defined.
