(* ===== verification/Variant.v ===== *)
(** * Variant: the unions of QueryCallback

    Model of the hand-written union of a string and a prepared member in
    [src/src/database/Database/QueryCallback.cpp], which both [QueryCallback] (two
    futures) and its [QueryCallbackData] (two functions) are made of: its
    constructors, its moves and its destructor, on a heap of objects whose storage
    is raw until a member is constructed in it. *)

From S2P Require Import Prelude.
Open Scope Z_scope.

Module Variant.
Section variant.

(** The two members, what they are when just constructed and once moved from; and
    the queue of callbacks, which only [QueryCallback] has. *)
Context {A B K : Type} (a_new : A) (b_new : B) (k_new : K).
Context (a_moved : A → A) (b_moved : B → B) (k_moved : K → K).

Inductive storage := Raw | String_ (a : A) | Prepared_ (b : B).

Record object := mkObject { member : storage; isPrepared : bool; callbacks : K }.

(** Objects by their address, and how many members were lost because another was
    constructed on top of them. *)
Record heap := mkHeap { objects : gmap nat object; leaks : nat }.

Definition HM := M Empty_set heap.

Definition get (l : nat) : HM object := λ h,
  match objects h !! l with Some o => (Ret o, h) | None => (UB, h) end.
Definition set (l : nat) (o : object) : HM () :=
  modify (λ h, mkHeap (<[l := o]> (objects h)) (leaks h)).
Definition set_member (l : nat) (m : storage) : HM () :=
  o ← get l; set l (mkObject m (isPrepared o) (callbacks o)).
Definition set_isPrepared (l : nat) (prepared : bool) : HM () :=
  o ← get l; set l (mkObject (member o) prepared (callbacks o)).
Definition set_callbacks (l : nat) (k : K) : HM () :=
  o ← get l; set l (mkObject (member o) (isPrepared o) k).

(** Room for an object, where there is none. *)
Definition allocate (l : nat) : HM () := λ h,
  match objects h !! l with
  | Some _ => (UB, h)
  | None => set l (mkObject Raw false k_new) h
  end.
Definition free (l : nat) : HM () := modify (λ h, mkHeap (delete l (objects h)) (leaks h)).

(** ** The helpers *)

Definition Construct (l : nat) (m : storage) : HM () :=
  o ← get l;
  _ ← match member o with
      | Raw => skip
      | _ => modify (λ h, mkHeap (objects h) (S (leaks h)))
      end;
  set_member l m.

(** Destroying a member that does not live there is undefined. *)
Definition Destroy (l : nat) (prepared : bool) : HM () :=
  o ← get l;
  match member o, prepared with
  | String_ _, false | Prepared_ _, true => set_member l Raw
  | _, _ => undefined
  end.

Definition ConstructActiveMember (l : nat) : HM () :=
  o ← get l;
  if negb (isPrepared o) then Construct l (String_ a_new) else Construct l (Prepared_ b_new).

Definition DestroyActiveMember (l : nat) : HM () :=
  o ← get l;
  if negb (isPrepared o) then Destroy l false else Destroy l true.

(** Assigning to a member, or from one, that does not live there is undefined. *)
Definition MoveFrom (to from : nat) : HM () :=
  t ← get to;
  f ← get from;
  _ ← assert_ (Bool.eqb (isPrepared t) (isPrepared f));
  if decide (to = from) then undefined
  else if negb (isPrepared t) then
    match member t, member f with
    | String_ _, String_ a => _ ← set_member to (String_ a); set_member from (String_ (a_moved a))
    | _, _ => undefined
    end
  else
    match member t, member f with
    | Prepared_ _, Prepared_ b => _ ← set_member to (Prepared_ b); set_member from (Prepared_ (b_moved b))
    | _, _ => undefined
    end.

(** ** [QueryCallbackData] *)

Definition Data_new_string (l : nat) (a : A) : HM () :=
  _ ← allocate l; _ ← Construct l (String_ a); set_isPrepared l false.
Definition Data_new_prepared (l : nat) (b : B) : HM () :=
  _ ← allocate l; _ ← Construct l (Prepared_ b); set_isPrepared l true.

Definition Data_move_body (l right : nat) : HM () :=
  r ← get right;
  _ ← set_isPrepared l (isPrepared r);
  _ ← ConstructActiveMember l;
  MoveFrom l right.

Definition Data_move (l right : nat) : HM () := _ ← allocate l; Data_move_body l right.

Definition Data_assign (l right : nat) : HM () :=
  if negb (bool_decide (l = right)) then
    t ← get l;
    r ← get right;
    _ ← (if negb (Bool.eqb (isPrepared t) (isPrepared r)) then
           _ ← DestroyActiveMember l;
           _ ← set_isPrepared l (isPrepared r);
           ConstructActiveMember l
         else skip);
    MoveFrom l right
  else skip.

Definition Data_destroy (l : nat) : HM () := _ ← DestroyActiveMember l; free l.

(** ** [QueryCallback]: the same with its queue *)

Definition new_string (l : nat) (a : A) : HM () :=
  _ ← allocate l; _ ← set_isPrepared l false; Construct l (String_ a).
Definition new_prepared (l : nat) (b : B) : HM () :=
  _ ← allocate l; _ ← set_isPrepared l true; Construct l (Prepared_ b).

Definition move_callbacks (l right : nat) : HM () :=
  r ← get right;
  _ ← set_callbacks l (callbacks r);
  set_callbacks right (k_moved (callbacks r)).

Definition move (l right : nat) : HM () :=
  _ ← allocate l;
  r ← get right;
  _ ← set_isPrepared l (isPrepared r);
  _ ← ConstructActiveMember l;
  _ ← MoveFrom l right;
  move_callbacks l right.

Definition assign (l right : nat) : HM () :=
  if negb (bool_decide (l = right)) then
    t ← get l;
    r ← get right;
    _ ← (if negb (Bool.eqb (isPrepared t) (isPrepared r)) then
           _ ← DestroyActiveMember l;
           _ ← set_isPrepared l (isPrepared r);
           ConstructActiveMember l
         else skip);
    _ ← MoveFrom l right;
    move_callbacks l right
  else skip.

Definition destroy (l : nat) : HM () := _ ← DestroyActiveMember l; free l.

(** [SetNextQuery] moves the member alone. *)
Definition SetNextQuery (l next : nat) : HM () := MoveFrom l next.

(** ** What they are: values of a sum type that move

    An object holds a value of one of the two types, and its queue. *)

Definition value := (A + B)%type.

Definition moved (v : value) : value :=
  match v with inl a => inl (a_moved a) | inr b => inr (b_moved b) end.

Definition of_value (v : value) : storage :=
  match v with inl a => String_ a | inr b => Prepared_ b end.
Definition is_prepared (v : value) : bool := match v with inl _ => false | inr _ => true end.
Definition object_of (vk : value * K) : object := mkObject (of_value vk.1) (is_prepared vk.1) vk.2.

Inductive op :=
  | NewString (l : nat) (a : A)
  | NewPrepared (l : nat) (b : B)
  | Move (l right : nat)
  | Assign (l right : nat)
  | Next (l right : nat)
  | Delete (l : nat).

Definition run_op (o : op) : HM () :=
  match o with
  | NewString l a => new_string l a
  | NewPrepared l b => new_prepared l b
  | Move l r => move l r
  | Assign l r => assign l r
  | Next l r => SetNextQuery l r
  | Delete l => destroy l
  end.

Definition take_over (whole : bool) (l right : nat) (m : gmap nat (value * K)) : gmap nat (value * K) :=
  match m !! right with
  | Some (v, k) =>
      if whole then <[l := (v, k)]> (<[right := (moved v, k_moved k)]> m)
      else <[l := (v, default k_new (snd <$> m !! l))]> (<[right := (moved v, k)]> m)
  | None => m
  end.

Definition spec_op (o : op) (m : gmap nat (value * K)) : gmap nat (value * K) :=
  match o with
  | NewString l a => <[l := (inl a, k_new)]> m
  | NewPrepared l b => <[l := (inr b, k_new)]> m
  | Move l r => take_over true l r m
  | Assign l r => if decide (l = r) then m else take_over true l r m
  | Next l r => take_over false l r m
  | Delete l => delete l m
  end.

(** An object is made where there is none and used while it is there; a next query
    is another one, of the same kind. *)
Definition op_ok (o : op) (m : gmap nat (value * K)) : Prop :=
  match o with
  | NewString l _ | NewPrepared l _ => m !! l = None
  | Move l r => m !! l = None ∧ is_Some (m !! r)
  | Assign l r => is_Some (m !! l) ∧ is_Some (m !! r)
  | Next l r => l ≠ r ∧ ∃ v k w k', m !! l = Some (v, k) ∧ m !! r = Some (w, k') ∧ is_prepared v = is_prepared w
  | Delete l => is_Some (m !! l)
  end.

Definition heap_of (m : gmap nat (value * K)) : heap := mkHeap (object_of <$> m) 0.

Ltac run_heap :=
  unfold new_string, new_prepared, move, assign, destroy, SetNextQuery, MoveFrom, move_callbacks,
    DestroyActiveMember, Destroy, ConstructActiveMember, Construct, allocate, free, set_isPrepared,
    set_member, set_callbacks, get, set, modify, assert_, undefined, skip, mbind, M_bind, heap_of;
  repeat (cbn [objects leaks member isPrepared callbacks of_value is_prepared moved object_of fst snd negb
            Bool.eqb fmap option_fmap option_map];
          first [ rewrite lookup_insert_eq
                | rewrite lookup_insert_ne by done
                | rewrite lookup_fmap
                | rewrite bool_decide_eq_false_2 by done
                | rewrite decide_False by done
                | match goal with E : ?m !! ?l = _ |- context [?m !! ?l] => rewrite E end ]).

(** Both heaps say the same of every address. *)
Ltac same_heap :=
  do 2 f_equal; apply map_eq; intros i; rewrite lookup_fmap;
  repeat match goal with
  | |- context [<[?l := _]> _ !! i] =>
      destruct (decide (l = i)) as [<-|];
      [rewrite ?lookup_insert_eq|rewrite ?(lookup_insert_ne _ l i) by done]
  | |- context [delete ?l _ !! i] =>
      destruct (decide (l = i)) as [<-|];
      [rewrite ?lookup_delete_eq|rewrite ?(lookup_delete_ne _ l i) by done]
  end; simplify_map_eq; rewrite ?lookup_fmap; simplify_map_eq; try done.

Lemma run_op_good o m : op_ok o m → run_op o (heap_of m) = (Ret (), heap_of (spec_op o m)).
Proof.
  destruct o as [l a|l b|l r|l r|l r|l]; cbn [run_op spec_op op_ok]; unfold take_over.
  - intros E. run_heap. same_heap.
  - intros E. run_heap. same_heap.
  - intros [El [[v k] Er]]. assert (l ≠ r) as Hne by congruence. rewrite Er.
    destruct v as [a|b]; run_heap; same_heap.
  - intros [[[w k'] El] [[v k] Er]]. destruct (decide (l = r)) as [<-|Hne].
    + unfold assign. by rewrite bool_decide_eq_true_2.
    + rewrite Er. destruct v as [a|b], w as [a'|b']; run_heap; same_heap.
  - intros (Hne & v & k & w & k' & El & Er & Ek). rewrite El, Er.
    destruct v as [a|b], w as [a'|b']; try done; run_heap; same_heap.
  - intros [[v k] E]. destruct v as [a|b]; run_heap; same_heap.
Qed.

(** The same operations of [QueryCallbackData], which has no queue. *)
Definition run_data_op (o : op) : HM () :=
  match o with
  | NewString l a => Data_new_string l a
  | NewPrepared l b => Data_new_prepared l b
  | Move l r => Data_move l r
  | Assign l r => Data_assign l r
  | Next l r => MoveFrom l r
  | Delete l => Data_destroy l
  end.

Lemma run_data_op_spec o m :
  (∀ k k' : K, k = k') → op_ok o m → run_data_op o (heap_of m) = (Ret (), heap_of (spec_op o m)).
Proof.
  intros One. destruct o as [l a|l b|l r|l r|l r|l]; cbn [run_data_op spec_op op_ok]; unfold take_over.
  - intros E. unfold Data_new_string. run_heap. same_heap.
  - intros E. unfold Data_new_prepared. run_heap. same_heap.
  - intros [El [[v k] Er]]. assert (l ≠ r) as Hne by congruence. rewrite Er, (One (k_moved k) k), (One k k_new).
    unfold Data_move, Data_move_body. destruct v as [a|b]; run_heap; same_heap; by rewrite (One k_new k).
  - intros [[[w k'] El] [[v k] Er]]. unfold Data_assign. destruct (decide (l = r)) as [<-|Hne].
    + by rewrite bool_decide_eq_true_2.
    + rewrite Er, (One (k_moved k) k).
      destruct v as [a|b], w as [a'|b']; run_heap; same_heap; by rewrite (One k' k).
  - apply (run_op_good (Next l r)).
  - apply (run_op_good (Delete l)).
Qed.

(** *** Runs *)

Fixpoint run_ops (run : op → HM ()) (ops : list op) : HM () :=
  match ops with
  | [] => mret ()
  | o :: ops => _ ← run o; run_ops run ops
  end.

Definition spec_ops (ops : list op) (m : gmap nat (value * K)) : gmap nat (value * K) :=
  fold_left (λ m o, spec_op o m) ops m.

Fixpoint ops_ok (ops : list op) (m : gmap nat (value * K)) : Prop :=
  match ops with
  | [] => True
  | o :: ops => op_ok o m ∧ ops_ok ops (spec_op o m)
  end.

Lemma run_ops_spec run ops : ∀ m,
  (∀ o m, op_ok o m → run o (heap_of m) = (Ret (), heap_of (spec_op o m))) →
  ops_ok ops m → run_ops run ops (heap_of m) = (Ret (), heap_of (spec_ops ops m)).
Proof.
  induction ops as [|o ops IH]; intros m Hrun; [done|]. cbn [ops_ok run_ops]. intros [Ho Hops].
  rewrite (bind_run _ _ _ _ _ (Hrun o m Ho)). by apply IH.
Qed.

(** C26: the unions of the query callbacks are values that move: whatever objects
    are made, moved into each other, given the next query and destroyed, in
    whatever order, every member that is read, assigned or destroyed is the one
    that lives there, none is lost under another, and every object holds what the
    moves of plain values say, whether it changes its kind or is moved into itself;
    for the objects with a queue and for those without. *)
Theorem union_is_a_value (ops : list op) :
  ops_ok ops ∅ →
  run_ops run_op ops (mkHeap ∅ 0) = (Ret (), heap_of (spec_ops ops ∅)) ∧
  ((∀ k k' : K, k = k') →
   run_ops run_data_op ops (mkHeap ∅ 0) = (Ret (), heap_of (spec_ops ops ∅))).
Proof.
  intros Hok. assert (mkHeap ∅ 0 = heap_of ∅) as -> by (unfold heap_of; by rewrite fmap_empty).
  split; [|intros One]; apply run_ops_spec; try done; intros o m Ho;
    [by apply run_op_good|by apply run_data_op_spec].
Qed.
End variant.

(** A string query is made and one that is prepared; the second is moved into the
    first, which changes its kind, and on into a third, which is assigned to itself
    and then given to another query of its kind; two are destroyed. *)
Definition demo_ops : list (op (A := Z) (B := Z)) :=
  [NewString 1 5; NewPrepared 2 7; Assign 1 2; Move 3 1; Assign 3 3; NewPrepared 4 9; Next 4 3;
   Delete 2; Delete 1].

Lemma union_is_a_value_witness :
  let spec := spec_ops (K := list Z) [] (λ _, 0) (λ _, -1) (λ _, []) demo_ops ∅ in
  spec !! 4%nat = Some (inr 7, []) ∧ spec !! 3%nat = Some (inr (-1), []) ∧ spec !! 1%nat = None ∧
  run_ops (run_op (K := list Z) 0 0 [] (λ _, 0) (λ _, -1) (λ _, [])) demo_ops (mkHeap ∅ 0) =
    (Ret (), heap_of spec) ∧
  ((∀ k k' : list Z, k = k') →
   run_ops (run_data_op (K := list Z) 0 0 [] (λ _, 0) (λ _, -1)) demo_ops (mkHeap ∅ 0) =
    (Ret (), heap_of spec)).
Proof.
  cbn zeta. do 3 (split; [by vm_compute|]).
  apply (union_is_a_value 0 0 [] (λ _, 0) (λ _, -1) (λ _, []) demo_ops).
  cbn [ops_ok demo_ops op_ok].
  assert (∀ {T} (x : option T), bool_decide (is_Some x) = true → is_Some x) as here
    by (intros T x Hx; by apply bool_decide_eq_true_1 in Hx).
  split; [done|]. split; [done|]. split; [by split; apply here; vm_compute|].
  split; [by split; [done|apply here; vm_compute]|]. split; [by split; apply here; vm_compute|].
  split; [done|]. split; [split; [done|by do 4 eexists; vm_compute]|].
  split; [by apply here; vm_compute|]. split; [by apply here; vm_compute|done].
Defined.
End Variant.
