(* ===== verification/Query.v ===== *)
(** * Query: what is done with the results of asynchronous queries

    Model of [QueryCallback.h], [QueryCallback.cpp], [QueryHolder.h] and
    [QueryHolder.cpp] under [src/src/database/Database].  A [QueryCallback] holds
    a future and the callbacks that wait for it; a callback may put the future of
    a further query in its place, for the next callback.  A query holder carries
    several prepared statements to a connection and their results back. *)

From S2P Require Import Prelude Statements.
Open Scope Z_scope.

(** ** QueryCallback *)

Module QueryCallback.
Section callbacks.

(** [R] is a result of a query, [S] everything else: the owner of the callback
    and the world of the futures, which are numbered; [result_of] says which
    futures have their result by now. *)
Context {R S : Type}.
Context (result_of : S → nat → option R).

(** What a callback does with the [QueryCallback&] it is given, and the callback
    itself, for a result of a string query or of a prepared one. *)
Inductive command : Type :=
  | SetNextQuery (isPrepared : bool) (future : option nat)
  | WithChaining (c : callback)
with callback : Type :=
  | Callback (isPrepared : bool) (run : R → S → list command * S).

Definition cb_isPrepared (c : callback) : bool := let 'Callback k _ := c in k.
Definition cb_run (c : callback) : R → S → list command * S := let 'Callback _ f := c in f.

Record t := mk {
  isPrepared : bool;
  future : option nat;  (** [valid()], and which *)
  callbacks : list callback
}.

(** Construction from a future, and [WithCallback], [WithPreparedCallback] and
    their chaining forms. *)
Definition new (prepared : bool) (result : nat) : t := mk prepared (Some result) [].

Definition is_empty {A} (l : list A) : bool := match l with [] => true | _ => false end.

Definition WithChainingCallback (run : R → S → list command * S) : M Empty_set t () :=
  q ← gets id;
  _ ← assert_ (negb (is_empty (callbacks q)) || negb (isPrepared q));
  modify (λ q, mk (isPrepared q) (future q) (callbacks q ++ [Callback false run])).

Definition WithChainingPreparedCallback (run : R → S → list command * S) : M Empty_set t () :=
  q ← gets id;
  _ ← assert_ (negb (is_empty (callbacks q)) || isPrepared q);
  modify (λ q, mk (isPrepared q) (future q) (callbacks q ++ [Callback true run])).

Definition WithCallback (run : R → S → S) : M Empty_set t () :=
  WithChainingCallback (λ r s, ([], run r s)).

Definition WithPreparedCallback (run : R → S → S) : M Empty_set t () :=
  WithChainingPreparedCallback (λ r s, ([], run r s)).

(** [MoveFrom], which [SetNextQuery] is: only the future moves. *)
Definition MoveFrom (from_isPrepared : bool) (from_future : option nat) : M Empty_set t () :=
  q ← gets id;
  _ ← assert_ (Bool.eqb (isPrepared q) from_isPrepared);
  modify (λ q, mk (isPrepared q) from_future (callbacks q)).

Definition run_command (c : command) : M Empty_set t () :=
  match c with
  | SetNextQuery prepared result => MoveFrom prepared result
  | WithChaining (Callback false run) => WithChainingCallback run
  | WithChaining (Callback true run) => WithChainingPreparedCallback run
  end.

Fixpoint run_commands (cs : list command) : M Empty_set t () :=
  match cs with
  | [] => skip
  | c :: cs => _ ← run_command c; run_commands cs
  end.

Definition checkStateAndReturnCompletion : M Empty_set t bool :=
  _ ← modify (λ q, mk (isPrepared q) (future q) (tail (callbacks q)));
  q ← gets id;
  let hasNext := match future q with Some _ => true | None => false end in
  match callbacks q with
  | [] => _ ← assert_ (negb hasNext); mret true
  | front :: _ =>
      if negb hasNext then mret true
      else _ ← assert_ (Bool.eqb (isPrepared q) (cb_isPrepared front)); mret false
  end.

(** The front of an empty queue, and the member of the union that is not the
    active one, are undefined. *)
Definition InvokeIfReady : M Empty_set (t * S) bool := λ '(q, s),
  match callbacks q with
  | [] => (UB, (q, s))
  | callback :: _ =>
      match future q ≫= result_of s with
      | None => (Ret false, (q, s))
      | Some result =>
          if negb (Bool.eqb (isPrepared q) (cb_isPrepared callback)) then (UB, (q, s))
          else
            let '(cs, s) := cb_run callback result s in
            let '(o, q) := (_ ← run_commands cs; checkStateAndReturnCompletion)
                             (mk (isPrepared q) None (callbacks q)) in
            (o, (q, s))
      end
  end.

(** The owner polls until the callback is complete; between the polls the world
    moves on. *)
Fixpoint poll (worlds : list (S → S)) (q : t) (s : S) : outcome Empty_set (option t) * S :=
  match worlds with
  | [] => (Ret (Some q), s)
  | w :: worlds =>
      match InvokeIfReady (q, w s) with
      | (Ret true, (_, s)) => (Ret None, s)
      | (Ret false, (q, s)) => poll worlds q s
      | (Throw e, (_, s)) => (Throw e, s)
      | (AssertFail, (_, s)) => (AssertFail, s)
      | (UB, (_, s)) => (UB, s)
      end
  end.

(** ** Chains of queries

    Callbacks of one kind, each but the last setting the next query of that kind
    or none. *)

Definition next_of (cs : list command) : option nat :=
  match cs with
  | [SetNextQuery _ result] => result
  | _ => None
  end.

Definition commands_ok (k last : bool) (cs : list command) : Prop :=
  cs = [] ∨ (last = false ∧ ∃ f, cs = [SetNextQuery k (Some f)]).

Fixpoint chain_ok (k : bool) (cbs : list callback) : Prop :=
  match cbs with
  | [] => True
  | c :: cbs =>
      cb_isPrepared c = k ∧
      (∀ r s, commands_ok k (is_empty cbs) (cb_run c r s).1) ∧
      chain_ok k cbs
  end.

(** The reference: the callbacks in order, each on the result of the query the
    one before it made, when that is there. *)
Fixpoint run_chain (worlds : list (S → S)) (f : nat) (cbs : list callback) (s : S) :
    option (nat * list callback) * S :=
  match worlds with
  | [] => (Some (f, cbs), s)
  | w :: worlds =>
      match result_of (w s) f, cbs with
      | Some r, c :: cbs =>
          let '(cs, s) := cb_run c r (w s) in
          match next_of cs with
          | Some f => run_chain worlds f cbs s
          | None => (None, s)
          end
      | _, _ => run_chain worlds f cbs (w s)
      end
  end.

(** One poll of a chain: nothing while the result is not there, else exactly the
    first callback. *)
Lemma InvokeIfReady_chain k f c cbs s :
  chain_ok k (c :: cbs) →
  InvokeIfReady (mk k (Some f) (c :: cbs), s) =
  match result_of s f with
  | None => (Ret false, (mk k (Some f) (c :: cbs), s))
  | Some r =>
      let '(cs, s) := cb_run c r s in
      (Ret (match next_of cs with Some _ => false | None => true end),
       (mk k (next_of cs) cbs, s))
  end.
Proof.
  intros (K & H & Hr). unfold InvokeIfReady. cbn [callbacks future isPrepared mbind option_bind].
  destruct (result_of s f) as [r|]; [|done]. rewrite K, Bool.eqb_reflx. cbn [negb].
  specialize (H r s). destruct (cb_run c r s) as [cs s'].
  destruct H as [E|(L & f' & E)]; cbn [fst] in E; subst cs.
  - cbn. by destruct cbs.
  - destruct cbs as [|[k' run'] cbs]; [done|]. destruct Hr as [K' _]. cbn in K'. subst k'.
    by destruct k.
Qed.

(** Every world fulfils what is asked for. *)
Definition fulfils (w : S → S) : Prop := ∀ s f, is_Some (result_of (w s) f).

Lemma run_chain_ends worlds f cbs s :
  cbs ≠ [] → Forall fulfils worlds → chain_ok true cbs ∨ chain_ok false cbs →
  (length cbs <= length worlds)%nat → (run_chain worlds f cbs s).1 = None.
Proof.
  intros N F OK L. revert f cbs s N OK L.
  induction F as [|w worlds Hw _ IH]; intros f [|c cbs] s N OK L; cbn in L; try done; [lia|].
  cbn [run_chain]. destruct (Hw s f) as [r ->].
  pose proof (λ k (H : chain_ok k (c :: cbs)), proj1 (proj2 H) r (w s)) as HC.
  destruct (cb_run c r (w s)) as [cs s']. cbn [fst] in HC.
  destruct (next_of cs) as [f'|] eqn:E; [|done]. apply IH; [|naive_solver|lia].
  intros ->. destruct OK as [OK|OK]; destruct (HC _ OK) as [->|[? _]]; done.
Qed.

(** C27: a chain of queries runs its callbacks in order, each exactly once and on
    the result of the query the one before it made.  However the polls fall,
    polling a chain of callbacks of one kind never fails an assertion and never
    reads the union wrongly; it does what the reference does; and once every
    query asked for is answered between two polls it is complete after as many
    polls as it has callbacks. *)
Theorem query_chain (k : bool) (f : nat) (cbs : list callback) (s : S)
    (worlds : list (S → S)) (Hn : cbs ≠ []) (Hok : chain_ok k cbs) :
  poll worlds (mk k (Some f) cbs) s =
    (Ret ((λ '(f, cbs), mk k (Some f) cbs) <$> (run_chain worlds f cbs s).1),
     (run_chain worlds f cbs s).2) ∧
  (Forall fulfils worlds → (length cbs <= length worlds)%nat →
   (poll worlds (mk k (Some f) cbs) s).1 = Ret None).
Proof.
  assert (poll worlds (mk k (Some f) cbs) s =
    (Ret ((λ '(f, cbs), mk k (Some f) cbs) <$> (run_chain worlds f cbs s).1),
     (run_chain worlds f cbs s).2)) as E.
  { revert f cbs s Hn Hok. induction worlds as [|w worlds IH]; intros f cbs s Hn Hok; [done|].
    destruct cbs as [|c cbs]; [done|]. cbn [poll run_chain].
    rewrite InvokeIfReady_chain by done.
    destruct (result_of (w s) f) as [r|]; [|by apply IH].
    destruct Hok as (K & H & Hr). specialize (H r (w s)).
    destruct (cb_run c r (w s)) as [cs s']. cbn [fst] in H.
    destruct (next_of cs) as [f'|] eqn:N; [|done]. apply IH; [|done].
    intros ->. by destruct H as [->|[? _]]. }
  split; [done|]. intros F L. rewrite E. cbn [fst].
  rewrite run_chain_ends; [done|done|done|destruct k; auto|done].
Qed.
End callbacks.

(** Two queries; the world answers future [n] with [10 * n], and the log is the
    results seen. *)
Definition demo_result (s : list Z * bool) (f : nat) : option Z :=
  if s.2 then Some (10 * Z.of_nat f) else None.
Definition see (next : list (@command Z (list Z * bool))) (r : Z) (s : list Z * bool) :
    list (@command Z (list Z * bool)) * (list Z * bool) :=
  (next, (s.1 ++ [r], false)).
Definition demo_chain : list (@callback Z (list Z * bool)) :=
  [Callback true (see [SetNextQuery true (Some 2%nat)]); Callback true (see [])].
Definition answer_all : list Z * bool → list Z * bool := λ s, (s.1, true).

Lemma query_chain_witness :
  demo_chain ≠ [] ∧ chain_ok true demo_chain ∧
  poll demo_result [id; answer_all; id; answer_all] (mk true (Some 1%nat) demo_chain) ([], false) =
    (Ret None, ([10; 20], false)).
Proof.
  assert (demo_chain ≠ []) as N by done.
  assert (chain_ok true demo_chain) as K.
  { repeat split.
    - intros r [log b]. right. split; [done|]. by exists 2%nat.
    - intros r [log b]. by left. }
  split; [exact N|split; [exact K|]].
  destruct (query_chain demo_result true 1 demo_chain ([], false)
    [id; answer_all; id; answer_all] N K) as [E _].
  rewrite E. reflexivity.
Defined.

(** A callback for a prepared query after one for a string query is accepted,
    but the string query cannot be followed by a prepared one. *)
Example mixed_chain_asserts :
  let q := exec (_ ← WithChainingCallback (see [SetNextQuery true (Some 2%nat)]);
                 WithChainingPreparedCallback (see [])) (new false 1) in
  length (callbacks q) = 2%nat ∧
  (InvokeIfReady demo_result (q, ([], true))).1 = AssertFail.
Proof. by vm_compute. Qed.
End QueryCallback.

(** ** SQLQueryHolder *)

Module QueryHolder.
Section holder.

(** [R] is a prepared result, which knows its row count; [Query] asks a
    connection. *)
Context {R C : Type}.
Context (GetRowCount : R → Z) (Query : PreparedStatement → C → option R * C).

(** [m_queries]: a statement or none, and the result stored. *)
Abbreviation t := (list (option PreparedStatement * option R)).

Definition SetSize (size : Z) (h : t) : t := vresize size (None, None) h.

Definition SetPreparedQuery (index : Z) (stmt : PreparedStatement) (h : t) : bool * t :=
  if zlen h <=? index then (false, h)
  else (true, alter (λ q, (Some stmt, q.2)) (Z.to_nat index) h).

Definition GetPreparedResult (index : Z) (h : t) : outcome Empty_set (option R) :=
  if index <? zlen h then Ret (default None (snd <$> h !! Z.to_nat index)) else AssertFail.

(** A result without rows is dropped. *)
Definition SetPreparedResult (index : Z) (result : option R) (h : t) : t :=
  let result := r ← result; if GetRowCount r =? 0 then None else Some r in
  if index <? zlen h then alter (λ q, (q.1, result)) (Z.to_nat index) h else h.

(** [SQLQueryHolderTask::Execute]: every index in turn. *)
Fixpoint Execute_loop (indices : list nat) (h : t) (conn : C) : t * C :=
  match indices with
  | [] => (h, conn)
  | i :: indices =>
      match h !! i with
      | Some (Some stmt, _) =>
          let '(result, conn) := Query stmt conn in
          Execute_loop indices (SetPreparedResult (Z.of_nat i) result h) conn
      | _ => Execute_loop indices h conn
      end
  end.

Definition Execute (h : t) (conn : C) : t * C := Execute_loop (seq 0 (length h)) h conn.

(** The reference: one pass over the queries. *)
Fixpoint answered (h : t) (conn : C) : t * C :=
  match h with
  | [] => ([], conn)
  | (None, r) :: h => let '(h, conn) := answered h conn in ((None, r) :: h, conn)
  | (Some stmt, _) :: h =>
      let '(result, conn) := Query stmt conn in
      let '(h, conn) := answered h conn in
      ((Some stmt, r ← result; if GetRowCount r =? 0 then None else Some r) :: h, conn)
  end.

Lemma Execute_loop_answered (pre h : t) conn :
  Execute_loop (seq (length pre) (length h)) (pre ++ h) conn =
  (pre ++ (answered h conn).1, (answered h conn).2).
Proof.
  revert pre conn. induction h as [|[[stmt|] r] h IH]; intros pre conn; [done| |].
  - cbn [length seq Execute_loop answered].
    rewrite lookup_app_r, Nat.sub_diag by lia. cbn [lookup list_lookup].
    destruct (Query stmt conn) as [result conn']. unfold SetPreparedResult.
    rewrite (proj2 (Z.ltb_lt _ _)) by (unfold zlen; rewrite length_app; cbn; lia).
    rewrite Nat2Z.id. replace (length pre) with (length pre + 0)%nat at 2 by lia.
    rewrite alter_app_r. set (r' := _ ← result; _).
    change (alter _ 0%nat ((Some stmt, r) :: h)) with ([(Some stmt, r')] ++ h).
    rewrite app_assoc. specialize (IH (pre ++ [(Some stmt, r')]) conn').
    rewrite length_app, Nat.add_1_r in IH. rewrite IH.
    destruct (answered h conn'). cbn. by rewrite <- app_assoc.
  - cbn [length seq Execute_loop answered].
    rewrite lookup_app_r, Nat.sub_diag by lia. cbn [lookup list_lookup].
    specialize (IH (pre ++ [(None, r)]) conn).
    rewrite length_app, Nat.add_1_r, <- !app_assoc in IH. cbn [app] in IH. rewrite IH.
    by destruct (answered h conn).
Qed.

Lemma Execute_answered (h : t) conn : Execute h conn = answered h conn.
Proof.
  unfold Execute. pose proof (Execute_loop_answered [] h conn) as E. cbn [app length] in E.
  rewrite E. by destruct (answered h conn).
Qed.
End holder.
End QueryHolder.
