(* ===== verification/Callbacks.v ===== *)
(** * Callbacks: polling transactions and query holders

    Model of [TransactionCallback] ([Transaction.h], [Transaction.cpp]) and of
    [SQLQueryHolderCallback] ([QueryHolder.h], [QueryHolder.cpp]) under
    [src/src/database/Database], which wait for one future each.  Futures are
    numbered; [result_of] says which have their result in a state of the world. *)

From S2P Require Import Prelude.
Open Scope Z_scope.

(** Calling a [std::function] that holds nothing. *)
Inductive bad_function_call := BadFunctionCall.

(** The owner polls until a callback is done; the world moves on in between. *)
Fixpoint poll {C S} (InvokeIfReady : M bad_function_call (C * S) bool) (worlds : list (S → S))
    (c : C) (s : S) : outcome bad_function_call (option C) * S :=
  match worlds with
  | [] => (Ret (Some c), s)
  | w :: worlds =>
      match InvokeIfReady (c, w s) with
      | (Ret true, (_, s)) => (Ret None, s)
      | (Ret false, (c, s)) => poll InvokeIfReady worlds c s
      | (Throw e, (_, s)) => (Throw e, s)
      | (AssertFail, (_, s)) => (AssertFail, s)
      | (UB, (_, s)) => (UB, s)
      end
  end.

(** The reference: the function is called once, on the first result seen. *)
Fixpoint run_once {R S} (seen : S → option R) (run : R → S → S) (worlds : list (S → S)) (s : S) :
    bool * S :=
  match worlds with
  | [] => (false, s)
  | w :: worlds =>
      match seen (w s) with
      | Some r => (true, run r (w s))
      | None => run_once seen run worlds (w s)
      end
  end.

Lemma poll_run_once {C R S} (InvokeIfReady : M bad_function_call (C * S) bool) (c : C)
    (seen : S → option R) (run : R → S → S) (worlds : list (S → S)) (s : S) :
  (∀ s, seen s = None → InvokeIfReady (c, s) = (Ret false, (c, s))) →
  (∀ s r, seen s = Some r → ∃ c', InvokeIfReady (c, s) = (Ret true, (c', run r s))) →
  poll InvokeIfReady worlds c s =
    let '(done, s) := run_once seen run worlds s in (Ret (if done then None else Some c), s).
Proof.
  intros H0 H1. revert s. induction worlds as [|w worlds IH]; intros s; [done|].
  cbn [poll run_once]. destruct (seen (w s)) as [r|] eqn:E.
  - by destruct (H1 _ _ E) as [c' ->].
  - by rewrite (H0 _ E).
Qed.

Module TransactionCallback.
Section callback.
Context {S : Type} (result_of : S → nat → option bool).

Record t := mk { m_future : option nat; m_callback : option (bool → S → S) }.

Definition new (future : nat) : t := mk (Some future) None.
Definition AfterComplete (callback : bool → S → S) (c : t) : t := mk (m_future c) (Some callback).

(** [get()] takes the result out of the future, before the function is called. *)
Definition InvokeIfReady : M bad_function_call (t * S) bool := λ '(c, s),
  match m_future c ≫= result_of s with
  | Some result =>
      let c := mk None (m_callback c) in
      match m_callback c with
      | Some f => (Ret true, (c, f result s))
      | None => (Throw BadFunctionCall, (c, s))
      end
  | None => (Ret false, (c, s))
  end.

Definition seen (f : nat) (s : S) : option bool := result_of s f.

(** The function that waits for a transaction is called exactly once, with its
    outcome, at the first poll that finds it there; a callback that was given no
    function throws at that poll instead. *)
Theorem transaction_callback (f : nat) (worlds : list (S → S)) (s : S) :
  (∀ callback,
    poll InvokeIfReady worlds (AfterComplete callback (new f)) s =
      let '(done, s) := run_once (seen f) callback worlds s in
      (Ret (if done then None else Some (AfterComplete callback (new f))), s)) ∧
  (poll InvokeIfReady worlds (new f) s =
     let '(done, s) := run_once (seen f) (λ _ s, s) worlds s in
     (if done then Throw BadFunctionCall else Ret (Some (new f)), s)).
Proof.
  split.
  - intros callback. apply poll_run_once.
    + intros s0 E. unfold InvokeIfReady. cbn. unfold seen in E. by rewrite E.
    + intros s0 r E. unfold InvokeIfReady. cbn. unfold seen in E. rewrite E. by eexists.
  - revert s. induction worlds as [|w worlds IH]; intros s; [done|]. cbn [poll run_once].
    unfold InvokeIfReady at 1. cbn [m_future new mbind option_bind].
    change (result_of (w s) f) with (seen f (w s)). destruct (seen f (w s)); [done|]. apply IH.
Qed.
End callback.
End TransactionCallback.

Module QueryHolderCallback.
Section callback.
Context {S H : Type} (result_of : S → nat → option ()) (holder_of : S → nat → H).

(** The holder is shared with the task that fills it; it is named by a number. *)
Record t := mk { m_holder : nat; m_future : option nat; m_callback : option (H → S → S) }.

Definition new (holder future : nat) : t := mk holder (Some future) None.
Definition AfterComplete (callback : H → S → S) (c : t) : t :=
  mk (m_holder c) (m_future c) (Some callback).

(** The future is only looked at. *)
Definition InvokeIfReady : M bad_function_call (t * S) bool := λ '(c, s),
  match m_future c ≫= result_of s with
  | Some _ =>
      match m_callback c with
      | Some f => (Ret true, (c, f (holder_of s (m_holder c)) s))
      | None => (Throw BadFunctionCall, (c, s))
      end
  | None => (Ret false, (c, s))
  end.

Definition seen (h f : nat) (s : S) : option H := _ ← result_of s f; Some (holder_of s h).

(** The function that waits for a query holder is called once, on the holder as
    it is when all of its queries are answered. *)
Theorem query_holder_callback (h f : nat) (callback : H → S → S) (worlds : list (S → S)) (s : S) :
  poll InvokeIfReady worlds (AfterComplete callback (new h f)) s =
    let '(done, s) := run_once (seen h f) callback worlds s in
    (Ret (if done then None else Some (AfterComplete callback (new h f))), s).
Proof.
  apply poll_run_once.
  - intros s0 E. unfold InvokeIfReady. cbn. unfold seen in E.
    by destruct (result_of s0 f).
  - intros s0 r E. unfold InvokeIfReady. cbn. unfold seen in E.
    destruct (result_of s0 f); [|done]. cbn in E. injection E as <-. by eexists.
Qed.
End callback.
End QueryHolderCallback.
