(* ===== verification/Fields.v ===== *)
(** * Fields: one value of a query result

    Model of [Field.h] and [Field.cpp] under [src/src/database/Database].  A field
    points into memory that the result owns; the memory is the bytes from the
    address to the end of its block, and a read past them is undefined.  [float]
    and [double] are bit patterns, whose conversions are parameters. *)

From S2P Require Import Prelude Strings.
Open Scope Z_scope.

Inductive DatabaseFieldTypes : Type :=
  | FieldNull | FieldInt8 | FieldInt16 | FieldInt32 | FieldInt64 | FieldFloat
  | FieldDouble | FieldDecimal | FieldDate | FieldBinary.

#[export] Instance DatabaseFieldTypes_eq_dec : EqDecision DatabaseFieldTypes.
Proof. solve_decision. Defined.

Record QueryResultFieldMetadata := mkMetadata {
  TableName : list Z;
  TableAlias : list Z;
  FieldName : list Z;
  Alias : list Z;
  TypeName : list Z;
  FieldIndex : Z;
  FieldType : DatabaseFieldTypes
}.

#[export] Instance QueryResultFieldMetadata_eq_dec : EqDecision QueryResultFieldMetadata.
Proof. solve_decision. Defined.

Record Field := mkField {
  value : option (list Z);  (** [data.value]: the memory it points to *)
  data_length : Z;
  raw : bool;
  meta : option QueryResultFieldMetadata
}.

#[export] Instance Field_eq_dec : EqDecision Field.
Proof. solve_decision. Defined.

(** The arithmetic types [GetData] is instantiated at. *)
Inductive arithmetic : Type :=
  | TBool | TUInt8 | TUInt16 | TUInt32 | TUInt64 | TInt8 | TInt16 | TInt32 | TInt64
  | TFloat | TDouble.

#[export] Instance arithmetic_eq_dec : EqDecision arithmetic.
Proof. solve_decision. Defined.

(** What is written to the log on the way. *)
Inductive warning : Type :=
  | WrongType (T : arithmetic) | UseDouble | UseUint64 | DbcValue | IncorrectValue (T : arithmetic).

#[export] Instance warning_eq_dec : EqDecision warning.
Proof. solve_decision. Defined.

(** The floating-point conversions of the language and its library. *)
Class Floats := {
  StringTo_float : list Z → option Z;
  StringTo_double : list Z → option Z;
  float_to_double : Z → Z;
  double_to_float : Z → Z;
  double_to_int : Strings.int_type → Z → option Z;  (** [None]: out of range *)
  int_to_float : Z → Z;
  int_to_double : Z → Z;
  one_float : Z;
  one_double : Z;
  double_nonzero : Z → bool
}.

Module Fields.

Definition new : Field := mkField None 0 false None.

Definition SetByteValue (newValue : option (list Z)) (length : Z) (f : Field) : Field :=
  mkField newValue length true (meta f).
Definition SetStructuredValue (newValue : option (list Z)) (length : Z) (f : Field) : Field :=
  mkField newValue length false (meta f).
Definition SetMetadata (fieldMeta : QueryResultFieldMetadata) (f : Field) : Field :=
  mkField (value f) (data_length f) (raw f) (Some fieldMeta).
Definition IsNull (f : Field) : bool := match value f with None => true | Some _ => false end.

Definition int_type_of (T : arithmetic) : option Strings.int_type :=
  match T with
  | TUInt8 => Some (Strings.mkInt false 8) | TInt8 => Some (Strings.mkInt true 8)
  | TUInt16 => Some (Strings.mkInt false 16) | TInt16 => Some (Strings.mkInt true 16)
  | TUInt32 => Some (Strings.mkInt false 32) | TInt32 => Some (Strings.mkInt true 32)
  | TUInt64 => Some (Strings.mkInt false 64) | TInt64 => Some (Strings.mkInt true 64)
  | TBool | TFloat | TDouble => None
  end.

(** A value modulo the width of an integer type. *)
Definition to_int (it : Strings.int_type) (v : Z) : Z :=
  if Strings.int_signed it then swrap (Strings.int_width it) v else wrap (Strings.int_width it) v.

Definition IsType (type : DatabaseFieldTypes) (m : QueryResultFieldMetadata) : bool :=
  bool_decide (FieldType m = type).

Definition IsNumeric (m : QueryResultFieldMetadata) : bool :=
  IsType FieldInt8 m || IsType FieldInt16 m || IsType FieldInt32 m || IsType FieldInt64 m
  || IsType FieldFloat m || IsType FieldDouble m.

Definition IsCorrectFieldType (T : arithmetic) (type : DatabaseFieldTypes) : bool :=
  match T, type with
  | TBool, FieldInt8 | TInt8, FieldInt8 | TUInt8, FieldInt8 => true
  | TUInt16, FieldInt16 | TInt16, FieldInt16 => true
  | TUInt32, FieldInt32 | TInt32, FieldInt32 => true
  | TUInt64, FieldInt64 | TInt64, FieldInt64 => true
  | TFloat, FieldFloat => true
  | TDouble, FieldDouble | TDouble, FieldDecimal => true
  | _, _ => false
  end.

(** The text before the first parenthesis. *)
Definition GetCleanAliasName (alias : list Z) : option (list Z) :=
  pos ← Strings.find_char 40 alias 0; Some (take pos alias).

Definition named (alias : list Z) (name : list Z) : bool := Strings.StringEqualI alias name.

Definition IsCorrectAlias (T : arithmetic) (type : DatabaseFieldTypes) (alias : list Z) : bool :=
  match T with
  | TDouble => (named alias (str "sum") || named alias (str "avg"))
                 && bool_decide (type = FieldDecimal)
  | TUInt64 => named alias (str "count") && bool_decide (type = FieldInt64)
  | _ => (named alias (str "min") || named alias (str "max")) && IsCorrectFieldType T type
  end.

(** A [char const*] as a string: the bytes up to the terminator, which must be
    there. *)
Definition c_str (mem : list Z) : option (list Z) :=
  (λ p, take p.1 mem) <$> list_find (λ c, c = 0) mem.

Section conversions.
Context `{Floats}.

Definition GetDefaultValue (T : arithmetic) : Z :=
  match T with TFloat => one_float | TDouble => one_double | _ => 0 end.

(** Values are integers: 0 and 1 for [bool], bit patterns for floats.  A value of
    type [double] or of an integer type converted on return. *)
Definition from_double (T : arithmetic) (v : Z) : option Z :=
  match T, int_type_of T with
  | _, Some it => double_to_int it v
  | TBool, _ => Some (if double_nonzero v then 1 else 0)
  | TFloat, _ => Some (double_to_float v)
  | _, _ => Some v
  end.

Definition from_int (T : arithmetic) (v : Z) : Z :=
  match T, int_type_of T with
  | _, Some it => to_int it v
  | TBool, _ => if v =? 0 then 0 else 1
  | TFloat, _ => int_to_float v
  | _, _ => int_to_double v
  end.

Definition sizeof (T : arithmetic) : Z :=
  match T with
  | TBool | TUInt8 | TInt8 => 1
  | TUInt16 | TInt16 => 2
  | TUInt32 | TInt32 | TFloat => 4
  | TUInt64 | TInt64 | TDouble => 8
  end.

(** [*reinterpret_cast<T const*>]: the memory must hold a [T], and a [bool] is 0
    or 1. *)
Definition read_raw (T : arithmetic) (mem : list Z) : option Z :=
  if zlen mem <? sizeof T then None
  else
    let v := le_value (ztake (sizeof T) mem) in
    match T, int_type_of T with
    | _, Some it => Some (to_int it v)
    | TBool, _ => if v <? 2 then Some v else None
    | _, _ => Some v
    end.

(** [Warhead::StringTo<T>] *)
Definition StringTo (T : arithmetic) (s : list Z) : option Z :=
  match T, int_type_of T with
  | _, Some it => Strings.FromString_int it s 10
  | TBool, _ => (λ b : bool, if b then 1 else 0) <$> Strings.FromString_bool s false
  | TFloat, _ => StringTo_float s
  | _, _ => StringTo_double s
  end.

Definition warn (w : warning) : M Empty_set (list warning) () := modify (λ l, l ++ [w]).

Definition or_undefined {A} (o : option A) : M Empty_set (list warning) A :=
  match o with Some a => mret a | None => undefined end.

(** The value as raw memory or as text; a [double] that is not raw, or is a
    decimal, is read as a [float]. *)
Definition read_value (T : arithmetic) (mem : list Z) (is_raw : bool)
    (m : option QueryResultFieldMetadata) : M Empty_set (list warning) (option Z) :=
  result ← (if is_raw then v ← or_undefined (read_raw T mem); mret (Some v)
            else s ← or_undefined (c_str mem); mret (StringTo T s));
  match T with
  | TDouble =>
      decimal ← (if is_raw then m ← or_undefined m; mret (IsType FieldDecimal m)
                 else mret true);
      if is_raw && negb decimal then v ← or_undefined (read_raw TDouble mem); mret (Some v)
      else s ← or_undefined (c_str mem); mret (float_to_double <$> StringTo_float s)
  | _ => mret result
  end.

(** [GetData] calls itself for aggregates that were asked for as another type;
    [stack] is how many nested calls there is room for. *)
Fixpoint GetData (stack : nat) (T : arithmetic) (f : Field) : M Empty_set (list warning) Z :=
  match stack, value f with
  | O, _ => undefined
  | S _, None => mret (GetDefaultValue T)
  | S stack, Some mem =>
      result ← read_value T mem (raw f) (meta f);
      m ← or_undefined (meta f);
      (* -1 in a column of a _dbc table *)
      dbc ← (if bool_decide (T = TUInt32) && (4 <? zlen (TableName m)) then
               s ← or_undefined (c_str mem);
               mret (match StringTo TInt32 s, result with
                     | Some _, None =>
                         bool_decide (zdrop (zlen (TableName m) - 4) (TableName m) = str "_dbc")
                     | _, _ => false
                     end)
             else mret false);
      if (dbc : bool) then
        _ ← warn DbcValue; v ← GetData stack TInt32 f; mret (from_int T v)
      else
        let done :=
          match result with
          | Some v => mret v
          | None => _ ← warn (IncorrectValue T); mret (GetDefaultValue T)
          end in
        match GetCleanAliasName (Alias m) with
        | None => done
        | Some alias =>
            let correct := IsCorrectAlias T (FieldType m) alias in
            _ ← (if (named alias (str "min") || named alias (str "max")) && negb correct
                 then warn (WrongType T) else skip);
            if (named alias (str "sum") || named alias (str "avg")) && negb correct then
              _ ← warn (WrongType T); _ ← warn UseDouble;
              v ← GetData stack TDouble f; or_undefined (from_double T v)
            else if named alias (str "count") && negb correct then
              _ ← warn (WrongType T); _ ← warn UseUint64;
              v ← GetData stack TUInt64 f; mret (from_int T v)
            else done
        end
  end.
End conversions.

(** [data.length] bytes from the pointer. *)
Definition bytes (mem : list Z) (length : Z) : outcome Empty_set (list Z) :=
  if length <=? zlen mem then Ret (ztake length mem) else UB.

Definition GetDataString (f : Field) : outcome Empty_set (list Z) :=
  match value f with None => Ret [] | Some mem => bytes mem (data_length f) end.

Definition GetDataStringView (f : Field) : outcome Empty_set (list Z) := GetDataString f.

Definition GetDataBinary (f : Field) : outcome Empty_set (list Z) :=
  match value f with
  | None => Ret []
  | Some mem => if data_length f =? 0 then Ret [] else bytes mem (data_length f)
  end.

Definition GetBinarySizeChecked (length : Z) (f : Field) : outcome Empty_set (list Z) :=
  match value f with
  | Some mem => if data_length f =? length then bytes mem length else AssertFail
  | None => AssertFail
  end.

(** [Get] of a duration: through 32 bits unless told otherwise. *)
Definition Get_duration `{Floats} (stack : nat) (convertToUin32 : bool) (f : Field) :
    M Empty_set (list warning) Z :=
  GetData stack (if convertToUin32 then TUInt32 else TUInt64) f.

(** ** Lemmas *)

Lemma c_str_text (s rest : list Z) : 0 ∉ s → c_str (s ++ 0 :: rest) = Some s.
Proof.
  intros Hs. unfold c_str.
  assert (list_find (λ c, c = 0) (s ++ 0 :: rest) = Some (length s, 0)) as ->.
  { apply list_find_Some. rewrite lookup_app_r, Nat.sub_diag by lia. split; [done|].
    split; [done|]. intros j y Hj Hl. rewrite lookup_app_l in Hj by done.
    intros ->. apply Hs. by eapply list_elem_of_lookup_2. }
  cbn. by rewrite take_app_length.
Qed.

Lemma c_str_zero (mem : list Z) : 0 ∈ mem → is_Some (c_str mem).
Proof.
  intros H0. unfold c_str. destruct (list_find _ mem) as [p|] eqn:E; [by eexists|].
  apply list_find_None in E. rewrite Forall_forall in E. by destruct (E 0 H0).
Qed.

(** The values an integer type has. *)
Definition int_range (it : Strings.int_type) (v : Z) : Prop :=
  Strings.int_min it <= v <= Strings.int_max it.

Lemma int_type_shape T it :
  int_type_of T = Some it →
  0 < Strings.int_width it <= 64 ∧ Strings.int_width it = 8 * sizeof T ∧ 0 < sizeof T.
Proof. destruct T; cbn; intros [= <-]; cbn; lia. Qed.

Lemma read_raw_int T it v rest :
  int_type_of T = Some it → int_range it v →
  read_raw T (le_bytes (Z.to_nat (sizeof T)) v ++ rest) = Some v.
Proof.
  intros E R. destruct (int_type_shape T it E) as (W & S & P). unfold read_raw.
  set (b := le_bytes _ v).
  assert (zlen b = sizeof T) as L by (unfold b; rewrite zlen_le_bytes; lia).
  rewrite (proj2 (Z.ltb_ge _ _)) by (rewrite zlen_app; zlen_lia).
  rewrite <- L, ztake_app_exact. unfold b. rewrite le_value_bytes, Z2Nat.id by lia.
  rewrite <- S. unfold to_int, int_range, Strings.int_min, Strings.int_max in *.
  destruct T; cbn in E; simplify_eq; cbn [int_type_of Strings.int_signed Strings.int_width] in *;
    f_equal; rewrite ?swrap_wrap, ?wrap_wrap; try apply swrap_small; try apply wrap_small; lia.
Qed.

(** An alias has one name. *)
Lemma named_eq alias a b :
  named alias a = true → map Strings.tolower a ≠ map Strings.tolower b → named alias b = false.
Proof.
  unfold named. rewrite !Strings.StringEqualI_lower, bool_decide_eq_true, bool_decide_eq_false.
  congruence.
Qed.

Lemma named_sum alias :
  named alias (str "sum") || named alias (str "avg") = true →
  named alias (str "min") = false ∧ named alias (str "max") = false ∧
  named alias (str "count") = false.
Proof. intros [H|H]%orb_true_iff; repeat split; by eapply named_eq. Qed.

Section facts.
Context `{Floats}.

Lemma read_value_int T it mem is_raw m l :
  int_type_of T = Some it →
  read_value T mem is_raw m l =
  (result ← (if (is_raw : bool) then v ← or_undefined (read_raw T mem); mret (Some v)
             else s ← or_undefined (c_str mem); mret (StringTo T s)); mret result) l.
Proof. by destruct T. Qed.

(** Reading a plain column: what [read_value] found is returned. *)
Lemma GetData_plain stack T it (f : Field) mem m v l :
  int_type_of T = Some it → value f = Some mem → meta f = Some m →
  GetCleanAliasName (Alias m) = None →
  (T = TUInt32 → 4 < zlen (TableName m) → is_Some (c_str mem)) →
  read_value T mem (raw f) (meta f) l = (Ret (Some v), l) →
  GetData (S stack) T f l = (Ret v, l).
Proof.
  intros ET EV EM EA Hc ER. cbn [GetData]. rewrite EV.
  rewrite (bind_run _ _ _ _ _ ER), EM. cbn [or_undefined].
  rewrite (bind_run (mret m) _ _ m l) by done.
  destruct (bool_decide (T = TUInt32) && (4 <? zlen (TableName m))) eqn:B.
  - apply andb_true_iff in B as [B1%bool_decide_eq_true B2%Z.ltb_lt].
    destruct (Hc B1 B2) as [s Es]. rewrite Es. cbn [or_undefined].
    rewrite (bind_run _ _ l false l).
    + by rewrite EA.
    + rewrite (bind_run (mret s) _ _ s l) by done. by destruct (StringTo TInt32 s).
  - rewrite (bind_run (mret false) _ _ false l) by done. by rewrite EA.
Qed.

Lemma GetData_raw T it (f : Field) m v rest stack log :
  int_type_of T = Some it → meta f = Some m → GetCleanAliasName (Alias m) = None → int_range it v →
  raw f = true → value f = Some (le_bytes (Z.to_nat (sizeof T)) v ++ rest) →
  (T = TUInt32 → 4 < zlen (TableName m) → 0 ∈ le_bytes (Z.to_nat (sizeof T)) v ++ rest) →
  GetData (S stack) T f log = (Ret v, log).
Proof.
  intros HT Hm Hplain Hv Er Ev Hz. eapply GetData_plain; eauto.
  - intros ET Hl. apply c_str_zero. auto.
  - rewrite (read_value_int T it) by done. rewrite Er, (read_raw_int T it) by done.
    cbn [or_undefined]. rewrite bind_ret_r. by rewrite (bind_run (mret v) _ _ v log).
Qed.


(** An integer without a zero byte at the end of the memory: [GetData<uint32>]
    looks for a terminator and reads on. *)
Lemma uint32_reads_on stack mem m log :
  zlen mem = 4 → 0 ∉ mem → 4 < zlen (TableName m) →
  GetData (S stack) TUInt32 (mkField (Some mem) 4 true (Some m)) log = (UB, log).
Proof.
  intros L N T. cbn [GetData value raw meta].
  rewrite (bind_run _ _ log (Some (u32 (le_value (ztake 4 mem)))) log).
  - rewrite (bind_run (or_undefined (Some m)) _ _ m log) by done.
    rewrite (proj2 (Z.ltb_lt 4 _)) by done. cbn [bool_decide andb].
    assert (c_str mem = None) as E.
    { unfold c_str. destruct (list_find _ mem) as [[i x]|] eqn:E; [|done].
      apply list_find_Some in E as (E & -> & _). destruct N. by eapply list_elem_of_lookup_2. }
    by rewrite E.
  - unfold read_value, read_raw. cbn [sizeof]. rewrite (proj2 (Z.ltb_ge _ _)) by lia. done.
Qed.

(** A computation that warns of nothing and returns or is undefined. *)
Definition read_only {A} (c : M Empty_set (list warning) A) : Prop :=
  ∀ l, c l = (UB, l) ∨ ∃ a, c l = (Ret a, l).

Lemma read_only_ret {A} (a : A) : read_only (mret a).
Proof. intros l. right. by exists a. Qed.

Lemma or_undefined_only {A} (o : option A) : read_only (or_undefined o).
Proof. intros l. destruct o; [right; by eexists|by left]. Qed.

Lemma read_only_bind {A B} (c : M Empty_set (list warning) A) (k : A → M Empty_set (list warning) B) :
  read_only c → (∀ a, read_only (k a)) → read_only (c ≫= k).
Proof.
  intros Hc Hk l. destruct (Hc l) as [E|[a E]].
  - left. unfold mbind, M_bind. by rewrite E.
  - rewrite (bind_run _ _ _ _ _ E). apply Hk.
Qed.

Lemma read_value_only T mem is_raw m : read_only (read_value T mem is_raw m).
Proof.
  apply read_only_bind.
  { destruct is_raw; (apply read_only_bind; [apply or_undefined_only|intros; apply read_only_ret]). }
  intros result. destruct T; try apply read_only_ret.
  apply read_only_bind.
  { destruct is_raw; [|apply read_only_ret].
    apply read_only_bind; [apply or_undefined_only|intros; apply read_only_ret]. }
  intros decimal. case_match;
    (apply read_only_bind; [apply or_undefined_only|intros; apply read_only_ret]).
Qed.

Lemma read_only_then {A B} (c : M Empty_set (list warning) A) (k : A → M Empty_set (list warning) B) l :
  read_only c → (∀ a, (k a l).1 = UB) → ((c ≫= k) l).1 = UB.
Proof.
  intros Hc Hk. destruct (Hc l) as [E|[a E]].
  - unfold mbind, M_bind. by rewrite E.
  - by rewrite (bind_run _ _ _ _ _ E).
Qed.

Lemma bind_UB {A B} (c : M Empty_set (list warning) A) (k : A → M Empty_set (list warning) B) l :
  (c l).1 = UB → ((c ≫= k) l).1 = UB.
Proof. unfold mbind, M_bind. destruct (c l) as [[] ?]; done. Qed.

(** An aggregate [SUM] or [AVG] that the server does not type as decimal,
    which it does not for floating-point columns, cannot be read at all:
    [GetData<double>] calls itself for as long as there is stack, and every other
    instance calls [GetData<double>]. *)
Theorem sum_must_be_decimal (stack : nat) (T : arithmetic) (f : Field) (mem : list Z)
    (m : QueryResultFieldMetadata) (alias : list Z) (log : list warning)
    (Hv : value f = Some mem) (Hm : meta f = Some m)
    (Ha : GetCleanAliasName (Alias m) = Some alias)
    (Hs : named alias (str "sum") || named alias (str "avg") = true)
    (Ht : FieldType m ≠ FieldDecimal) :
  (GetData stack T f log).1 = UB.
Proof.
  assert (∀ T, IsCorrectAlias T (FieldType m) alias = false) as HC.
  { apply named_sum in Hs as (Hmin & Hmax & Hcount).
    intros []; cbn [IsCorrectAlias];
      by rewrite ?(bool_decide_eq_false_2 _ Ht), ?Hmin, ?Hmax, ?Hcount, ?andb_false_r. }
  revert T log. induction stack as [|stack IH]; intros T log; [done|].
  cbn [GetData]. rewrite Hv, Hm.
  apply read_only_then; [apply read_value_only|]. intros result.
  rewrite (bind_run (or_undefined (Some m)) _ _ m log) by done.
  apply read_only_then.
  { case_match; [|by apply read_only_ret]. apply read_only_bind; [apply or_undefined_only|].
    intros s. apply read_only_ret. }
  intros [].
  - unfold warn. rewrite bind_modify. apply bind_UB, IH.
  - pose proof (named_sum _ Hs) as (Hmin & Hmax & _). rewrite Ha, HC, Hmin, Hmax, Hs. cbn [orb andb negb].
    rewrite (bind_run skip _ log () log) by done. unfold warn. rewrite !bind_modify.
    apply bind_UB, IH.
Qed.
End facts.
End Fields.

(** ** Witnesses

    Conversions that know one value, [1.0]. *)

Definition toy_floats : Floats :=
  Build_Floats
    (λ s, if bool_decide (s = str "1") then Some 0x3f800000 else None)
    (λ s, if bool_decide (s = str "1") then Some 0x3ff0000000000000 else None)
    (λ _, 0x3ff0000000000000) (λ _, 0x3f800000) (λ _ _, Some 1) (λ _, 0x3f800000)
    (λ _, 0x3ff0000000000000) 0x3f800000 0x3ff0000000000000 (λ v, negb (v =? 0)).

Definition demo_column (table alias : list Z) (type : DatabaseFieldTypes) :
    QueryResultFieldMetadata :=
  mkMetadata table table alias alias (str "LONG") 0 type.


Lemma sum_must_be_decimal_witness :
  let m := demo_column (str "t") (str "SUM(price)") FieldDouble in
  Fields.named (str "SUM") (str "sum") || Fields.named (str "SUM") (str "avg") = true ∧
  (Fields.GetData (H := toy_floats) 1000 TDouble
    (mkField (Some (le_bytes 8 0x3ff0000000000000)) 8 true (Some m)) []).1 = UB.
Proof.
  intros m. assert (Fields.GetCleanAliasName (Alias m) = Some (str "SUM")) as A by reflexivity.
  assert (Fields.named (str "SUM") (str "sum") || Fields.named (str "SUM") (str "avg") = true) as N
    by reflexivity.
  split; [exact N|].
  exact (@Fields.sum_must_be_decimal toy_floats 1000 TDouble
    (mkField (Some (le_bytes 8 0x3ff0000000000000)) 8 true (Some m)) _ m (str "SUM") []
    eq_refl eq_refl A N ltac:(discriminate)).
Defined.
