(* ===== verification/Binds.v ===== *)
(** * Binds: the arrays a statement keeps for its results

    Model of what [PreparedResultSet::PreparedResultSet]
    ([src/src/database/Database/QueryResult.cpp]) and the destructor of
    [MySQLPreparedStatement] do with the arrays [is_null] and [length]: the result
    allocates them, [mysql_stmt_bind_result] hands the statement the pointers, and
    the next result of the statement, or its destructor, frees them. *)

From S2P Require Import Prelude.
Open Scope Z_scope.

Module BindArrays.

(** A [MYSQL_STMT]: the pointers in its [bind] and whether they were bound; and the
    arrays that are allocated. *)
Record t := mk {
  bind_result_done : bool;
  bind_length : option nat;
  bind_is_null : option nat;
  allocated : gset nat;
  next : nat
}.

Definition new : t := mk false None None ∅ 0.

Definition set_allocated (a : gset nat) (s : t) : t :=
  mk (bind_result_done s) (bind_length s) (bind_is_null s) a (next s).

Definition alloc : M Empty_set t nat := λ s,
  (Ret (next s), mk (bind_result_done s) (bind_length s) (bind_is_null s)
                   ({[next s]} ∪ allocated s) (S (next s))).

(** [delete[]]: nothing for a null pointer; what is not allocated cannot be freed. *)
Definition delete (p : option nat) : M Empty_set t () :=
  match p with
  | None => skip
  | Some p => λ s,
      if decide (p ∈ allocated s) then (Ret (), set_allocated (allocated s ∖ {[p]}) s) else (UB, s)
  end.

(** The library copies the pointers when it binds the result. *)
Definition mysql_stmt_bind_result (length is_null : nat) : M Empty_set t () :=
  modify (λ s, mk true (Some length) (Some is_null) (allocated s) (next s)).

(** The constructor of a result once the arrays of the last one are gone, for the
    answers of [mysql_stmt_store_result] and [mysql_stmt_bind_result]: whether it
    holds rows. *)
Definition bind_rows (stored bound : bool) : M Empty_set t bool :=
  m_isNull ← alloc;
  m_length ← alloc;
  if negb stored then
    _ ← delete (Some m_isNull); _ ← delete (Some m_length); mret false
  else if negb bound then
    _ ← delete (Some m_isNull); _ ← delete (Some m_length); mret false
  else
    _ ← mysql_stmt_bind_result m_length m_isNull; mret true.

Definition construct (stored bound : bool) : M Empty_set t bool :=
  s ← gets id;
  _ ← (if bind_result_done s then _ ← delete (bind_length s); delete (bind_is_null s) else skip);
  bind_rows stored bound.

(** The destructor of the statement. *)
Definition destroy : M Empty_set t () :=
  s ← gets id;
  if bind_result_done s then _ ← delete (bind_length s); delete (bind_is_null s) else skip.

(** The life of a statement: so many results, and its end. *)
Fixpoint results (answers : list (bool * bool)) : M Empty_set t () :=
  match answers with
  | [] => mret ()
  | (stored, bound) :: answers => _ ← construct stored bound; results answers
  end.

Definition life (answers : list (bool * bool)) : M Empty_set t () :=
  _ ← results answers; destroy.

(** ** When it goes well *)

Definition good (a : bool * bool) : bool := a.1 && a.2.

(** Failures, then successes only. *)
Fixpoint settled (seen : bool) (answers : list (bool * bool)) : bool :=
  match answers with
  | [] => true
  | a :: answers => (good a || negb seen) && settled (seen || good a) answers
  end.

(** Nothing bound and nothing allocated; or the two arrays bound; or pointers to
    arrays that are gone. *)
Definition fresh (s : t) : Prop := bind_result_done s = false ∧ allocated s = ∅.
Definition bound (s : t) : Prop :=
  bind_result_done s = true ∧ ∃ a b, a ≠ b ∧ bind_length s = Some a ∧ bind_is_null s = Some b ∧
    allocated s = {[a; b]} ∧ (a < next s)%nat ∧ (b < next s)%nat.
Definition dangling (s : t) : Prop :=
  bind_result_done s = true ∧ allocated s = ∅ ∧ is_Some (bind_length s).

Lemma delete_run p s : p ∈ allocated s →
  delete (Some p) s = (Ret (), set_allocated (allocated s ∖ {[p]}) s).
Proof. intros Hp. unfold delete. by rewrite decide_True. Qed.

Lemma delete_gone p s : p ∉ allocated s → delete (Some p) s = (UB, s).
Proof. intros Hp. unfold delete. by rewrite decide_False. Qed.

(** Freeing both arrays of a statement that has them. *)
Lemma free_both s : bound s →
  (_ ← delete (bind_length s); delete (bind_is_null s)) s = (Ret (), set_allocated ∅ s).
Proof.
  intros (_ & a & b & Hab & -> & -> & E & _). rewrite (bind_run _ _ _ _ _ (delete_run a s ltac:(set_solver))).
  rewrite delete_run by (cbn; set_solver). unfold set_allocated. cbn. do 2 f_equal. set_solver.
Qed.

Lemma bind_rows_run s stored answer : allocated s = ∅ →
  ∃ s', bind_rows stored answer s = (Ret (stored && answer), s') ∧
    if stored && answer then bound s'
    else allocated s' = ∅ ∧ bind_result_done s' = bind_result_done s ∧ bind_length s' = bind_length s.
Proof.
  intros E. set (s2 := mk (bind_result_done s) (bind_length s) (bind_is_null s)
    ({[S (next s)]} ∪ ({[next s]} ∪ ∅)) (S (S (next s)))).
  assert (∀ {A} (k : nat → nat → M Empty_set t A),
    (a ← alloc; b ← alloc; k a b) s = k (next s) (S (next s)) s2) as Ea
    by (intros A k; unfold s2; rewrite <- E; reflexivity).
  assert ((_ ← delete (Some (next s)); _ ← delete (Some (S (next s))); mret false) s2 =
    (Ret false, set_allocated ∅ s2)) as Ed.
  { rewrite (bind_run _ _ _ _ _ (delete_run (next s) s2 ltac:(cbn; set_solver))).
    assert (S (next s) ≠ next s) as Hne by lia.
    rewrite (bind_run _ _ _ _ _ (delete_run (S (next s)) (set_allocated (allocated s2 ∖ {[next s]}) s2)
      ltac:(cbn; set_solver))).
    unfold set_allocated, s2. cbn. unfold mret, M_ret. do 2 f_equal. set_solver. }
  unfold bind_rows. rewrite Ea. destruct stored, answer; cbn [negb andb];
    try (rewrite Ed; eexists; split; [reflexivity|done]).
  eexists. split; [reflexivity|]. split; [done|]. exists (S (next s)), (next s). cbn.
  split; [lia|]. do 2 (split; [done|]). split; [set_solver|lia].
Qed.

Lemma construct_fresh a s : fresh s →
  ∃ s', construct a.1 a.2 s = (Ret (good a), s') ∧ if good a then bound s' else fresh s'.
Proof.
  intros [Ed E]. destruct (bind_rows_run s a.1 a.2 E) as (s' & Er & Hs). exists s'.
  unfold construct. rewrite bind_gets. cbn [id]. rewrite Ed, (bind_run skip _ s () s) by done.
  split; [exact Er|]. unfold good. destruct (a.1 && a.2); [done|]. destruct Hs as (? & ? & ?). split; congruence.
Qed.

Lemma construct_bound a s : bound s →
  ∃ s', construct a.1 a.2 s = (Ret (good a), s') ∧ if good a then bound s' else dangling s'.
Proof.
  intros Hb. pose proof Hb as (Ed & l & n & _ & El & _).
  destruct (bind_rows_run (set_allocated ∅ s) a.1 a.2 eq_refl) as (s' & Er & Hs). exists s'.
  unfold construct. rewrite bind_gets. cbn [id]. rewrite Ed, (bind_run _ _ _ _ _ (free_both s Hb)).
  split; [exact Er|]. unfold good. destruct (a.1 && a.2); [done|]. destruct Hs as (? & Hd & Hl).
  split; [by rewrite Hd|]. split; [done|]. rewrite Hl. cbn. by rewrite El.
Qed.

Lemma free_dangling s : dangling s → (_ ← delete (bind_length s); delete (bind_is_null s)) s = (UB, s).
Proof.
  intros (_ & E & [l El]). rewrite El. unfold mbind, M_bind. rewrite delete_gone; [done|]. rewrite E. set_solver.
Qed.

Lemma bind_undefined {E S A B} (m : M E S A) (k : A → M E S B) s s' :
  m s = (UB, s') → (m ≫= k) s = (UB, s').
Proof. intros H. unfold mbind, M_bind. by rewrite H. Qed.

Lemma dangling_life answers s : dangling s → (life answers s).1 = UB.
Proof.
  intros Hd. pose proof Hd as (Ed & _). unfold life. destruct answers as [|[st bd] answers]; cbn [results].
  - unfold destroy. rewrite bind_ret_l, bind_gets. cbn [id]. rewrite Ed. by rewrite free_dangling.
  - rewrite bind_assoc. rewrite (bind_undefined _ _ s s); [done|]. unfold construct. rewrite bind_gets.
    cbn [id]. rewrite Ed. by apply bind_undefined, free_dangling.
Qed.

Lemma life_spec answers : ∀ s (seen : bool), (if seen then bound s else fresh s) →
  if settled seen answers then ∃ s', life answers s = (Ret (), s') ∧ allocated s' = ∅
  else (life answers s).1 = UB.
Proof.
  induction answers as [|a answers IH]; intros s seen Hs.
  - cbn [settled]. unfold life. cbn [results]. rewrite bind_ret_l.
    unfold destroy. rewrite bind_gets. cbn [id]. destruct seen.
    + rewrite (proj1 Hs), free_both by done. by eexists.
    + destruct Hs as [-> E]. by exists s.
  - destruct a as [st bd] eqn:Ea. rewrite <- Ea.
    assert (∀ b s1, construct st bd s = (Ret b, s1) → life (a :: answers) s = life answers s1) as El.
    { intros b s1 E. unfold life. cbn [results]. rewrite Ea, bind_assoc. by rewrite (bind_run _ _ _ _ _ E). }
    destruct seen.
    + destruct (construct_bound a s Hs) as (s' & E & H'). rewrite Ea in E at 1 2.
      rewrite (El _ _ E). cbn [settled negb]. rewrite orb_false_r. destruct (good a); cbn [andb orb].
      * by apply (IH s' true).
      * by apply dangling_life.
    + destruct (construct_fresh a s Hs) as (s' & E & H'). rewrite Ea in E at 1 2.
      rewrite (El _ _ E). cbn [settled negb orb]. rewrite orb_true_r. cbn [andb].
      by apply (IH s' (good a)).
Qed.

(** C12: a statement is left with no array allocated and frees each once, through
    any number of executions, as long as no result fails after one was bound; when
    one does, the statement still points at the arrays it freed before the
    failure, and the next result, or its own end, frees them again. *)
Theorem statement_arrays (answers : list (bool * bool)) :
  if settled false answers then ∃ s, life answers new = (Ret (), s) ∧ allocated s = ∅
  else (life answers new).1 = UB.
Proof. by apply (life_spec answers new false). Qed.

(** A result, an execution whose result cannot be stored, and the end. *)
Example freed_twice : (life [(true, true); (false, true)] new).1 = UB.
Proof. vm_compute. reflexivity. Qed.
End BindArrays.
