(* ===== verification/Results.v ===== *)
(** * Results: the rows a query brought back

    Model of [QueryResult.h] and [QueryResult.cpp] under [src/src/database/Database].
    A [ResultSet] fetches the rows of an ad hoc query one at a time; a
    [PreparedResultSet] copies all rows of a prepared statement into one block of
    memory first.  What the MySQL client library answers is an argument. *)

From S2P Require Import Prelude Statements Fields.
Open Scope Z_scope.

(** The members of a [MYSQL_FIELD] that are used. *)
Record MySQLField := mkMySQLField {
  f_name : list Z;
  f_org_name : list Z;
  f_table : list Z;
  f_org_table : list Z;
  f_type : enum_field_types;
  f_max_length : Z
}.

Module Results.

(** [sizeof(MYSQL_TIME)] *)
Definition sizeof_MYSQL_TIME : Z := 40.

Definition SizeForType (field : MySQLField) : Z :=
  match f_type field with
  | MYSQL_TYPE_NULL => 0
  | MYSQL_TYPE_TINY => 1
  | MYSQL_TYPE_YEAR | MYSQL_TYPE_SHORT => 2
  | MYSQL_TYPE_INT24 | MYSQL_TYPE_LONG | MYSQL_TYPE_FLOAT => 4
  | MYSQL_TYPE_DOUBLE | MYSQL_TYPE_LONGLONG | MYSQL_TYPE_BIT => 8
  | MYSQL_TYPE_TIMESTAMP | MYSQL_TYPE_DATE | MYSQL_TYPE_TIME | MYSQL_TYPE_DATETIME =>
      sizeof_MYSQL_TIME
  | MYSQL_TYPE_TINY_BLOB | MYSQL_TYPE_MEDIUM_BLOB | MYSQL_TYPE_LONG_BLOB | MYSQL_TYPE_BLOB
  | MYSQL_TYPE_STRING | MYSQL_TYPE_VAR_STRING => u32 (f_max_length field + 1)
  | MYSQL_TYPE_DECIMAL | MYSQL_TYPE_NEWDECIMAL => 64
  | _ => 0
  end.

Definition MysqlTypeToFieldType (type : enum_field_types) : DatabaseFieldTypes :=
  match type with
  | MYSQL_TYPE_NULL => FieldNull
  | MYSQL_TYPE_TINY => FieldInt8
  | MYSQL_TYPE_YEAR | MYSQL_TYPE_SHORT => FieldInt16
  | MYSQL_TYPE_INT24 | MYSQL_TYPE_LONG => FieldInt32
  | MYSQL_TYPE_LONGLONG | MYSQL_TYPE_BIT => FieldInt64
  | MYSQL_TYPE_FLOAT => FieldFloat
  | MYSQL_TYPE_DOUBLE => FieldDouble
  | MYSQL_TYPE_DECIMAL | MYSQL_TYPE_NEWDECIMAL => FieldDecimal
  | MYSQL_TYPE_TIMESTAMP | MYSQL_TYPE_DATE | MYSQL_TYPE_TIME | MYSQL_TYPE_DATETIME => FieldDate
  | MYSQL_TYPE_TINY_BLOB | MYSQL_TYPE_MEDIUM_BLOB | MYSQL_TYPE_LONG_BLOB | MYSQL_TYPE_BLOB
  | MYSQL_TYPE_STRING | MYSQL_TYPE_VAR_STRING => FieldBinary
  | _ => FieldNull
  end.

Definition FieldTypeToString (type : enum_field_types) : list Z :=
  str (match type with
  | MYSQL_TYPE_BIT => "BIT"
  | MYSQL_TYPE_BLOB => "BLOB"
  | MYSQL_TYPE_DATE => "DATE"
  | MYSQL_TYPE_DATETIME => "DATETIME"
  | MYSQL_TYPE_NEWDECIMAL => "NEWDECIMAL"
  | MYSQL_TYPE_DECIMAL => "DECIMAL"
  | MYSQL_TYPE_DOUBLE => "DOUBLE"
  | MYSQL_TYPE_ENUM => "ENUM"
  | MYSQL_TYPE_FLOAT => "FLOAT"
  | MYSQL_TYPE_GEOMETRY => "GEOMETRY"
  | MYSQL_TYPE_INT24 => "INT24"
  | MYSQL_TYPE_LONG => "LONG"
  | MYSQL_TYPE_LONGLONG => "LONGLONG"
  | MYSQL_TYPE_LONG_BLOB => "LONG_BLOB"
  | MYSQL_TYPE_MEDIUM_BLOB => "MEDIUM_BLOB"
  | MYSQL_TYPE_NEWDATE => "NEWDATE"
  | MYSQL_TYPE_NULL => "NULL"
  | MYSQL_TYPE_SET => "SET"
  | MYSQL_TYPE_SHORT => "SHORT"
  | MYSQL_TYPE_STRING => "STRING"
  | MYSQL_TYPE_TIME => "TIME"
  | MYSQL_TYPE_TIMESTAMP => "TIMESTAMP"
  | MYSQL_TYPE_TINY => "TINY"
  | MYSQL_TYPE_TINY_BLOB => "TINY_BLOB"
  | MYSQL_TYPE_VAR_STRING => "VAR_STRING"
  | MYSQL_TYPE_YEAR => "YEAR"
  | _ => "-Unknown-"
  end).

Definition InitializeDatabaseFieldMetadata (field : MySQLField) (fieldIndex : Z) :
    QueryResultFieldMetadata :=
  mkMetadata (f_org_table field) (f_table field) (f_org_name field) (f_name field)
    (FieldTypeToString (f_type field)) fieldIndex (MysqlTypeToFieldType (f_type field)).

Definition metadata (fields : list MySQLField) : list QueryResultFieldMetadata :=
  imap (λ i f, InitializeDatabaseFieldMetadata f (Z.of_nat i)) fields.
End Results.

(** ** ResultSet *)

(** What [mysql_fetch_row] and [mysql_fetch_lengths] answer for a row: the
    memory of each value, and the lengths, which may be missing. *)
Record fetched_row := mkFetched {
  row_values : list (option (list Z));
  row_lengths : option (list Z)
}.

Record ResultSet := mkResultSet {
  rs_rowCount : Z;
  rs_fieldCount : Z;
  rs_fields : list MySQLField;
  rs_currentRow : option (list Field);
  rs_result : option (list fetched_row)  (** the rows not fetched yet *)
}.

Module ResultSets.
Import Results.

Definition new (result : list fetched_row) (fields : list MySQLField) (rowCount fieldCount : Z) :
    ResultSet :=
  mkResultSet rowCount fieldCount fields
    (Some (map (λ m, Fields.SetMetadata m Fields.new) (metadata fields))) (Some result).

Definition CleanUp (rs : ResultSet) : ResultSet :=
  mkResultSet (rs_rowCount rs) (rs_fieldCount rs) (rs_fields rs) None None.

Definition set_row (values : list (option (list Z))) (lengths : list Z) (row : list Field) :
    list Field :=
  zip_with (λ vl f, Fields.SetStructuredValue vl.1 (u32 vl.2) f) (zip values lengths) row.

Definition NextRow (rs : ResultSet) : bool * ResultSet :=
  match rs_result rs with
  | None => (false, rs)
  | Some [] => (false, CleanUp rs)
  | Some (row :: rows) =>
      let rs := mkResultSet (rs_rowCount rs) (rs_fieldCount rs) (rs_fields rs)
                  (rs_currentRow rs) (Some rows) in
      match row_lengths row with
      | None => (false, CleanUp rs)
      | Some lengths =>
          (true, mkResultSet (rs_rowCount rs) (rs_fieldCount rs) (rs_fields rs)
                   (set_row (row_values row) lengths <$> rs_currentRow rs) (Some rows))
      end
  end.

Definition GetFieldName (index : Z) (rs : ResultSet) : outcome Empty_set (list Z) :=
  if index <? rs_fieldCount rs
  then match rs_fields rs !! Z.to_nat index with Some f => Ret (f_name f) | None => UB end
  else AssertFail.

(** [operator[]]: after [CleanUp] there is no row. *)
Definition get (index : Z) (rs : ResultSet) : outcome Empty_set Field :=
  if index <? rs_fieldCount rs
  then match rs_currentRow rs ≫= lookup (Z.to_nat index) with
       | Some f => Ret f
       | None => UB
       end
  else AssertFail.

Fixpoint fetch_all {A} (getters : list (Field → outcome Empty_set A)) (row : list Field) :
    outcome Empty_set (list A) :=
  match getters, row with
  | [], _ => Ret []
  | g :: getters, f :: row =>
      match g f with
      | Ret a =>
          match fetch_all getters row with Ret l => Ret (a :: l) | o => o end
      | AssertFail => AssertFail
      | _ => UB
      end
  | _ :: _, [] => UB
  end.

(** A tuple is fetched by one getter per component. *)
Definition FetchTuple {A} (getters : list (Field → outcome Empty_set A)) (rs : ResultSet) :
    outcome Empty_set (list A) :=
  if zlen getters =? rs_fieldCount rs
  then match rs_currentRow rs with Some row => fetch_all getters row | None => UB end
  else AssertFail.
End ResultSets.

(** ** PreparedResultSet *)

(** A column of a fetched row: the bytes the library writes into the buffer of
    the column and the length it reports; [None] is [NULL]. *)
Abbreviation column := (option (list Z * Z)).

(** The answers of the library to the calls the constructor makes. *)
Record statement_answers := mkAnswers {
  store_fails : bool;
  num_rows : Z;
  result_fields : list MySQLField;
  bind_fails : bool;
  fetched : list (list column)
}.

(** What a pointer to a block owned by the object refers to. *)
Inductive block : Type := Null | Live | Freed.

#[export] Instance block_eq_dec : EqDecision block.
Proof. solve_decision. Defined.

(** An element of [m_rows]: its pointer is a position in the block of the
    object. *)
Record cell := mkCell {
  c_value : option Z;
  c_length : Z;
  c_meta : option QueryResultFieldMetadata
}.

Record PreparedResultSet := mkPrepared {
  pr_rows : list cell;
  pr_rowCount : Z;
  pr_rowPosition : Z;
  pr_fieldCount : Z;
  pr_rBind : block;
  pr_metadataResult : block;
  pr_buffer : list Z
}.

Module PreparedResults.
Import Results.

Definition is_text (type : enum_field_types) : bool :=
  match type with
  | MYSQL_TYPE_TINY_BLOB | MYSQL_TYPE_MEDIUM_BLOB | MYSQL_TYPE_LONG_BLOB | MYSQL_TYPE_BLOB
  | MYSQL_TYPE_STRING | MYSQL_TYPE_VAR_STRING => true
  | _ => false
  end.

(** Where the buffer of each column starts. *)
Fixpoint offsets (offset : Z) (sizes : list Z) : list Z :=
  match sizes with
  | [] => []
  | size :: sizes => offset :: offsets (u32 (offset + size)) sizes
  end.

(** A write into the block that holds the rows; one that leaves it is
    undefined. *)
Definition write (p : Z) (bytes buf : list Z) : option (list Z) :=
  if (0 <=? p) && (p + zlen bytes <=? zlen buf) then Some (overwrite p bytes buf) else None.

(** [mysql_stmt_fetch]: each value that is not [NULL] goes to its buffer. *)
Fixpoint fetch (row : list column) (pos : list Z) (buf : list Z) : option (list Z) :=
  match row, pos with
  | Some (bytes, _) :: row, p :: pos => buf ← write p bytes buf; fetch row pos buf
  | None :: row, _ :: pos => fetch row pos buf
  | _, _ => Some buf
  end.

(** The body of the inner loop: text is terminated when there is room, and the
    buffer of a column that had a value moves on by the size of a row. *)
Definition take_column (rowSize : Z) (field : MySQLField) (c : column) (p : Z) (buf : list Z) :
    option (option Z * Z * list Z) :=
  match c with
  | None => Some (None, p, buf)
  | Some (_, len) =>
      buf ← (if is_text (f_type field) && (len <? SizeForType field)
             then write (p + len) [0] buf else Some buf);
      Some (Some p, p + rowSize, buf)
  end.

Definition reported (c : column) : Z := match c with Some (_, len) => len | None => 0 end.

(** One row into [m_rows] from [index]; an index outside is undefined, as is a
    write outside the block. *)
Fixpoint take_row (rowSize index : Z) (fields : list MySQLField)
    (metas : list QueryResultFieldMetadata) (row : list column) (pos : list Z)
    (rows : list cell) (buf : list Z) : option (list cell * list Z * list Z) :=
  match fields, metas, row, pos with
  | field :: fields, m :: metas, c :: row, p :: pos =>
      '(v, p', buf) ← take_column rowSize field c p buf;
      if index <? zlen rows then
        '(rows, pos, buf) ← take_row rowSize (u32 (index + 1)) fields metas row pos
          (<[Z.to_nat index := mkCell v (reported c) (Some m)]> rows) buf;
        Some (rows, p' :: pos, buf)
      else None
  | [], [], [], [] => Some (rows, [], buf)
  | _, _, _, _ => None
  end.

(** [while (_NextRow())] *)
Fixpoint take_rows (rowSize rowCount rowPosition fieldCount : Z) (fields : list MySQLField)
    (answers : list (list column)) (pos : list Z) (rows : list cell) (buf : list Z) :
    option (list cell * list Z) :=
  match answers with
  | [] => Some (rows, buf)
  | row :: answers =>
      if rowCount <=? rowPosition then Some (rows, buf)
      else
        buf ← fetch row pos buf;
        '(rows, pos, buf) ← take_row rowSize (u32 (u32 rowPosition * fieldCount)) fields
          (metadata fields) row pos rows buf;
        take_rows rowSize rowCount (rowPosition + 1) fieldCount fields answers pos rows buf
  end.

Definition row_size (fields : list MySQLField) : Z := u64 (foldr Z.add 0 (map SizeForType fields)).

(** [CleanUp] frees the metadata of the result and does not forget it. *)
Definition CleanUp (pr : PreparedResultSet) : outcome Empty_set PreparedResultSet :=
  match pr_metadataResult pr, pr_rBind pr with
  | Freed, _ | _, Freed => UB
  | m, b =>
      Ret (mkPrepared (pr_rows pr) (pr_rowCount pr) (pr_rowPosition pr) (pr_fieldCount pr)
             Null (match m with Live => Freed | _ => Null end)
             (match b with Live => [] | _ => pr_buffer pr end))
  end.

(** The constructor; [fresh] is what new memory holds. *)
Definition new (answers : statement_answers) (hasMetadata : bool) (rowCount fieldCount : Z)
    (fresh : nat → list Z) : outcome Empty_set PreparedResultSet :=
  if negb hasMetadata then Ret (mkPrepared [] rowCount 0 fieldCount Null Null [])
  else if store_fails answers then
    (* m_rBind was deleted and still points there *)
    Ret (mkPrepared [] rowCount 0 fieldCount Freed Live [])
  else
    let fields := result_fields answers in
    let rowCount := num_rows answers in
    let buffer := fresh (Z.to_nat (u64 (row_size fields * rowCount))) in
    if bind_fails answers then
      CleanUp (mkPrepared [] rowCount 0 fieldCount Live Live buffer)
    else
      match take_rows (row_size fields) rowCount 0 fieldCount fields (fetched answers)
              (offsets 0 (map SizeForType fields))
              (replicate (Z.to_nat (u32 (u32 rowCount * fieldCount))) (mkCell None 0 None))
              buffer with
      | Some (rows, buffer) => Ret (mkPrepared rows rowCount 0 fieldCount Live Live buffer)
      | None => UB
      end.

Definition destroy (pr : PreparedResultSet) : outcome Empty_set PreparedResultSet := CleanUp pr.

Definition NextRow (pr : PreparedResultSet) : bool * PreparedResultSet :=
  let position := u64 (pr_rowPosition pr + 1) in
  (negb (pr_rowCount pr <=? position),
   mkPrepared (pr_rows pr) (pr_rowCount pr) position (pr_fieldCount pr)
     (pr_rBind pr) (pr_metadataResult pr) (pr_buffer pr)).

(** A cell as a [Field]: everything is raw. *)
Definition to_field (buf : list Z) (c : cell) : Field :=
  mkField ((λ p, zdrop p buf) <$> c_value c) (u32 (c_length c)) true (c_meta c).

Definition get (index : Z) (pr : PreparedResultSet) : outcome Empty_set Field :=
  if negb (pr_rowPosition pr <? pr_rowCount pr) then AssertFail
  else if negb (index <? pr_fieldCount pr) then AssertFail
  else
    match pr_rows pr !! Z.to_nat (u32 (u32 (pr_rowPosition pr) * pr_fieldCount pr) + index) with
    | Some c => Ret (to_field (pr_buffer pr) c)
    | None => UB
    end.

(** [Fetch]: the fields from the first of the row on. *)
Definition Fetch (pr : PreparedResultSet) : outcome Empty_set (list Field) :=
  if pr_rowPosition pr <? pr_rowCount pr
  then Ret (map (to_field (pr_buffer pr))
              (zdrop (u32 (u32 (pr_rowPosition pr) * pr_fieldCount pr)) (pr_rows pr)))
  else AssertFail.

Definition FetchTuple {A} (getters : list (Field → outcome Empty_set A)) (pr : PreparedResultSet) :
    outcome Empty_set (list A) :=
  if negb (pr_rowPosition pr <? pr_rowCount pr) then AssertFail
  else if negb (zlen getters =? pr_fieldCount pr) then AssertFail
  else match Fetch pr with
       | Ret row => ResultSets.fetch_all getters row
       | _ => UB
       end.
End PreparedResults.

(** ** The block of a prepared result

    Every value has a place of its own: column [c] of the [j]-th value that was
    not [NULL] lies in a slot that no other value touches. *)

Lemma slice_overwrite_apart {A} (p q n : Z) (data l : list A) :
  0 <= p → p + zlen data <= zlen l → 0 <= q → 0 <= n → q + n <= p ∨ p + zlen data <= q →
  slice q n (overwrite p data l) = slice q n l.
Proof.
  intros Hp Hl Hq Hn H. unfold slice, overwrite.
  assert (zlen (ztake p l) = p) as Ep by (rewrite zlen_ztake; zlen_lia).
  destruct H as [H|H].
  - rewrite zdrop_app_le by lia. rewrite ztake_app_le by (rewrite zlen_zdrop; lia).
    rewrite <- (ztake_zdrop p l) at 2. rewrite zdrop_app_le by lia.
    by rewrite ztake_app_le by (rewrite zlen_zdrop; lia).
  - rewrite app_assoc, zdrop_app_ge by (rewrite zlen_app; lia).
    rewrite zlen_app, Ep, zdrop_zdrop by zlen_lia. do 2 f_equal. lia.
Qed.

Lemma slice_overwrite_front {A} (p n : Z) (data l : list A) :
  0 <= p → p <= zlen l → 0 <= n <= zlen data → slice p n (overwrite p data l) = ztake n data.
Proof.
  intros Hp Hl Hn. rewrite <- (slice_overwrite p data l Hp Hl) at 2. unfold slice.
  rewrite ztake_ztake by lia. f_equal. lia.
Qed.

Module Prepared_block.
Import Results PreparedResults.

(** The buffers of a row do not overlap and lie in the block. *)
Record placed (pos sizes : list Z) (n : Z) : Prop := {
  placed_length : length pos = length sizes;
  placed_in : ∀ i p s, pos !! i = Some p → sizes !! i = Some s → 0 <= p ∧ 0 <= s ∧ p + s <= n;
  placed_apart : ∀ i j p q s t, i ≠ j → pos !! i = Some p → pos !! j = Some q →
    sizes !! i = Some s → sizes !! j = Some t → p + s <= q ∨ q + t <= p
}.

(** A piece of the block away from the buffers. *)
Definition away (q n : Z) (pos sizes : list Z) : Prop :=
  0 <= q ∧ 0 <= n ∧
  ∀ i p s, pos !! i = Some p → sizes !! i = Some s → q + n <= p ∨ p + s <= q.

(** A column fits its buffer. *)
Definition fits (size : Z) (c : column) : Prop :=
  match c with
  | None => True
  | Some (bytes, len) => 0 <= len <= zlen bytes ∧ zlen bytes <= size
  end.

Lemma placed_tail p pos s sizes n :
  placed (p :: pos) (s :: sizes) n → placed pos sizes n ∧ away p s pos sizes.
Proof.
  intros [L I A]. destruct (I 0%nat p s eq_refl eq_refl) as (Hp & Hs & _). split.
  - split; [by injection L|intros i; apply (I (S i))|].
    intros i j p' q s' t N. apply (A (S i) (S j)). lia.
  - split; [done|split; [done|]]. intros i q t Eq Et.
    by apply (A 0%nat (S i) p q s t).
Qed.

Lemma away_tail q n p pos s sizes :
  away q n (p :: pos) (s :: sizes) → away q n pos sizes ∧ (q + n <= p ∨ p + s <= q).
Proof.
  intros (Hq & Hn & A). split; [|by apply (A 0%nat)].
  split; [done|split; [done|]]. intros i. apply (A (S i)).
Qed.

Lemma write_ok p bytes buf :
  0 <= p → p + zlen bytes <= zlen buf → write p bytes buf = Some (overwrite p bytes buf).
Proof. intros. unfold write. by rewrite !(proj2 (Z.leb_le _ _)). Qed.

Lemma fetch_spec row pos sizes buf :
  placed pos sizes (zlen buf) → Forall2 fits sizes row →
  ∃ buf', fetch row pos buf = Some buf' ∧ zlen buf' = zlen buf ∧
    (∀ q n, away q n pos sizes → slice q n buf' = slice q n buf) ∧
    (∀ i p bytes len, pos !! i = Some p → row !! i = Some (Some (bytes, len)) →
      slice p len buf' = ztake len bytes).
Proof.
  intros P F. revert pos buf P. induction F as [|s c sizes row Hc F IH]; intros pos buf P.
  { destruct pos; [|by destruct P]. exists buf. split; [done|split; [done|split; [done|]]]. intros []; done. }
  destruct pos as [|p pos]; [by destruct P|].
  destruct (placed_in _ _ _ P 0%nat p s eq_refl eq_refl) as (Hp & Hs & Hb).
  destruct (placed_tail _ _ _ _ _ P) as [P' Ap].
  destruct c as [[bytes len]|]; cbn [fetch].
  - destruct Hc as [Hlen Hby].
    assert (zlen (overwrite p bytes buf) = zlen buf) as Z by (apply zlen_overwrite; lia).
    rewrite <- Z in P'. destruct (IH pos _ P') as (buf' & E & L & AW & RD). rewrite Z in L.
    rewrite write_ok by lia. cbn [mbind option_bind]. exists buf'. split; [done|]. split; [done|]. split.
    + intros q n A. destruct (away_tail _ _ _ _ _ _ A) as [A' D]. rewrite AW by done.
      destruct A as (Hq & Hn & _). apply slice_overwrite_apart; lia.
    + intros [|i] p' bytes' len' Ep Er; cbn in Ep, Er; simplify_eq; [|by eapply RD].
      rewrite AW; [apply slice_overwrite_front; lia|].
      destruct Ap as (_ & _ & Ap). split; [lia|split; [lia|]].
      intros i q t Eq Et. specialize (Ap i q t Eq Et). lia.
  - destruct (IH pos buf P') as (buf' & E & L & AW & RD). exists buf'. split; [done|]. split; [done|]. split.
    + intros q n A. apply AW. by apply (away_tail _ _ _ _ _ _ A).
    + intros [|i] p' bytes' len' Ep Er; cbn in Ep, Er; simplify_eq. by eapply RD.
Qed.

Definition moved (rowSize : Z) (c : column) (p : Z) : Z :=
  match c with Some _ => p + rowSize | None => p end.

Definition cell_at (c : column) (p : Z) (m : QueryResultFieldMetadata) : cell :=
  mkCell (match c with Some _ => Some p | None => None end) (reported c) (Some m).

(** One column: the terminator goes behind the value, inside the buffer. *)
Lemma take_column_spec rowSize field c p buf :
  0 <= p → p + SizeForType field <= zlen buf → fits (SizeForType field) c →
  ∃ buf', take_column rowSize field c p buf =
    Some (match c with Some _ => Some p | None => None end, moved rowSize c p, buf') ∧
    zlen buf' = zlen buf ∧
    (∀ q n, 0 <= q → 0 <= n → q + n <= p ∨ p + SizeForType field <= q →
      slice q n buf' = slice q n buf) ∧
    (∀ bytes len, c = Some (bytes, len) → slice p len buf' = slice p len buf).
Proof.
  intros Hp Hb Hf. destruct c as [[bytes len]|]; cbn [take_column moved]; [|by eexists].
  destruct Hf as [Hl Hs].
  destruct (is_text (f_type field) && (len <? SizeForType field)) eqn:T; [|by eexists].
  apply andb_true_iff in T as [_ T%Z.ltb_lt]. rewrite write_ok by zlen_lia. cbn [mbind option_bind].
  eexists. split; [done|].
  split; [apply zlen_overwrite; zlen_lia|]. split.
  - intros q n Hq Hn D. apply slice_overwrite_apart; zlen_lia.
  - intros bytes' len' [= <- <-]. apply slice_overwrite_apart; zlen_lia.
Qed.

Lemma take_row_spec rowSize fields metas row pos rows buf index :
  length metas = length fields → placed pos (map SizeForType fields) (zlen buf) →
  Forall2 fits (map SizeForType fields) row →
  0 <= index → index + zlen fields <= zlen rows → zlen rows < 2 ^ 32 →
  ∃ rows' buf',
    take_row rowSize index fields metas row pos rows buf =
      Some (rows', zip_with (moved rowSize) row pos, buf') ∧
    zlen buf' = zlen buf ∧ zlen rows' = zlen rows ∧
    (∀ q n, away q n pos (map SizeForType fields) → slice q n buf' = slice q n buf) ∧
    (∀ i p bytes len, pos !! i = Some p → row !! i = Some (Some (bytes, len)) →
      slice p len buf' = slice p len buf) ∧
    (∀ k : nat, Z.of_nat k < index ∨ index + zlen fields <= Z.of_nat k → rows' !! k = rows !! k) ∧
    (∀ i c p m, row !! i = Some c → pos !! i = Some p → metas !! i = Some m →
      rows' !! (Z.to_nat index + i)%nat = Some (cell_at c p m)).
Proof.
  revert metas row pos rows buf index.
  induction fields as [|field fields IH]; intros metas row pos rows buf index EM P F Hi Hr Hw.
  { destruct metas; [|done]. inversion F; subst. destruct pos; [|by destruct P].
    exists rows, buf. do 6 (split; [done|]). intros []; done. }
  destruct metas as [|m metas]; [done|]. injection EM as EM.
  cbn [map] in *. inversion F as [|s c sizes row' Hc F']; subst. clear F.
  destruct pos as [|p pos]; [by destruct P|].
  destruct (placed_in _ _ _ P 0%nat p _ eq_refl eq_refl) as (Hp & Hs & Hb).
  destruct (placed_tail _ _ _ _ _ P) as [P' Ap].
  destruct (take_column_spec rowSize field c p buf Hp Hb Hc) as (buf1 & E1 & L1 & A1 & R1).
  cbn [take_row]. rewrite E1. cbn [mbind option_bind]. rewrite (proj2 (Z.ltb_lt _ _)) by zlen_lia.
  rewrite wrap_small by zlen_lia. set (rows1 := <[Z.to_nat index := _]> rows).
  assert (zlen rows1 = zlen rows) as LR by (unfold zlen, rows1; by rewrite length_insert).
  rewrite <- L1 in P'. rewrite <- LR in Hr, Hw.
  edestruct (IH metas row' pos rows1 buf1 (index + 1)) as (rows' & buf' & E & LB & LR' & A & R & O & N);
    [done|done|done|lia|zlen_lia|done|].
  rewrite E. cbn [mbind option_bind]. eexists rows', buf'. split; [done|].
  split; [lia|]. split; [lia|]. split; [|split; [|split]].
  - intros q n Aw. destruct (away_tail _ _ _ _ _ _ Aw) as [Aw' D]. rewrite A by done.
    destruct Aw as (Hq & Hn & _). by apply A1.
  - intros [|i] p' bytes len Ep Er; cbn in Ep, Er; simplify_eq.
    + rewrite A; [by eapply R1|]. destruct Hc as [Hl Hby], Ap as (_ & _ & Ap).
      split; [done|split; [lia|]]. intros i q t Eq Et. specialize (Ap i q t Eq Et). lia.
    + rewrite (R i p' bytes len) by done.
      assert (∃ s', map SizeForType fields !! i = Some s' ∧ fits s' (Some (bytes, len)))
        as (s' & Es & Hl & Hby).
      { destruct (Forall2_lookup_r _ _ _ _ _ F' Er) as (s' & ? & ?). by exists s'. }
      destruct (placed_in _ _ _ P' i p' s' Ep Es) as (? & ? & ?), Ap as (_ & _ & Ap).
      specialize (Ap i p' s' Ep Es). apply A1; lia.
  - intros k Hk. rewrite O by zlen_lia. unfold rows1. apply list_lookup_insert_ne. zlen_lia.
  - intros [|i] c' p' m' Er Ep Em; cbn in Er, Ep, Em; simplify_eq.
    + rewrite Nat.add_0_r, O by lia. unfold rows1. rewrite list_lookup_insert_eq; [done|].
      unfold zlen in *. cbn [length] in *. lia.
    + replace (Z.to_nat index + S i)%nat with (Z.to_nat (index + 1) + i)%nat by lia. by apply N.
Qed.

(** *** Slots *)

Definition sum (l : list Z) : Z := foldr Z.add 0 l.

(** Where column [c] starts in a row. *)
Definition off (sizes : list Z) (c : nat) : Z := sum (take c sizes).

Lemma sum_app l1 l2 : sum (l1 ++ l2) = sum l1 + sum l2.
Proof. unfold sum. induction l1 as [|x l1 IH]; cbn [foldr app]; lia. Qed.

Lemma sum_nonneg l : Forall (Z.le 0) l → 0 <= sum l.
Proof. unfold sum. induction 1; cbn [foldr]; lia. Qed.

Lemma off_next sizes c s : sizes !! c = Some s → off sizes (S c) = off sizes c + s.
Proof.
  intros E. unfold off. rewrite (take_S_r _ _ _ E), sum_app. cbn. lia.
Qed.

Lemma off_mono sizes c d : Forall (Z.le 0) sizes → (c <= d)%nat → off sizes c <= off sizes d.
Proof.
  intros F L. unfold off. rewrite <- (take_drop c (take d sizes)), sum_app, take_take, Nat.min_l by lia.
  pose proof (sum_nonneg (drop c (take d sizes)) (Forall_drop _ _ _ (Forall_take _ _ _ F))). lia.
Qed.

Lemma off_sum sizes c s :
  Forall (Z.le 0) sizes → sizes !! c = Some s → 0 <= off sizes c ∧ off sizes c + s <= sum sizes.
Proof.
  intros F E. rewrite <- (off_next _ _ _ E). split.
  - apply sum_nonneg. by apply Forall_take.
  - unfold off. rewrite <- (take_drop (S c) sizes) at 2. rewrite sum_app.
    pose proof (sum_nonneg (drop (S c) sizes) (Forall_drop _ _ _ F)). lia.
Qed.

Lemma offsets_off o sizes i :
  Forall (Z.le 0) sizes → 0 <= o → o + sum sizes < 2 ^ 32 → (i < length sizes)%nat →
  offsets o sizes !! i = Some (o + off sizes i).
Proof.
  intros F. revert o i. induction F as [|s sizes Hs F IH]; intros o [|i] Ho Hw Hi; cbn in Hi; try lia.
  - cbn. f_equal. unfold off. cbn. lia.
  - pose proof (sum_nonneg _ F). cbn [offsets lookup list_lookup]. cbn [sum foldr] in Hw.
    change (foldr Z.add 0 sizes) with (sum sizes) in Hw.
    rewrite wrap_small by lia. rewrite IH by lia. unfold off. cbn. f_equal.
    change (foldr Z.add 0 (take i sizes)) with (sum (take i sizes)). lia.
Qed.

Lemma length_offsets o sizes : length (offsets o sizes) = length sizes.
Proof. revert o. induction sizes; intros; cbn; auto. Qed.

(** Two slots do not overlap. *)
Lemma slot_apart sizes c d j k s t :
  Forall (Z.le 0) sizes → sizes !! c = Some s → sizes !! d = Some t →
  0 <= j → 0 <= k → c ≠ d ∨ j ≠ k →
  off sizes c + j * sum sizes + s <= off sizes d + k * sum sizes ∨
  off sizes d + k * sum sizes + t <= off sizes c + j * sum sizes.
Proof.
  intros F Ec Ed Hj Hk D.
  destruct (off_sum _ _ _ F Ec), (off_sum _ _ _ F Ed). pose proof (sum_nonneg _ F).
  destruct (Z.lt_trichotomy j k) as [L|[->|L]]; [left; nia| |right; nia].
  destruct D as [D|]; [|done].
  destruct (Nat.lt_gt_cases c d) as [[L|L] _]; [done| |].
  - left. pose proof (off_mono sizes (S c) d F L) as M. rewrite (off_next _ _ _ Ec) in M. lia.
  - right. pose proof (off_mono sizes (S d) c F L) as M. rewrite (off_next _ _ _ Ed) in M. lia.
Qed.

Lemma slot_in sizes c s j n :
  Forall (Z.le 0) sizes → sizes !! c = Some s → 0 <= j < n →
  0 <= off sizes c + j * sum sizes ∧ off sizes c + j * sum sizes + s <= sum sizes * n.
Proof. intros F E Hj. destruct (off_sum _ _ _ F E). pose proof (sum_nonneg _ F). nia. Qed.

(** *** All rows *)

Section rows.
Context (fields : list MySQLField) (answers : list (list column)).
Let sizes : list Z := map SizeForType fields.
Let R : Z := sum sizes.

Context (Hsizes : Forall (Z.le 0) sizes).
Context (Hfits : Forall (Forall2 fits sizes) answers).
Context (Hcells : zlen answers * zlen fields < 2 ^ 32).

(** The buffers of the columns when [ks] counts the values they had. *)
Definition positions (ks : list Z) : list Z :=
  imap (λ c k, off (map SizeForType fields) c + k * sum (map SizeForType fields)) ks.

Lemma positions_lookup ks c p :
  positions ks !! c = Some p ↔ ∃ k, ks !! c = Some k ∧ p = off sizes c + k * R.
Proof.
  unfold positions. rewrite list_lookup_imap. destruct (ks !! c) as [k|]; cbn; [|naive_solver].
  split; [intros [= <-]; by exists k|intros (? & [= <-] & ->); done].
Qed.

Lemma positions_moved (row : list column) ks :
  length row = length ks →
  zip_with (moved R) row (positions ks) =
  positions (zip_with (λ c k, match c with Some _ => k + 1 | None => k end) row ks).
Proof.
  intros L. apply list_eq. intros c. apply option_eq. intros p.
  rewrite positions_lookup, lookup_zip_with_Some. split.
  - intros (x & y & -> & Ex & (k & Ek & ->)%positions_lookup).
    exists (match x with Some _ => k + 1 | None => k end). rewrite lookup_zip_with, Ex, Ek.
    split; [done|]. destruct x; cbn [moved]; lia.
  - intros (k & (x & y & -> & Ex & Ey)%lookup_zip_with_Some & ->).
    exists x, (off sizes c + y * R). split; [destruct x; cbn [moved]; lia|].
    split; [done|]. apply positions_lookup. by exists y.
Qed.

Lemma positions_placed ks n :
  length ks = length sizes → Forall (λ k, 0 <= k < n) ks → placed (positions ks) sizes (R * n).
Proof using Hsizes.
  intros L K. rewrite Forall_lookup in K. split.
  - unfold positions. by rewrite length_imap.
  - intros c p s (k & Ek & ->)%positions_lookup Es.
    destruct (slot_in sizes c s k n Hsizes Es (K _ _ Ek)).
    pose proof (proj1 (Forall_lookup _ _) Hsizes c s Es). lia.
  - intros c d p q s t N (k & Ek & ->)%positions_lookup (l & El & ->)%positions_lookup Es Et.
    apply (slot_apart sizes); auto; [apply (K _ _ Ek)|apply (K _ _ El)].
Qed.

(** After [r] rows: column [c] has had [ks !! c] values, and every cell of those
    rows reads the value it was made for. *)
Record taken (r : nat) (ks : list Z) (rows : list cell) (buf : list Z) : Prop := {
  tk_length : length ks = length sizes;
  tk_counts : Forall (λ k, 0 <= k <= Z.of_nat r) ks;
  tk_buf : zlen buf = R * zlen answers;
  tk_rows : zlen rows = zlen answers * zlen fields;
  tk_cells : ∀ r' c row col k, (r' < r)%nat → answers !! r' = Some row → row !! c = Some col →
    ks !! c = Some k →
    ∃ v, rows !! (r' * length fields + c)%nat = Some (mkCell v (reported col) (metadata fields !! c)) ∧
      match col with
      | None => v = None
      | Some (bytes, len) => ∃ j, 0 <= j < k ∧ v = Some (off sizes c + j * R) ∧
          slice (off sizes c + j * R) len buf = ztake len bytes
      end
}.

Lemma taken_step r ks rows buf row :
  taken r ks rows buf → answers !! r = Some row →
  ∃ rows' buf',
    (buf ← fetch row (positions ks) buf;
     take_row R (Z.of_nat r * zlen fields) fields (metadata fields) row (positions ks) rows buf) =
    Some (rows', positions (zip_with (λ c k, match c with Some _ => k + 1 | None => k end) row ks), buf') ∧
    taken (S r) (zip_with (λ c k, match c with Some _ => k + 1 | None => k end) row ks) rows' buf'.
Proof using Hsizes Hfits Hcells.
  intros [TL TC TB TR TK] Er.
  assert (length sizes = length fields) as LS by apply length_map.
  pose proof (lookup_lt_Some _ _ _ Er) as Hr.
  assert (Forall2 fits sizes row) as Fr by (by eapply Forall_lookup_1).
  assert (placed (positions ks) sizes (zlen buf)) as P.
  { rewrite TB. apply positions_placed; [done|]. eapply Forall_impl; [exact TC|].
    intros k Hk. cbn in Hk. unfold zlen. lia. }
  destruct (fetch_spec row (positions ks) sizes buf P Fr) as (buf1 & E1 & L1 & A1 & R1).
  rewrite E1. cbn [mbind option_bind]. rewrite <- L1 in P.
  assert (length row = length ks) as Lrk by (rewrite TL; symmetry; by eapply Forall2_length).
  destruct (take_row_spec R fields (metadata fields) row (positions ks) rows
    buf1 (Z.of_nat r * zlen fields))
    as (rows' & buf' & E & LB & LR & A2 & R2 & O & N); try done.
  { unfold metadata. by rewrite length_imap. }
  { zlen_lia. }
  { rewrite TR. unfold zlen. nia. }
  { lia. }
  exists rows', buf'. rewrite E, positions_moved by done. split; [done|].
  assert (Z.to_nat (Z.of_nat r * zlen fields) = (r * length fields)%nat) as ER by (unfold zlen; lia).
  set (ks' := zip_with _ row ks).
  assert (∀ c col k, row !! c = Some col → ks !! c = Some k →
    ks' !! c = Some (match col with Some _ => k + 1 | None => k end)) as EK.
  { intros c col k Ec Ek. unfold ks'. by rewrite lookup_zip_with, Ec, Ek. }
  split.
  - unfold ks'. rewrite length_zip_with. lia.
  - apply Forall_lookup. intros c k' (col & k & -> & Ec & Ek)%lookup_zip_with_Some.
    rewrite Forall_lookup in TC. specialize (TC _ _ Ek). destruct col; lia.
  - lia.
  - lia.
  - intros r' c row' col k' Hr' Er' Ec Ek'.
    assert (length row' = length fields) as Lr'.
    { rewrite Forall_lookup in Hfits. specialize (Hfits _ _ Er'). apply Forall2_length in Hfits.
      unfold sizes in Hfits. rewrite length_map in Hfits. lia. }
    pose proof (lookup_lt_Some _ _ _ Ec) as Hc.
    destruct (decide (r' = r)) as [->|].
    + simplify_eq.
      destruct (lookup_lt_is_Some_2 ks c) as [k Ek]; [lia|].
      rewrite (EK _ _ _ Ec Ek) in Ek'. simplify_eq.
      destruct (lookup_lt_is_Some_2 (metadata fields) c) as [m Em];
        [unfold metadata; rewrite length_imap; lia|].
      assert (positions ks !! c = Some (off sizes c + k * R)) as Ep
        by (apply positions_lookup; by exists k).
      rewrite <- ER, (N c col _ m Ec Ep Em), Em. eexists. split; [done|].
      destruct col as [[bytes len]|]; [|done]. exists k.
      rewrite Forall_lookup in TC. specialize (TC _ _ Ek).
      split; [lia|split; [done|]]. rewrite (R2 _ _ _ _ Ep Ec). by eapply R1.
    + destruct (lookup_lt_is_Some_2 ks c) as [k Ek].
      { unfold sizes in *. rewrite TL, length_map. lia. }
      destruct (TK r' c row' col k) as (v & Ev & Hv); [lia|done..|].
      exists v. split.
      { rewrite O; [done|]. left. unfold zlen. nia. }
      destruct col as [[bytes len]|]; [|done]. destruct Hv as (j & Hj & -> & Hs).
      exists j.
      assert (k <= k') as Hk.
      { destruct (lookup_lt_is_Some_2 row c) as [col' Ec']; [lia|].
        rewrite (EK _ _ _ Ec' Ek) in Ek'. destruct col'; simplify_eq; lia. }
      split; [lia|split; [done|]]. rewrite <- Hs.
      assert (∃ s, sizes !! c = Some s ∧ 0 <= len ∧ len <= s) as (s & Es & Hl0 & Hl).
      { rewrite Forall_lookup in Hfits. specialize (Hfits _ _ Er').
        destruct (Forall2_lookup_r _ _ _ _ _ Hfits Ec) as (s & Es & [? ?]). exists s.
        split; [done|]. lia. }
      assert (away (off sizes c + j * R) len (positions ks) sizes) as AW.
      { split; [|split; [done|]].
        - by apply (slot_in sizes c s j (j + 1) Hsizes Es); lia.
        - intros d p t (l & El & ->)%positions_lookup Et.
          destruct (slot_apart sizes c d j l s t) as [D|D]; auto; try lia.
          + rewrite Forall_lookup in TC. specialize (TC _ _ El). lia.
          + destruct (decide (c = d)) as [->|]; [|by left]. simplify_eq. right. lia. }
      by rewrite A2, A1.
Qed.

Lemma taken_0 (buf : list Z) :
  zlen buf = R * zlen answers →
  taken 0 (replicate (length fields) 0)
    (replicate (Z.to_nat (zlen answers * zlen fields)) (mkCell None 0 None)) buf.
Proof.
  intros L. split.
  - unfold sizes. by rewrite length_replicate, length_map.
  - apply Forall_replicate. lia.
  - done.
  - rewrite zlen_replicate. zlen_lia.
  - intros r'. lia.
Qed.

Lemma positions_0 :
  R < 2 ^ 32 → positions (replicate (length fields) 0) = offsets 0 sizes.
Proof using Hsizes.
  intros HR. apply list_eq. intros c.
  destruct (decide (c < length fields)%nat) as [Hc|Hc].
  - rewrite offsets_off; [|done|lia|unfold R in HR; lia|unfold sizes; rewrite length_map; lia].
    apply positions_lookup. exists 0. rewrite lookup_replicate. split; [done|lia].
  - rewrite !lookup_ge_None_2; [done| |].
    + rewrite length_offsets. unfold sizes. rewrite length_map. lia.
    + unfold positions. rewrite length_imap, length_replicate. lia.
Qed.

Lemma take_rows_spec r ks rows buf :
  (r <= length answers)%nat → 0 < zlen fields → taken r ks rows buf →
  ∃ ks' rows' buf',
    take_rows R (zlen answers) (Z.of_nat r) (zlen fields) fields (drop r answers)
      (positions ks) rows buf = Some (rows', buf') ∧
    taken (length answers) ks' rows' buf'.
Proof using Hsizes Hfits Hcells.
  intros Hr Hf. remember (length answers - r)%nat as n eqn:En.
  revert r ks rows buf Hr En. induction n as [|n IH]; intros r ks rows buf Hr En T.
  - assert (r = length answers) as -> by lia. rewrite drop_all. by exists ks, rows, buf.
  - destruct (lookup_lt_is_Some_2 answers r) as [row Er]; [lia|].
    rewrite (drop_S _ _ _ Er). cbn [take_rows].
    rewrite (proj2 (Z.leb_gt _ _)) by (unfold zlen; lia).
    assert (Z.of_nat r * zlen fields < 2 ^ 32) by (unfold zlen in *; nia).
    rewrite (wrap_small 32 (Z.of_nat r)) by nia. rewrite wrap_small by zlen_lia.
    destruct (taken_step r ks rows buf row T Er) as (rows' & buf' & E & T').
    unfold mbind in E |- *. destruct (fetch row (positions ks) buf) as [buf1|]; [|done].
    cbn [option_bind] in E |- *. rewrite E. cbn [option_bind].
    replace (Z.of_nat r + 1) with (Z.of_nat (S r)) by lia. apply (IH (S r)); [lia|lia|done].
Qed.
End rows.

(** What is relied on: nothing fails, the library reports as many rows as it
    hands out, every value fits the buffer made for its column from the metadata
    ([max_length] is kept up to date), and the sizes fit 32 bits. *)
Record answered_well (a : statement_answers) (fresh : nat → list Z) : Prop := {
  aw_store : store_fails a = false;
  aw_bind : bind_fails a = false;
  aw_rows : num_rows a = zlen (fetched a);
  aw_fields : 0 < zlen (result_fields a);
  aw_fits : Forall (Forall2 fits (map SizeForType (result_fields a))) (fetched a);
  aw_cells : zlen (fetched a) * zlen (result_fields a) < 2 ^ 32;
  aw_size : sum (map SizeForType (result_fields a)) < 2 ^ 32;
  aw_fresh : ∀ n, length (fresh n) = n
}.

Lemma SizeForType_range field : 0 <= SizeForType field < 2 ^ 32.
Proof. unfold SizeForType. repeat case_match; unfold sizeof_MYSQL_TIME; try lia; apply wrap_range; lia. Qed.

Lemma new_taken a fresh rowCount :
  answered_well a fresh →
  ∃ ks rows buf,
    new a true rowCount (zlen (result_fields a)) fresh =
      Ret (mkPrepared rows (zlen (fetched a)) 0 (zlen (result_fields a)) Live Live buf) ∧
    taken (result_fields a) (fetched a) (length (fetched a)) ks rows buf.
Proof.
  intros [Es Eb En Hf Hfit Hc Hs Hfr].
  assert (Forall (Z.le 0) (map SizeForType (result_fields a))) as F
    by (apply Forall_fmap, Forall_forall; intros f _; apply SizeForType_range).
  pose proof (sum_nonneg _ F) as S0.
  assert (row_size (result_fields a) = sum (map SizeForType (result_fields a))) as ER
    by (apply wrap_small; unfold sum in *; lia).
  assert (zlen (fetched a) < 2 ^ 32) as HN by (pose proof (zlen_nonneg (fetched a)); nia).
  pose proof (zlen_nonneg (fetched a)) as HN0.
  unfold new. rewrite Es, Eb, En, ER. cbn [negb].
  rewrite !(wrap_small 32) by (rewrite ?(wrap_small 32); nia).
  rewrite (wrap_small 64) by nia.
  set (buf := fresh _).
  assert (zlen buf = sum (map SizeForType (result_fields a)) * zlen (fetched a)) as LB.
  { unfold zlen at 1, buf. rewrite Hfr. nia. }
  destruct (take_rows_spec (result_fields a) (fetched a) F Hfit Hc 0 _ _ buf
    (Nat.le_0_l _) Hf (taken_0 (result_fields a) (fetched a) buf LB))
    as (ks' & rows' & buf' & E & T).
  rewrite (positions_0 _ F Hs) in E. rewrite drop_0 in E.
  change (Z.of_nat 0) with 0 in E. rewrite E.
  by exists ks', rows', buf'.
Qed.

(** The position after some rows. *)
Lemma iter_NextRow rows N fc b m buf n :
  Z.of_nat n < 2 ^ 64 →
  Nat.iter n (λ pr, (NextRow pr).2) (mkPrepared rows N 0 fc b m buf) =
  mkPrepared rows N (Z.of_nat n) fc b m buf.
Proof.
  induction n as [|n IH]; intros H; [done|]. rewrite Nat.iter_succ, IH by lia.
  unfold NextRow. cbn [pr_rowPosition pr_rows pr_rowCount pr_fieldCount pr_rBind
    pr_metadataResult pr_buffer snd]. rewrite wrap_small by lia. f_equal. lia.
Qed.
End Prepared_block.

Module Prepared_rows.
Import Results PreparedResults Prepared_block.

(** C6: the rows of a prepared statement are the rows the server sent.  The
    constructor returns (so that every write of the library and of the constructor
    lies inside the block that was allocated: one outside it is undefined) and
    destroys no value stored before, so that after [r] calls of [NextRow] the field
    [c] carries the metadata of its column and is [NULL] or reads exactly the value
    fetched for row [r]; past the last row the accessors fail their assertion; and
    destroying the result frees everything once. *)
Theorem prepared_rows_exact (a : statement_answers) (fresh : nat → list Z) (rowCount : Z)
    (Ha : answered_well a fresh) :
  ∃ pr, new a true rowCount (zlen (result_fields a)) fresh = Ret pr ∧
    (∀ (r c : nat) (row : list column) (col : column) (field : MySQLField),
      fetched a !! r = Some row → row !! c = Some col → result_fields a !! c = Some field →
      ∃ f, get (Z.of_nat c) (Nat.iter r (λ pr, (NextRow pr).2) pr) = Ret f ∧
        meta f = Some (InitializeDatabaseFieldMetadata field (Z.of_nat c)) ∧
        match col with
        | None => Fields.IsNull f = true
        | Some (bytes, len) =>
            data_length f = len ∧ Fields.GetDataString f = Ret (ztake len bytes)
        end) ∧
    (∀ c, get c (Nat.iter (length (fetched a)) (λ pr, (NextRow pr).2) pr) = AssertFail) ∧
    is_UB (destroy pr) = false.
Proof.
  destruct (new_taken a fresh rowCount Ha) as (ks & rows & buf & E & T).
  destruct Ha as [_ _ _ Hf Hfit Hc Hs _].
  assert (zlen (fetched a) < 2 ^ 32) as HN by (pose proof (zlen_nonneg (fetched a)); nia).
  eexists. split; [exact E|]. split; [|split; [|done]].
  2:{ intros c. rewrite iter_NextRow by (unfold zlen in *; lia). unfold get. cbn [pr_rowPosition pr_rowCount].
      by rewrite (proj2 (Z.ltb_ge _ _)) by (unfold zlen; lia). }
  intros r c row col field Er Ec Efield.
  pose proof (lookup_lt_Some _ _ _ Er) as Hr. pose proof (lookup_lt_Some _ _ _ Efield) as Hcf.
  rewrite iter_NextRow by (unfold zlen in *; lia). unfold get.
  cbn [pr_rowPosition pr_rowCount pr_fieldCount pr_rows pr_buffer].
  rewrite !(proj2 (Z.ltb_lt _ _)) by (unfold zlen; lia). cbn [negb].
  rewrite !(wrap_small 32) by (rewrite ?(wrap_small 32); unfold zlen in *; nia).
  replace (Z.to_nat _) with (r * length (result_fields a) + c)%nat by (unfold zlen; lia).
  destruct T as [TL _ _ _ TK].
  destruct (lookup_lt_is_Some_2 ks c) as [k Ek]; [rewrite TL, length_map; lia|].
  destruct (TK r c row col k Hr Er Ec Ek) as (v & -> & Hv).
  eexists. split; [done|]. split.
  { unfold to_field. cbn [meta c_meta]. unfold metadata. by rewrite list_lookup_imap, Efield. }
  destruct col as [[bytes len]|]; [|by subst v].
  destruct Hv as (j & Hj & -> & Hsl).
  rewrite Forall_lookup in Hfit. specialize (Hfit _ _ Er).
  destruct (Forall2_lookup_r _ _ _ _ _ Hfit Ec) as (s & Es & [Hl Hb]).
  assert (s < 2 ^ 32) as Hs32.
  { rewrite list_lookup_fmap, Efield in Es. cbn in Es. simplify_eq. apply SizeForType_range. }
  unfold to_field. cbn [value data_length c_value c_length reported fmap option_fmap option_map].
  rewrite wrap_small by lia. split; [done|].
  unfold Fields.GetDataString, Fields.bytes. cbn [value data_length].
  assert (zlen (ztake len bytes) = len) as L by (rewrite zlen_ztake; zlen_lia).
  rewrite <- Hsl in L. unfold slice in *. rewrite zlen_ztake in L.
  rewrite (proj2 (Z.leb_le _ _)) by lia. by rewrite Hsl.
Qed.

(** A result whose rows could not be stored or bound is destroyed twice: the
    destructor meets pointers the constructor has already freed. *)
Lemma failed_result_destroyed_twice (a : statement_answers) (fresh : nat → list Z)
    (rowCount fieldCount : Z) :
  store_fails a || bind_fails a = true →
  ∃ pr, new a true rowCount fieldCount fresh = Ret pr ∧ destroy pr = UB.
Proof.
  unfold new. cbn [negb]. destruct (store_fails a); cbn [orb].
  - intros _. by eexists.
  - intros ->. by eexists.
Qed.
End Prepared_rows.

(** ** Witnesses

    Two rows of a name and a number; the second name is [NULL]. *)

Definition demo_fields : list MySQLField :=
  [mkMySQLField (str "Name") (str "Name") (str "a") (str "account") MYSQL_TYPE_VAR_STRING 5;
   mkMySQLField (str "ID") (str "ID") (str "a") (str "account") MYSQL_TYPE_LONG 0].

Definition demo_answer : statement_answers :=
  mkAnswers false 2 demo_fields false
    [[Some (str "WOLF", 4); Some (le_bytes 4 7, 4)]; [None; Some (le_bytes 4 1000, 4)]].

Lemma prepared_rows_exact_witness :
  Prepared_block.answered_well demo_answer (λ n, replicate n 170) ∧
  ∃ pr, PreparedResults.new demo_answer true 2 2 (λ n, replicate n 170) = Ret pr ∧
    (∃ f, PreparedResults.get 0 pr = Ret f ∧ Fields.GetDataString f = Ret (str "WOLF")) ∧
    (∃ f, PreparedResults.get 1 (PreparedResults.NextRow pr).2 = Ret f ∧
      Fields.GetDataString f = Ret (le_bytes 4 1000)).
Proof.
  assert (Prepared_block.answered_well demo_answer (λ n, replicate n 170)) as W.
  { split; try reflexivity.
    - repeat constructor; vm_compute; intuition discriminate.
    - intros n. apply length_replicate. }
  split; [exact W|].
  destruct (Prepared_rows.prepared_rows_exact demo_answer (λ n, replicate n 170) 2 W)
    as (pr & E & G & _).
  exists pr. split; [exact E|]. split.
  - destruct (G 0%nat 0%nat _ _ _ eq_refl eq_refl eq_refl) as (f & Ef & _ & _ & Hf).
    exists f. split; [exact Ef|exact Hf].
  - destruct (G 1%nat 1%nat _ _ _ eq_refl eq_refl eq_refl) as (f & Ef & _ & _ & Hf).
    exists f. split; [exact Ef|exact Hf].
Defined.
