(* ===== verification/MySQL.v ===== *)
(** * MySQL: one connection to the database

    Model of [MySQLConnection.h], [MySQLConnection.cpp] and
    [Implementation/DiscordDatabase.cpp] under [src/src/database/Database].  The
    MySQL client library and the server behind it are an interface, [MySQL]; its
    laws are in [Transactions.v].  [std::abort] ends the process like a failed
    assertion.  A query that loses its connection calls itself again after the
    reconnection: [stack] is how many such nested calls there is room for, and
    running out of it is undefined. *)

From S2P Require Import Prelude Strings Statements Fields Results.
Open Scope Z_scope.

Record MySQLConnectionInfo := mkInfo {
  ci_user : list Z;
  ci_password : list Z;
  ci_database : list Z;
  ci_host : list Z;
  ci_port_or_socket : list Z;
  ci_ssl : list Z
}.

Definition empty_info : MySQLConnectionInfo := mkInfo [] [] [] [] [] [].

(** The arguments of [mysql_real_connect] and the options set before it. *)
Record connect_args := mkConnect {
  ca_host : list Z;
  ca_user : list Z;
  ca_password : list Z;
  ca_database : list Z;
  ca_port : Z;
  ca_socket : option (list Z);
  ca_ssl : option bool
}.

(** What a query or a prepared statement left to be read. *)
Record query_answer := mkQueryAnswer {
  qa_result : option (list fetched_row);  (** [mysql_store_result] *)
  qa_affected_rows : Z;
  qa_field_count : Z;
  qa_fields : list MySQLField
}.

Record statement_answer := mkStatementAnswer {
  sa_metadata : bool;
  sa_num_rows : Z;
  sa_field_count : Z;
  sa_answers : statement_answers;
  sa_fresh : nat → list Z
}.

(** The client library; calls answer [true] for success where a handle or 0 is
    returned. *)
Class MySQL := {
  Server : Type;
  mysql_init : Server → bool * Server;
  mysql_real_connect : connect_args → Server → bool * Server;
  mysql_close : Server → Server;
  mysql_errno : bool → Server → Z;  (** of a handle, or of none *)
  mysql_query : list Z → Server → bool * Server;
  mysql_query_answer : Server → query_answer;
  mysql_stmt_init : Server → bool * Server;
  mysql_stmt_prepare : list Z → Server → option Z * Server;  (** the parameter count *)
  mysql_stmt_bind_param : MySQLPreparedStatement → Server → bool * Server;
  mysql_stmt_execute : MySQLPreparedStatement → Server → bool * Server;
  mysql_statement_answer : MySQLPreparedStatement → Server → statement_answer;
  mysql_ping : Server → Server;
  mysql_get_server_version : Server → Z
}.

Definition CONNECTION_ASYNC : Z := 1.
Definition CONNECTION_SYNCH : Z := 2.
Definition CONNECTION_BOTH : Z := Z.lor CONNECTION_ASYNC CONNECTION_SYNCH.

(** Error codes of the client ([errmsg.h]) and the server ([mysqld_error.h]). *)
Definition CR_UNKNOWN_ERROR : Z := 2000.
Definition CR_CONN_HOST_ERROR : Z := 2003.
Definition CR_SERVER_GONE_ERROR : Z := 2006.
Definition CR_SERVER_LOST : Z := 2013.
Definition CR_SERVER_LOST_EXTENDED : Z := 2055.
Definition ER_BAD_FIELD_ERROR : Z := 1054.
Definition ER_WRONG_VALUE_COUNT : Z := 1058.
Definition ER_DUP_ENTRY : Z := 1062.
Definition ER_PARSE_ERROR : Z := 1064.
Definition ER_NO_SUCH_TABLE : Z := 1146.
Definition ER_LOCK_DEADLOCK : Z := 1213.

(** An element of a transaction; its tag and its variant agree. *)
Inductive SQLElementData : Type :=
  | SQL_ELEMENT_RAW (sql : list Z)
  | SQL_ELEMENT_PREPARED (stmt : option PreparedStatement).

Module ConnectionInfo.

(** [MySQLConnectionInfo(infoString)]: other numbers of tokens leave it empty. *)
Definition parse (infoString : list Z) : MySQLConnectionInfo :=
  match Strings.Tokenize infoString 59 true with
  | [host; port; user; password; database] => mkInfo user password database host port []
  | [host; port; user; password; database; ssl] => mkInfo user password database host port ssl
  | _ => empty_info
  end.
End ConnectionInfo.

Module Connection.
Section connection.
Context `{MySQL}.

Record t := mk {
  m_stmts : list (option MySQLPreparedStatement);
  m_reconnecting : bool;
  m_prepareError : bool;
  m_Mysql : bool;  (** there is a handle *)
  m_connectionInfo : MySQLConnectionInfo;
  m_connectionFlags : Z;
  server : Server
}.

Definition set_stmts (l : list (option MySQLPreparedStatement)) (c : t) : t :=
  mk l (m_reconnecting c) (m_prepareError c) (m_Mysql c) (m_connectionInfo c)
    (m_connectionFlags c) (server c).
Definition set_reconnecting (b : bool) (c : t) : t :=
  mk (m_stmts c) b (m_prepareError c) (m_Mysql c) (m_connectionInfo c)
    (m_connectionFlags c) (server c).
Definition set_prepareError (b : bool) (c : t) : t :=
  mk (m_stmts c) (m_reconnecting c) b (m_Mysql c) (m_connectionInfo c)
    (m_connectionFlags c) (server c).
Definition set_Mysql (b : bool) (c : t) : t :=
  mk (m_stmts c) (m_reconnecting c) (m_prepareError c) b (m_connectionInfo c)
    (m_connectionFlags c) (server c).
Definition set_info (i : MySQLConnectionInfo) (c : t) : t :=
  mk (m_stmts c) (m_reconnecting c) (m_prepareError c) (m_Mysql c) i
    (m_connectionFlags c) (server c).
Definition set_server (s : Server) (c : t) : t :=
  mk (m_stmts c) (m_reconnecting c) (m_prepareError c) (m_Mysql c) (m_connectionInfo c)
    (m_connectionFlags c) s.

(** The two constructors differ in the flags and the worker thread. *)
Definition new (flags : Z) (info : MySQLConnectionInfo) (s : Server) : t :=
  mk [] false false false info flags s.

(** A call of the library. *)
Definition lib {A} (f : Server → A * Server) : M Empty_set t A :=
  λ c, let '(a, s) := f (server c) in (Ret a, set_server s c).

Definition lib_ (f : Server → Server) : M Empty_set t () := modify (λ c, set_server (f (server c)) c).

(** Strings go to the library as [c_str()]. *)
Definition c_str (s : list Z) : list Z :=
  match list_find (λ c, c = 0) s with Some (i, _) => take i s | None => s end.

(** Statements are dropped, then the handle closed. *)
Definition Close : M Empty_set t () :=
  _ ← modify (set_stmts []);
  open ← gets m_Mysql;
  if (open : bool) then _ ← lib_ mysql_close; modify (set_Mysql false) else skip.

Definition ssl_option (i : MySQLConnectionInfo) : option bool :=
  if bool_decide (ci_ssl i = []) then None else Some (bool_decide (ci_ssl i = str "ssl")).

(** The host [.] means a socket, and is replaced in the connection info. *)
Definition Open : M Empty_set t Z :=
  ok ← lib mysql_init;
  if negb ok then mret CR_UNKNOWN_ERROR
  else
    i ← gets m_connectionInfo;
    connection ←
      (if bool_decide (ci_host i = str ".") then
         let i := mkInfo (ci_user i) (ci_password i) (ci_database i) (str "localhost")
                    (ci_port_or_socket i) (ci_ssl i) in
         _ ← modify (set_info i);
         mret (mkConnect (ci_host i) (ci_user i) (ci_password i) (ci_database i) 0
                 (Some (ci_port_or_socket i)) (ssl_option i))
       else
         match Strings.FromString_int (Strings.mkInt false 32) (ci_port_or_socket i) 10 with
         | Some port => mret (mkConnect (ci_host i) (ci_user i) (ci_password i) (ci_database i)
                                port None (ssl_option i))
         | None => undefined
         end);
    ok ← lib (mysql_real_connect connection);
    _ ← modify (set_Mysql ok);
    if (ok : bool) then mret 0
    else
      e ← gets (λ c, mysql_errno true (server c));
      _ ← lib_ mysql_close;
      mret e.

Definition GetLastError : M Empty_set t Z := gets (λ c, mysql_errno (m_Mysql c) (server c)).
Definition Ping : M Empty_set t () :=
  open ← gets m_Mysql; if (open : bool) then lib_ mysql_ping else undefined.

(** [m_stmts[index] = …]; the index is not checked. *)
Definition store_stmt (index : Z) (s : option MySQLPreparedStatement) : M Empty_set t () :=
  l ← gets m_stmts;
  if index <? zlen l then modify (set_stmts (<[Z.to_nat index := s]> l)) else undefined.

(** Statements for the other kind of connection are not prepared. *)
Definition PrepareStatement (index : Z) (sql : list Z) (flags : Z) : M Empty_set t () :=
  mine ← gets m_connectionFlags;
  if Z.land mine flags =? 0 then store_stmt index None
  else
    ok ← lib mysql_stmt_init;
    if negb ok then modify (set_prepareError true)
    else
      count ← lib (mysql_stmt_prepare sql);
      match count with
      | None => modify (set_prepareError true)
      | Some n => store_stmt index (Some (Bound.new n sql))
      end.

(** ** The statements of the server *)

Definition DISCORD_SEL_ACCOUNT_INFO_BY_NAME : Z := 0.
Definition DISCORD_INS_ACCOUNT : Z := 1.
Definition DISCORD_SEL_IP_INFO : Z := 2.
Definition DISCORD_SEL_ACCOUNT_ID_BY_USERNAME : Z := 3.
Definition DISCORD_SEL_ACCOUNTS : Z := 4.
Definition DISCORD_UPD_LOGON : Z := 5.
Definition DISCORD_DEL_BAN_ACCOUNT : Z := 6.
Definition DISCORD_DEL_BAN_IP : Z := 7.
Definition DISCORD_INS_ACCOUNT_BAN : Z := 8.
Definition DISCORD_INS_IP_BAN : Z := 9.
Definition DISCORD_UPD_ACCOUNT_BAN_EXPIRED : Z := 10.
Definition DISCORD_UPD_IP_BAN_EXPIRED : Z := 11.
Definition DISCORD_INS_CLIENT : Z := 12.
Definition MAX_DISCORD_DATABASE_STATEMENTS : Z := 13.

Definition statements : list (Z * string * Z) :=
  [(DISCORD_SEL_ACCOUNT_INFO_BY_NAME, "SELECT `a`.`ID`, `a`.`Salt`, `a`.`Verifier`, `a`.`GuildID`, `a`.`RealmName`, `a`.`LastIP`, `a`.`CoreName`, `a`.`ModuleVersion`, `ab`.`bandate`, `ab`.`unbandate` FROM `account` a LEFT JOIN `account_banned` ab ON `a`.`id` = `ab`.`id` AND `ab`.`active` = 1 WHERE `a`.`Name` = ? LIMIT 1", CONNECTION_ASYNC);
   (DISCORD_INS_ACCOUNT, "INSERT INTO account (`Name`, `Salt`, `Verifier`, `GuildID`, `RealmName`, `JoinDate`) VALUES (?, ?, ?, ?, ?, NOW())", CONNECTION_ASYNC);
   (DISCORD_SEL_IP_INFO, "SELECT unbandate > UNIX_TIMESTAMP() OR unbandate = bandate, unbandate = bandate FROM ip_banned WHERE ip = ?", CONNECTION_ASYNC);
   (DISCORD_SEL_ACCOUNT_ID_BY_USERNAME, "SELECT `ID` FROM `account` WHERE `Name` = ?", CONNECTION_ASYNC);
   (DISCORD_SEL_ACCOUNTS, "SELECT `ID`, `Name`, `GuildID`, `RealmName` FROM account", CONNECTION_SYNCH);
   (DISCORD_UPD_LOGON, "UPDATE `account` SET `Salt` = ?, `Verifier` = ? WHERE `ID` = ?", CONNECTION_ASYNC);
   (DISCORD_DEL_BAN_ACCOUNT, "DELETE FROM `account_banned` WHERE `id` = ?", CONNECTION_ASYNC);
   (DISCORD_DEL_BAN_IP, "DELETE FROM `ip_banned` WHERE `ip` = ?", CONNECTION_ASYNC);
   (DISCORD_INS_ACCOUNT_BAN, "INSERT INTO `account_banned` (`id`, `bandate`, `unbandate`, `bannedby`, `banreason`, `active`) VALUES (?, UNIX_TIMESTAMP(), UNIX_TIMESTAMP() + ?, ?, ?, 1)", CONNECTION_ASYNC);
   (DISCORD_INS_IP_BAN, "INSERT INTO `ip_banned` (`ip`, `bandate`, `unbandate`, `bannedby`, `banreason`, `active`) VALUES (?, UNIX_TIMESTAMP(), UNIX_TIMESTAMP() + ?, ?, ?, 1)", CONNECTION_ASYNC);
   (DISCORD_UPD_ACCOUNT_BAN_EXPIRED, "UPDATE `account_banned` SET `active` = 0 WHERE `unbandate` <= UNIX_TIMESTAMP() AND `unbandate` <> `bandate`", CONNECTION_ASYNC);
   (DISCORD_UPD_ACCOUNT_BAN_EXPIRED, "UPDATE `ip_banned` SET `active` = 0 WHERE `unbandate` <= UNIX_TIMESTAMP() AND `unbandate` <> `bandate`", CONNECTION_ASYNC);
   (DISCORD_INS_CLIENT, "INSERT INTO `clients` (`GuildID`, `GuildName`, `MembersCount`, `InviteDate`, `AddedAtStartup`) VALUES (?, ?, ?, FROM_UNIXTIME(?), ?)", CONNECTION_ASYNC)].

Fixpoint prepare_all (l : list (Z * string * Z)) : M Empty_set t () :=
  match l with
  | [] => skip
  | (index, sql, flags) :: l => _ ← PrepareStatement index (str sql) flags; prepare_all l
  end.

(** [DiscordDatabaseConnection::DoPrepareStatements] *)
Definition DoPrepareStatements : M Empty_set t () :=
  reconnecting ← gets m_reconnecting;
  _ ← (if negb reconnecting
       then modify (λ c, set_stmts (vresize MAX_DISCORD_DATABASE_STATEMENTS None (m_stmts c)) c)
       else skip);
  prepare_all statements.

Definition PrepareStatements : M Empty_set t bool :=
  _ ← DoPrepareStatements; e ← gets m_prepareError; mret (negb e).

(** [_HandleMySQLErrno] with [attempts = more + 1]; [true] when the connection
    was made anew. *)
Definition is_lost (errNo : Z) : bool :=
  (errNo =? CR_SERVER_GONE_ERROR) || (errNo =? CR_SERVER_LOST) || (errNo =? CR_SERVER_LOST_EXTENDED).

Definition is_fatal (errNo : Z) : bool :=
  (errNo =? ER_BAD_FIELD_ERROR) || (errNo =? ER_NO_SUCH_TABLE) || (errNo =? ER_PARSE_ERROR).

Fixpoint HandleMySQLErrno (more : nat) (errNo : Z) : M Empty_set t bool :=
  if is_lost errNo || (errNo =? CR_CONN_HOST_ERROR) then
    open ← gets m_Mysql;
    _ ← (if is_lost errNo && (open : bool) then _ ← lib_ mysql_close; modify (set_Mysql false) else skip);
    _ ← modify (set_reconnecting true);
    lErrno ← Open;
    if lErrno =? 0 then
      prepared ← PrepareStatements;
      _ ← assert_ prepared;
      _ ← modify (set_reconnecting false);
      mret true
    else
      match more with
      | O => assert_ false ≫= λ _, mret false
      | S more => HandleMySQLErrno more lErrno
      end
  else if is_fatal errNo then assert_ false ≫= λ _, mret false
  else mret false.

(** [_HandleMySQLErrno(lErrno)]: five attempts. *)
Definition HandleError : M Empty_set t bool :=
  e ← gets (λ c, mysql_errno true (server c)); HandleMySQLErrno 4 e.

(** ** Execution *)

Fixpoint Execute (stack : nat) (sql : list Z) : M Empty_set t bool :=
  match stack with
  | O => undefined
  | S stack =>
      open ← gets m_Mysql;
      if negb open then mret false
      else
        ok ← lib (mysql_query (c_str sql));
        if (ok : bool) then mret true
        else
          handled ← HandleError;
          if (handled : bool) then Execute stack sql else mret false
  end.

(** A statement that was not prepared on this connection is a null pointer. *)
Definition GetPreparedStatement (index : Z) : M Empty_set t (option MySQLPreparedStatement) :=
  l ← gets m_stmts;
  _ ← assert_ (index <? zlen l);
  mret (default None (l !! Z.to_nat index)).

Definition update_stmt (index : Z) (s : MySQLPreparedStatement) : M Empty_set t () :=
  modify (λ c, set_stmts (<[Z.to_nat index := Some s]> (m_stmts c)) c).

Definition bind_stmt (stmt : PreparedStatement) : M Empty_set t MySQLPreparedStatement :=
  s ← GetPreparedStatement (m_index stmt);
  match s with
  | None => assert_ false ≫= λ _, undefined
  | Some s =>
      let '(o, s) := Bound.BindParameters stmt s in
      _ ← update_stmt (m_index stmt) s;
      match o with
      | Ret _ => mret s
      | Throw e => throw e
      | AssertFail => assert_ false ≫= λ _, undefined
      | UB => undefined
      end
  end.

(** Binding and executing may both lose the connection; [Execute(stmt)] and
    [_Query(stmt)] share this part. *)
Fixpoint run_stmt (stack : nat) (stmt : PreparedStatement) :
    M Empty_set t (option MySQLPreparedStatement) :=
  match stack with
  | O => undefined
  | S stack =>
      open ← gets m_Mysql;
      if negb open then mret None
      else
        s ← bind_stmt stmt;
        ok ← (ok ← lib (mysql_stmt_bind_param s);
              if (ok : bool) then lib (mysql_stmt_execute s) else mret false);
        if (ok : bool) then
          _ ← update_stmt (m_index stmt) (Bound.ClearParameters s);
          mret (Some s)
        else
          handled ← HandleError;
          if (handled : bool) then run_stmt stack stmt
          else
            _ ← update_stmt (m_index stmt) (Bound.ClearParameters s);
            mret None
  end.

Definition Execute_stmt (stack : nat) (stmt : PreparedStatement) : M Empty_set t bool :=
  s ← run_stmt stack stmt; mret (match s with Some _ => true | None => false end).

(** [_Query] and [Query] of a text: no result without rows. *)
Definition Query (stack : nat) (sql : list Z) : M Empty_set t (option ResultSet) :=
  if bool_decide (sql = []) then mret None
  else
    ok ← Execute stack sql;
    if negb ok then mret None
    else
      a ← gets (λ c, mysql_query_answer (server c));
      mret (match qa_result a with
            | None => None
            | Some rows =>
                if qa_affected_rows a =? 0 then None
                else Some (ResultSets.new rows (qa_fields a) (qa_affected_rows a) (qa_field_count a))
            end).

Definition Query_stmt (stack : nat) (stmt : PreparedStatement) :
    M Empty_set t (option PreparedResultSet) :=
  s ← run_stmt stack stmt;
  match s with
  | None => mret None
  | Some s =>
      a ← gets (λ c, mysql_statement_answer s (server c));
      match PreparedResults.new (sa_answers a) (sa_metadata a) (sa_num_rows a)
              (sa_field_count a) (sa_fresh a) with
      | Ret pr => mret (Some pr)
      | _ => undefined
      end
  end.

(** ** Transactions *)

Definition BeginTransaction (stack : nat) : M Empty_set t () :=
  _ ← Execute stack (str "START TRANSACTION"); skip.
Definition RollbackTransaction (stack : nat) : M Empty_set t () :=
  _ ← Execute stack (str "ROLLBACK"); skip.
Definition CommitTransaction (stack : nat) : M Empty_set t () :=
  _ ← Execute stack (str "COMMIT"); skip.

Definition run_element (stack : nat) (e : SQLElementData) : M Empty_set t bool :=
  match e with
  | SQL_ELEMENT_PREPARED None => assert_ false ≫= λ _, mret false
  | SQL_ELEMENT_PREPARED (Some stmt) => Execute_stmt stack stmt
  | SQL_ELEMENT_RAW sql =>
      _ ← assert_ (negb (bool_decide (sql = []))); Execute stack sql
  end.

(** The error of the first query that fails, after a rollback; 0 at the end. *)
Fixpoint run_elements (stack : nat) (queries : list SQLElementData) : M Empty_set t Z :=
  match queries with
  | [] => _ ← CommitTransaction stack; mret 0
  | e :: queries =>
      ok ← run_element stack e;
      if (ok : bool) then run_elements stack queries
      else
        errorCode ← GetLastError;
        _ ← RollbackTransaction stack;
        mret errorCode
  end.

Definition ExecuteTransaction (stack : nat) (queries : list SQLElementData) : M Empty_set t Z :=
  if bool_decide (queries = []) then mret (-1)
  else _ ← BeginTransaction stack; run_elements stack queries.

(** ** Which statements a connection has

    The reference: the last entry for an index decides. *)

Definition entry (mine : Z) (text : option (list Z)) (index : nat) (e : Z * string * Z) :
    option (list Z) :=
  let '(i, sql, flags) := e in
  if i =? Z.of_nat index then (if Z.land mine flags =? 0 then None else Some (str sql)) else text.

Definition prepared_text (mine : Z) (index : nat) : option (list Z) :=
  foldl (λ text e, entry mine text index e) None statements.

Definition texts (c : t) : list (option (list Z)) := map (fmap m_queryString) (m_stmts c).

Lemma store_stmt_texts index s c c' :
  store_stmt index s c = (Ret (), c') →
  0 <= index →
  m_prepareError c' = m_prepareError c ∧ m_connectionFlags c' = m_connectionFlags c ∧
  m_reconnecting c' = m_reconnecting c ∧
  length (m_stmts c') = length (m_stmts c) ∧
  ∀ i : nat, (i < length (m_stmts c))%nat →
    texts c' !! i = if index =? Z.of_nat i then Some (m_queryString <$> s) else texts c !! i.
Proof.
  unfold store_stmt. rewrite bind_gets. destruct (Z.ltb_spec index (zlen (m_stmts c))) as [L|]; [|done].
  intros [= <-] Hi. do 3 (split; [done|]). split; [apply length_insert|].
  intros i Li. unfold texts. cbn [m_stmts set_stmts]. rewrite !list_lookup_fmap.
  destruct (Z.eqb_spec index (Z.of_nat i)) as [->|N].
  - rewrite Nat2Z.id, list_lookup_insert_eq by done. done.
  - by rewrite list_lookup_insert_ne by lia.
Qed.

Lemma PrepareStatement_texts index sql flags c c' :
  PrepareStatement index sql flags c = (Ret (), c') → 0 <= index →
  m_connectionFlags c' = m_connectionFlags c ∧ m_reconnecting c' = m_reconnecting c ∧
  length (m_stmts c') = length (m_stmts c) ∧
  (m_prepareError c' = false → m_prepareError c = false ∧
   ∀ i : nat, (i < length (m_stmts c))%nat →
     texts c' !! i = if index =? Z.of_nat i
       then Some (if Z.land (m_connectionFlags c) flags =? 0 then None else Some sql)
       else texts c !! i).
Proof.
  unfold PrepareStatement. rewrite bind_gets. intros E Hi.
  destruct (Z.land (m_connectionFlags c) flags =? 0).
  { destruct (store_stmt_texts _ _ _ _ E Hi) as (Ee & Ef & Er & El & Et).
    split; [done|split; [done|split; [done|]]]. intros H'. split; [congruence|done]. }
  apply bind_ret_inv in E as (ok & c1 & E1 & E).
  assert (c1 = set_server (server c1) c) as Ec1
    by (unfold lib in E1; destruct (mysql_stmt_init _); by simplify_eq).
  destruct ok; cbn [negb] in E; [|injection E as <-; rewrite Ec1; by repeat split].
  apply bind_ret_inv in E as (count & c2 & E2 & E).
  assert (c2 = set_server (server c2) c1) as Ec2
    by (unfold lib in E2; destruct (mysql_stmt_prepare _ _); by simplify_eq).
  rewrite Ec1 in Ec2. destruct count as [n|]; [|injection E as <-; rewrite Ec2; by repeat split].
  destruct (store_stmt_texts _ _ _ _ E Hi) as (Ee & Ef & Er & El & Et).
  rewrite Ec2 in *. cbn [set_server m_prepareError m_connectionFlags m_reconnecting m_stmts] in *.
  split; [done|split; [done|split; [done|]]]. intros H'. split; [congruence|done].
Qed.

Lemma prepare_all_texts l c c' :
  prepare_all l c = (Ret (), c') → Forall (λ e, 0 <= e.1.1) l →
  m_connectionFlags c' = m_connectionFlags c ∧ m_reconnecting c' = m_reconnecting c ∧
  length (m_stmts c') = length (m_stmts c) ∧
  (m_prepareError c' = false → m_prepareError c = false ∧
   ∀ (i : nat) text, texts c !! i = Some text →
     texts c' !! i = Some (foldl (λ text e, entry (m_connectionFlags c) text i e) text l)).
Proof.
  intros E F. revert c E. induction F as [|[[index sql] flags] l Hi F IH]; intros c E.
  { injection E as <-. by repeat split. }
  cbn [prepare_all] in E. apply bind_ret_inv in E as ([] & c1 & E1 & E).
  destruct (PrepareStatement_texts _ _ _ _ _ E1 Hi) as (F1 & R1 & L1 & P1).
  destruct (IH _ E) as (F2 & R2 & L2 & P2).
  split; [congruence|split; [congruence|split; [congruence|]]].
  intros H'. destruct (P2 H') as [H1 T2]. destruct (P1 H1) as [H0 T1]. split; [done|].
  rewrite F1 in T2. intros i text Et. apply T2. rewrite T1.
  - cbn [entry]. destruct (index =? Z.of_nat i); [|done].
    by destruct (Z.land (m_connectionFlags c) flags =? 0).
  - apply lookup_lt_Some in Et. unfold texts in Et. by rewrite length_map in Et.
Qed.

(** The statements of a fresh connection whose preparation succeeded. *)
Lemma PrepareStatements_texts (c c' : t) :
  m_stmts c = [] → m_reconnecting c = false → PrepareStatements c = (Ret true, c') →
  texts c' = map (prepared_text (m_connectionFlags c)) (seq 0 13).
Proof.
  intros Es Er E. unfold PrepareStatements in E.
  apply bind_ret_inv in E as ([] & c1 & E1 & E). rewrite bind_gets in E.
  injection E as Ee <-. apply negb_true_iff in Ee.
  unfold DoPrepareStatements in E1. rewrite bind_gets, Er in E1. cbn [negb] in E1.
  rewrite bind_modify in E1. set (c0 := set_stmts _ c) in E1.
  assert (texts c0 = replicate 13 None) as T0.
  { unfold texts, c0. cbn [m_stmts set_stmts]. rewrite Es. reflexivity. }
  assert (Forall (λ e : Z * string * Z, 0 <= e.1.1) statements) as F by (repeat constructor; done).
  destruct (prepare_all_texts _ _ _ E1 F) as (_ & _ & L & P). destruct (P Ee) as [_ T].
  apply list_eq. intros i. rewrite list_lookup_fmap.
  destruct (decide (i < 13)%nat) as [Hi|Hi].
  - rewrite lookup_seq_lt by done. cbn [fmap option_fmap option_map].
    rewrite (T i None); [done|]. rewrite T0. by apply lookup_replicate_2.
  - rewrite !lookup_ge_None_2; [done|rewrite length_seq; lia|].
    unfold texts. rewrite length_map, L. apply (f_equal length) in T0.
    unfold texts in T0. rewrite length_map, length_replicate in T0. lia.
Qed.

(** A connection whose preparation succeeded holds, for every statement the
    source names, the text of that statement where it is for its kind of
    connection, and nothing elsewhere, with one exception: the update of expired
    bans of accounts is the one meant for addresses, and the statement for expired
    bans of addresses is on no connection, so that executing it, which loading the
    bans does, fails an assertion. *)
Theorem discord_statements (c c' : t) (stack : nat) (stmt : PreparedStatement)
    (Hs : m_stmts c = []) (Hr : m_reconnecting c = false)
    (Hf : m_connectionFlags c = CONNECTION_ASYNC ∨ m_connectionFlags c = CONNECTION_SYNCH)
    (Hp : PrepareStatements c = (Ret true, c')) (Ho : m_Mysql c' = true)
    (Hi : m_index stmt = DISCORD_UPD_IP_BAN_EXPIRED) :
  (∀ index sql flags, (index, sql, flags) ∈ statements →
    index ≠ DISCORD_UPD_ACCOUNT_BAN_EXPIRED →
    texts c' !! Z.to_nat index =
      Some (if m_connectionFlags c =? flags then Some (str sql) else None)) ∧
  (m_connectionFlags c = CONNECTION_ASYNC →
    texts c' !! Z.to_nat DISCORD_UPD_ACCOUNT_BAN_EXPIRED =
      Some (Some (str "UPDATE `ip_banned` SET `active` = 0 WHERE `unbandate` <= UNIX_TIMESTAMP() AND `unbandate` <> `bandate`"))) ∧
  texts c' !! Z.to_nat DISCORD_UPD_IP_BAN_EXPIRED = Some None ∧
  (Execute_stmt (S stack) stmt c').1 = AssertFail.
Proof.
  pose proof (PrepareStatements_texts c c' Hs Hr Hp) as T.
  assert (texts c' !! 11%nat = Some None) as T11.
  { rewrite T. by destruct Hf as [-> | ->]. }
  split; [|split; [|split; [exact T11|]]].
  - intros index sql flags Hin Hne. rewrite T. unfold statements in Hin.
    repeat (apply elem_of_cons in Hin as [E|Hin];
      [simplify_eq; try done; by destruct Hf as [-> | ->]|]).
    by apply elem_of_nil in Hin.
  - intros E. rewrite T, E. reflexivity.
  - unfold texts in T11. rewrite list_lookup_fmap in T11.
    destruct (m_stmts c' !! 11%nat) as [o|] eqn:E; [|done].
    destruct o; [done|]. pose proof (lookup_lt_Some _ _ _ E) as L.
    unfold Execute_stmt. cbn [run_stmt]. unfold mbind at 1, M_bind at 1.
    rewrite bind_gets, Ho. cbn [negb]. unfold bind_stmt.
    unfold GetPreparedStatement. rewrite Hi.
    unfold mbind at 1, M_bind at 1. unfold mbind at 1, M_bind at 1. rewrite bind_gets.
    unfold assert_. change (Z.to_nat DISCORD_UPD_IP_BAN_EXPIRED) with 11%nat. rewrite E.
    rewrite (proj2 (Z.ltb_lt _ _)) by (unfold zlen, DISCORD_UPD_IP_BAN_EXPIRED; lia). done.
Qed.
End connection.
End Connection.

(** ** Witnesses

    A server that accepts everything and counts the question marks. *)

Definition kind_server : MySQL :=
  Build_MySQL unit (λ s, (true, s)) (λ _ s, (true, s)) id (λ _ _, 0) (λ _ s, (true, s))
    (λ _, mkQueryAnswer None 0 0 []) (λ s, (true, s))
    (λ sql s, (Some (zlen (List.filter (Z.eqb 63) sql)), s)) (λ _ s, (true, s)) (λ _ s, (true, s))
    (λ _ _, mkStatementAnswer false 0 0 (mkAnswers false 0 [] false []) (λ _, [])) id (λ _, 50700).

Lemma discord_statements_witness :
  let c := @Connection.new kind_server CONNECTION_ASYNC empty_info tt in
  let c' := exec (_ ← modify (Connection.set_Mysql true); Connection.PrepareStatements) c in
  Connection.texts c' !! Z.to_nat Connection.DISCORD_UPD_LOGON =
    Some (Some (str "UPDATE `account` SET `Salt` = ?, `Verifier` = ? WHERE `ID` = ?")) ∧
  (Connection.Execute_stmt 1 (Prepared.new Connection.DISCORD_UPD_IP_BAN_EXPIRED 0) c').1 = AssertFail.
Proof.
  intros c c'.
  assert (m_Mysql_set : Connection.PrepareStatements (Connection.set_Mysql true c) = (Ret true, c'))
    by (vm_compute; reflexivity).
  assert (Connection.m_Mysql c' = true) as Ho by (vm_compute; reflexivity).
  destruct (@Connection.discord_statements kind_server (Connection.set_Mysql true c) c' 0
    (Prepared.new Connection.DISCORD_UPD_IP_BAN_EXPIRED 0) eq_refl eq_refl
    (or_introl eq_refl) m_Mysql_set Ho eq_refl) as (T & _ & _ & A).
  split; [|exact A].
  rewrite (T Connection.DISCORD_UPD_LOGON
    "UPDATE `account` SET `Salt` = ?, `Verifier` = ? WHERE `ID` = ?"%string CONNECTION_ASYNC);
    [reflexivity| |discriminate].
  unfold Connection.statements. do 5 (apply list_elem_of_further). apply list_elem_of_here.
Defined.
