(* ===== verification/Transactions.v ===== *)
(** * Transactions: all or nothing

    Model of [Transaction.h], [Transaction.cpp] and
    [DatabaseWorkerPool::DirectCommitTransaction] under
    [src/src/database/Database], and what a transaction executed on a connection
    ([MySQL.v]) does to the database.  The server's promises are the laws of
    [MySQLTransactions]; times come from a list of clock readings. *)

From S2P Require Import Prelude Strings Statements Fields Results MySQL.
Open Scope Z_scope.

(** ** TransactionBase *)

Record TransactionBase := mkTransaction {
  m_queries : list SQLElementData;
  m_cleanedUp : bool
}.

Module Transaction.

Definition new : TransactionBase := mkTransaction [] false.

Definition Append (sql : list Z) (trans : TransactionBase) : TransactionBase :=
  mkTransaction (m_queries trans ++ [SQL_ELEMENT_RAW sql]) (m_cleanedUp trans).

Definition AppendPreparedStatement (stmt : option PreparedStatement) (trans : TransactionBase) :
    TransactionBase :=
  mkTransaction (m_queries trans ++ [SQL_ELEMENT_PREPARED stmt]) (m_cleanedUp trans).

Definition GetSize (trans : TransactionBase) : Z := zlen (m_queries trans).

Definition has_statement (e : SQLElementData) : bool :=
  match e with SQL_ELEMENT_PREPARED None => false | _ => true end.

(** Statements are deleted, and must be there; a second call does nothing. *)
Definition Cleanup (trans : TransactionBase) : outcome Empty_set TransactionBase :=
  if m_cleanedUp trans then Ret trans
  else if forallb has_statement (m_queries trans) then Ret (mkTransaction [] true)
  else AssertFail.
End Transaction.

(** ** Tasks *)

Definition DEADLOCK_MAX_RETRY_TIME_MS : Z := 60000.

Module Task.
Section task.
Context `{MySQL}.

(** The connection and the transaction. *)
Definition state : Type := Connection.t * TransactionBase.

Definition TryExecute (stack : nat) : M Empty_set state Z :=
  queries ← gets (λ s, m_queries s.2);
  zoom fst (λ c s, (c, s.2)) (Connection.ExecuteTransaction stack queries).

Definition CleanupOnFailure : M Empty_set state () := λ s,
  match Transaction.Cleanup s.2 with
  | Ret trans => (Ret (), (s.1, trans))
  | Throw e => (Throw e, s)
  | AssertFail => (AssertFail, s)
  | UB => (UB, s)
  end.

(** Retrying a deadlocked transaction: [readings] are the times passed at the end
    of each turn, after the last of which the time is over. *)
Fixpoint retry (stack : nat) (loopDuration : Z) (readings : list Z) : M Empty_set state bool :=
  if DEADLOCK_MAX_RETRY_TIME_MS <? loopDuration then mret false
  else
    e ← TryExecute stack;
    if e =? 0 then mret true
    else
      match readings with
      | [] => mret false
      | loopDuration :: readings => retry stack loopDuration readings
      end.

(** [TransactionTask::Execute] *)
Definition Execute (stack : nat) (readings : list Z) : M Empty_set state bool :=
  errorCode ← TryExecute stack;
  if errorCode =? 0 then mret true
  else
    ok ← (if errorCode =? ER_LOCK_DEADLOCK then retry stack 0 readings else mret false);
    if (ok : bool) then mret true
    else _ ← CleanupOnFailure; mret false.

(** [TransactionWithResultTask::Execute] does the same and fulfils a promise; the
    result is the values it was given. *)
Definition ExecuteWithResult (stack : nat) (readings : list Z) :
    M Empty_set state (bool * list bool) :=
  errorCode ← TryExecute stack;
  if errorCode =? 0 then mret (true, [true])
  else
    ok ← (if errorCode =? ER_LOCK_DEADLOCK then retry stack 0 readings else mret false);
    if (ok : bool) then mret (true, [true])
    else _ ← CleanupOnFailure; mret (false, [false]).

(** [DirectCommitTransaction] on the connection it was given: up to five more
    tries, and the transaction is cleaned up unless the first try succeeded. *)
Fixpoint direct_retry (stack loopBreaker : nat) : M Empty_set state () :=
  match loopBreaker with
  | O => skip
  | S loopBreaker =>
      e ← TryExecute stack;
      if e =? 0 then skip else direct_retry stack loopBreaker
  end.

Definition DirectCommitTransaction (stack : nat) : M Empty_set state () :=
  errorCode ← TryExecute stack;
  if errorCode =? 0 then skip
  else
    _ ← (if errorCode =? ER_LOCK_DEADLOCK then direct_retry stack 5 else skip);
    CleanupOnFailure.
End task.
End Task.

(** ** What the server promises

    [committed] is what everybody sees, [working] what an open transaction of this
    connection sees.  [plain] texts are those that neither control transactions
    nor commit implicitly.  A statement that controls the transaction may be
    refused; one that is takes no effect on what everybody sees. *)

Class MySQLTransactions `{MySQL} := {
  DB : Type;
  committed : Server → DB;
  working : Server → option DB;
  plain : list Z → Prop;
  does_text : list Z → DB → DB → Prop;
  does_stmt : list Z → list (option StatementData) → DB → DB → Prop;

  start_law : ∀ s ok s', mysql_query (str "START TRANSACTION") s = (ok, s') →
    working s = None →
    committed s' = committed s ∧ working s' = if ok then Some (committed s) else None;
  commit_law : ∀ s ok s', mysql_query (str "COMMIT") s = (ok, s') →
    if ok then working s' = None ∧ committed s' = default (committed s) (working s)
    else committed s' = committed s;
  rollback_law : ∀ s ok s', mysql_query (str "ROLLBACK") s = (ok, s') →
    committed s' = committed s ∧ (ok = true → working s' = None);
  query_law : ∀ sql s s' d, plain sql → working s = Some d → mysql_query sql s = (true, s') →
    ∃ d', does_text sql d d' ∧ working s' = Some d' ∧ committed s' = committed s;
  query_error : ∀ sql s s' d, plain sql → working s = Some d → mysql_query sql s = (false, s') →
    committed s' = committed s ∧ mysql_errno true s' ≠ 0;
  bind_law : ∀ st s ok s', mysql_stmt_bind_param st s = (ok, s') →
    committed s' = committed s ∧
    if ok then working s' = working s else mysql_errno true s' ≠ 0;
  execute_law : ∀ st s s' d, plain (m_queryString st) → working s = Some d →
    mysql_stmt_execute st s = (true, s') →
    ∃ d', does_stmt (m_queryString st) (map read_bind (m_bind st)) d d' ∧
      working s' = Some d' ∧ committed s' = committed s;
  execute_error : ∀ st s s' d, plain (m_queryString st) → working s = Some d →
    mysql_stmt_execute st s = (false, s') →
    committed s' = committed s ∧ mysql_errno true s' ≠ 0
}.

Module Atomic.
Import Connection.
Section atomic.
Context `{MySQLTransactions}.

(** The connection is not lost while a transaction runs. *)
Context (Hsteady : ∀ s, is_lost (mysql_errno true s) = false ∧
                        mysql_errno true s ≠ CR_CONN_HOST_ERROR).

(** The server does not refuse to start a transaction or to roll one back; it
    may refuse to commit one. *)
Context (Hcontrol : ∀ s, (mysql_query (str "START TRANSACTION") s).1 = true ∧
                         (mysql_query (str "ROLLBACK") s).1 = true).

(** What the prepared statements of a connection are, and that they are ready. *)
Definition shape (c : t) : list (option (list Z * Z)) :=
  map (fmap (λ s, (m_queryString s, m_paramCount s))) (m_stmts c).

Definition ready (c : t) : Prop :=
  m_Mysql c = true ∧ Forall (λ o, ∀ s, o = Some s → clean s) (m_stmts c).

(** The same connection, apart from what the server did. *)
Definition same_connection (c c' : t) : Prop :=
  ready c' ∧ shape c' = shape c.

(** Elements a transaction can execute: texts, and statements with a value for
    every parameter. *)
Definition element_ok (sh : list (option (list Z * Z))) (e : SQLElementData) : Prop :=
  match e with
  | SQL_ELEMENT_RAW sql => sql ≠ [] ∧ plain (c_str sql)
  | SQL_ELEMENT_PREPARED None => False
  | SQL_ELEMENT_PREPARED (Some stmt) =>
      0 <= m_index stmt ∧ zlen (statement_data stmt) < 256 ∧
      Forall (λ d, Statements.fits d = true) (statement_data stmt) ∧
      ∃ text, sh !! Z.to_nat (m_index stmt) = Some (Some (text, zlen (statement_data stmt))) ∧
        plain text
  end.

(** The effect of an element, and of all of them in order. *)
Definition does (sh : list (option (list Z * Z))) (e : SQLElementData) (d d' : DB) : Prop :=
  match e with
  | SQL_ELEMENT_RAW sql => does_text (c_str sql) d d'
  | SQL_ELEMENT_PREPARED None => False
  | SQL_ELEMENT_PREPARED (Some stmt) =>
      ∃ text n, sh !! Z.to_nat (m_index stmt) = Some (Some (text, n)) ∧
        does_stmt text (map (λ v, Some (on_wire v)) (statement_data stmt)) d d'
  end.

Fixpoint does_all (sh : list (option (list Z * Z))) (es : list SQLElementData) (d d' : DB) : Prop :=
  match es with
  | [] => d' = d
  | e :: es => ∃ m, does sh e d m ∧ does_all sh es m d'
  end.

Lemma HandleError_steady (c : t) :
  HandleError c = (Ret false, c) ∨ HandleError c = (AssertFail, c).
Proof using Hsteady.
  unfold HandleError. rewrite bind_gets. destruct (Hsteady (server c)) as [L N].
  cbn [HandleMySQLErrno]. rewrite L, (proj2 (Z.eqb_neq _ _) N). cbn [orb].
  destruct (is_fatal _); [by right|by left].
Qed.

(** What a failing call leaves: the query is skipped, or the process ends. *)
Definition gives_up {A} (r : outcome Empty_set A) (a : A) : Prop := r = Ret a ∨ r = AssertFail.

Lemma HandleError_then {A} (c : t) (k : bool → M Empty_set t A) (a : A) c' :
  k false c = (Ret a, c') →
  (HandleError ≫= k) c = (Ret a, c') ∨ (HandleError ≫= k) c = (AssertFail, c).
Proof using Hsteady.
  intros E. destruct (HandleError_steady c) as [Hc|Hc].
  - left. by rewrite (bind_run _ _ _ _ _ Hc).
  - right. unfold mbind, M_bind. by rewrite Hc.
Qed.

Lemma Execute_steady stack sql (c : t) ok s' :
  m_Mysql c = true → mysql_query (c_str sql) (server c) = (ok, s') →
  (Execute (S stack) sql c).2 = set_server s' c ∧
  if ok then (Execute (S stack) sql c).1 = Ret true
  else gives_up (Execute (S stack) sql c).1 false.
Proof using Hsteady.
  intros Ho E. cbn [Execute]. rewrite bind_gets, Ho. cbn [negb].
  assert (lib (mysql_query (c_str sql)) c = (Ret ok, set_server s' c)) as El
    by (unfold lib; by rewrite E).
  rewrite (bind_run _ _ _ _ _ El). destruct ok; [done|].
  edestruct (HandleError_then (set_server s' c)
    (λ handled, if (handled : bool) then Execute stack sql else mret false) false) as [->| ->];
    [done| |]; unfold gives_up; auto.
Qed.

Lemma same_refl c : ready c → same_connection c c.
Proof. by split. Qed.

Lemma same_server c c' s :
  same_connection c c' → same_connection c (set_server s c').
Proof. intros [[Ho F] S]. by repeat split. Qed.

Lemma same_trans c1 c2 c3 :
  same_connection c1 c2 → same_connection c2 c3 → same_connection c1 c3.
Proof. intros [_ S1] [R S2]. split; [done|congruence]. Qed.

(** Storing a statement of the same shape. *)
Lemma shape_insert c i s s0 :
  m_stmts c !! i = Some (Some s0) → m_queryString s = m_queryString s0 →
  m_paramCount s = m_paramCount s0 →
  shape (set_stmts (<[i := Some s]> (m_stmts c)) c) = shape c.
Proof.
  intros E Q P. unfold shape. cbn [m_stmts set_stmts].
  change map with (@fmap list list_fmap). rewrite list_fmap_insert. apply list_insert_id.
  rewrite list_lookup_fmap, E. cbn. by rewrite Q, P.
Qed.

Lemma bind_stmt_ready (c : t) stmt :
  ready c → element_ok (shape c) (SQL_ELEMENT_PREPARED (Some stmt)) →
  ∃ s0 s text, m_stmts c !! Z.to_nat (m_index stmt) = Some (Some s0) ∧
    bind_stmt stmt c = (Ret s, set_stmts (<[Z.to_nat (m_index stmt) := Some s]> (m_stmts c)) c) ∧
    m_queryString s = m_queryString s0 ∧ m_paramCount s = m_paramCount s0 ∧
    shape c !! Z.to_nat (m_index stmt) = Some (Some (text, m_paramCount s0)) ∧
    m_queryString s0 = text ∧ plain text ∧
    map read_bind (m_bind s) = map (λ v, Some (on_wire v)) (statement_data stmt) ∧
    clean (Bound.ClearParameters s).
Proof.
  intros [Ho F] (Hi & Hn & Hfit & text & Esh & Hp).
  pose proof Esh as E. unfold shape in E. rewrite list_lookup_fmap in E.
  destruct (m_stmts c !! Z.to_nat (m_index stmt)) as [[s0|]|] eqn:E0; try done.
  cbn in E. injection E as Eq Ec.
  rewrite Forall_lookup in F. pose proof (F _ _ E0 s0 eq_refl) as C. pose proof C as [CS CB _].
  pose proof (Bound_facts.BindParameters_clean stmt s0 C Hn) as EB.
  rewrite <- Ec in EB. specialize (EB (Z.le_refl _)).
  assert (length (statement_data stmt) = length (m_bind s0)) as EL by (unfold zlen in *; lia).
  rewrite EL, (drop_all (m_bind s0)), app_nil_r in EB.
  set (s := mkMySQLStatement _ _ _ _ _) in EB.
  exists s0, s, text. split; [done|]. split.
  { unfold bind_stmt, GetPreparedStatement.
    rewrite (bind_run _ _ c (Some s0) c).
    - rewrite EB. done.
    - rewrite bind_gets. unfold assert_. pose proof (lookup_lt_Some _ _ _ E0).
      unfold mbind, M_bind. rewrite (proj2 (Z.ltb_lt _ _)) by (unfold zlen; lia).
      by rewrite E0. }
  split; [done|]. split; [by unfold s; cbn; rewrite Ec|]. split; [by rewrite Esh, Ec|].
  split; [done|]. split; [done|]. split.
  { unfold s. cbn [m_bind]. apply Bound_facts.read_zip; [done|lia]. }
  apply Bound_facts.ClearParameters_clean; unfold s; cbn [m_paramsSet m_bind m_paramCount].
  - rewrite length_app, length_replicate, CS, length_drop, length_replicate. unfold zlen in *. lia.
  - rewrite length_zip_with. unfold zlen in *. lia.
Qed.

Lemma ready_insert c i s : ready c → clean s → ready (set_stmts (<[i := Some s]> (m_stmts c)) c).
Proof.
  intros [Ho F] C. split; [done|]. cbn [m_stmts set_stmts].
  apply Forall_insert; [done|]. by intros ? [= <-].
Qed.

(** One element in an open transaction. *)
Definition element_done (sh : list (option (list Z * Z))) (e : SQLElementData) (c : t) (d : DB)
    (r : outcome Empty_set bool * t) : Prop :=
  let '(o, c') := r in
  committed (server c') = committed (server c) ∧
  ((∃ d', o = Ret true ∧ same_connection c c' ∧ does sh e d d' ∧ working (server c') = Some d') ∨
   (o = Ret false ∧ same_connection c c' ∧ mysql_errno true (server c') ≠ 0) ∨
   o = AssertFail).

Lemma run_raw stack sql c d :
  ready c → element_ok (shape c) (SQL_ELEMENT_RAW sql) → working (server c) = Some d →
  element_done (shape c) (SQL_ELEMENT_RAW sql) c d (run_element (S stack) (SQL_ELEMENT_RAW sql) c).
Proof using Hsteady.
  intros R [Hne Hp] W. cbn [run_element]. rewrite bool_decide_eq_false_2 by done.
  rewrite (bind_run (assert_ true) _ c () c) by done.
  destruct (mysql_query (c_str sql) (server c)) as [ok s'] eqn:E.
  destruct (Execute_steady stack sql c ok s' (proj1 R) E) as [E2 E1].
  destruct (Execute (S stack) sql c) as [o c'] eqn:EE. cbn [fst snd] in *. subst c'.
  cbn [element_done server set_server]. destruct ok.
  - destruct (query_law _ _ _ _ Hp W E) as (d' & D & W' & C'). split; [done|]. left.
    exists d'. split; [done|]. split; [by apply same_server, same_refl|]. done.
  - destruct (query_error _ _ _ _ Hp W E) as [C' N]. split; [done|]. right.
    destruct E1 as [-> | ->]; [left|by right]. split; [done|].
    split; [by apply same_server, same_refl|done].
Qed.

(** The two calls that execute a bound statement. *)
Lemma bind_and_execute s c d :
  plain (m_queryString s) → working (server c) = Some d →
  ∃ ok sv,
    (ok ← lib (mysql_stmt_bind_param s);
     if (ok : bool) then lib (mysql_stmt_execute s) else mret false) c = (Ret ok, set_server sv c) ∧
    committed sv = committed (server c) ∧
    if ok then ∃ d', does_stmt (m_queryString s) (map read_bind (m_bind s)) d d' ∧ working sv = Some d'
    else mysql_errno true sv ≠ 0.
Proof.
  intros Hp W. destruct (mysql_stmt_bind_param s (server c)) as [ok1 s1] eqn:E1.
  assert (lib (mysql_stmt_bind_param s) c = (Ret ok1, set_server s1 c)) as L1
    by (unfold lib; by rewrite E1).
  rewrite (bind_run _ _ _ _ _ L1). destruct (bind_law _ _ _ _ E1) as [C1 W1]. destruct ok1.
  - rewrite W in W1. destruct (mysql_stmt_execute s s1) as [ok2 s2] eqn:E2.
    exists ok2, s2. split.
    { unfold lib. cbn [server set_server]. by rewrite E2. }
    destruct ok2.
    + destruct (execute_law _ _ _ _ Hp W1 E2) as (d' & D & W2 & C2). split; [congruence|]. by exists d'.
    + destruct (execute_error _ _ _ _ Hp W1 E2) as [C2 N]. split; [congruence|done].
  - exists false, s1. done.
Qed.

Lemma run_stmt_steady stack stmt c d :
  ready c → element_ok (shape c) (SQL_ELEMENT_PREPARED (Some stmt)) →
  working (server c) = Some d →
  element_done (shape c) (SQL_ELEMENT_PREPARED (Some stmt)) c d
    (run_element (S stack) (SQL_ELEMENT_PREPARED (Some stmt)) c).
Proof using Hsteady.
  intros R OK W.
  destruct (bind_stmt_ready c stmt R OK) as (s0 & s & text & E0 & EB & Q & P & Sh & Et & Hp & Rd & Cl).
  cbn [run_element]. unfold Execute_stmt. cbn [run_stmt].
  set (i := Z.to_nat (m_index stmt)) in *.
  set (c1 := set_stmts (<[i := Some s]> (m_stmts c)) c) in *.
  assert (∀ sv, same_connection c (set_stmts (<[i := Some (Bound.ClearParameters s)]> (m_stmts c1)) (set_server sv c1))) as SC.
  { intros sv. split.
    - unfold c1. cbn [m_stmts set_stmts]. rewrite list_insert_insert_eq.
      by destruct (ready_insert c i _ R Cl) as [Ho F].
    - unfold c1. cbn [m_stmts set_stmts]. rewrite list_insert_insert_eq.
      by apply (shape_insert c i _ s0). }
  assert (working (server c1) = Some d) as W1 by done.
  rewrite <- Et, <- Q in Hp.
  destruct (bind_and_execute s c1 d Hp W1) as (ok & sv & EX & C & D).
  unfold mbind at 1, M_bind at 1. rewrite bind_gets, (proj1 R). cbn [negb].
  rewrite (bind_run _ _ _ _ _ EB). rewrite (bind_run _ _ _ _ _ EX). destruct ok.
  - unfold update_stmt. rewrite bind_modify. cbn [element_done]. split; [exact C|]. left.
    destruct D as (d' & D & W'). exists d'. split; [done|]. split; [exact (SC sv)|]. split; [|exact W'].
    exists text, (m_paramCount s0). split; [exact Sh|]. by rewrite <- Et, <- Q, <- Rd.
  - edestruct (HandleError_then (set_server sv c1)
      (λ handled, if (handled : bool) then run_stmt stack stmt
                  else _ ← update_stmt (m_index stmt) (Bound.ClearParameters s); mret None) None)
      as [-> | ->]; [unfold update_stmt; by rewrite bind_modify| |].
    + cbn [element_done]. split; [exact C|]. right. left. split; [done|]. split; [exact (SC sv)|exact D].
    + cbn [element_done]. split; [exact C|]. by do 2 right.
Qed.

Lemma run_element_steady stack e c d :
  ready c → element_ok (shape c) e → working (server c) = Some d →
  element_done (shape c) e c d (run_element (S stack) e c).
Proof using Hsteady.
  destruct e as [sql|[stmt|]]; [apply run_raw|apply run_stmt_steady|].
  intros _ [].
Qed.

(** A transaction control statement. *)
Lemma control_steady stack sql (c : t) s' :
  m_Mysql c = true → c_str sql = sql → mysql_query sql (server c) = (true, s') →
  (_ ← Execute (S stack) sql; skip) c = (Ret (), set_server s' c).
Proof using Hsteady.
  intros Ho Es E. rewrite <- Es in E at 1. destruct (Execute_steady stack sql c true s' Ho E) as [E2 E1].
  destruct (Execute (S stack) sql c) as [o c'] eqn:EE. cbn [fst snd] in *. subst.
  by rewrite (bind_run _ _ _ _ _ EE).
Qed.

(** The elements ran, on what [d] was, and [COMMIT] was refused after them. *)
Definition commit_refused (sh : list (option (list Z * Z))) (es : list SQLElementData) (d : DB)
    (c' : t) : Prop :=
  ∃ sv d', working sv = Some d' ∧ does_all sh es d d' ∧
    mysql_query (str "COMMIT") sv = (false, server c') ∧ committed (server c') = committed sv.

Lemma commit_steady stack c d :
  ready c → working (server c) = Some d →
  let '(o, c') := CommitTransaction (S stack) c in
  same_connection c c' ∧
  ((o = Ret () ∧ committed (server c') = d) ∨
   (gives_up o () ∧ committed (server c') = committed (server c) ∧ commit_refused (shape c) [] d c')).
Proof using Hsteady.
  intros R W. unfold CommitTransaction.
  destruct (mysql_query (str "COMMIT") (server c)) as [ok s'] eqn:E.
  pose proof (commit_law _ _ _ E) as CL.
  destruct (Execute_steady stack (str "COMMIT") c ok s' (proj1 R) E) as [E2 E1].
  destruct (Execute (S stack) (str "COMMIT") c) as [o c'] eqn:EE. cbn [fst snd] in *. subst c'.
  assert (same_connection c (set_server s' c)) as SC by (by apply same_server, same_refl).
  assert (ok = false → commit_refused (shape c) [] d (set_server s' c)) as Hr.
  { intros ->. exists (server c), d. split; [done|]. split; [done|]. by split. }
  destruct ok.
  - rewrite E1 in EE. rewrite (bind_run _ _ _ _ _ EE). destruct CL as [_ C].
    split; [done|left]. split; [done|]. cbn. by rewrite C, W.
  - destruct E1 as [-> | ->]; [rewrite (bind_run _ _ _ _ _ EE)|unfold mbind, M_bind; rewrite EE];
      (split; [done|right]); (split; [unfold gives_up; auto|split; [done|auto]]).
Qed.

Lemma run_elements_steady stack sh es c d :
  ready c → shape c = sh → Forall (element_ok sh) es → working (server c) = Some d →
  let '(o, c') := run_elements (S stack) es c in
  (o = Ret 0 ∧ same_connection c c' ∧
    (does_all sh es d (committed (server c')) ∨
     (committed (server c') = committed (server c) ∧ commit_refused sh es d c'))) ∨
  (committed (server c') = committed (server c) ∧
   ((∃ e, o = Ret e ∧ e ≠ 0 ∧ same_connection c c' ∧ working (server c') = None) ∨
    o = AssertFail)).
Proof using Hcontrol Hsteady.
  intros R Sh F. revert c d R Sh. induction F as [|e es Hok F IH]; intros c d R Sh W; cbn [run_elements].
  - pose proof (commit_steady stack c d R W) as D.
    destruct (CommitTransaction (S stack) c) as [o c'] eqn:E.
    destruct D as (SC & [[-> C]|([-> | ->] & C & Hr)]).
    + rewrite (bind_run _ _ _ _ _ E). left. split; [done|]. split; [done|]. by left.
    + rewrite (bind_run _ _ _ _ _ E). left. split; [done|]. split; [done|]. right.
      by rewrite <- Sh.
    + unfold mbind, M_bind. rewrite E. right. split; [done|by right].
  - rewrite <- Sh in Hok. pose proof (run_element_steady stack e c d R Hok W) as D.
    destruct (run_element (S stack) e c) as [o c1] eqn:E.
    destruct D as [C [(d' & -> & S1 & De & W')|[(-> & S1 & N)| ->]]].
    + rewrite (bind_run _ _ _ _ _ E). pose proof S1 as [R1 Sh1].
      specialize (IH c1 d' R1 (eq_trans Sh1 Sh) W').
      destruct (run_elements (S stack) es c1) as [o c2].
      rewrite Sh in De.
      destruct IH as [(-> & S2 & DA)|(C2 & [(e' & -> & N & S2 & W2)| ->])].
      * left. split; [done|]. split; [by eapply same_trans|].
        destruct DA as [DA|(C2 & sv & d2 & Wv & DA & Hr)]; [left; by exists d'|right].
        split; [congruence|]. exists sv, d2. split; [done|]. split; [by exists d'|done].
      * right. split; [congruence|]. left. exists e'. split; [done|]. split; [done|].
        split; [by eapply same_trans|done].
      * right. split; [congruence|by right].
    + rewrite (bind_run _ _ _ _ _ E). unfold GetLastError. rewrite bind_gets.
      destruct S1 as [R1 Sh1]. rewrite (proj1 R1).
      destruct (mysql_query (str "ROLLBACK") (server c1)) as [ok s'] eqn:E'.
      destruct (rollback_law _ _ _ E') as (C' & W').
      pose proof (proj2 (Hcontrol (server c1))) as Ok. rewrite E' in Ok. cbn in Ok. subst ok.
      specialize (W' eq_refl).
      unfold RollbackTransaction.
      rewrite (bind_run _ _ _ _ _ (control_steady stack _ c1 s' (proj1 R1) eq_refl E')).
      right. split; [cbn [server set_server]; congruence|]. left. eexists. split; [done|].
      split; [done|]. split; [|done]. by apply same_server.
    + unfold mbind, M_bind. rewrite E. right. split; [done|by right].
Qed.

(** What executing a transaction does, whole. *)
Definition transacted (sh : list (option (list Z * Z))) (es : list SQLElementData) (c : t)
    (r : outcome Empty_set Z * t) : Prop :=
  let '(o, c') := r in
  (o = Ret 0 ∧ same_connection c c' ∧
    (does_all sh es (committed (server c)) (committed (server c')) ∨
     (committed (server c') = committed (server c) ∧
      commit_refused sh es (committed (server c)) c'))) ∨
  (committed (server c') = committed (server c) ∧
   ((∃ e, o = Ret e ∧ e ≠ 0 ∧ same_connection c c' ∧ working (server c') = None) ∨
    o = AssertFail)).

Lemma ExecuteTransaction_steady stack es c :
  ready c → Forall (element_ok (shape c)) es → working (server c) = None →
  transacted (shape c) es c (ExecuteTransaction (S stack) es c).
Proof using Hcontrol Hsteady.
  intros R F W. unfold ExecuteTransaction. destruct (bool_decide (es = [])).
  { right. split; [done|]. left. exists (-1). split; [done|]. split; [done|].
    split; [by apply same_refl|done]. }
  destruct (mysql_query (str "START TRANSACTION") (server c)) as [ok s'] eqn:E.
  pose proof (proj1 (Hcontrol (server c))) as Ok. rewrite E in Ok. cbn in Ok. subst ok.
  destruct (start_law _ _ _ E W) as (C' & W').
  unfold BeginTransaction.
  rewrite (bind_run _ _ _ _ _ (control_steady stack _ c s' (proj1 R) eq_refl E)).
  assert (same_connection c (set_server s' c)) as S1 by (by apply same_server, same_refl).
  pose proof (run_elements_steady stack (shape c) es (set_server s' c) _ (proj1 S1) eq_refl F W') as D.
  unfold transacted. destruct (run_elements (S stack) es (set_server s' c)) as [o c'].
  cbn [server set_server] in D. rewrite C' in D.
  destruct D as [(? & S2 & ?)|(? & [(e & ? & ? & S2 & ?)|?])].
  - left. split; [done|]. split; [exact (same_trans _ _ _ S1 S2)|]. done.
  - right. split; [done|]. left. exists e. split; [done|]. split; [done|].
    split; [exact (same_trans _ _ _ S1 S2)|done].
  - right. split; [done|by right].
Qed.

(** ** The tasks *)

(** All the queries took effect; or none. *)
Definition committed_all (c : t) (trans : TransactionBase) (s' : Task.state) : Prop :=
  does_all (shape c) (m_queries trans) (committed (server c)) (committed (server s'.1)).

Definition unchanged (c : t) (s' : Task.state) : Prop :=
  committed (server s'.1) = committed (server c).

(** All the queries ran and took effect, unless the server refused [COMMIT], when
    none did. *)
Definition executed (c : t) (trans : TransactionBase) (s' : Task.state) : Prop :=
  committed_all c trans s' ∨
  (unchanged c s' ∧ commit_refused (shape c) (m_queries trans) (committed (server c)) s'.1).

(** Nothing took effect, and the connection is as it was. *)
Definition resumable (c : t) (s' : Task.state) : Prop :=
  unchanged c s' ∧ same_connection c s'.1 ∧ working (server s'.1) = None.

(** What a try, or several, may end in; [v] is the value for success, [w] the
    values for failure. *)
Definition tried {A} (c : t) (trans : TransactionBase) (v : A) (w : A → Prop)
    (r : outcome Empty_set A * Task.state) : Prop :=
  let '(o, s') := r in
  (o = Ret v ∧ s'.2 = trans ∧ executed c trans s') ∨
  (∃ e, o = Ret e ∧ w e ∧ s'.2 = trans ∧ resumable c s') ∨
  (o = AssertFail ∧ unchanged c s').

(** The connection and the transaction before a try. *)
Definition can_try (c : t) (trans : TransactionBase) : Prop :=
  ready c ∧ Forall (element_ok (shape c)) (m_queries trans) ∧ working (server c) = None.

Lemma TryExecute_steady stack c trans c1 :
  can_try c trans → resumable c (c1, trans) →
  tried c trans 0 (λ e, e ≠ 0) (Task.TryExecute (S stack) (c1, trans)).
Proof using Hcontrol Hsteady.
  intros (_ & F & _) (U & [R1 Sh1] & W1). cbn [fst snd] in *. rewrite <- Sh1 in F.
  unfold unchanged in U. cbn [fst] in U.
  pose proof (ExecuteTransaction_steady stack (m_queries trans) c1 R1 F W1) as D.
  unfold Task.TryExecute. rewrite bind_gets. unfold zoom. cbn [fst snd].
  destruct (ExecuteTransaction (S stack) (m_queries trans) c1) as [o c2].
  unfold tried, executed, committed_all, resumable, unchanged. cbn [fst snd].
  destruct D as [(-> & S2 & DA)|(C2 & [(e & -> & N & S2 & W2)| ->])].
  - left. rewrite Sh1, U in DA. done.
  - right. left. exists e. split; [done|split; [done|split; [done|]]].
    split; [congruence|]. split; [|done]. destruct S2 as [R2 Sh2]. split; [done|congruence].
  - right. right. split; [done|congruence].
Qed.

Lemma resumable_refl c trans : can_try c trans → resumable c (c, trans).
Proof. intros (R & _ & W). by repeat split; try apply R. Qed.

Lemma retry_steady stack c trans readings d c1 :
  can_try c trans → resumable c (c1, trans) →
  tried c trans true (λ b, b = false) (Task.retry (S stack) d readings (c1, trans)).
Proof using Hcontrol Hsteady.
  intros T. revert d c1. induction readings as [|r readings IH]; intros d c1 Rs; cbn [Task.retry];
    (destruct (DEADLOCK_MAX_RETRY_TIME_MS <? d); [right; left; by exists false|]);
    pose proof (TryExecute_steady stack c trans c1 T Rs) as D;
    destruct (Task.TryExecute (S stack) (c1, trans)) as [o [c2 trans2]] eqn:E;
    destruct D as [(-> & E2 & CA)|[(e & -> & N & E2 & R2)|[-> U]]];
    cbn [snd] in *; subst;
    try (rewrite (bind_run _ _ _ _ _ E)); try (unfold mbind, M_bind; rewrite E);
    try (by left); try (by right; right).
  - rewrite (proj2 (Z.eqb_neq _ _) N). right. left. by exists false.
  - rewrite (proj2 (Z.eqb_neq _ _) N). by apply IH.
Qed.

(** Both tasks and the direct commit: try, retry a deadlock, clean up. *)
Lemma Cleanup_ok c trans :
  can_try c trans → m_cleanedUp trans = false →
  Transaction.Cleanup trans = Ret (mkTransaction [] true).
Proof.
  intros (_ & F & _) E. unfold Transaction.Cleanup. rewrite E.
  rewrite (proj2 (forallb_forall _ _)); [done|]. intros e He.
  rewrite Forall_forall in F. specialize (F e (proj2 (list_elem_of_In _ _) He)).
  by destruct e as [|[]].
Qed.

Lemma CleanupOnFailure_ok c trans c1 :
  can_try c trans → m_cleanedUp trans = false →
  Task.CleanupOnFailure (c1, trans) = (Ret (), (c1, mkTransaction [] true)).
Proof. intros T E. unfold Task.CleanupOnFailure. cbn [fst snd]. by rewrite (Cleanup_ok c). Qed.

(** The end of an execution. *)
Definition ended {A} (c : t) (trans : TransactionBase) (yes no : A)
    (r : outcome Empty_set A * Task.state) : Prop :=
  let '(o, s') := r in
  (o = Ret yes ∧ executed c trans s' ∧ s'.2 = trans) ∨
  (o = Ret no ∧ unchanged c s' ∧ m_queries s'.2 = []) ∨
  (o = AssertFail ∧ unchanged c s').

Lemma Execute_ended stack readings c trans :
  can_try c trans → m_cleanedUp trans = false →
  ended c trans true false (Task.Execute (S stack) readings (c, trans)).
Proof using Hcontrol Hsteady.
  intros T E0. unfold Task.Execute.
  pose proof (TryExecute_steady stack c trans c T (resumable_refl c trans T)) as D.
  destruct (Task.TryExecute (S stack) (c, trans)) as [o [c2 trans2]] eqn:E.
  destruct D as [(-> & E2 & CA)|[(e & -> & N & E2 & R2)|[-> U]]]; cbn [snd] in *; subst.
  - rewrite (bind_run _ _ _ _ _ E). by left.
  - rewrite (bind_run _ _ _ _ _ E), (proj2 (Z.eqb_neq _ _) N).
    pose proof (retry_steady stack c trans readings 0 c2 T R2) as D.
    destruct (e =? ER_LOCK_DEADLOCK).
    + destruct (Task.retry (S stack) 0 readings (c2, trans)) as [o [c3 trans3]] eqn:E3.
      destruct D as [(-> & E4 & CA)|[(b & -> & -> & E4 & R3)|[-> U]]]; cbn [snd] in *; subst.
      * rewrite (bind_run _ _ _ _ _ E3). by left.
      * rewrite (bind_run _ _ _ _ _ E3), (bind_run _ _ _ _ _ (CleanupOnFailure_ok c _ c3 T E0)).
        right. left. split; [done|]. split; [exact (proj1 R3)|done].
      * unfold mbind, M_bind. rewrite E3. by right; right.
    + rewrite (bind_run (mret false) _ _ false _) by done.
      rewrite (bind_run _ _ _ _ _ (CleanupOnFailure_ok c _ c2 T E0)).
      right. left. split; [done|]. split; [exact (proj1 R2)|done].
  - unfold mbind, M_bind. rewrite E. by right; right.
Qed.

(** The task with a result is the other one and a promise. *)
Lemma ExecuteWithResult_Execute stack readings s :
  Task.ExecuteWithResult stack readings s =
  (b ← Task.Execute stack readings; mret (b, [b])) s.
Proof.
  unfold Task.ExecuteWithResult, Task.Execute, mbind, M_bind.
  destruct (Task.TryExecute stack s) as [[e| | |] s1]; try done.
  destruct (e =? 0); [done|].
  destruct ((if e =? ER_LOCK_DEADLOCK then Task.retry stack 0 readings else mret false) s1)
    as [[[]| | |] s2]; try done.
  by destruct (Task.CleanupOnFailure s2) as [[]].
Qed.

Lemma executed_or c trans s' : executed c trans s' → committed_all c trans s' ∨ unchanged c s'.
Proof. intros [|[]]; auto. Qed.

Lemma direct_retry_steady stack n c trans c1 :
  can_try c trans → resumable c (c1, trans) →
  let '(o, s') := Task.direct_retry (S stack) n (c1, trans) in
  (o = Ret () ∧ s'.2 = trans ∧ (committed_all c trans s' ∨ unchanged c s')) ∨
  (o = AssertFail ∧ unchanged c s').
Proof using Hcontrol Hsteady.
  intros T. revert c1. induction n as [|n IH]; intros c1 Rs; cbn [Task.direct_retry].
  { left. split; [done|split; [done|]]. right. apply Rs. }
  pose proof (TryExecute_steady stack c trans c1 T Rs) as D.
  destruct (Task.TryExecute (S stack) (c1, trans)) as [o [c2 trans2]] eqn:E.
  destruct D as [(-> & E2 & CA)|[(e & -> & N & E2 & R2)|[-> U]]]; cbn [snd] in *; subst.
  - rewrite (bind_run _ _ _ _ _ E). left. split; [done|split; [done|]]. by apply executed_or.
  - rewrite (bind_run _ _ _ _ _ E), (proj2 (Z.eqb_neq _ _) N). by apply IH.
  - unfold mbind, M_bind. rewrite E. by right.
Qed.

Lemma Direct_ended stack c trans :
  can_try c trans → m_cleanedUp trans = false →
  let '(o, s') := Task.DirectCommitTransaction (S stack) (c, trans) in
  (o = Ret () ∧ (committed_all c trans s' ∨ unchanged c s')) ∨ (o = AssertFail ∧ unchanged c s').
Proof using Hcontrol Hsteady.
  intros T E0. unfold Task.DirectCommitTransaction.
  pose proof (TryExecute_steady stack c trans c T (resumable_refl c trans T)) as D.
  destruct (Task.TryExecute (S stack) (c, trans)) as [o [c2 trans2]] eqn:E.
  destruct D as [(-> & E2 & CA)|[(e & -> & N & E2 & R2)|[-> U]]]; cbn [snd] in *; subst.
  - rewrite (bind_run _ _ _ _ _ E). left. split; [done|]. by apply executed_or.
  - rewrite (bind_run _ _ _ _ _ E), (proj2 (Z.eqb_neq _ _) N).
    destruct (e =? ER_LOCK_DEADLOCK).
    + pose proof (direct_retry_steady stack 5 c trans c2 T R2) as D.
      destruct (Task.direct_retry (S stack) 5 (c2, trans)) as [o [c3 trans3]] eqn:E3.
      destruct D as [(-> & E4 & CA)|[-> U]]; cbn [snd] in *; subst.
      * rewrite (bind_run _ _ _ _ _ E3), (CleanupOnFailure_ok c _ c3 T E0). by left.
      * unfold mbind, M_bind. rewrite E3. by right.
    + rewrite (bind_run skip _ _ () _) by done. rewrite (CleanupOnFailure_ok c _ c2 T E0).
      left. split; [done|]. right. apply R2.
  - unfold mbind, M_bind. rewrite E. by right.
Qed.

(** C5: as long as its connection is not lost and the server does not refuse to
    start a transaction or to roll one back, a transaction takes effect as a whole
    or not at all.  The task answers (and the future of [AsyncCommitTransaction]
    gets, exactly once) [false] only when the database is as before, after as many
    retries of a deadlock as the clock allows, and the transaction has been
    cleaned up.  It answers [true] when every query ran, in order, and [COMMIT] was
    sent: then they have all taken effect, unless the server refused [COMMIT],
    whose result the code does not look at, and the database is as before.  If the
    process is ended over an error the database is as before, too.
    [DirectCommitTransaction] leaves one of the two states. *)
Theorem transaction_all_or_nothing (stack : nat) (readings : list Z) (c : t)
    (trans : TransactionBase) (Ht : can_try c trans) (He : m_cleanedUp trans = false) :
  ended c trans true false (Task.Execute (S stack) readings (c, trans)) ∧
  ended c trans (true, [true]) (false, [false])
    (Task.ExecuteWithResult (S stack) readings (c, trans)) ∧
  let '(o, s') := Task.DirectCommitTransaction (S stack) (c, trans) in
  (o = Ret () ∧ (committed_all c trans s' ∨ unchanged c s')) ∨ (o = AssertFail ∧ unchanged c s').
Proof using Hcontrol Hsteady.
  pose proof (Execute_ended stack readings c trans Ht He) as E.
  split; [done|]. split; [|by apply Direct_ended].
  rewrite ExecuteWithResult_Execute. unfold mbind, M_bind.
  destruct (Task.Execute (S stack) readings (c, trans)) as [o s'].
  destruct E as [(-> & ? & ?)|[(-> & ? & ?)|[-> ?]]]; [by left|by right; left|by right; right].
Qed.
End atomic.
End Atomic.

(** ** Witnesses

    A server whose tables are the list of what was applied to them.  Its script
    says how the next calls end: 0 for success, else the error; an error of a lost
    connection happens only where it is [unreliable]. *)

Record toy_state := mkToy {
  toy_committed : list (list Z);
  toy_working : option (list (list Z));
  toy_error : Z;
  toy_script : list Z
}.

Definition toy_apply (what : list Z) (s : toy_state) : toy_state :=
  match toy_working s with
  | Some d => mkToy (toy_committed s) (Some (d ++ [what])) (toy_error s) (tail (toy_script s))
  | None => mkToy (toy_committed s ++ [what]) None (toy_error s) (tail (toy_script s))
  end.

Definition toy_fail (e : Z) (s : toy_state) : toy_state :=
  mkToy (toy_committed s)
    (if (e =? ER_LOCK_DEADLOCK) || Connection.is_lost e then None else toy_working s) e
    (tail (toy_script s)).

Definition toy_call (what : list Z) (s : toy_state) : bool * toy_state :=
  match toy_script s with
  | e :: _ => if e =? 0 then (true, toy_apply what s) else (false, toy_fail e s)
  | [] => (true, toy_apply what s)
  end.

Definition toy_query (sql : list Z) (s : toy_state) : bool * toy_state :=
  if bool_decide (sql = str "START TRANSACTION") then
    (true, mkToy (toy_committed s) (Some (toy_committed s)) (toy_error s) (toy_script s))
  else if bool_decide (sql = str "ROLLBACK") then
    (true, mkToy (toy_committed s) None (toy_error s) (toy_script s))
  else if bool_decide (sql = str "COMMIT") then
    let done := mkToy (default (toy_committed s) (toy_working s)) None (toy_error s) (tail (toy_script s)) in
    match toy_script s with
    | e :: _ => if e =? 0 then (true, done) else (false, toy_fail e s)
    | [] => (true, done)
    end
  else toy_call sql s.

(** An error number that is not 0, nor one of a lost connection unless
    [unreliable]. *)
Definition toy_errno (unreliable : bool) (s : toy_state) : Z :=
  let e := toy_error s in
  if e =? 0 then ER_DUP_ENTRY
  else if negb unreliable && (Connection.is_lost e || (e =? CR_CONN_HOST_ERROR)) then ER_DUP_ENTRY
  else e.

Definition toy_mysql (unreliable : bool) : MySQL :=
  Build_MySQL toy_state (λ s, (true, s)) (λ _ s, (true, s)) id (λ _, toy_errno unreliable)
    toy_query
    (λ _, mkQueryAnswer None 0 0 []) (λ s, (true, s))
    (λ sql s, (Some (zlen (List.filter (Z.eqb 63) sql)), s)) (λ _ s, (true, s))
    (λ st s, toy_call (m_queryString st) s)
    (λ _ _, mkStatementAnswer false 0 0 (mkAnswers false 0 [] false []) (λ _, [])) id (λ _, 50700).

Definition toy_plain (sql : list Z) : Prop :=
  sql ≠ str "START TRANSACTION" ∧ sql ≠ str "ROLLBACK" ∧ sql ≠ str "COMMIT".

Lemma toy_call_ok what s d :
  toy_working s = Some d →
  toy_committed (toy_call what s).2 = toy_committed s ∧
  (toy_call what s).1 = true → toy_working (toy_call what s).2 = Some (d ++ [what]).
Proof.
  intros W [_ E]. revert E. unfold toy_call.
  assert (toy_working (toy_apply what s) = Some (d ++ [what])) by (unfold toy_apply; by rewrite W).
  by destruct (toy_script s) as [|e l]; [|destruct (e =? 0)].
Qed.

Lemma toy_call_committed what s d :
  toy_working s = Some d → toy_committed (toy_call what s).2 = toy_committed s.
Proof.
  intros W. unfold toy_call.
  assert (toy_committed (toy_apply what s) = toy_committed s) by (unfold toy_apply; by rewrite W).
  by destruct (toy_script s) as [|e l]; [|destruct (e =? 0)].
Qed.

Lemma toy_errno_not_0 b s : toy_errno b s ≠ 0.
Proof.
  unfold toy_errno. destruct (Z.eqb_spec (toy_error s) 0); [done|]. by destruct (_ && _).
Qed.

Lemma toy_plain_call sql s : toy_plain sql → toy_query sql s = toy_call sql s.
Proof.
  intros (A & B & C). unfold toy_query. by rewrite !bool_decide_eq_false_2.
Qed.

Definition toy_transactions : @MySQLTransactions (toy_mysql false).
Proof.
  refine {|
    DB := list (list Z) : Type;
    committed := toy_committed : @Server (toy_mysql false) → _;
    working := toy_working : @Server (toy_mysql false) → _;
    plain := toy_plain;
    does_text := λ sql d d', d' = d ++ [sql];
    does_stmt := λ sql _ d d', d' = d ++ [sql]
  |}; cbn [mysql_query mysql_errno mysql_stmt_bind_param mysql_stmt_execute toy_mysql Server].
  - intros s ok s' E W. injection E as <- <-. done.
  - intros s ok s' E. change (toy_query (str "COMMIT") s = (ok, s')) in E.
    unfold toy_query in E. rewrite !bool_decide_eq_false_2, bool_decide_eq_true_2 in E by done.
    destruct (toy_script s) as [|e l]; [injection E as <- <-; by destruct (toy_working s)|].
    destruct (e =? 0); injection E as <- <-; [by destruct (toy_working s)|done].
  - intros s ok s' E. injection E as <- <-. done.
  - intros sql s s' d Hp W E. rewrite toy_plain_call in E by done. exists (d ++ [sql]).
    pose proof (toy_call_committed sql s d W) as C. pose proof (toy_call_ok sql s d W) as A.
    rewrite E in C, A. cbn [fst snd] in *. auto.
  - intros sql s s' d Hp W E. rewrite toy_plain_call in E by done.
    pose proof (toy_call_committed sql s d W) as C. rewrite E in C.
    split; [done|apply toy_errno_not_0].
  - intros st s ok s' E. injection E as <- <-. done.
  - intros st s s' d Hp W E. exists (d ++ [m_queryString st]).
    pose proof (toy_call_committed (m_queryString st) s d W) as C.
    pose proof (toy_call_ok (m_queryString st) s d W) as A.
    rewrite E in C, A. cbn [fst snd] in *. auto.
  - intros st s s' d Hp W E.
    pose proof (toy_call_committed (m_queryString st) s d W) as C. rewrite E in C.
    split; [done|apply toy_errno_not_0].
Defined.

Lemma toy_steady (s : toy_state) :
  Connection.is_lost (toy_errno false s) = false ∧ toy_errno false s ≠ CR_CONN_HOST_ERROR.
Proof.
  unfold toy_errno. destruct (Z.eqb_spec (toy_error s) 0); [done|]. cbn [negb andb].
  destruct (Connection.is_lost (toy_error s)) eqn:L; [done|]. cbn [orb].
  by destruct (Z.eqb_spec (toy_error s) CR_CONN_HOST_ERROR).
Qed.

Lemma toy_control b (s : @Server (toy_mysql b)) :
  (@mysql_query (toy_mysql b) (str "START TRANSACTION") s).1 = true ∧
  (@mysql_query (toy_mysql b) (str "ROLLBACK") s).1 = true.
Proof. done. Qed.

Definition demo_connection (unreliable : bool) (script : list Z) : @Connection.t (toy_mysql unreliable) :=
  @Connection.mk (toy_mysql unreliable) (replicate 13 None) false false true
    (ConnectionInfo.parse (str "127.0.0.1;3306;core;secret;discord")) CONNECTION_ASYNC
    (mkToy [] None 0 script).

Definition demo_queries : TransactionBase :=
  Transaction.Append (str "SECOND") (Transaction.Append (str "FIRST") Transaction.new).

Lemma demo_can_try script :
  @Atomic.can_try _ toy_transactions (demo_connection false script) demo_queries.
Proof.
  split; [split; [reflexivity|repeat constructor; discriminate]|]. split; [|reflexivity].
  repeat constructor; discriminate.
Qed.

(** What a run ends with: its outcome and the tables. *)
Definition seen {u A} (r : outcome Empty_set A * @Task.state (toy_mysql u)) :
    outcome Empty_set A * list (list Z) :=
  (r.1, toy_committed (Connection.server r.2.1)).

(** The second query deadlocks once and is then retried; a duplicate key rolls
    everything back; the server refuses [COMMIT]. *)
Lemma transaction_all_or_nothing_witness :
  let start script : @Task.state (toy_mysql false) := (demo_connection false script, demo_queries) in
  @Atomic.ended _ toy_transactions _ (demo_connection false [0; ER_LOCK_DEADLOCK]) demo_queries
    true false (Task.Execute 1 [100; 200] (start [0; ER_LOCK_DEADLOCK])) ∧
  seen (Task.Execute 1 [100; 200] (start [0; ER_LOCK_DEADLOCK])) =
    (Ret true, [str "FIRST"; str "SECOND"]) ∧
  seen (Task.Execute 1 [100; 200] (start [0; ER_DUP_ENTRY])) = (Ret false, []) ∧
  seen (Task.Execute 1 [] (start [0; 0; ER_LOCK_DEADLOCK])) = (Ret true, []).
Proof.
  intros start. split; [|split; [|split]; vm_compute; reflexivity].
  exact (proj1 (@Atomic.transaction_all_or_nothing _ toy_transactions toy_steady (toy_control false) 0
    [100; 200] (demo_connection false [0; ER_LOCK_DEADLOCK]) demo_queries (demo_can_try _) eq_refl)).
Defined.

(** ** What happens when the connection is lost

    The query that meets the lost connection is executed again on the new one,
    where no transaction is open: the queries before it are gone, it and the ones
    after it are committed one by one, and the task reports success. *)
Example lost_connection_tears_transaction :
  seen (@Task.Execute (toy_mysql true) 2 [] (demo_connection true [0; CR_SERVER_LOST], demo_queries)) =
    (Ret true, [str "SECOND"]).
Proof. vm_compute. reflexivity. Qed.

(** The results of the statements that control a transaction are not looked at.
    Here the server refuses [COMMIT]: nothing is committed, and the task reports
    success. *)
Example refused_commit_is_success :
  seen (@Task.Execute (toy_mysql false) 2 [] (demo_connection false [0; 0; ER_LOCK_DEADLOCK], demo_queries)) =
    (Ret true, []).
Proof. vm_compute. reflexivity. Qed.
