(* ===== verification/Pool.v ===== *)
(** * Pool: the connections of a database and the queue they share

    Model of [DatabaseWorkerPool.h], [DatabaseWorkerPool.cpp], [DatabaseWorker.cpp],
    [AdhocStatement.cpp], the task of [PreparedStatement.cpp], [SQLOperation.h] and
    [DatabaseLoader.cpp] under [src/src/database/Database].  Asynchronous
    connections own a worker thread each that takes operations from one queue
    ([Queues.PCQueue]); synchronous connections are locked by the caller.  Each
    connection has its own view of the server. *)

From S2P Require Import Prelude Strings Statements Fields Results MySQL Transactions Queues Query.
Open Scope Z_scope.

Definition MIN_MYSQL_SERVER_VERSION : Z := 50700.

(** ** Operations *)

(** A [SQLOperation]; a promise is the number of its future. *)
Inductive operation : Type :=
  | PingOperation
  | BasicStatementTask (sql : list Z) (m_result : option nat)
  | PreparedStatementTask (m_stmt : PreparedStatement) (m_result : option nat)
  | SQLQueryHolderTask (m_holder : list (option PreparedStatement)) (m_result : nat)
  | TransactionTask (m_trans : TransactionBase)
  | TransactionWithResultTask (m_trans : TransactionBase) (m_result : nat).

(** What a promise is given. *)
Inductive answer : Type :=
  | AnswerQuery (r : option ResultSet)
  | AnswerPrepared (r : option PreparedResultSet)
  | AnswerHolder (r : list (option PreparedResultSet))
  | AnswerTransaction (b : bool).

Module Operations.
Section operations.
Context `{MySQL}.

(** A result counts when it has a row to show. *)
Definition first_row (r : option ResultSet) : option ResultSet :=
  rs ← r;
  if rs_rowCount rs =? 0 then None
  else let '(ok, rs) := ResultSets.NextRow rs in if (ok : bool) then Some rs else None.

Definition with_rows (r : option PreparedResultSet) : option PreparedResultSet :=
  pr ← r; if pr_rowCount pr =? 0 then None else Some pr.

(** [SQLQueryHolderTask::Execute] over the statements in the holder. *)
Fixpoint holder_results (stack : nat) (queries : list (option PreparedStatement)) :
    M Empty_set Connection.t (list (option PreparedResultSet)) :=
  match queries with
  | [] => mret []
  | None :: queries => rs ← holder_results stack queries; mret (None :: rs)
  | Some stmt :: queries =>
      r ← Connection.Query_stmt stack stmt;
      rs ← holder_results stack queries;
      mret (with_rows r :: rs)
  end.

(** [call()]: the promises fulfilled, on the connection of the worker. *)
Definition call (stack : nat) (readings : list Z) (op : operation) :
    M Empty_set Connection.t (list (nat * answer)) :=
  match op with
  | PingOperation => _ ← Connection.Ping; mret []
  | BasicStatementTask sql (Some p) =>
      r ← Connection.Query stack sql; mret [(p, AnswerQuery (first_row r))]
  | BasicStatementTask sql None => _ ← Connection.Execute stack sql; mret []
  | PreparedStatementTask stmt (Some p) =>
      r ← Connection.Query_stmt stack stmt; mret [(p, AnswerPrepared (with_rows r))]
  | PreparedStatementTask stmt None => _ ← Connection.Execute_stmt stack stmt; mret []
  | SQLQueryHolderTask queries p =>
      rs ← holder_results stack queries; mret [(p, AnswerHolder rs)]
  | TransactionTask trans => λ c,
      let '(o, (c, _)) := Task.Execute stack readings (c, trans) in
      match o with
      | Ret _ => (Ret [], c)
      | Throw e => (Throw e, c) | AssertFail => (AssertFail, c) | UB => (UB, c)
      end
  | TransactionWithResultTask trans p => λ c,
      let '(o, (c, _)) := Task.ExecuteWithResult stack readings (c, trans) in
      match o with
      | Ret (_, bs) => (Ret (map (λ b, (p, AnswerTransaction b)) bs), c)
      | Throw e => (Throw e, c) | AssertFail => (AssertFail, c) | UB => (UB, c)
      end
  end.

(** The future of an operation, if it has one. *)
Definition promise (op : operation) : option nat :=
  match op with
  | BasicStatementTask _ p | PreparedStatementTask _ p => p
  | SQLQueryHolderTask _ p | TransactionWithResultTask _ p => Some p
  | PingOperation | TransactionTask _ => None
  end.
End operations.
End Operations.

(** ** The pool *)

Module Pool.
Section pool.
Context `{MySQL}.

Record t := mk {
  _queue : PCQueue.t operation;
  _async : list Connection.t;
  _synch : list Connection.t;
  _connectionInfo : option MySQLConnectionInfo;
  _preparedStatementSize : list Z;
  _async_threads : Z;
  _synch_threads : Z;
  _servers : list Server;  (** the server as the next connections find it *)
  _promises : nat  (** the next future *)
}.

Definition set_queue (q : PCQueue.t operation) (p : t) : t :=
  mk q (_async p) (_synch p) (_connectionInfo p) (_preparedStatementSize p)
    (_async_threads p) (_synch_threads p) (_servers p) (_promises p).
Definition set_async (l : list Connection.t) (p : t) : t :=
  mk (_queue p) l (_synch p) (_connectionInfo p) (_preparedStatementSize p)
    (_async_threads p) (_synch_threads p) (_servers p) (_promises p).
Definition set_synch (l : list Connection.t) (p : t) : t :=
  mk (_queue p) (_async p) l (_connectionInfo p) (_preparedStatementSize p)
    (_async_threads p) (_synch_threads p) (_servers p) (_promises p).
Definition set_info (i : option MySQLConnectionInfo) (p : t) : t :=
  mk (_queue p) (_async p) (_synch p) i (_preparedStatementSize p)
    (_async_threads p) (_synch_threads p) (_servers p) (_promises p).
Definition set_sizes (l : list Z) (p : t) : t :=
  mk (_queue p) (_async p) (_synch p) (_connectionInfo p) l
    (_async_threads p) (_synch_threads p) (_servers p) (_promises p).
Definition set_servers (l : list Server) (p : t) : t :=
  mk (_queue p) (_async p) (_synch p) (_connectionInfo p) (_preparedStatementSize p)
    (_async_threads p) (_synch_threads p) l (_promises p).
Definition set_promises (n : nat) (p : t) : t :=
  mk (_queue p) (_async p) (_synch p) (_connectionInfo p) (_preparedStatementSize p)
    (_async_threads p) (_synch_threads p) (_servers p) n.

Definition new (servers : list Server) : t := mk PCQueue.new [] [] None [] 0 0 servers 0.

Definition SetConnectionInfo (infoString : list Z) (asyncThreads synchThreads : Z) (p : t) : t :=
  mk (_queue p) (_async p) (_synch p) (Some (ConnectionInfo.parse infoString))
    (_preparedStatementSize p) asyncThreads synchThreads (_servers p) (_promises p).

Inductive InternalIndex := IDX_ASYNC | IDX_SYNCH.

Definition connections (type : InternalIndex) (p : t) : list Connection.t :=
  match type with IDX_ASYNC => _async p | IDX_SYNCH => _synch p end.
Definition set_connections (type : InternalIndex) (l : list Connection.t) (p : t) : t :=
  match type with IDX_ASYNC => set_async l p | IDX_SYNCH => set_synch l p end.

(** Destroying a connection that has a worker stops the worker, which cancels the
    queue it shares with the others. *)
Definition destroy (type : InternalIndex) (p : t) : t :=
  match type with IDX_ASYNC => set_queue (PCQueue.Cancel (_queue p)) p | IDX_SYNCH => p end.

(** [_connections[type].clear()] *)
Definition clear (type : InternalIndex) (p : t) : t :=
  set_connections type []
    (match connections type p with [] => p | _ => destroy type p end).

(** One connection: 0, or the error of [Open], or 1 for a server too old; the
    connection info is shared with the connection. *)
Definition open_connection (type : InternalIndex) : M Empty_set t Z := λ p,
  match _connectionInfo p, _servers p with
  | Some info, s :: servers =>
      let flags := match type with
                   | IDX_ASYNC => CONNECTION_ASYNC | IDX_SYNCH => CONNECTION_SYNCH end in
      let '(o, c) := Connection.Open (Connection.new flags info s) in
      let p := set_servers servers (set_info (Some (Connection.m_connectionInfo c)) p) in
      match o with
      | Ret error =>
          if negb (error =? 0) then (Ret error, destroy type (clear type p))
          else if mysql_get_server_version (Connection.server c) <? MIN_MYSQL_SERVER_VERSION
          then (Ret 1, destroy type p)
          else (Ret 0, set_connections type (connections type p ++ [c]) p)
      | Throw e => (Throw e, p) | AssertFail => (AssertFail, p) | UB => (UB, p)
      end
  | _, _ => (UB, p)
  end.

Fixpoint OpenConnections (type : InternalIndex) (numConnections : nat) : M Empty_set t Z :=
  match numConnections with
  | O => mret 0
  | S n =>
      error ← open_connection type;
      if error =? 0 then OpenConnections type n else mret error
  end.

Definition Open : M Empty_set t Z :=
  info ← gets _connectionInfo;
  _ ← assert_ (match info with Some _ => true | None => false end);
  asyncThreads ← gets _async_threads;
  error ← OpenConnections IDX_ASYNC (Z.to_nat asyncThreads);
  if negb (error =? 0) then mret error
  else
    synchThreads ← gets _synch_threads;
    OpenConnections IDX_SYNCH (Z.to_nat synchThreads).

Definition Close (p : t) : t := clear IDX_SYNCH (clear IDX_ASYNC p).

(** *** Preparing *)

(** The sizes noted from one connection: the first that is not 0 stays. *)
Definition note_size (old : Z) (s : option MySQLPreparedStatement) : outcome Empty_set Z :=
  if 0 <? old then Ret old
  else match s with
       | None => Ret old
       | Some s => if m_paramCount s <? 255 then Ret (u8 (m_paramCount s)) else AssertFail
       end.

Fixpoint note_sizes (sizes : list Z) (stmts : list (option MySQLPreparedStatement)) :
    outcome Empty_set (list Z) :=
  match sizes, stmts with
  | old :: sizes, s :: stmts =>
      match note_size old s, note_sizes sizes stmts with
      | Ret size, Ret sizes => Ret (size :: sizes)
      | Ret _, o => o
      | AssertFail, _ => AssertFail
      | _, _ => UB
      end
  | sizes, _ => Ret sizes
  end.

(** The connections of one kind in turn; [None] when one could not prepare. *)
Fixpoint prepare_connections (cs : list Connection.t) (sizes : list Z) :
    outcome Empty_set (option (list Connection.t * list Z)) :=
  match cs with
  | [] => Ret (Some ([], sizes))
  | c :: cs =>
      match Connection.PrepareStatements c with
      | (Ret false, _) => Ret None
      | (Ret true, c) =>
          let stmts := Connection.m_stmts c in
          match note_sizes (if zlen sizes <? zlen stmts then vresize (zlen stmts) 0 sizes else sizes)
                  stmts with
          | Ret sizes =>
              match prepare_connections cs sizes with
              | Ret (Some (cs, sizes)) => Ret (Some (c :: cs, sizes))
              | o => o
              end
          | AssertFail => AssertFail
          | _ => UB
          end
      | (AssertFail, _) => AssertFail
      | _ => UB
      end
  end.

Definition PrepareStatements : M Empty_set t bool := λ p,
  match prepare_connections (_async p) (_preparedStatementSize p) with
  | Ret (Some (async, sizes)) =>
      match prepare_connections (_synch p) sizes with
      | Ret (Some (synch, sizes)) =>
          (Ret true, set_sizes sizes (set_synch synch (set_async async p)))
      | Ret None => (Ret false, Close p)
      | AssertFail => (AssertFail, p)
      | _ => (UB, p)
      end
  | Ret None => (Ret false, Close p)
  | AssertFail => (AssertFail, p)
  | _ => (UB, p)
  end.

(** The capacity of the statement is the noted size; the index is not checked. *)
Definition GetPreparedStatement (index : Z) : M Empty_set t PreparedStatement := λ p,
  match _preparedStatementSize p !! Z.to_nat index with
  | Some size => (Ret (Prepared.new index size), p)
  | None => (UB, p)
  end.

(** *** Queueing *)

Definition Enqueue (op : operation) (p : t) : t := set_queue (PCQueue.Push op (_queue p)) p.
Definition QueueSize (p : t) : Z := PCQueue.Size (_queue p).

(** A new operation with a future: the future is taken before it is queued. *)
Definition enqueue_with_future (make : nat → operation) : M Empty_set t nat :=
  f ← gets _promises;
  _ ← modify (set_promises (S f));
  _ ← modify (Enqueue (make f));
  mret f.

Definition AsyncQuery (sql : list Z) : M Empty_set t nat :=
  enqueue_with_future (λ f, BasicStatementTask sql (Some f)).
Definition AsyncQuery_stmt (stmt : PreparedStatement) : M Empty_set t nat :=
  enqueue_with_future (λ f, PreparedStatementTask stmt (Some f)).
Definition DelayQueryHolder (holder : list (option PreparedStatement)) : M Empty_set t nat :=
  enqueue_with_future (SQLQueryHolderTask holder).
Definition AsyncCommitTransaction (trans : TransactionBase) : M Empty_set t nat :=
  enqueue_with_future (TransactionWithResultTask trans).
Definition CommitTransaction (trans : TransactionBase) : M Empty_set t () :=
  modify (Enqueue (TransactionTask trans)).

Definition Execute (sql : list Z) : M Empty_set t () :=
  if bool_decide (sql = []) then skip else modify (Enqueue (BasicStatementTask sql None)).
Definition Execute_stmt (stmt : PreparedStatement) : M Empty_set t () :=
  modify (Enqueue (PreparedStatementTask stmt None)).

(** With a transaction to append to, or without. *)
Definition ExecuteOrAppend (trans : option TransactionBase) (sql : list Z) :
    M Empty_set t (option TransactionBase) :=
  match trans with
  | None => _ ← Execute sql; mret None
  | Some trans => mret (Some (Transaction.Append sql trans))
  end.
Definition ExecuteOrAppend_stmt (trans : option TransactionBase) (stmt : PreparedStatement) :
    M Empty_set t (option TransactionBase) :=
  match trans with
  | None => _ ← Execute_stmt stmt; mret None
  | Some trans => mret (Some (Transaction.AppendPreparedStatement (Some stmt) trans))
  end.

(** *** Direct use of a synchronous connection *)

(** [GetFreeConnection]: [locked n k] says whether the lock of connection [k] is
    taken at the [n]-th attempt; the counter has 8 bits. *)
Fixpoint GetFreeConnection_loop (locked : nat → nat → bool) (attempts n : nat) (i num_cons : Z) :
    option (nat * nat) :=
  match attempts with
  | O => None
  | S attempts =>
      let i := u8 (i + 1) in
      let k := Z.to_nat (i mod num_cons) in
      if locked n k then GetFreeConnection_loop locked attempts (S n) i num_cons
      else Some (k, n)
  end.

Definition GetFreeConnection (locked : nat → nat → bool) (attempts : nat) (p : t) :
    outcome Empty_set (option (nat * nat)) :=
  if zlen (_synch p) =? 0 then UB
  else Ret (GetFreeConnection_loop locked attempts 0 0 (zlen (_synch p))).

(** A call on the connection found, which is unlocked afterwards. *)
Definition on_connection {A} (k : nat) (m : M Empty_set Connection.t A) : M Empty_set t A := λ p,
  match _synch p !! k with
  | Some c => let '(o, c) := m c in (o, set_synch (<[k := c]> (_synch p)) p)
  | None => (UB, p)
  end.

Definition with_connection {A} (locked : nat → nat → bool) (attempts : nat)
    (m : M Empty_set Connection.t A) : M Empty_set t (option A) := λ p,
  match GetFreeConnection locked attempts p with
  | Ret (Some (k, _)) =>
      let '(o, p) := on_connection k m p in
      (match o with Ret a => Ret (Some a) | Throw e => Throw e
               | AssertFail => AssertFail | UB => UB end, p)
  | Ret None => (Ret None, p)
  | _ => (UB, p)
  end.

Definition Query locked attempts stack (sql : list Z) : M Empty_set t (option (option ResultSet)) :=
  with_connection locked attempts
    (r ← Connection.Query stack sql; mret (Operations.first_row r)).
Definition Query_stmt locked attempts stack (stmt : PreparedStatement) :
    M Empty_set t (option (option PreparedResultSet)) :=
  with_connection locked attempts
    (r ← Connection.Query_stmt stack stmt; mret (Operations.with_rows r)).
Definition DirectExecute locked attempts stack (sql : list Z) : M Empty_set t (option ()) :=
  if bool_decide (sql = []) then mret (Some ())
  else with_connection locked attempts (_ ← Connection.Execute stack sql; skip).
Definition DirectExecute_stmt locked attempts stack (stmt : PreparedStatement) :
    M Empty_set t (option ()) :=
  with_connection locked attempts (_ ← Connection.Execute_stmt stack stmt; skip).

(** [KeepAlive]: synchronous connections that are free are pinged, the others are
    sent a ping through the queue. *)
Fixpoint ping_free (locked : nat → bool) (k : nat) (cs : list Connection.t) :
    outcome Empty_set (list Connection.t) :=
  match cs with
  | [] => Ret []
  | c :: cs =>
      match (if locked k then (Ret (), c) else Connection.Ping c), ping_free locked (S k) cs with
      | (Ret _, c), Ret cs => Ret (c :: cs)
      | (Ret _, _), o => o
      | (AssertFail, _), _ => AssertFail
      | _, _ => UB
      end
  end.

Definition KeepAlive (locked : nat → bool) : M Empty_set t () := λ p,
  match ping_free locked 0 (_synch p) with
  | Ret cs =>
      (Ret (), Nat.iter (length (_async p)) (Enqueue PingOperation) (set_synch cs p))
  | AssertFail => (AssertFail, p)
  | _ => (UB, p)
  end.

(** [EscapeString]: the buffer handed to [mysql_real_escape_string] has room for
    twice the text and a terminator. *)
Definition EscapeString (escape : list Z → list Z) (s : list Z) (p : t) :
    outcome Empty_set (list Z) :=
  match s with
  | [] => Ret []
  | _ =>
      match _synch p with
      | [] => UB
      | _ => if 2 * zlen s + 1 <? zlen (escape s) + 1 then UB else Ret (Connection.c_str (escape s))
      end
  end.

(** *** Worker threads *)

(** [WaitAndPop] of the worker of connection [k], under the lock of the queue: it
    waits, finds the queue cancelled and stops, or has taken an operation. *)
Inductive turn : Type :=
  | Waits
  | Stops
  | Took (op : operation).

Definition WorkerThread_pop (k : nat) (p : t) : turn * t :=
  match _async p !! k, PCQueue.WaitAndPop (_queue p) with
  | Some _, Some (Some op, q) => (Took op, set_queue q p)
  | Some _, Some (None, _) => (Stops, p)
  | _, _ => (Waits, p)
  end.

(** What it does with the operation it took, without the lock: unless its
    destructor has begun ([_cancelationToken]), it executes the operation on its
    connection; the result is what the promises were given. *)
Definition WorkerThread_call (stack : nat) (_cancelationToken : bool) (readings : list Z) (k : nat)
    (op : operation) (p : t) : option (outcome Empty_set (list (nat * answer))) * t :=
  if _cancelationToken then (None, p)
  else
    match _async p !! k with
    | Some c =>
        let '(o, c) := Operations.call stack readings op c in
        (Some o, set_async (<[k := c]> (_async p)) p)
    | None => (Some UB, p)
    end.

(** ** A queue once cancelled stays cancelled *)

Definition dead (p : t) : Prop := PCQueue.shutdown (_queue p) = true.

Lemma destroy_dead p : dead (destroy IDX_ASYNC p).
Proof. done. Qed.

Lemma clear_dead type p : dead p → dead (clear type p).
Proof.
  unfold clear, dead. destruct type; cbn; [by destruct (_async p)|by destruct (_synch p)].
Qed.

Lemma open_connection_dead type p : dead p → dead (open_connection type p).2.
Proof.
  intros D. unfold open_connection.
  destruct (_connectionInfo p) as [info|]; [|done]. destruct (_servers p) as [|sv svs]; [done|].
  destruct (Connection.Open _) as [[e| | |] c]; try done.
  set (p1 := set_servers _ _). assert (dead p1) as D1 by done.
  destruct (negb (e =? 0)).
  { destruct type; [done|]. cbn [snd destroy]. by apply clear_dead. }
  destruct (_ <? _); by destruct type.
Qed.

Lemma OpenConnections_dead type n p : dead p → dead (OpenConnections type n p).2.
Proof.
  revert p. induction n as [|n IH]; intros p D; [done|]. cbn [OpenConnections].
  pose proof (open_connection_dead type p D) as D1. unfold mbind, M_bind.
  destruct (open_connection type p) as [[e| | |] p1]; try done.
  destruct (e =? 0); [by apply IH|done].
Qed.

Lemma Open_dead p : dead p → dead (Open p).2.
Proof.
  intros D. unfold Open. rewrite bind_gets. unfold assert_, mbind, M_bind, gets.
  destruct (match _connectionInfo p with Some _ => true | None => false end); [|done].
  pose proof (OpenConnections_dead IDX_ASYNC (Z.to_nat (_async_threads p)) p D) as D1.
  destruct (OpenConnections IDX_ASYNC _ p) as [[e| | |] p1]; try done.
  destruct (negb (e =? 0)); [done|]. by apply OpenConnections_dead.
Qed.

(** An asynchronous connection that could not be opened cancels the queue. *)
Lemma OpenConnections_failed n p e p' :
  OpenConnections IDX_ASYNC n p = (Ret e, p') → e ≠ 0 → dead p'.
Proof.
  revert p. induction n as [|n IH]; intros p E N; cbn [OpenConnections] in E; [by injection E as <-|].
  apply bind_ret_inv in E as (e1 & p1 & E1 & E).
  destruct (Z.eqb_spec e1 0) as [->|N1]; [by eapply IH|]. injection E as -> ->.
  unfold open_connection in E1. destruct (_connectionInfo p) as [info|]; [|done].
  destruct (_servers p) as [|sv svs]; [done|].
  destruct (Connection.Open _) as [[e2| | |] c]; try done.
  destruct (Z.eqb_spec e2 0) as [->|]; cbn [negb] in E1.
  - destruct (_ <? _); injection E1 as <- <-; done.
  - by injection E1 as <- <-.
Qed.

Lemma WorkerThread_dead k p : dead p → is_Some (_async p !! k) → WorkerThread_pop k p = (Stops, p).
Proof.
  unfold dead, WorkerThread_pop, PCQueue.WaitAndPop. intros -> [c ->].
  by destruct (PCQueue.queue (_queue p)).
Qed.

(** C32: a pool whose first attempt to open an asynchronous connection failed never
    executes an asynchronous operation again.  The worker of the connection given
    up cancels the queue that all workers share, and nothing undoes that: the pool
    can be opened again, as the loader does after it has created the database or
    waited for the server, and reports success; but every worker stops at its
    first turn, whatever is enqueued, and no future is ever answered. *)
Theorem failed_open_stops_workers (p p1 p2 : t) (n : nat) (e : Z)
    (o : outcome Empty_set Z) (ops : list operation) (k : nat)
    (H1 : OpenConnections IDX_ASYNC n p = (Ret e, p1)) (He : e ≠ 0)
    (H2 : Open p1 = (o, p2)) (Hk : (k < length (_async p2))%nat) :
  (WorkerThread_pop k (foldl (λ p op, Enqueue op p) p2 ops)).1 = Stops.
Proof.
  pose proof (OpenConnections_failed n p e p1 H1 He) as D1.
  pose proof (Open_dead p1 D1) as D2. rewrite H2 in D2. cbn [snd] in D2.
  assert (dead (foldl (λ p op, Enqueue op p) p2 ops) ∧
    _async (foldl (λ p op, Enqueue op p) p2 ops) = _async p2) as [D3 E3].
  { clear - D2. revert p2 D2. induction ops as [|op ops IH]; intros p2 D2; [done|].
    cbn [foldl]. by apply (IH (Enqueue op p2)). }
  rewrite WorkerThread_dead; [done|done|]. rewrite E3. by apply lookup_lt_is_Some_2.
Qed.

(** ** Finding a free connection *)

(** The [n]-th attempt looks at connection [n + 1], modulo their number; the one
    at [target] looks at [j]. *)
Lemma loop_finds locked num j target attempts n :
  0 < num < 256 → Z.of_nat target < num → (Z.of_nat target + 1) mod num = Z.of_nat j →
  (∀ m, locked m j = false) → (n <= target)%nat → (target < n + attempts)%nat →
  ∃ k m, GetFreeConnection_loop locked attempts n (Z.of_nat n) num = Some (k, m) ∧
    locked m k = false ∧ Z.of_nat k < num ∧ (m <= target)%nat.
Proof.
  intros Hnum Ht Hj Hfree. revert n. induction attempts as [|attempts IH]; intros n Hn Ha; [lia|].
  cbn [GetFreeConnection_loop]. rewrite wrap_small by lia.
  destruct (locked n (Z.to_nat ((Z.of_nat n + 1) mod num))) eqn:L.
  - assert (n ≠ target) as Hne.
    { intros ->. rewrite Hj, Nat2Z.id, Hfree in L. done. }
    replace (Z.of_nat n + 1) with (Z.of_nat (S n)) by lia. apply IH; lia.
  - eexists _, n. split; [done|]. split; [done|]. split; [|done].
    pose proof (Z.mod_pos_bound (Z.of_nat n + 1) num). lia.
Qed.

(** A caller that needs a synchronous connection gets one whose lock it took,
    after no more attempts than there are connections, as long as some connection
    stays free meanwhile; the 8-bit counter reaches all of them. *)
Theorem free_connection_found (p : t) (locked : nat → nat → bool) (j : nat)
    (Hp : zlen (_synch p) < 256) (Hj : (j < length (_synch p))%nat)
    (Hfree : ∀ n, locked n j = false) :
  ∃ k n, GetFreeConnection locked (length (_synch p)) p = Ret (Some (k, n)) ∧
    locked n k = false ∧ is_Some (_synch p !! k) ∧ (n < length (_synch p))%nat.
Proof.
  unfold GetFreeConnection. set (num := zlen (_synch p)) in *.
  assert (0 < num) as Hn by (unfold num, zlen; lia).
  rewrite (proj2 (Z.eqb_neq num 0)) by lia.
  set (target := Z.to_nat ((Z.of_nat j - 1) mod num)).
  pose proof (Z.mod_pos_bound (Z.of_nat j - 1) num Hn) as Hb.
  destruct (loop_finds locked num j target (length (_synch p)) 0) as (k & m & E & L & K & M);
    try done; try lia.
  - unfold target. rewrite Z2Nat.id by lia. rewrite Zplus_mod_idemp_l.
    replace (Z.of_nat j - 1 + 1) with (Z.of_nat j) by lia. apply Z.mod_small. unfold num, zlen. lia.
  - unfold target, num, zlen in *. lia.
  - exists k, m. change (Z.of_nat 0) with 0 in E. rewrite E. split; [done|]. split; [done|].
    split; [apply lookup_lt_is_Some_2|]; unfold target, num, zlen in *; lia.
Qed.

(** ** Operations in order *)

(** What the threads do while the pool stays open, in any order: the owner
    enqueues, an idle worker pops, and one that has an operation executes it. *)
Inductive event : Type :=
  | Enqueues (op : operation)
  | Pops (k : nat)
  | Calls (k : nat) (readings : list Z).

(** The operations taken and not yet executed, by worker; which worker took which
    operation, in order; and what was executed by whom with what outcome. *)
Record history := mkHistory {
  h_hands : gmap nat operation;
  h_taken : list (nat * operation);
  h_executed : list (nat * operation * outcome Empty_set (list (nat * answer)))
}.

Definition handle (stack : nat) (e : event) (s : history * t) : history * t :=
  let '(h, p) := s in
  match e with
  | Enqueues op => (h, Enqueue op p)
  | Pops k =>
      match h_hands h !! k, WorkerThread_pop k p with
      | None, (Took op, p) =>
          (mkHistory (<[k := op]> (h_hands h)) (h_taken h ++ [(k, op)]) (h_executed h), p)
      | _, _ => s
      end
  | Calls k readings =>
      match h_hands h !! k with
      | Some op =>
          match WorkerThread_call stack false readings k op p with
          | (Some o, p) =>
              (mkHistory (delete k (h_hands h)) (h_taken h) (h_executed h ++ [(k, op, o)]), p)
          | (None, p) => (mkHistory (delete k (h_hands h)) (h_taken h) (h_executed h), p)
          end
      | None => s
      end
  end.

Definition run (stack : nat) (es : list event) (p : t) : history * t :=
  foldl (λ s e, handle stack e s) (mkHistory ∅ [] [], p) es.

Fixpoint enqueued (es : list event) : list operation :=
  match es with
  | [] => []
  | Enqueues op :: es => op :: enqueued es
  | _ :: es => enqueued es
  end.

(** The operations a worker took, and those it executed, in order. *)
Definition taken_by (k : nat) (h : history) : list operation :=
  map snd (List.filter (λ x, (x.1 =? k)%nat) (h_taken h)).
Definition executed_by (k : nat) (h : history) : list operation :=
  map (λ x, x.1.2) (List.filter (λ x, (x.1.1 =? k)%nat) (h_executed h)).

Lemma call_promise stack readings op c answers c' :
  Operations.call stack readings op c = (Ret answers, c') →
  answers.*1 = option_list (Operations.promise op).
Proof.
  destruct op as [|sql [f|]|stmt [f|]|qs f|tr|tr f]; cbn [Operations.call Operations.promise];
    intros E; try (apply bind_ret_inv in E as (? & ? & _ & E); by injection E as <- <-).
  - destruct (Task.Execute _ _ _) as [[] []]; by simplify_eq.
  - rewrite Atomic.ExecuteWithResult_Execute in E. unfold mbind, M_bind in E.
    destruct (Task.Execute _ _ _) as [[] []]; cbn in E; by simplify_eq.
Qed.

Record in_order (waiting : list operation) (workers : nat) (s : history * t) : Prop := {
  io_open : PCQueue.shutdown (_queue s.2) = false;
  io_workers : length (_async s.2) = workers;
  io_taken : waiting = map snd (h_taken s.1) ++ PCQueue.queue (_queue s.2);
  io_who k op : (k, op) ∈ h_taken s.1 → (k < workers)%nat;
  io_by k : taken_by k s.1 = executed_by k s.1 ++ option_list (h_hands s.1 !! k);
  io_answers k op answers : (k, op, Ret answers) ∈ h_executed s.1 →
    answers.*1 = option_list (Operations.promise op)
}.

Lemma taken_by_snoc k j op hs l ex ex' :
  taken_by k (mkHistory hs (l ++ [(j, op)]) ex) =
  taken_by k (mkHistory hs l ex') ++ (if (j =? k)%nat then [op] else []).
Proof.
  unfold taken_by. cbn. rewrite List.filter_app, map_app. cbn. by destruct (j =? k)%nat.
Qed.

Lemma executed_by_snoc k j op o hs l ex l' hs' :
  executed_by k (mkHistory hs l (ex ++ [(j, op, o)])) =
  executed_by k (mkHistory hs' l' ex) ++ (if (j =? k)%nat then [op] else []).
Proof.
  unfold executed_by. cbn. rewrite List.filter_app, map_app. cbn. by destruct (j =? k)%nat.
Qed.

Lemma pop_in_order waiting n stack k s :
  in_order waiting n s → in_order waiting n (handle stack (Pops k) s).
Proof.
  intros I. destruct s as [h p]. pose proof I as [H1 H2 H3 H4 H5 H6]. cbn [fst snd handle] in *.
  destruct (h_hands h !! k) eqn:Ek; [done|]. unfold WorkerThread_pop, PCQueue.WaitAndPop.
  destruct (_async p !! k) as [c|] eqn:Ec; [|done]. rewrite H1.
  destruct (PCQueue.queue (_queue p)) as [|op ops] eqn:Eq; cbn [negb]; [done|].
  split; cbn [fst snd h_taken h_executed h_hands _queue _async set_queue PCQueue.queue PCQueue.shutdown];
    try done.
  - rewrite map_app, <- app_assoc. exact H3.
  - intros j op' [Hin|[= -> ->]%list_elem_of_singleton]%elem_of_app; [by eapply H4|].
    rewrite <- H2. by eapply lookup_lt_Some.
  - intros j. rewrite (taken_by_snoc j k op _ _ _ (h_executed h)).
    specialize (H5 j). unfold taken_by, executed_by in *. cbn [h_taken h_executed] in *. rewrite H5.
    destruct (Nat.eqb_spec k j) as [->|Hn].
    + rewrite Ek, lookup_insert_eq. cbn. by rewrite app_nil_r.
    + by rewrite lookup_insert_ne, app_nil_r.
Qed.

Lemma call_in_order waiting n stack k readings s :
  in_order waiting n s → in_order waiting n (handle stack (Calls k readings) s).
Proof.
  intros I. destruct s as [h p]. pose proof I as [H1 H2 H3 H4 H5 H6]. cbn [fst snd handle] in *.
  destruct (h_hands h !! k) as [op|] eqn:Ek; [|done]. unfold WorkerThread_call.
  assert (∀ o p', (∀ answers, o = Ret answers → answers.*1 = option_list (Operations.promise op)) →
    PCQueue.shutdown (_queue p') = false → length (_async p') = n →
    PCQueue.queue (_queue p') = PCQueue.queue (_queue p) →
    in_order waiting n (mkHistory (delete k (h_hands h)) (h_taken h) (h_executed h ++ [(k, op, o)]), p'))
    as G.
  { intros o p' Ho P1 P2 P3. split; cbn [fst snd]; try done; [by rewrite P3| |].
    - intros j. rewrite (executed_by_snoc j k op o _ _ _ (h_taken h) (h_hands h)).
      specialize (H5 j). unfold taken_by, executed_by in *. cbn [h_taken h_executed h_hands] in *.
      rewrite H5. destruct (Nat.eqb_spec k j) as [->|Hn].
      + rewrite Ek, lookup_delete_eq. cbn. by rewrite app_nil_r.
      + by rewrite lookup_delete_ne, app_nil_r.
    - intros j op' answers [Hin|E]%elem_of_app; [by eapply H6|].
      apply list_elem_of_singleton in E. simplify_eq. by apply Ho. }
  destruct (_async p !! k) as [c|]; [|by apply G].
  destruct (Operations.call stack readings op c) as [o c'] eqn:E. apply G; try done.
  - intros answers ->. by eapply call_promise.
  - cbn. by rewrite length_insert.
Qed.

Lemma run_in_order stack es p :
  PCQueue.shutdown (_queue p) = false →
  in_order (PCQueue.queue (_queue p) ++ enqueued es) (length (_async p)) (run stack es p).
Proof.
  intros Hq. unfold run.
  assert (in_order (PCQueue.queue (_queue p)) (length (_async p)) (mkHistory ∅ [] [], p)) as I.
  { split; try done; cbn.
    - by intros k op ?%elem_of_nil.
    - intros k op answers ?%elem_of_nil. done. }
  revert I. generalize (PCQueue.queue (_queue p)), (length (_async p)), (mkHistory ∅ [] [], p).
  clear Hq p. intros waiting n s. revert waiting s.
  induction es as [|[op|k|k readings] es IH]; intros waiting s I; cbn [foldl enqueued].
  - by rewrite app_nil_r.
  - change (op :: enqueued es) with ([op] ++ enqueued es). rewrite app_assoc. apply IH.
    destruct s as [h p], I as [H1 H2 H3 H4 H5 H6]. split; try done. cbn in H3 |- *.
    by rewrite H3, <- app_assoc.
  - by apply IH, pop_in_order.
  - by apply IH, call_in_order.
Qed.

(** With one worker, whatever was taken was taken by it. *)
Lemma all_by_one (h : history) :
  (∀ k op, (k, op) ∈ h_taken h → k = 0%nat) → map snd (h_taken h) = taken_by 0 h.
Proof.
  intros Hk. unfold taken_by. f_equal. induction (h_taken h) as [|[k op] l IH]; [done|].
  cbn. rewrite (Hk k op (list_elem_of_here _ _)). cbn. f_equal. apply IH.
  intros j o Hin. apply (Hk j o). by apply list_elem_of_further.
Qed.

(** C10: however the workers of an open pool interleave, asynchronous operations
    leave the queue in the order they were enqueued, each taken by exactly one
    worker; each worker executes the operations it took, in the order in which it
    took them and each once (the last it took may still be waiting in its hands);
    and an execution that returns has answered exactly the future of its operation,
    or none if it has none.  The order of execution across workers is not fixed:
    only with one worker are operations executed in the order enqueued. *)
Theorem operations_in_order (stack : nat) (es : list event) (p : t)
    (Hq : PCQueue.shutdown (_queue p) = false) :
  let '(h, p') := run stack es p in
  PCQueue.queue (_queue p) ++ enqueued es = map snd (h_taken h) ++ PCQueue.queue (_queue p') ∧
  (∀ k, taken_by k h = executed_by k h ++ option_list (h_hands h !! k)) ∧
  (∀ k op answers, (k, op, Ret answers) ∈ h_executed h →
     answers.*1 = option_list (Operations.promise op)) ∧
  (length (_async p) = 1%nat →
     PCQueue.queue (_queue p) ++ enqueued es =
       executed_by 0 h ++ option_list (h_hands h !! 0%nat) ++ PCQueue.queue (_queue p')).
Proof.
  pose proof (run_in_order stack es p Hq) as [_ _ H3 H4 H5 H6].
  destruct (run stack es p) as [h p']. cbn [fst snd] in *.
  split; [done|]. split; [done|]. split; [done|]. intros H1.
  rewrite H3, app_assoc, <- H5. f_equal. apply all_by_one. intros k op Hin%H4. lia.
Qed.

(** ** The capacity of statements *)

Definition sizes_ok (count : nat → Z) (sizes : list Z) : Prop :=
  ∀ i v, sizes !! i = Some v → v = 0 ∨ v = count i.

(** Every statement of a connection has the parameters its index stands for. *)
Definition counts_ok (count : nat → Z) (c : Connection.t) : Prop :=
  ∀ i s, Connection.m_stmts c !! i = Some (Some s) → 0 <= m_paramCount s ∧ m_paramCount s = count i.

Definition noted (c : Connection.t) (count : nat → Z) (sizes : list Z) : Prop :=
  ∀ i s, Connection.m_stmts c !! i = Some (Some s) → sizes !! i = Some (count i).

Lemma note_sizes_ok sizes stmts sizes' (count : nat → Z) :
  note_sizes sizes stmts = Ret sizes' → (length stmts <= length sizes)%nat →
  sizes_ok count sizes →
  (∀ i s, stmts !! i = Some (Some s) → 0 <= m_paramCount s ∧ m_paramCount s = count i) →
  length sizes' = length sizes ∧ sizes_ok count sizes' ∧
  (∀ i s, stmts !! i = Some (Some s) → sizes' !! i = Some (count i)) ∧
  (∀ i, sizes !! i = Some (count i) → sizes' !! i = Some (count i)).
Proof.
  revert stmts sizes' count.
  induction sizes as [|old sizes IH]; intros stmts sizes' count E L SO CO.
  { destruct stmts; [|cbn in L; lia]. injection E as <-. repeat split; auto. by intros []. }
  destruct stmts as [|o stmts]; [injection E as <-; repeat split; auto; by intros []|].
  cbn [note_sizes] in E.
  destruct (note_size old o) as [size| | |] eqn:E1; try done.
  destruct (note_sizes sizes stmts) as [sizes1| | |] eqn:E2; try done.
  injection E as <-.
  destruct (IH stmts sizes1 (λ i, count (S i)) E2) as (L1 & S1 & N1 & K1).
  { cbn in L. lia. } { intros i v Ei. by apply (SO (S i)). } { intros i s Es. by apply (CO (S i)). }
  assert ((∀ s, o = Some s → size = count 0%nat) ∧ (size = 0 ∨ size = count 0%nat) ∧
    (old = count 0%nat → size = count 0%nat)) as (A & B & C).
  { assert (∀ s, o = Some s → note_size 0 o = Ret size → size = count 0%nat) as G.
    { intros s ->. cbn. destruct (CO 0%nat s eq_refl) as [P Q].
      destruct (Z.ltb_spec (m_paramCount s) 255); [|done]. intros [= <-].
      by rewrite wrap_small by lia. }
    unfold note_size in E1. pose proof (SO 0%nat old eq_refl) as SO0.
    destruct (Z.ltb_spec 0 old) as [P|P].
    - injection E1 as <-. destruct SO0 as [->|Eo]; [lia|]. auto.
    - destruct o as [s|].
      + assert (size = count 0%nat) as -> by (by apply (G s)). auto.
      + injection E1 as <-. by repeat split. }
  split; [by cbn; rewrite L1|]. split; [|split].
  - intros [|i] v Ev; [by injection Ev as <-|by apply S1].
  - intros [|i] s Es; [injection Es as ->; cbn; by rewrite (A s)|by apply (N1 i s)].
  - intros [|i] Ei; [injection Ei as Ei; cbn; by rewrite C|by apply K1].
Qed.

Lemma prepare_connections_noted cs sizes cs' sizes' (count : nat → Z) :
  prepare_connections cs sizes = Ret (Some (cs', sizes')) →
  sizes_ok count sizes → Forall (counts_ok count) cs' →
  sizes_ok count sizes' ∧ Forall (λ c, noted c count sizes') cs' ∧
  (∀ i, sizes !! i = Some (count i) → sizes' !! i = Some (count i)).
Proof.
  revert sizes cs'. induction cs as [|c cs IH]; intros sizes cs' E SO CO.
  { injection E as <- <-. auto. }
  cbn [prepare_connections] in E.
  destruct (Connection.PrepareStatements c) as [[[]| | |] c1]; try done.
  set (sizes1 := if zlen sizes <? _ then _ else _) in E.
  destruct (note_sizes sizes1 (Connection.m_stmts c1)) as [sizes2| | |] eqn:E2; try done.
  destruct (prepare_connections cs sizes2) as [[[cs2 sizes3]|]| | |] eqn:E3; try done.
  injection E as <- <-. inversion CO as [|? ? C1 C2]; subst.
  assert (length (Connection.m_stmts c1) <= length sizes1)%nat as L1.
  { unfold sizes1. destruct (Z.ltb_spec (zlen sizes) (zlen (Connection.m_stmts c1))) as [G|G].
    - pose proof (zlen_vresize (zlen (Connection.m_stmts c1)) 0 sizes (zlen_nonneg _)) as Z.
      unfold zlen in *. lia.
    - unfold zlen in *. lia. }
  assert (∀ i v, sizes !! i = Some v → sizes1 !! i = Some v) as K1.
  { intros i v Ei. unfold sizes1. destruct (Z.ltb_spec (zlen sizes) (zlen (Connection.m_stmts c1))); [|done].
    rewrite vresize_grow by lia. by apply lookup_app_l_Some. }
  assert (sizes_ok count sizes1) as S1.
  { intros i v Ei. unfold sizes1 in Ei.
    destruct (Z.ltb_spec (zlen sizes) (zlen (Connection.m_stmts c1))); [|by apply SO].
    rewrite vresize_grow in Ei by lia. apply lookup_app_Some in Ei as [Ei|[_ Ei]]; [by apply SO|].
    left. by apply lookup_replicate in Ei as [-> _]. }
  destruct (note_sizes_ok _ _ _ count E2 L1 S1 C1) as (L2 & S2 & N2 & K2).
  destruct (IH sizes2 cs2 E3 S2 C2) as (S3 & F3 & K3).
  split; [done|]. split; [|auto]. constructor; [|done].
  intros i s Es. apply K3. by eapply N2.
Qed.

(** A prepared statement asked for by its number has room for exactly the
    values the server expects.  When every connection of a new pool could prepare
    its statements, and the server counts the parameters of a statement alike on
    all of them, [GetPreparedStatement] of a number prepared on any of them gives a
    statement with as many parameters as it has there. *)
Theorem statement_capacity (p p' : t) (count : nat → Z) (c : Connection.t) (i : nat)
    (s : MySQLPreparedStatement)
    (Hp : PrepareStatements p = (Ret true, p')) (Hn : _preparedStatementSize p = [])
    (Hc : Forall (counts_ok count) (_async p' ++ _synch p'))
    (Hin : c ∈ _async p' ++ _synch p') (Hs : Connection.m_stmts c !! i = Some (Some s)) :
  GetPreparedStatement (Z.of_nat i) p' = (Ret (Prepared.new (Z.of_nat i) (m_paramCount s)), p').
Proof.
  unfold PrepareStatements in Hp. rewrite Hn in Hp.
  destruct (prepare_connections (_async p) []) as [[[async sizes1]|]| | |] eqn:E1; try done.
  destruct (prepare_connections (_synch p) sizes1) as [[[synch sizes2]|]| | |] eqn:E2; try done.
  injection Hp as <-. cbn [_async _synch set_sizes set_synch set_async] in Hc, Hin.
  apply Forall_app in Hc as [Ca Cs].
  destruct (prepare_connections_noted _ _ _ _ count E1) as (S1 & F1 & _); [intros ? ? Hl; by rewrite lookup_nil in Hl|done|].
  destruct (prepare_connections_noted _ _ _ _ count E2) as (S2 & F2 & K2); [done|done|].
  assert (sizes2 !! i = Some (count i) ∧ m_paramCount s = count i) as [E Ec].
  { rewrite Forall_forall in Ca, Cs, F1, F2. apply elem_of_app in Hin as [Hin|Hin].
    - split; [apply K2; by apply (F1 c Hin i s)|by apply (Ca c Hin)].
    - split; [by apply (F2 c Hin i s)|by apply (Cs c Hin)]. }
  unfold GetPreparedStatement. cbn [_preparedStatementSize set_sizes]. rewrite Nat2Z.id, E. by rewrite Ec.
Qed.
End pool.
End Pool.

(** ** DatabaseLoader

    The steps of loading: a step may register a close operation; after the first
    one that fails everything registered is closed, last first. *)

Module Loader.
Section loader.
Context {S : Type}.

(** The world and the stack [_close]. *)
Definition state : Type := S * list (S → S).
Definition predicate : Type := state → bool * state.

Fixpoint close_all (closers : list (S → S)) (s : S) : S :=
  match closers with
  | [] => s
  | close :: closers => close_all closers (close s)
  end.

Fixpoint Process (queue : list predicate) (s : state) : bool * state :=
  match queue with
  | [] => (true, s)
  | p :: queue =>
      let '(ok, s) := p s in
      if (ok : bool) then Process queue s else (false, (close_all s.2 s.1, []))
  end.

(** [Load]: all databases are opened before any is populated, and so on. *)
Record t := mkLoader {
  _open : list predicate;
  _populate : list predicate;
  _update : list predicate;
  _prepare : list predicate
}.

Definition Load (l : t) (s : state) : bool * state :=
  let '(ok, s) := Process (_open l) s in
  if negb ok then (false, s)
  else let '(ok, s) := Process (_populate l) s in
  if negb ok then (false, s)
  else let '(ok, s) := Process (_update l) s in
  if negb ok then (false, s)
  else Process (_prepare l) s.

Lemma Process_app q1 q2 s :
  Process (q1 ++ q2) s =
  let '(ok, s') := Process q1 s in if (ok : bool) then Process q2 s' else (false, s').
Proof.
  revert s. induction q1 as [|p q1 IH]; intros s; [done|]. cbn [Process app].
  destruct (p s) as [[] s']; [apply IH|done].
Qed.

Lemma Load_Process l s :
  Load l s = Process (_open l ++ _populate l ++ _update l ++ _prepare l) s.
Proof.
  unfold Load. rewrite !Process_app. destruct (Process (_open l) s) as [[] s1]; [|done].
  cbn [negb]. rewrite !Process_app. destruct (Process (_populate l) s1) as [[] s2]; [|done].
  cbn [negb]. rewrite Process_app. by destruct (Process (_update l) s2) as [[] s3].
Qed.
End loader.

(** *** Opening one database *)

Section open.
Context `{MySQL}.

Definition CR_CONNECTION_ERROR : Z := 2002.
Definition ER_BAD_DB_ERROR : Z := 1049.

(** The options read for a database. *)
Record options := mkOptions {
  dbString : list Z;
  asyncThreads : Z;
  synchThreads : Z;
  reconnect_attempts : Z;
  updatesEnabled : bool;
  autoSetup : bool
}.

(** The loop that waits for the server. *)
Fixpoint reconnect (attempts : nat) (error : Z) : M Empty_set Pool.t Z :=
  match attempts with
  | O => mret error
  | S attempts =>
      error ← Pool.Open;
      if error =? CR_CONNECTION_ERROR then reconnect attempts error else mret error
  end.

(** The first step of [AddDatabase]; [Create] runs the external client. *)
Definition open_database (o : options) (Create : Pool.t → bool * Pool.t) :
    M Empty_set Pool.t bool :=
  if bool_decide (dbString o = []) then mret false
  else if (asyncThreads o <? 1) || (32 <? asyncThreads o) then mret false
  else
    _ ← modify (Pool.SetConnectionInfo (dbString o) (asyncThreads o) (synchThreads o));
    error ← Pool.Open;
    if error =? 0 then mret true
    else
      error ← (if error =? CR_CONNECTION_ERROR
               then reconnect (Z.to_nat (reconnect_attempts o)) error else mret error);
      error ← (if (error =? ER_BAD_DB_ERROR) && updatesEnabled o && autoSetup o then
                 created ← (λ p, let '(b, p) := Create p in (Ret b, p));
                 if (created : bool) then
                   again ← Pool.Open;
                   mret (if again =? 0 then 0 else error)
                 else mret error
               else mret error);
      mret (error =? 0).
End open.
End Loader.

(** Loading runs the steps in order, all databases through one phase before the
    next, until one fails; then everything opened is closed, the last one first,
    and nothing else is run.  Success means every step succeeded and nothing was
    closed. *)
Theorem load_all_or_close {S : Type} (l : @Loader.t S) (s : @Loader.state S) :
  let steps := Loader._open l ++ Loader._populate l ++ Loader._update l ++ Loader._prepare l in
  (∃ s', Loader.Load l s = (true, s') ∧
    rtc (λ a b, ∃ p, p ∈ steps ∧ p a = (true, b)) s s') ∨
  (∃ (done : list Loader.predicate) p rest (s1 s2 : @Loader.state S), steps = done ++ p :: rest ∧
    Loader.Process done s = (true, s1) ∧ p s1 = (false, s2) ∧
    Loader.Load l s = (false, (Loader.close_all s2.2 s2.1, []))).
Proof.
  intros steps. rewrite Loader.Load_Process. fold steps.
  assert (∀ (q : list Loader.predicate) (s : @Loader.state S), (∃ s', Loader.Process q s = (true, s') ∧
      rtc (λ a b, ∃ p, p ∈ q ∧ p a = (true, b)) s s') ∨
    (∃ (done : list Loader.predicate) p rest (s1 s2 : @Loader.state S), q = done ++ p :: rest ∧ Loader.Process done s = (true, s1) ∧
      p s1 = (false, s2) ∧ Loader.Process q s = (false, (Loader.close_all s2.2 s2.1, [])))) as G.
  { clear. intros q. induction q as [|p q IH]; intros s; [left; exists s; by split|].
    cbn [Loader.Process]. destruct (p s) as [[] s1] eqn:E.
    - destruct (IH s1) as [(s' & E' & R)|(d & p' & rest & s2 & s3 & -> & E2 & E3 & E4)].
      + left. exists s'. split; [done|]. eapply rtc_l.
        { exists p. split; [apply list_elem_of_here|done]. }
        eapply rtc_subrel; [|exact R]. intros a b (p' & Hin & Ep). exists p'.
        split; [by apply list_elem_of_further|done].
      + right. exists (p :: d), p', rest, s2, s3. split; [done|]. split; [|done].
        cbn [Loader.Process]. by rewrite E.
    - right. by exists [], p, q, s, s1. }
  apply G.
Qed.

(** ** Witnesses

    A server that is down or up when a connection is made. *)

Definition flaky_server : MySQL :=
  Build_MySQL bool (λ s, (true, s)) (λ _ s, (s, s)) id (λ _ _, Loader.CR_CONNECTION_ERROR)
    (λ _ s, (true, s)) (λ _, mkQueryAnswer None 0 0 []) (λ s, (true, s))
    (λ sql s, (Some (zlen (List.filter (Z.eqb 63) sql)), s)) (λ _ s, (true, s)) (λ _ s, (true, s))
    (λ _ _, mkStatementAnswer false 0 0 (mkAnswers false 0 [] false []) (λ _, [])) id (λ _, 50700).

Definition demo_pool (servers : list bool) (async synch : Z) : @Pool.t flaky_server :=
  Pool.SetConnectionInfo (str "127.0.0.1;3306;core;secret;discord") async synch
    (@Pool.new flaky_server servers).

(** The server is up at the second attempt. *)
Lemma failed_open_stops_workers_witness :
  let p := demo_pool [false; true; true] 1 1 in
  let p1 := exec (Pool.OpenConnections Pool.IDX_ASYNC 1) p in
  let p2 := exec Pool.Open p1 in
  Pool.OpenConnections Pool.IDX_ASYNC 1 p = (Ret 2002, p1) ∧
  Pool.Open p1 = (Ret 0, p2) ∧
  (Pool.WorkerThread_pop 0 (foldl (λ p op, Pool.Enqueue op p) p2 [PingOperation])).1 = Pool.Stops.
Proof.
  intros p p1 p2.
  assert (Pool.OpenConnections Pool.IDX_ASYNC 1 p = (Ret 2002, p1)) as E1 by reflexivity.
  assert (Pool.Open p1 = (Ret 0, p2)) as E2 by reflexivity.
  assert (0 < length (Pool._async p2))%nat as L by (vm_compute; lia).
  split; [exact E1|split; [exact E2|]].
  exact (Pool.failed_open_stops_workers p p1 p2 1 2002 (Ret 0) [PingOperation] 0
    E1 ltac:(discriminate) E2 L).
Defined.

(** The second of three connections is free. *)
Lemma free_connection_found_witness :
  let p := exec Pool.Open (demo_pool [true; true; true; true] 1 3) in
  length (Pool._synch p) = 3%nat ∧
  ∃ k n, Pool.GetFreeConnection (λ _ k, negb (k =? 2)%nat) 3 p = Ret (Some (k, n)) ∧
    negb (k =? 2)%nat = false ∧ (n < 3)%nat.
Proof.
  intros p. split; [reflexivity|].
  destruct (Pool.free_connection_found p (λ _ k, negb (k =? 2)%nat) 2) as (k & n & E & F & _ & L).
  - vm_compute. reflexivity.
  - vm_compute. lia.
  - reflexivity.
  - exists k, n. split; [exact E|split; [exact F|exact L]].
Defined.

(** Two queries and a ping, two workers; the second overtakes the first. *)
Definition demo_events : list Pool.event :=
  [Pool.Enqueues (BasicStatementTask (str "A") (Some 0%nat)); Pool.Enqueues PingOperation;
   Pool.Pops 1; Pool.Enqueues (BasicStatementTask (str "B") None); Pool.Pops 0;
   Pool.Calls 0 []; Pool.Calls 1 []].

Lemma operations_in_order_witness :
  let p := exec Pool.Open (demo_pool [true; true; true] 2 1) in
  PCQueue.shutdown (Pool._queue p) = false ∧
  map (λ x, x.1) (Pool.h_executed (Pool.run 1 demo_events p).1) =
    [(0%nat, PingOperation); (1%nat, BasicStatementTask (str "A") (Some 0%nat))] ∧
  map snd (Pool.h_taken (Pool.run 1 demo_events p).1) =
    [BasicStatementTask (str "A") (Some 0%nat); PingOperation] ∧
  let '(h, p') := Pool.run 1 demo_events p in
  PCQueue.queue (Pool._queue p) ++ Pool.enqueued demo_events =
    map snd (Pool.h_taken h) ++ PCQueue.queue (Pool._queue p').
Proof.
  intros p. assert (PCQueue.shutdown (Pool._queue p) = false) as S by reflexivity.
  split; [exact S|split; [reflexivity|split; [reflexivity|]]].
  pose proof (Pool.operations_in_order 1 demo_events p S) as O.
  destruct (Pool.run 1 demo_events p) as [h p']. exact (proj1 O).
Defined.

(** The statement that creates an account has five parameters. *)
Definition demo_prepared : @Pool.t flaky_server :=
  exec Pool.PrepareStatements (exec Pool.Open (demo_pool [true; true] 1 1)).

Definition demo_count (i : nat) : Z := nth i [1; 5; 1; 1; 0; 3; 1; 1; 4; 4; 0; 0; 5] 0.

Definition counted (c : @Connection.t flaky_server) : bool :=
  forallb (λ p : nat * option MySQLPreparedStatement,
    match p.2 with
    | Some s => m_paramCount s =? demo_count p.1
    | None => true
    end) (imap pair (Connection.m_stmts c)).

Lemma counted_ok c : counted c = true → Pool.counts_ok demo_count c.
Proof.
  unfold counted. rewrite forallb_forall. intros F i s E.
  assert (m_paramCount s = demo_count i) as ->.
  { apply Z.eqb_eq. apply (F (i, Some s)). apply list_elem_of_In.
    apply (list_elem_of_lookup_2 _ i). by rewrite list_lookup_imap, E. }
  split; [|done]. unfold demo_count. do 13 (destruct i as [|i]; [done|]). by destruct i.
Qed.

Lemma statement_capacity_witness :
  Pool.GetPreparedStatement Connection.DISCORD_INS_ACCOUNT demo_prepared =
    (Ret (Prepared.new Connection.DISCORD_INS_ACCOUNT 5), demo_prepared).
Proof.
  set (p := exec Pool.Open (demo_pool [true; true] 1 1)).
  assert (Pool.PrepareStatements p = (Ret true, demo_prepared)) as E
    by (vm_compute; reflexivity).
  set (c := nth 0 (Pool._async demo_prepared) (@Connection.new flaky_server 0 empty_info true)).
  set (s := match nth 1 (Connection.m_stmts c) None with Some s => s | None => Bound.new 0 [] end).
  assert (Forall (Pool.counts_ok demo_count) (Pool._async demo_prepared ++ Pool._synch demo_prepared)) as C.
  { apply Forall_forall. intros c' Hc. apply counted_ok.
    apply (proj1 (forallb_forall counted (Pool._async demo_prepared ++ Pool._synch demo_prepared))).
    - vm_compute. reflexivity.
    - exact (proj1 (list_elem_of_In _ _) Hc). }
  assert ((Pool._async demo_prepared ++ Pool._synch demo_prepared) !! 0%nat = Some c) as H0
    by (vm_compute; reflexivity).
  assert (Connection.m_stmts c !! 1%nat = Some (Some s)) as Hs by (vm_compute; reflexivity).
  assert (m_paramCount s = 5) as <- by (vm_compute; reflexivity).
  exact (Pool.statement_capacity p demo_prepared demo_count c 1 s E eq_refl C
    (list_elem_of_lookup_2 _ _ _ H0) Hs).
Defined.
