(* ===== verification/Storage.v ===== *)
(** * Storage: an account in the database and back

    Model of the constructor of [AccountInfo] ([src/src/server/Server/DiscordSocket.cpp]),
    which reads the row of an account, and of the arguments [AccountMgr] and [BanMgr]
    give to the statements they execute.  The statements, the results and the texts
    prepared are those of [Statements.v], [Results.v] and [MySQL.v]; what the server
    answers is the row in the format of the prepared protocol, with the types of the
    tables [account] and [account_banned] ([src/sql/base/db_discord]).

    [executed_statements_bound]: every statement these two execute has a prepared
    text with as many parameters as it has arguments, one excepted, and its
    arguments reach the server.  [account_survives_database]: the account a
    registration stores is read back at login as it was stored, and its key is
    accepted.  [banned_account_unreadable]: the two dates of a ban are not. *)

From S2P Require Import Prelude MessageBuffer Utf8 Strings BigNumber Srp6 Timer Enums ByteBuffer Wire Packets.
From S2P Require Import Queues Async Socket Session DiscordSocket Containers World Accounts.
From S2P Require Import Statements Fields Results MySQL.
Open Scope Z_scope.
Import PreparedResults Prepared_block.

(** ** What is executed

    The index of a statement and the arguments it is given. *)

Definition index_of (st : statement) : Z :=
  match st with
  | DISCORD_INS_ACCOUNT _ _ _ _ _ => Connection.DISCORD_INS_ACCOUNT
  | DISCORD_UPD_LOGON _ _ _ => Connection.DISCORD_UPD_LOGON
  | DISCORD_UPD_ACCOUNT_BAN_EXPIRED => Connection.DISCORD_UPD_ACCOUNT_BAN_EXPIRED
  | DISCORD_UPD_IP_BAN_EXPIRED => Connection.DISCORD_UPD_IP_BAN_EXPIRED
  | DISCORD_INS_ACCOUNT_BAN _ _ _ _ => Connection.DISCORD_INS_ACCOUNT_BAN
  | DISCORD_DEL_BAN_ACCOUNT _ => Connection.DISCORD_DEL_BAN_ACCOUNT
  | DISCORD_INS_IP_BAN _ _ _ _ => Connection.DISCORD_INS_IP_BAN
  | DISCORD_DEL_BAN_IP _ => Connection.DISCORD_DEL_BAN_IP
  end.

Definition account_arguments (name salt verifier : list Z) (guildID : Z) (realmName : list Z) :
    list Argument :=
  [ArgString name; ArgArray salt; ArgArray verifier; ArgDefault (DInt64 guildID); ArgString realmName].

Definition logon_arguments (salt verifier : list Z) (id : Z) : list Argument :=
  [ArgArray salt; ArgArray verifier; ArgDefault (DUInt32 id)].

Definition account_ban_arguments (id duration : Z) (bannedBy reason : list Z) : list Argument :=
  [ArgDefault (DUInt32 id); ArgDuration duration true; ArgString bannedBy; ArgString reason].

Definition ip_ban_arguments (ip : list Z) (duration : Z) (bannedBy reason : list Z) : list Argument :=
  [ArgString ip; ArgDuration duration true; ArgString bannedBy; ArgString reason].

Definition arguments_of (st : statement) : list Argument :=
  match st with
  | DISCORD_INS_ACCOUNT name salt verifier guildID realmName =>
      account_arguments name salt verifier guildID realmName
  | DISCORD_UPD_LOGON salt verifier id => logon_arguments salt verifier id
  | DISCORD_UPD_ACCOUNT_BAN_EXPIRED | DISCORD_UPD_IP_BAN_EXPIRED => []
  | DISCORD_INS_ACCOUNT_BAN id duration bannedBy reason =>
      account_ban_arguments id duration bannedBy reason
  | DISCORD_DEL_BAN_ACCOUNT id => [ArgDefault (DUInt32 id)]
  | DISCORD_INS_IP_BAN ip duration bannedBy reason => ip_ban_arguments ip duration bannedBy reason
  | DISCORD_DEL_BAN_IP ip => [ArgString ip]
  end.

(** The parameters the server counts in a text: its question marks; none of the
    texts has one in a literal. *)
Definition markers (sql : list Z) : Z := zlen (filter (λ c, c = 63) sql).

(** ** Reading a row *)

Section reading.
Context `{Floats}.

Definition field (fields : list Field) (i : nat) : M Empty_set (list warning) Field :=
  Fields.or_undefined (fields !! i).

Definition unless_null (stack : nat) (f : Field) : M Empty_set (list warning) (option Z) :=
  if negb (Fields.IsNull f) then v ← Fields.Get_duration stack false f; mret (Some v) else mret None.

(** [AccountInfo::AccountInfo]: what it reads; [AccountInfo_new] is what it makes of
    it. *)
Definition read_account (stack : nat) (fields : list Field) : M Empty_set (list warning) AccountRow :=
  f ← field fields 0; ID ← Fields.GetData stack TUInt32 f;
  f ← field fields 1; Salt ← lift (Fields.GetBinarySizeChecked SRP6.SALT_LENGTH f);
  f ← field fields 2; Verifier ← lift (Fields.GetBinarySizeChecked SRP6.VERIFIER_LENGTH f);
  f ← field fields 3; GuildID ← Fields.GetData stack TUInt64 f;
  f ← field fields 4; RealmName ← lift (Fields.GetDataString f);
  f ← field fields 5; LastIP ← lift (Fields.GetDataString f);
  f ← field fields 6; CoreName ← lift (Fields.GetDataString f);
  f ← field fields 7; ModuleVersion ← Fields.GetData stack TUInt32 f;
  f ← field fields 8; BanDate ← unless_null stack f;
  f ← field fields 9; UnBanDate ← unless_null stack f;
  mret (mkAccountRow ID Salt Verifier GuildID RealmName LastIP CoreName ModuleVersion BanDate UnBanDate).

(** ** What the server answers *)

(** A row of the table [account], and the standing ban of the account. *)
Record stored_account := mkStored {
  sa_ID : Z;
  sa_Salt : list Z;
  sa_Verifier : list Z;
  sa_GuildID : Z;
  sa_RealmName : list Z;
  sa_LastIP : list Z;
  sa_CoreName : list Z;
  sa_ModuleVersion : Z;
  sa_ban : option (Z * Z)
}.

Definition text_column (s : list Z) : column := Some (s, zlen s).
Definition int_column (size : nat) (v : Z) : column := Some (le_bytes size v, Z.of_nat size).

(** The columns of DISCORD_SEL_ACCOUNT_INFO_BY_NAME; those of the ban come from a
    LEFT JOIN. *)
Definition account_columns (a : stored_account) : list column :=
  [int_column 4 (sa_ID a); text_column (sa_Salt a); text_column (sa_Verifier a);
   int_column 8 (sa_GuildID a); text_column (sa_RealmName a); text_column (sa_LastIP a);
   text_column (sa_CoreName a); int_column 4 (sa_ModuleVersion a);
   (λ b, (le_bytes 4 b.1, 4)) <$> sa_ban a; (λ b, (le_bytes 4 b.2, 4)) <$> sa_ban a].

Definition account_types : list enum_field_types :=
  [MYSQL_TYPE_LONG; MYSQL_TYPE_STRING; MYSQL_TYPE_STRING; MYSQL_TYPE_LONGLONG; MYSQL_TYPE_VAR_STRING;
   MYSQL_TYPE_VAR_STRING; MYSQL_TYPE_VAR_STRING; MYSQL_TYPE_LONG; MYSQL_TYPE_LONG; MYSQL_TYPE_LONG].

Record answered (ans : statement_answers) (fresh : nat → list Z) (a : stored_account) : Prop := {
  an_well : answered_well ans fresh;
  an_types : map f_type (result_fields ans) = account_types;
  an_plain : Forall (λ f, Fields.GetCleanAliasName (f_name f) = None) (result_fields ans);
  an_row : fetched ans = [account_columns a]
}.

(** Values of the types of the columns; numbers read as [uint32] are below 2^24, so
    that a byte of them is zero. *)
Record account_ok (a : stored_account) : Prop := {
  ok_ID : 0 <= sa_ID a < 2 ^ 24;
  ok_Salt : zlen (sa_Salt a) = SRP6.SALT_LENGTH;
  ok_Verifier : zlen (sa_Verifier a) = SRP6.VERIFIER_LENGTH;
  ok_GuildID : 0 <= sa_GuildID a < 2 ^ 64;
  ok_ModuleVersion : 0 <= sa_ModuleVersion a < 2 ^ 24
}.

Definition row_of (a : stored_account) : AccountRow :=
  mkAccountRow (sa_ID a) (sa_Salt a) (sa_Verifier a) (sa_GuildID a) (sa_RealmName a) (sa_LastIP a)
    (sa_CoreName a) (sa_ModuleVersion a) (fst <$> sa_ban a) (snd <$> sa_ban a).

(** ** One row *)

Lemma one_row (ans : statement_answers) (fresh : nat → list Z) (rowCount : Z) (row : list column) :
  answered_well ans fresh → fetched ans = [row] →
  ∃ pr fields buf, new ans true rowCount (zlen (result_fields ans)) fresh = Ret pr ∧
    Fetch pr = Ret fields ∧ zlen buf = sum (map Results.SizeForType (result_fields ans)) ∧
    ∀ c col fd, row !! c = Some col → result_fields ans !! c = Some fd →
      let p := off (map Results.SizeForType (result_fields ans)) c in
      ∃ f, fields !! c = Some f ∧ raw f = true ∧
        meta f = Some (Results.InitializeDatabaseFieldMetadata fd (Z.of_nat c)) ∧
        match col with
        | None => value f = None
        | Some (bytes, len) => value f = Some (zdrop p buf) ∧ data_length f = u32 len ∧
            slice p len buf = ztake len bytes
        end.
Proof.
  intros Ha Er. destruct (new_taken ans fresh rowCount Ha) as (ks & rows & buf & E & [TL TC TB TR TK]).
  rewrite Er in *. change (zlen [row]) with 1 in *.
  eexists _, _, buf. split; [exact E|].
  unfold Fetch. cbn [pr_rowPosition pr_rowCount pr_buffer pr_rows].
  cbn [Z.ltb Z.compare]. change (u32 (u32 0 * _)) with 0. split; [reflexivity|].
  split; [lia|]. intros c col fd Ec Ef. cbn zeta.
  pose proof (lookup_lt_Some _ _ _ Ef) as Hc.
  destruct (lookup_lt_is_Some_2 ks c) as [k Ek]; [rewrite TL, length_map; lia|].
  assert (0 <= k <= 1) as Hk by (rewrite Forall_lookup in TC; apply (TC _ _ Ek)).
  destruct (TK 0%nat c row col k ltac:(cbn; lia) eq_refl Ec Ek) as (v & Ev & Hv). cbn in Ev.
  change (zdrop 0 rows) with rows. rewrite list_lookup_fmap, Ev. eexists. split; [reflexivity|].
  unfold to_field. cbn [raw meta c_meta value c_value data_length c_length]. split; [done|].
  split; [unfold Results.metadata; by rewrite list_lookup_imap, Ef|].
  destruct col as [[bytes len]|]; [|by subst v].
  destruct Hv as (j & Hj & -> & Hs). assert (j = 0) as -> by lia.
  rewrite Z.mul_0_l, Z.add_0_r in *. done.
Qed.

(** A column that holds a value: the memory from its place on begins with it. *)
Lemma column_memory (f : Field) p (buf bytes : list Z) :
  value f = Some (zdrop p buf) → slice p (zlen bytes) buf = ztake (zlen bytes) bytes →
  value f = Some (bytes ++ zdrop (zlen bytes) (zdrop p buf)).
Proof.
  intros -> Hs. f_equal. unfold slice in Hs. rewrite (ztake_all (zlen bytes) bytes) in Hs by lia.
  rewrite <- Hs at 1. symmetry. apply ztake_zdrop.
Qed.

Lemma small_has_zero v rest : 0 <= v < 2 ^ 24 → 0 ∈ le_bytes 4 v ++ rest.
Proof.
  intros Hv. apply elem_of_app. left. cbn [le_bytes]. do 3 apply list_elem_of_further.
  apply list_elem_of_singleton. rewrite !Z.shiftr_shiftr by done. rewrite Z.shiftr_div_pow2 by done.
  by rewrite Z.div_small by lia.
Qed.

(** What a field of the row is: where its value lies in the block. *)
Definition holds_column (f : Field) (fd : MySQLField) (i : nat) (p : Z) (buf bytes : list Z) : Prop :=
  raw f = true ∧ meta f = Some (Results.InitializeDatabaseFieldMetadata fd (Z.of_nat i)) ∧
  value f = Some (zdrop p buf) ∧ data_length f = u32 (zlen bytes) ∧
  slice p (zlen bytes) buf = ztake (zlen bytes) bytes.

Lemma get_text f fd i p buf s :
  holds_column f fd i p buf s → zlen s < 2 ^ 32 → Fields.GetDataString f = Ret s.
Proof.
  intros (_ & _ & V & L & S) Hs. unfold Fields.GetDataString.
  rewrite (column_memory f p buf s V S), L, wrap_small by zlen_lia. unfold Fields.bytes.
  rewrite zlen_app, (proj2 (Z.leb_le _ _)) by zlen_lia. by rewrite ztake_app_exact.
Qed.

Lemma get_binary f fd i p buf s n :
  holds_column f fd i p buf s → zlen s = n → n < 2 ^ 32 → Fields.GetBinarySizeChecked n f = Ret s.
Proof.
  intros (_ & _ & V & L & S) <- Hs. unfold Fields.GetBinarySizeChecked.
  rewrite (column_memory f p buf s V S), L, wrap_small, Z.eqb_refl by zlen_lia. unfold Fields.bytes.
  rewrite zlen_app, (proj2 (Z.leb_le _ _)) by zlen_lia. by rewrite ztake_app_exact.
Qed.

Lemma get_int T it f fd i p buf v stack log :
  Fields.int_type_of T = Some it → Fields.int_range it v →
  Fields.GetCleanAliasName (f_name fd) = None →
  holds_column f fd i p buf (le_bytes (Z.to_nat (Fields.sizeof T)) v) →
  (T = TUInt32 → 0 <= v < 2 ^ 24) →
  Fields.GetData (S stack) T f log = (Ret v, log).
Proof.
  intros HT Hv Hp (R & M & V & _ & Sl) Hs.
  eapply Fields.GetData_raw; eauto using column_memory.
  intros -> _. apply small_has_zero. by apply Hs.
Qed.

(** The fields of the answer for an account. *)
Record row_fields (fields : list Field) (fds : list MySQLField) (buf : list Z) (a : stored_account) : Prop := {
  rf_types : map f_type fds = account_types;
  rf_plain : Forall (λ f, Fields.GetCleanAliasName (f_name f) = None) fds;
  rf_buf : zlen buf = sum (map Results.SizeForType fds);
  rf_text i s : account_columns a !! i = Some (Some (s, zlen s)) → zlen s < 2 ^ 32;
  rf_field i s : account_columns a !! i = Some (Some (s, zlen s)) →
    ∃ f fd, fields !! i = Some f ∧ fds !! i = Some fd ∧
      holds_column f fd i (off (map Results.SizeForType fds) i) buf s;
  rf_null i : account_columns a !! i = Some None → ∃ f, fields !! i = Some f ∧ value f = None
}.

Lemma answered_fields ans fresh rowCount a :
  answered ans fresh a →
  ∃ pr fields buf, new ans true rowCount 10 fresh = Ret pr ∧ Fetch pr = Ret fields ∧
    row_fields fields (result_fields ans) buf a.
Proof.
  intros [Hw Ht Hp Hr]. destruct (one_row ans fresh rowCount _ Hw Hr) as (pr & fields & buf & E & Ef & Lb & F).
  assert (length (result_fields ans) = 10%nat) as Hl by (by rewrite <- (length_map f_type), Ht).
  assert (zlen (result_fields ans) = 10) as Hz by (unfold zlen; lia). rewrite Hz in E.
  exists pr, fields, buf. split; [done|]. split; [done|].
  assert (∀ i col, account_columns a !! i = Some col → ∃ fd, result_fields ans !! i = Some fd) as Hfd.
  { intros i col Hc%lookup_lt_Some. apply lookup_lt_is_Some_2. cbn in Hc. lia. }
  split; try done.
  - intros i s Ec. pose proof (aw_fits _ _ Hw) as Hf. rewrite Hr, Forall_singleton in Hf.
    destruct (Forall2_lookup_r _ _ _ _ _ Hf Ec) as (size & Es & Hfit). cbn in Hfit.
    rewrite list_lookup_fmap in Es. destruct (result_fields ans !! i) as [fd|]; [|done].
    cbn in Es. simplify_eq. pose proof (SizeForType_range fd). lia.
  - intros i s Ec. destruct (Hfd i _ Ec) as [fd Efd].
    destruct (F i _ fd Ec Efd) as (f & E1 & R & M & V & L & S). exists f, fd. by repeat split.
  - intros i Ec. destruct (Hfd i _ Ec) as [fd Efd].
    destruct (F i _ fd Ec Efd) as (f & E1 & R & M & V). by exists f.
Qed.

Section row.
Context (fields : list Field) (fds : list MySQLField) (buf : list Z) (a : stored_account).
Context (RF : row_fields fields fds buf a).

Lemma read_int_column T it i v stack log :
  Fields.int_type_of T = Some it → Fields.int_range it v →
  account_columns a !! i = Some (int_column (Z.to_nat (Fields.sizeof T)) v) →
  (T = TUInt32 → 0 <= v < 2 ^ 24) →
  (f ← field fields i; Fields.GetData (S stack) T f) log = (Ret v, log).
Proof using RF.
  intros HT Hv Ec Hs.
  destruct (rf_field _ _ _ _ RF i (le_bytes (Z.to_nat (Fields.sizeof T)) v)) as (f & fd & E & Efd & Hc).
  { rewrite Ec. unfold int_column. by rewrite zlen_le_bytes. }
  unfold field. rewrite E. cbn [Fields.or_undefined]. rewrite bind_ret_l.
  eapply get_int; eauto. pose proof (rf_plain _ _ _ _ RF) as Hp. rewrite Forall_lookup in Hp. by eapply Hp.
Qed.

Lemma read_text_column i s log :
  account_columns a !! i = Some (text_column s) →
  (f ← field fields i; lift (Fields.GetDataString f)) log = (Ret s, log).
Proof using RF.
  intros Ec. destruct (rf_field _ _ _ _ RF i s Ec) as (f & fd & E & Efd & Hc).
  unfold field. rewrite E. cbn [Fields.or_undefined]. rewrite bind_ret_l.
  by rewrite (get_text f fd i _ buf s Hc (rf_text _ _ _ _ RF i s Ec)).
Qed.

Lemma read_binary_column i s n log :
  account_columns a !! i = Some (text_column s) → zlen s = n →
  (f ← field fields i; lift (Fields.GetBinarySizeChecked n f)) log = (Ret s, log).
Proof using RF.
  intros Ec Hn. destruct (rf_field _ _ _ _ RF i s Ec) as (f & fd & E & Efd & Hc).
  unfold field. rewrite E. cbn [Fields.or_undefined]. rewrite bind_ret_l.
  rewrite (get_binary f fd i _ buf s n Hc Hn); [done|]. rewrite <- Hn. apply (rf_text _ _ _ _ RF i s Ec).
Qed.

Lemma read_null_column i stack log :
  account_columns a !! i = Some None →
  (f ← field fields i; unless_null stack f) log = (Ret None, log).
Proof using RF.
  intros Ec. destruct (rf_null _ _ _ _ RF i Ec) as (f & E & V).
  unfold field. rewrite E. cbn [Fields.or_undefined]. rewrite bind_ret_l.
  unfold unless_null, Fields.IsNull. by rewrite V.
Qed.
End row.

(** Two readings in a row, as the constructor makes them. *)
Lemma read_then {A B} (c : M Empty_set (list warning) Field) (g : Field → M Empty_set (list warning) A)
    (k : A → M Empty_set (list warning) B) log a :
  (f ← c; g f) log = (Ret a, log) → (f ← c; x ← g f; k x) log = k a log.
Proof. intros E. rewrite <- bind_assoc. by apply bind_run. Qed.

Lemma read_undefined {A B} (m : M Empty_set (list warning) A) (f : A → M Empty_set (list warning) B) l :
  (m l).1 = UB → ((m ≫= f) l).1 = UB.
Proof. unfold mbind, M_bind. by destruct (m l) as [[] ?]. Qed.

(** The columns before those of the ban. *)
Lemma read_account_columns fields fds buf a stack log
    (k : Z → list Z → list Z → Z → list Z → list Z → list Z → Z → M Empty_set (list warning) AccountRow) :
  row_fields fields fds buf a → account_ok a →
  (f ← field fields 0; ID ← Fields.GetData (S stack) TUInt32 f;
   f ← field fields 1; Salt ← lift (Fields.GetBinarySizeChecked SRP6.SALT_LENGTH f);
   f ← field fields 2; Verifier ← lift (Fields.GetBinarySizeChecked SRP6.VERIFIER_LENGTH f);
   f ← field fields 3; GuildID ← Fields.GetData (S stack) TUInt64 f;
   f ← field fields 4; RealmName ← lift (Fields.GetDataString f);
   f ← field fields 5; LastIP ← lift (Fields.GetDataString f);
   f ← field fields 6; CoreName ← lift (Fields.GetDataString f);
   f ← field fields 7; ModuleVersion ← Fields.GetData (S stack) TUInt32 f;
   k ID Salt Verifier GuildID RealmName LastIP CoreName ModuleVersion) log =
  k (sa_ID a) (sa_Salt a) (sa_Verifier a) (sa_GuildID a) (sa_RealmName a) (sa_LastIP a) (sa_CoreName a)
    (sa_ModuleVersion a) log.
Proof.
  intros RF [[I1 I2] S2 V2 [G1 G2] [M1 M2]].
  rewrite (read_then _ _ _ _ _ (read_int_column _ _ _ _ RF TUInt32 _ 0 (sa_ID a) stack log eq_refl
    ltac:(split; cbn; lia) eq_refl ltac:(lia))).
  rewrite (read_then _ _ _ _ _ (read_binary_column _ _ _ _ RF 1 _ _ log eq_refl S2)).
  rewrite (read_then _ _ _ _ _ (read_binary_column _ _ _ _ RF 2 _ _ log eq_refl V2)).
  rewrite (read_then _ _ _ _ _ (read_int_column _ _ _ _ RF TUInt64 _ 3 (sa_GuildID a) stack log eq_refl
    ltac:(split; cbn; lia) eq_refl ltac:(done))).
  rewrite (read_then _ _ _ _ _ (read_text_column _ _ _ _ RF 4 _ log eq_refl)).
  rewrite (read_then _ _ _ _ _ (read_text_column _ _ _ _ RF 5 _ log eq_refl)).
  rewrite (read_then _ _ _ _ _ (read_text_column _ _ _ _ RF 6 _ log eq_refl)).
  by rewrite (read_then _ _ _ _ _ (read_int_column _ _ _ _ RF TUInt32 _ 7 (sa_ModuleVersion a) stack log
    eq_refl ltac:(split; cbn; lia) eq_refl ltac:(lia))).
Qed.

Lemma read_account_free fields fds buf a stack log :
  row_fields fields fds buf a → account_ok a → sa_ban a = None →
  read_account (S stack) fields log = (Ret (row_of a), log).
Proof.
  intros RF Ha Hb. unfold read_account. rewrite (read_account_columns _ _ _ _ _ _ _ RF Ha).
  assert (account_columns a !! 8%nat = Some None) as E8 by (cbn; by rewrite Hb).
  assert (account_columns a !! 9%nat = Some None) as E9 by (cbn; by rewrite Hb).
  rewrite (read_then _ _ _ _ _ (read_null_column _ _ _ _ RF 8 _ log E8)).
  rewrite (read_then _ _ _ _ _ (read_null_column _ _ _ _ RF 9 _ log E9)).
  unfold row_of. by rewrite Hb.
Qed.

Lemma le_bytes_pair b u :
  0 <= b < 2 ^ 32 → 0 <= u < 2 ^ 32 → le_bytes 4 b ++ le_bytes 4 u = le_bytes 8 (b + 2 ^ 32 * u).
Proof.
  intros Hb Hu. set (l := le_bytes 4 b ++ le_bytes 4 u).
  assert (Forall is_byte l) as Hl by (apply Forall_app; split; apply le_bytes_bytes).
  rewrite <- (le_bytes_value l Hl). f_equal. unfold l.
  assert (∀ p q, le_value (p ++ q) = le_value p + 256 ^ zlen p * le_value q) as ->.
  { intros p q. induction p as [|x p IH].
    { cbn [app le_value]. change (256 ^ zlen []) with 1. lia. }
    cbn [app le_value]. rewrite IH, zlen_cons.
    rewrite (Z.add_comm 1), Z.pow_add_r by zlen_lia. lia. }
  rewrite !le_value_bytes, !wrap_small by (cbn; lia). reflexivity.
Qed.

(** The two columns of the ban are the last four bytes of the row each. *)
Lemma ban_sizes fds :
  map f_type fds = account_types → ∃ l, length l = 8%nat ∧ map Results.SizeForType fds = l ++ [4; 4].
Proof.
  intros E. exists (take 8 (map Results.SizeForType fds)).
  assert (drop 8 (map Results.SizeForType fds) = [4; 4]) as <-.
  { apply (f_equal (drop 8)) in E. rewrite skipn_map in E |- *. cbn [account_types drop] in E.
    destruct (drop 8 fds) as [|d8 [|d9 [|]]]; try discriminate. injection E as E8 E9.
    cbn [map]. unfold Results.SizeForType. by rewrite E8, E9. }
  split; [|by rewrite take_drop].
  rewrite length_take, length_map. apply (f_equal length) in E. rewrite length_map in E. cbn in E. lia.
Qed.

Lemma ban_places fds :
  map f_type fds = account_types →
  let sizes := map Results.SizeForType fds in
  off sizes 9 = off sizes 8 + 4 ∧ sum sizes = off sizes 8 + 8 ∧ 0 <= off sizes 8.
Proof.
  intros E. cbn zeta. destruct (ban_sizes fds E) as (l & Hl & Es).
  assert (Forall (Z.le 0) (map Results.SizeForType fds)) as Hp
    by (apply Forall_map, Forall_forall; intros d _; apply SizeForType_range).
  assert (sum (l ++ [4; 4]) = sum l + 8) as S2 by (rewrite sum_app; cbn; lia).
  assert (off (l ++ [4; 4]) 9 = sum l + 4) as S9.
  { unfold off. rewrite (app_assoc l [4] [4] : l ++ [4; 4] = _), take_app_ge by (rewrite length_app; cbn; lia).
    rewrite length_app, Hl. cbn [length Nat.add Nat.sub take]. rewrite app_nil_r, sum_app. cbn. lia. }
  assert (off (l ++ [4; 4]) 8 = sum l) as S8 by (unfold off; by rewrite take_app_le, take_ge by lia).
  rewrite Es in *. apply Forall_app in Hp as [Hp _]. pose proof (sum_nonneg l Hp). lia.
Qed.

Section ban.
Context (fields : list Field) (fds : list MySQLField) (buf : list Z) (a : stored_account) (b u : Z).
Context (RF : row_fields fields fds buf a) (Hban : sa_ban a = Some (b, u)).
Context (Hb : 0 <= b < 2 ^ 32) (Hu : 0 <= u < 2 ^ 32).

(** What lies from the first of them on. *)
Lemma ban_memory :
  zdrop (off (map Results.SizeForType fds) 8) buf = le_bytes 4 b ++ le_bytes 4 u ∧
  zdrop (off (map Results.SizeForType fds) 9) buf = le_bytes 4 u.
Proof using RF Hban.
  destruct (ban_places fds (rf_types _ _ _ _ RF)) as (P9 & PS & P0).
  pose proof (rf_buf _ _ _ _ RF) as Lb.
  destruct (rf_field _ _ _ _ RF 8 (le_bytes 4 b)) as (f8 & d8 & E8 & _ & _ & _ & _ & _ & S8);
    [cbn; by rewrite Hban|].
  destruct (rf_field _ _ _ _ RF 9 (le_bytes 4 u)) as (f9 & d9 & E9 & _ & _ & _ & _ & _ & S9);
    [cbn; by rewrite Hban|].
  set (p := off (map Results.SizeForType fds) 8) in *. rewrite P9 in *.
  change (zlen (le_bytes 4 b)) with 4 in S8. change (zlen (le_bytes 4 u)) with 4 in S9.
  rewrite (ztake_all 4 (le_bytes 4 b)) in S8 by done. rewrite (ztake_all 4 (le_bytes 4 u)) in S9 by done.
  assert (zdrop (p + 4) buf = le_bytes 4 u) as Eu.
  { rewrite <- S9. unfold slice. rewrite ztake_all; [done|]. rewrite zlen_zdrop. lia. }
  split; [|done]. rewrite (slice_split p 4 buf) by lia. by rewrite S8, Eu.
Qed.

(** Their eight bytes as one number. *)
Lemma read_bandate stack log :
  (f ← field fields 8; unless_null (S stack) f) log = (Ret (Some (b + 2 ^ 32 * u)), log).
Proof using RF Hban Hb Hu.
  destruct (rf_field _ _ _ _ RF 8 (le_bytes 4 b)) as (f & fd & E & Efd & R & M & V & _);
    [cbn; by rewrite Hban|].
  unfold field. rewrite E. cbn [Fields.or_undefined]. rewrite bind_ret_l.
  unfold unless_null, Fields.IsNull. rewrite V. cbn [negb].
  pose proof (rf_plain _ _ _ _ RF) as Hp. rewrite Forall_lookup in Hp.
  erewrite bind_run; [reflexivity|]. unfold Fields.Get_duration.
  eapply (Fields.GetData_raw TUInt64 _ f _ _ []); [reflexivity|exact M|by eapply Hp| |done| |done].
  - split; cbn; lia.
  - rewrite app_nil_r, V, (proj1 ban_memory). f_equal. by apply le_bytes_pair.
Qed.

(** There are no eight bytes for the second. *)
Lemma read_unbandate stack log :
  ((f ← field fields 9; unless_null (S stack) f) log).1 = UB.
Proof using RF Hban.
  destruct (rf_field _ _ _ _ RF 9 (le_bytes 4 u)) as (f & fd & E & Efd & R & M & V & _);
    [cbn; by rewrite Hban|].
  unfold field. rewrite E. cbn [Fields.or_undefined]. rewrite bind_ret_l.
  unfold unless_null, Fields.IsNull, Fields.Get_duration. rewrite V.
  cbn [negb Fields.GetData]. by rewrite V, (proj2 ban_memory), R.
Qed.
End ban.

(** ** The theorems *)

(** The fields read for an answer. *)
Lemma answered_row ans fresh rowCount a :
  answered ans fresh a → account_ok a → sa_ban a = None →
  ∃ pr fields, new ans true rowCount 10 fresh = Ret pr ∧ Fetch pr = Ret fields ∧
    ∀ stack log, read_account (S stack) fields log = (Ret (row_of a), log).
Proof.
  intros Ha Hok Hb. destruct (answered_fields ans fresh rowCount a Ha) as (pr & fields & buf & E & Ef & RF).
  exists pr, fields. split; [done|]. split; [done|]. intros. by eapply read_account_free.
Qed.

(** C8: a standing ban makes the account unreadable.  The columns of the ban have
    four bytes each and are read as eight: the date of the ban is read with the
    date of its end as its upper half, and for the end four bytes behind the block
    of the row are read. *)
Theorem banned_account_unreadable (ans : statement_answers) (fresh : nat → list Z) (rowCount : Z)
    (a : stored_account) (b u : Z) :
  answered ans fresh a → account_ok a → sa_ban a = Some (b, u) →
  0 <= b < 2 ^ 32 → 0 <= u < 2 ^ 32 →
  ∃ pr fields, new ans true rowCount 10 fresh = Ret pr ∧ Fetch pr = Ret fields ∧
    ∀ stack log,
      (f ← field fields 8; unless_null (S stack) f) log = (Ret (Some (b + 2 ^ 32 * u)), log) ∧
      (read_account (S stack) fields log).1 = UB.
Proof.
  intros Ha Hok Hban Hb Hu.
  destruct (answered_fields ans fresh rowCount a Ha) as (pr & fields & buf & E & Ef & RF).
  exists pr, fields. split; [done|]. split; [done|]. intros stack log.
  pose proof (read_bandate fields _ buf a b u RF Hban Hb Hu stack log) as E8. split; [exact E8|].
  unfold read_account. rewrite (read_account_columns _ _ _ _ _ _ _ RF Hok).
  rewrite (read_then _ _ _ _ _ E8).
  pose proof (read_unbandate fields _ buf a b u RF Hban stack log) as E9.
  rewrite <- bind_assoc. by apply read_undefined.
Qed.

(** Values of the width of their arguments. *)
Definition carried (st : statement) : Prop :=
  Forall (λ a, Statements.fits (Prepared.stored a) = true) (arguments_of st).

(** C9: what [AccountMgr] and [BanMgr] execute reaches the server.  On a connection
    of the asynchronous kind every statement but DISCORD_UPD_IP_BAN_EXPIRED has a
    text, with as many parameters as the code gives it arguments: setting them
    never fails, binding them never fails, and the server is sent exactly their
    values.  DISCORD_UPD_IP_BAN_EXPIRED has no text. *)
Theorem executed_statements_bound (st : statement) (Hst : st ≠ DISCORD_UPD_IP_BAN_EXPIRED)
    (Hfits : carried st) :
  Connection.prepared_text CONNECTION_ASYNC (Z.to_nat Connection.DISCORD_UPD_IP_BAN_EXPIRED) = None ∧
  ∃ sql, Connection.prepared_text CONNECTION_ASYNC (Z.to_nat (index_of st)) = Some sql ∧
    ∀ s, clean s → m_paramCount s = markers sql →
    ∃ stmt s', Prepared.SetArguments (arguments_of st) (Prepared.new (index_of st) (markers sql)) =
        (Ret (), stmt) ∧
      Bound.BindParameters stmt s = (Ret (), s') ∧
      map read_bind (m_bind s') = map (λ a, Some (on_wire (Prepared.stored a))) (arguments_of st) ∧
      clean (Bound.ClearParameters s').
Proof.
  split; [by vm_compute|].
  assert (∃ sql, Connection.prepared_text CONNECTION_ASYNC (Z.to_nat (index_of st)) = Some sql ∧
    markers sql = zlen (arguments_of st)) as (sql & Es & Em).
  { destruct st; try done; (eexists; split; [vm_compute; reflexivity|vm_compute; reflexivity]). }
  exists sql. split; [done|]. intros s Hs Hc.
  assert (0 <= zlen (arguments_of st) <= 5) as Hn by (by destruct st; split; vm_compute).
  destruct (set_then_bind (index_of st) (markers sql) (arguments_of st) s)
    as (stmt & s' & E1 & E2 & E3 & E4); [lia|done..|lia|].
  exists stmt, s'. split; [done|]. split; [done|]. split; [|done].
  by rewrite E3, Em, Z.sub_diag, app_nil_r.
Qed.

(** The row a server keeps of the values of DISCORD_INS_ACCOUNT under a name. *)
Definition inserted (name : list Z) (values : list (option StatementData)) (a : stored_account) : Prop :=
  values = [Some (DString name); Some (DBinary (sa_Salt a)); Some (DBinary (sa_Verifier a));
            Some (DInt64 (sa_GuildID a)); Some (DString (sa_RealmName a))].

Context {O : OpenSSL} {OL : OpenSSLLaws O} {W : AccountOrder}.

(** C7: an account comes back from the database as it went in.  The name, salt,
    verifier, guild and realm name [CreateAccount] gives to the statement are bound
    and read by the server; when the server keeps the row they make and answers a
    login with it, in the format of the prepared protocol, the constructor of
    [AccountInfo] reads that row, whatever the memory held before, and the key
    check accepts the name and key of the registration in any case of letters. *)
Theorem account_survives_database (random name key : list Z) (guildID : Z) (realmName : list Z)
    (am : AccountMgr) (index : Z) (s : MySQLPreparedStatement) :
  Accounts.short Accounts.MAX_ACCOUNT_STR name → Accounts.short Accounts.MAX_PASS_STR key →
  Accounts.GetID (map Strings.toupper name) am = 0 →
  zlen random = SRP6.SALT_LENGTH → zlen name < 2 ^ 32 → zlen (Accounts.realm_of realmName) < 2 ^ 32 →
  0 <= guildID < 2 ^ 63 → clean s → m_paramCount s = 5 →
  ∃ verifier am' stmt s', zlen verifier = SRP6.VERIFIER_LENGTH ∧
    Accounts.CreateAccount random name key guildID realmName am = (Ret AccountResponceResult.Ok, am') ∧
    am_db am' = am_db am ++ [DISCORD_INS_ACCOUNT (map Strings.toupper name) random verifier guildID
                               (Accounts.realm_of realmName)] ∧
    Prepared.SetArguments (account_arguments (map Strings.toupper name) random verifier guildID
      (Accounts.realm_of realmName)) (Prepared.new index 5) = (Ret (), stmt) ∧
    Bound.BindParameters stmt s = (Ret (), s') ∧
    map read_bind (m_bind s') =
      [Some (DString (map Strings.toupper name)); Some (DBinary random); Some (DBinary verifier);
       Some (DInt64 guildID); Some (DString (Accounts.realm_of realmName))] ∧
    ∀ a ans fresh rowCount, inserted (map Strings.toupper name) (map read_bind (m_bind s')) a →
      0 <= sa_ID a < 2 ^ 24 → 0 <= sa_ModuleVersion a < 2 ^ 24 → sa_ban a = None →
      answered ans fresh a →
      ∃ pr fields, new ans true rowCount 10 fresh = Ret pr ∧ Fetch pr = Ret fields ∧
        (∀ stack log, read_account (S stack) fields log = (Ret (row_of a), log)) ∧
        row_GuildID (row_of a) = guildID ∧ row_RealmName (row_of a) = Accounts.realm_of realmName ∧
        ∀ name' key' now, Forall is_byte name' → Forall is_byte key' →
          map Strings.toupper name' = map Strings.toupper name →
          map Strings.toupper key' = map Strings.toupper key →
          DS.CheckKey name' key' (DS.AccountInfo_new now (row_of a)) = Ret true.
Proof using OL.
  intros Hn Hk Hfree Hr Ln Lr Hg Hs Hc.
  destruct (Accounts.CreateAccount_registers random name key guildID realmName am Hn Hk Hfree)
    as (verifier & Hv & E & Hlogin).
  destruct (set_then_bind index 5 (account_arguments (map Strings.toupper name) random verifier guildID
    (Accounts.realm_of realmName)) s) as (stmt & s' & E1 & E2 & E3 & _); [lia|done..| |done|].
  { unfold account_arguments. rewrite !Forall_cons. cbn [Prepared.stored Statements.fits].
    rewrite andb_true_iff, Z.leb_le, !Z.ltb_lt, Hr, Hv. cbn. unfold zlen in *. rewrite length_map. repeat split; try done; lia. }
  eexists verifier, _, stmt, s'. split; [done|]. split; [exact E|]. split; [done|]. split; [done|]. split; [done|].
  split; [done|]. intros a ans fresh rowCount Hin Hid Hmv Hban Ha.
  unfold inserted in Hin. rewrite E3 in Hin. cbn in Hin. simplify_eq Hin. intros Esalt Ever Eg Erealm.
  destruct (answered_row ans fresh rowCount a Ha) as (pr & fields & En & Ef & Er); [|done|].
  { split; try done; congruence || lia. }
  exists pr, fields. split; [done|]. split; [done|]. split; [done|]. split; [done|]. split; [done|].
  intros. by apply Hlogin.
Qed.
End reading.

(** ** At work

    A ban of ten minutes is written; the account of "User", number 5 of guild 77, is
    stored and read back, once free and once banned. *)

Lemma executed_statements_bound_witness :
  let st := DISCORD_INS_ACCOUNT_BAN 5 600 (str "Console") (str "spam") in
  carried st ∧ ∃ stmt s',
    Prepared.SetArguments (arguments_of st) (Prepared.new 8 4) = (Ret (), stmt) ∧
    Bound.BindParameters stmt (Bound.new 4 []) = (Ret (), s') ∧
    map read_bind (m_bind s') =
      [Some (DUInt32 5); Some (DInt64 600); Some (DString (str "Console")); Some (DString (str "spam"))].
Proof.
  intros st. assert (carried st) as Hc by (by repeat constructor). split; [exact Hc|].
  destruct (executed_statements_bound st) as (_ & sql & Es & R); [discriminate|exact Hc|].
  vm_compute in Es. injection Es as <-.
  destruct (R (Bound.new 4 [])) as (stmt & s' & E1 & E2 & E3 & _);
    [split; [reflexivity|reflexivity|repeat constructor]|by vm_compute|].
  exists stmt, s'. split; [exact E1|]. split; [exact E2|]. rewrite E3. reflexivity.
Defined.

Definition demo_columns : list MySQLField :=
  zip_with (λ name e, mkMySQLField (str name) (str name) (str "a") (str "account") e.1 e.2)
    ["ID"; "Salt"; "Verifier"; "GuildID"; "RealmName"; "LastIP"; "CoreName"; "ModuleVersion"; "bandate";
     "unbandate"]%string
    (zip account_types [0; 32; 32; 0; 11; 9; 11; 0; 0; 0]).

Definition demo_account (salt verifier : list Z) (ban : option (Z * Z)) : stored_account :=
  mkStored 5 salt verifier 77 (str "WarheadCore") (str "127.0.0.1") (str "WarheadCore") 100000 ban.

Definition demo_stored (a : stored_account) : statement_answers :=
  mkAnswers false 1 demo_columns false [account_columns a].

#[local] Instance demo_order : AccountOrder := λ m, (map_to_list m).*1.

Definition demo_memory (n : nat) : list Z := replicate n 170.

Lemma demo_answered salt verifier ban :
  zlen salt = 32 → zlen verifier = 32 →
  answered (demo_stored (demo_account salt verifier ban)) demo_memory (demo_account salt verifier ban).
Proof.
  intros Hs Hv. split; [split|..]; try reflexivity; try done; try (by repeat constructor).
  - apply Forall_singleton. cbn [result_fields demo_stored]. unfold account_columns.
    cbn [sa_ID sa_Salt sa_Verifier sa_GuildID sa_RealmName sa_LastIP sa_CoreName sa_ModuleVersion sa_ban
      demo_account]. unfold text_column, int_column.
    repeat apply Forall2_cons_2; [..|constructor]; try (vm_compute; intuition discriminate);
      [cbn; rewrite ?Hs, ?Hv; vm_compute; intuition discriminate..|by destruct ban|by destruct ban].
  - intros n. apply length_replicate.
Qed.

Lemma banned_account_unreadable_witness :
  let a := demo_account (replicate 32 1) (replicate 32 2) (Some (1000, 1600)) in
  answered (demo_stored a) demo_memory a ∧ account_ok a ∧
  ∃ pr fields, new (demo_stored a) true 1 10 demo_memory = Ret pr ∧ Fetch pr = Ret fields ∧
    (f ← field fields 8; unless_null (H := toy_floats) 5 f) [] = (Ret (Some 6871947674600), []) ∧
    (read_account (H := toy_floats) 5 fields []).1 = UB.
Proof.
  intros a. assert (answered (demo_stored a) demo_memory a) as Ha by (by apply demo_answered).
  assert (account_ok a) as Hok by (by split; vm_compute). split; [exact Ha|]. split; [exact Hok|].
  destruct (banned_account_unreadable (H := toy_floats) _ _ 1 a 1000 1600 Ha Hok eq_refl)
    as (pr & fields & E & Ef & R); [lia..|].
  exists pr, fields. split; [exact E|]. split; [exact Ef|]. exact (R 4%nat []).
Defined.

Lemma account_survives_database_witness :
  ∃ verifier, zlen verifier = SRP6.VERIFIER_LENGTH ∧
    let a := demo_account (replicate 32 7) verifier None in
    ∃ pr fields, new (demo_stored a) true 1 10 demo_memory = Ret pr ∧ Fetch pr = Ret fields ∧
      read_account (H := toy_floats) 5 fields [] = (Ret (row_of a), []) ∧
      DS.CheckKey (O := SRP6.toy_openssl) (str "uSER") (str "Secret") (DS.AccountInfo_new 0 (row_of a)) =
        Ret true.
Proof.
  destruct (account_survives_database (H := toy_floats) (OL := SRP6.toy_openssl_laws) (replicate 32 7)
    (str "User") (str "secret") 77 [] Accounts.new 1 (Bound.new 5 []))
    as (verifier & am' & stmt & s' & Lv & _ & _ & _ & _ & E & R);
    [apply short_by_computation; by vm_compute..|by vm_compute|done|done|done|done| |done|].
  { split; [reflexivity|reflexivity|repeat constructor]. }
  exists verifier. split; [exact Lv|]. set (a := demo_account _ _ _).
  destruct (R a (demo_stored a) demo_memory 1) as (pr & fields & En & Ef & Er & _ & _ & Hk);
    [|by vm_compute..|reflexivity|by apply demo_answered|].
  - by rewrite E.
  - exists pr, fields. split; [exact En|]. split; [exact Ef|]. split; [apply Er|].
    apply Hk; try reflexivity; by apply bytes_by_computation.
Defined.
