(* ===== verification/Files.v ===== *)
(** * Files: the update files in the source tree

    Model of the part of [UpdateFetcher.cpp] ([src/src/database/Updater]) that
    collects files: [FillFileListRecursively] and the set ordered by file name
    it fills, which [GetFileList] ([Fetcher.v]) returns.  The file system is an
    interface; of [std::filesystem::path] the functions on generic POSIX names
    are translated. *)

From Stdlib Require Import Sorted.
From S2P Require Import Prelude Utf8 Strings.
Open Scope Z_scope.

Abbreviation path := (list Z).

(** What the operating system says about a path; [directory_iterator] lists the
    paths of the entries in the order of the system, [read_file] is [None] for a
    file that cannot be opened. *)
Class FileSystem := {
  is_directory : path → bool;
  directory_iterator : path → list path;
  read_file : path → option (list Z)
}.

Inductive State := RELEASED | CUSTOM | MODULE | ARCHIVED.

#[export] Instance State_eq_dec : EqDecision State.
Proof. solve_decision. Defined.

Inductive UpdateException := mkUpdateException (msg : list Z).

(** [LocaleFileEntry], and the [std::set] of them in its order. *)
Abbreviation LocaleFileEntry := (path * State)%type.
Abbreviation LocaleFileStorage := (list LocaleFileEntry).

Module Path.

Definition filename (p : path) : list Z := List.last (Strings.split 47 p) [].

(** From the last dot of the file name, unless that begins it; [.] and [..] have
    no extension. *)
Definition extension (p : path) : list Z :=
  let f := filename p in
  if bool_decide (f = [46]) || bool_decide (f = [46; 46]) then []
  else match list_find (λ c, c = 46) (rev f) with
       | Some (i, _) => if (S i <? length f)%nat then drop (length f - S i) f else []
       | None => []
       end.

(** [operator<] of [std::string]. *)
Fixpoint less (a b : list Z) : bool :=
  match a, b with
  | _, [] => false
  | [], _ :: _ => true
  | x :: a, y :: b => if x <? y then true else if y <? x then false else less a b
  end.

Lemma less_irrefl a : less a a = false.
Proof. induction a as [|x a IH]; [done|]. cbn. by rewrite Z.ltb_irrefl. Qed.

Lemma less_trans a b c : less a b = true → less b c = true → less a c = true.
Proof.
  revert b c. induction a as [|x a IH]; intros [|y b] [|z c]; cbn; try done.
  destruct (Z.ltb_spec x y), (Z.ltb_spec y z), (Z.ltb_spec x z), (Z.ltb_spec z x),
    (Z.ltb_spec y x), (Z.ltb_spec z y); try done; try lia. eauto.
Qed.

Lemma less_total a b : less a b = false → less b a = false → a = b.
Proof.
  revert b. induction a as [|x a IH]; intros [|y b]; cbn; try done.
  destruct (Z.ltb_spec x y), (Z.ltb_spec y x); try done. intros. f_equal; [lia|auto].
Qed.

Lemma less_asym a b : less a b = true → less b a = false.
Proof.
  intros H. destruct (less b a) eqn:E; [|done].
  pose proof (less_trans _ _ _ H E) as X. by rewrite less_irrefl in X.
Qed.
End Path.

(** ** The set of files *)

Module Files.
Import Path.
Section files.
Context `{FileSystem}.

Definition name_of (e : LocaleFileEntry) : list Z := filename e.1.

(** [PathCompare] *)
Definition compare (left right : LocaleFileEntry) : bool := less (name_of left) (name_of right).

(** [find] and [insert] of the set; elements neither of which is less than the
    other count as the same. *)
Definition equivalent (a b : LocaleFileEntry) : bool := negb (compare a b) && negb (compare b a).

Definition find (e : LocaleFileEntry) (storage : LocaleFileStorage) : bool :=
  existsb (equivalent e) storage.

Fixpoint insert (e : LocaleFileEntry) (storage : LocaleFileStorage) : LocaleFileStorage :=
  match storage with
  | [] => [e]
  | x :: storage' =>
      if compare e x then e :: storage
      else if compare x e then x :: insert e storage' else storage
  end.

Definition UPDATING_FAILED : UpdateException :=
  mkUpdateException (str "Updating failed, see the log for details.").

Definition add_file (e : LocaleFileEntry) : M UpdateException LocaleFileStorage () :=
  duplicate ← gets (find e);
  if (duplicate : bool) then throw UPDATING_FAILED else modify (insert e).

(** [MAX_DEPTH - depth] directories may still be entered. *)
Fixpoint FillFileListRecursively (more : nat) (p : path) (state : State) :
    M UpdateException LocaleFileStorage () :=
  for_each (λ e,
    if is_directory e then
      match more with S more => FillFileListRecursively more e state | O => skip end
    else if bool_decide (extension e = str ".sql") then add_file (e, state)
    else skip) (directory_iterator p).

Definition MAX_DEPTH : nat := 10.

(** The loop of [GetFileList]: every included directory from depth 1. *)
Definition FillFileList (directories : list (path * State)) :
    M UpdateException LocaleFileStorage () :=
  for_each (λ d, FillFileListRecursively (MAX_DEPTH - 1) d.1 d.2) directories.

(** ** The reference: the files below a directory *)

Fixpoint sql_files (more : nat) (p : path) : list path :=
  concat (map (λ e,
    if is_directory e then match more with S more => sql_files more e | O => [] end
    else if bool_decide (extension e = str ".sql") then [e] else []) (directory_iterator p)).

Definition included (directories : list (path * State)) : list LocaleFileEntry :=
  concat (map (λ d, map (λ p, (p, d.2)) (sql_files (MAX_DEPTH - 1) d.1)) directories).

Lemma for_each_concat {A B} (g : B → M UpdateException LocaleFileStorage ())
    (f : A → M UpdateException LocaleFileStorage ()) (h : A → list B) l s :
  (∀ x s, f x s = for_each g (h x) s) → for_each f l s = for_each g (concat (map h l)) s.
Proof.
  intros E. revert s. induction l as [|x l IH]; intros s; [done|]. cbn [for_each map concat].
  rewrite for_each_app. unfold mbind, M_bind. rewrite E. by destruct (for_each g (h x) s) as [[] ?].
Qed.

Lemma for_each_one {A} (f : A → M UpdateException LocaleFileStorage ()) x s :
  for_each f [x] s = f x s.
Proof. cbn [for_each]. unfold mbind, M_bind. by destruct (f x s) as [[[]| | |] ?]. Qed.

Lemma FillFileListRecursively_files more p state s :
  FillFileListRecursively more p state s =
  for_each add_file (map (λ q, (q, state)) (sql_files more p)) s.
Proof.
  revert p s. induction more as [|more IH]; intros p s;
    cbn [FillFileListRecursively sql_files]; rewrite concat_map, map_map;
    apply for_each_concat; intros e s'; destruct (is_directory e); try done;
    case_bool_decide; cbn [map]; try done; by rewrite for_each_one.
Qed.

Lemma FillFileList_files directories s :
  FillFileList directories s = for_each add_file (included directories) s.
Proof.
  apply for_each_concat. intros d s'. apply FillFileListRecursively_files.
Qed.

(** ** A set in order *)

Definition ordered : LocaleFileStorage → Prop := StronglySorted (λ a b, compare a b = true).

Lemma equivalent_name a b : equivalent a b = bool_decide (name_of a = name_of b).
Proof.
  unfold equivalent, compare. case_bool_decide as E.
  - by rewrite E, !less_irrefl.
  - destruct (less (name_of a) (name_of b)) eqn:E1, (less (name_of b) (name_of a)) eqn:E2; try done.
    by destruct E; apply less_total.
Qed.

Lemma find_name e storage : find e storage = bool_decide (name_of e ∈ map name_of storage).
Proof.
  unfold find. induction storage as [|x storage IH]; [done|]. cbn [existsb map].
  rewrite IH, equivalent_name. do 2 case_bool_decide; case_bool_decide; set_solver.
Qed.

Lemma insert_new e storage :
  ordered storage → name_of e ∉ map name_of storage →
  ordered (insert e storage) ∧ insert e storage ≡ₚ e :: storage.
Proof.
  intros O. induction O as [|x storage O IH F]; intros N; cbn [insert].
  { split; [by repeat constructor|done]. }
  cbn [map] in N. apply not_elem_of_cons in N as [N1 N2]. destruct (IH N2) as [IO IP].
  destruct (compare e x) eqn:E1; [|destruct (compare x e) eqn:E2].
  - split; [|done]. constructor; [by constructor|]. constructor; [done|].
    eapply Forall_impl; [exact F|]. intros y Hy. by eapply less_trans.
  - split; [|by rewrite IP; constructor]. constructor; [done|].
    rewrite IP. by constructor.
  - by destruct N1; apply less_total.
Qed.

Lemma ordered_unique storage : ordered storage → NoDup (map name_of storage).
Proof.
  intros O. induction O as [|x storage O IH F]; cbn [map]; constructor; [|done].
  intros (y & E & Hy)%list_elem_of_fmap. rewrite Forall_forall in F.
  specialize (F y Hy). unfold compare in F. by rewrite E, less_irrefl in F.
Qed.

Lemma add_file_run e storage :
  add_file e storage =
  if bool_decide (name_of e ∈ map name_of storage) then (Throw UPDATING_FAILED, storage)
  else (Ret (), insert e storage).
Proof. unfold add_file. rewrite bind_gets, find_name. by case_bool_decide. Qed.

(** Adding files one by one: a set in order of all of them, or the exception at
    the first name met twice. *)
Lemma add_files files storage :
  ordered storage →
  match for_each add_file files storage with
  | (Ret _, storage') =>
      ordered storage' ∧ storage' ≡ₚ storage ++ files ∧ NoDup (map name_of (storage ++ files))
  | (Throw e, _) => e = UPDATING_FAILED ∧ ¬ NoDup (map name_of (storage ++ files))
  | _ => False
  end.
Proof.
  revert storage. induction files as [|f files IH]; intros storage O; cbn [for_each].
  { cbn. rewrite app_nil_r. auto using ordered_unique. }
  unfold mbind, M_bind. rewrite add_file_run. case_bool_decide as D.
  - split; [done|]. rewrite map_app. cbn [map]. rewrite NoDup_app. intros (_ & X & _).
    destruct (X _ D). by left.
  - destruct (insert_new f storage O D) as [O' P]. specialize (IH _ O').
    assert (insert f storage ++ files ≡ₚ storage ++ f :: files) as PP.
    { rewrite P. cbn [app]. by rewrite Permutation_middle. }
    assert (map name_of (insert f storage ++ files) ≡ₚ map name_of (storage ++ f :: files)) as PN
      by (by rewrite PP).
    destruct (for_each add_file files (insert f storage)) as [[[]|e| |] s']; try done.
    + destruct IH as (I1 & I2 & I3). split; [done|]. split; [by rewrite I2|]. by rewrite <- PN.
    + by rewrite <- PN.
Qed.

(** The update files are collected completely and without doubt.  From the
    included directories every [.sql] file that lies at most ten directories deep
    is taken, once, with the state of its directory, in the order of the file
    names; the exception is thrown exactly when two of them have one name. *)
Theorem file_list_exact (directories : list (path * State)) :
  match FillFileList directories [] with
  | (Ret _, files) =>
      NoDup (map name_of (included directories)) ∧ files ≡ₚ included directories ∧
      StronglySorted (λ a b, less (name_of a) (name_of b) = true) files
  | (Throw e, _) => e = UPDATING_FAILED ∧ ¬ NoDup (map name_of (included directories))
  | _ => False
  end.
Proof.
  rewrite FillFileList_files. pose proof (add_files (included directories) [] (SSorted_nil _)) as A.
  destruct (for_each add_file (included directories) []) as [[[]|e| |] files]; try done.
  destruct A as (O & P & N). by split.
Qed.
End files.
End Files.
