(* ===== verification/Logging.v ===== *)
(** * Logging: messages, patterns and the channels they are written to

    Model of [LogCommon.h], [LogMessage.h], [Channel.cpp], [FileChannel.cpp] and of
    the Unix variant of [ConsoleChannel.cpp] ([src/src/common/Logging]); the
    loggers and their registry are in [LogRegistry.v].  The library fmt, which
    prints times and fills a format that is only known at run time, and the files
    of the operating system are interfaces. *)

From S2P Require Import Prelude Utf8 Strings Files.
Open Scope Z_scope.

Module LogLevel.
Inductive t := Disabled | Fatal | Critical | Error | Warning | Info | Debug | Trace | Max.

Definition value (l : t) : Z :=
  match l with
  | Disabled => 0 | Fatal => 1 | Critical => 2 | Error => 3 | Warning => 4
  | Info => 5 | Debug => 6 | Trace => 7 | Max => 8
  end.

(** [static_cast] of a number below [MAX_LOG_LEVEL]. *)
Definition of_value (v : Z) : t :=
  match v with
  | 0 => Disabled | 1 => Fatal | 2 => Critical | 3 => Error | 4 => Warning
  | 5 => Info | 6 => Debug | 7 => Trace | _ => Max
  end.
End LogLevel.

#[export] Instance LogLevel_eq_dec : EqDecision LogLevel.t.
Proof. solve_decision. Defined.

Definition GetLogLevelName (level : LogLevel.t) : list Z :=
  match level with
  | LogLevel.Disabled => str "Disabled"
  | LogLevel.Fatal => str "Fatal"
  | LogLevel.Critical => str "Critical"
  | LogLevel.Error => str "Error"
  | LogLevel.Warning => str "Warning"
  | LogLevel.Info => str "Info"
  | LogLevel.Debug => str "Debug"
  | LogLevel.Trace => str "Trace"
  | LogLevel.Max => str "Max"
  end.

Definition MAX_LOG_LEVEL : Z := LogLevel.value LogLevel.Max.
Definition MAX_CHANNEL_OPTIONS : Z := 7.
Definition LOGGER_OPTIONS : Z := 2.

(** [_time] is in nanoseconds since the epoch. *)
Record LogMessage := mkMessage {
  m_source : list Z;
  m_text : list Z;
  m_level : LogLevel.t;
  m_time : Z;
  m_file : list Z;
  m_line : Z;
  m_option : list Z
}.

(** [Warhead::Exception], and the exceptions of fmt, which are [std::exception]s. *)
Inductive LogError :=
  | Exception (msg : list Z)
  | format_error.

(** fmt, for a time and a conversion, and for a format with one argument; [put_time]
    of the C++ library; what happens to files; and whether a directory is there
    or can be made. *)
Class LogHost := {
  fmt_time : list Z → Z → list Z;
  fmt_format : list Z → list Z → option (list Z);
  put_time : Z → list Z → list Z;
  can_open : list Z → bool;
  can_write : list Z → bool;
  is_dir : list Z → bool;
  create_directory : list Z → bool
}.

(** What leaves the process: text on the console, a file opened ([append] or
    anew), text that reached it, and the notices that [fmt::print] shows. *)
Inductive output :=
  | Console (text : list Z)
  | Opened (file : list Z) (append : bool)
  | Written (file text : list Z)
  | Notice (text : list Z).

(** ** Patterns *)

Record PatternAction := mkAction {
  pa_key : Z;
  pa_length : Z;
  pa_property : list Z;
  pa_prepend : list Z
}.

Module Pattern.

(** [%], [[] and []] *)
Definition PERCENT : Z := 37.
Definition OPEN : Z := 91.
Definition CLOSE : Z := 93.

(** What is collected behind an opening bracket. *)
Inductive bracket := Property | Number (key : Z).

(** The two loops of [ParsePattern] as one: without [inside] it is the outer loop
    with [endAct.prepend]; with it, the loop up to the closing bracket, with what
    [prop] or [number] holds.  The end of the pattern closes a bracket too. *)
Fixpoint parse (prepend : list Z) (inside : option (bracket * list Z))
    (actions : list PatternAction) (it : list Z) : outcome LogError (list PatternAction) :=
  let close b collected (continue : list PatternAction → outcome LogError (list PatternAction)) :=
    match b with
    | Property => continue (actions ++ [mkAction 120 0 collected prepend])
    | Number key =>
        match Strings.FromString_int (Strings.mkInt false 64) collected 10 with
        | None => Throw (Exception (str "ParsePattern: Error at conver lenght from " ++ collected))
        | Some length => continue (actions ++ [mkAction key length [] prepend])
        end
    end in
  match inside with
  | Some (b, collected) =>
      match it with
      | [] => close b collected (λ actions, Ret actions)
      | c :: it =>
          if c =? CLOSE then close b collected (λ actions, parse [] None actions it)
          else parse prepend (Some (b, collected ++ [c])) actions it
      end
  | None =>
      match it with
      | [] => Ret (if bool_decide (prepend = []) then actions
                   else actions ++ [mkAction 0 0 [] prepend])
      | c :: it =>
          if negb (c =? PERCENT) then parse (prepend ++ [c]) None actions it
          else match it with
               | [] => Ret (if bool_decide (prepend = []) then actions
                            else actions ++ [mkAction 0 0 [] prepend])
               | key :: it =>
                   if key =? OPEN then parse prepend (Some (Property, [])) actions it
                   else match it with
                        | [] => Ret (actions ++ [mkAction key 0 [] prepend])
                        | next :: rest =>
                            if next =? OPEN then parse prepend (Some (Number key, [])) actions rest
                            else parse [] None (actions ++ [mkAction key 0 [] prepend]) it
                        end
               end
      end
  end.

Definition ParsePattern (pattern : list Z) : outcome LogError (list PatternAction) :=
  if bool_decide (pattern = []) then Throw (Exception (str "Pattern is empty"))
  else match parse [] None [] pattern with
       | Ret [] => Throw (Exception (str "ParsePattern: Error at parse pattern '" ++ pattern ++ str "'"))
       | r => r
       end.

Section format.
Context `{LogHost}.

(** [at(0)] of a level name. *)
Definition initial (level : LogLevel.t) : list Z := take 1 (GetLogLevelName level).

(** The time conversions, by the letters of the pattern. *)
Definition time_format (key : Z) : option (list Z) :=
  if key =? 119 then Some (str "{:%a}") else if key =? 87 then Some (str "{:%A}")
  else if key =? 98 then Some (str "{:%b}") else if key =? 66 then Some (str "{:%B}")
  else if key =? 100 then Some (str "{:%d}") else if key =? 109 then Some (str "{:%m}")
  else if key =? 110 then Some (str "{:%Om}") else if key =? 121 then Some (str "{:%y}")
  else if key =? 89 then Some (str "{:%Y}") else if key =? 104 then Some (str "{:%OH}")
  else if key =? 72 then Some (str "{:%OI}") else if key =? 65 then Some (str "{:%p}")
  else if key =? 77 then Some (str "{:%OM}") else if key =? 83 then Some (str "{:%OS}")
  else None.

Definition sized (length : Z) (source : list Z) : list Z :=
  if zlen source <? length then source ++ replicate (Z.to_nat (length - zlen source)) 32
  else if negb (length =? 0) && (length <? zlen source)
  then drop (Z.to_nat (zlen source - length)) source
  else source.

(** What a key appends; unknown ones append nothing. *)
Definition expand (msg : LogMessage) (key length : Z) : list Z :=
  if key =? 115 then m_source msg
  else if key =? 116 then m_text msg
  else if key =? 108 then Strings.fmt_dec (LogLevel.value (m_level msg))
  else if key =? 112 then GetLogLevelName (m_level msg)
  else if key =? 113 then initial (m_level msg)
  else if key =? 85 then m_file msg
  else if key =? 79 then (if bool_decide (m_file msg = []) then [] else Path.filename (m_file msg))
  else if key =? 117 then Strings.fmt_dec (m_line msg)
  else if key =? 69 then Strings.fmt_dec (Z.quot (m_time msg) 1000000000)
  else if key =? 118 then sized length (m_source msg)
  else match time_format key with
       | Some conversion => fmt_time conversion (m_time msg)
       | None => []
       end.

(** The text before is only kept when there are no actions. *)
Definition Format (actions : list PatternAction) (msg : LogMessage) (text : list Z) : list Z :=
  match actions with
  | [] => text
  | _ => foldl (λ text pa, text ++ pa_prepend pa ++ expand msg (pa_key pa) (pa_length pa)) [] actions
  end.

(** *** What the configuration file promises

    The letters as [WarheadDiscord.conf.dist] lists them, and what each stands
    for.  A time is shown by the local time it is; fmt documents what its
    conversions print, in the classic locale. *)

Record Civil := mkCivil {
  c_year : Z; c_month : Z; c_day : Z;
  c_weekday : Z;
  c_hour : Z; c_minute : Z; c_second : Z
}.

Definition two (n : Z) : list Z := (if n <? 10 then [48] else []) ++ Strings.fmt_dec n.
Definition on_twelve (hour : Z) : Z := if hour `mod` 12 =? 0 then 12 else hour `mod` 12.
Definition weekdays : list string :=
  ["Sunday"; "Monday"; "Tuesday"; "Wednesday"; "Thursday"; "Friday"; "Saturday"]%string.
Definition months : list string :=
  ["January"; "February"; "March"; "April"; "May"; "June"; "July"; "August"; "September";
   "October"; "November"; "December"]%string.
Definition nth_name (names : list string) (n : Z) : list Z :=
  str (default ""%string (names !! Z.to_nat n)).

(** The times a clock of 64 bits has. *)
Definition instant (t : Z) : Prop := - 2 ^ 63 <= t < 2 ^ 63.

Create HintDb fmt_time.

Class FmtTimeLaws := {
  local_time : Z → Civil;
  fmt_a t : instant t → fmt_time (str "{:%a}") t = take 3 (nth_name weekdays (c_weekday (local_time t)));
  fmt_A t : instant t → fmt_time (str "{:%A}") t = nth_name weekdays (c_weekday (local_time t));
  fmt_b t : instant t → fmt_time (str "{:%b}") t = take 3 (nth_name months (c_month (local_time t) - 1));
  fmt_B t : instant t → fmt_time (str "{:%B}") t = nth_name months (c_month (local_time t) - 1);
  fmt_d t : instant t → fmt_time (str "{:%d}") t = two (c_day (local_time t));
  fmt_m t : instant t → fmt_time (str "{:%m}") t = two (c_month (local_time t));
  fmt_Om t : instant t → fmt_time (str "{:%Om}") t = two (c_month (local_time t));
  fmt_y t : instant t → fmt_time (str "{:%y}") t = two (c_year (local_time t) `mod` 100);
  fmt_Y t : instant t → fmt_time (str "{:%Y}") t = Strings.fmt_dec (c_year (local_time t));
  fmt_OH t : instant t → fmt_time (str "{:%OH}") t = two (c_hour (local_time t));
  fmt_OI t : instant t → fmt_time (str "{:%OI}") t = two (on_twelve (c_hour (local_time t)));
  fmt_p t : instant t →
    fmt_time (str "{:%p}") t = (if c_hour (local_time t) <? 12 then str "AM" else str "PM");
  fmt_OM t : instant t → fmt_time (str "{:%OM}") t = two (c_minute (local_time t));
  fmt_OS t : instant t → fmt_time (str "{:%OS}") t = two (c_second (local_time t))
}.

Inductive meaning :=
  | Source | Text | Priority | PriorityName | PriorityShort | PriorityInitial
  | SourcePath | SourceFile | SourceLine
  | WeekdayShort | WeekdayFull | MonthShort | MonthFull | Day | MonthPadded | MonthPlain
  | YearShort | Year | Hour24 | Hour12 | AmPm | Minute | Second | Epoch
  | SourceWidth | PercentSign | Nothing.

Definition letter (c : string) : Z := default 0 (head (str c)).

Definition documented : list (string * meaning) :=
  [("s", Source); ("t", Text); ("l", Priority); ("p", PriorityName); ("q", PriorityInitial);
   ("U", SourcePath); ("O", SourceFile); ("u", SourceLine); ("w", WeekdayShort); ("W", WeekdayFull);
   ("b", MonthShort); ("B", MonthFull); ("d", Day); ("m", MonthPadded); ("n", MonthPlain);
   ("y", YearShort); ("Y", Year); ("H", Hour24); ("h", Hour12); ("A", AmPm); ("M", Minute);
   ("S", Second); ("E", Epoch); ("v", SourceWidth); ("%", PercentSign)]%string.

(** Where the program does otherwise: the hours are those of the other clock, the
    month keeps its zero, [Information] is shown as [Info], and the percent sign is
    not printed. *)
Definition diverging : list (string * meaning) :=
  [("H", Hour12); ("h", Hour24); ("n", MonthPadded); ("p", PriorityShort); ("%", Nothing)]%string.

Fixpoint stands_for (key : Z) (letters : list (string * meaning)) : option meaning :=
  match letters with
  | [] => None
  | (c, m) :: letters => if key =? letter c then Some m else stands_for key letters
  end.

(** The priorities 1 to 7, and their names. *)
Definition priority (level : LogLevel.t) : Z :=
  match level with
  | LogLevel.Fatal => 1 | LogLevel.Critical => 2 | LogLevel.Error => 3 | LogLevel.Warning => 4
  | LogLevel.Info => 5 | LogLevel.Debug => 6 | LogLevel.Trace => 7 | _ => 0
  end.
Definition priorities (info : string) : list string :=
  [""; "Fatal"; "Critical"; "Error"; "Warning"; info; "Debug"; "Trace"]%string.

(** The last [width] bytes, spaces behind what is shorter; no width is asked for
    with 0. *)
Definition to_width (width : Z) (s : list Z) : list Z :=
  if width =? 0 then s
  else drop (length s - Z.to_nat width) s ++ replicate (Z.to_nat width - length s) 32.

Section meaning.
Context `{!FmtTimeLaws}.

Definition shown (msg : LogMessage) (width : Z) (m : meaning) : list Z :=
  let time := local_time (m_time msg) in
  match m with
  | Source => m_source msg
  | Text => m_text msg
  | Priority => Strings.fmt_dec (priority (m_level msg))
  | PriorityName => nth_name (priorities "Information") (priority (m_level msg))
  | PriorityShort => nth_name (priorities "Info") (priority (m_level msg))
  | PriorityInitial => take 1 (nth_name (priorities "Information") (priority (m_level msg)))
  | SourcePath => m_file msg
  | SourceFile => Path.filename (m_file msg)
  | SourceLine => Strings.fmt_dec (m_line msg)
  | WeekdayShort => take 3 (nth_name weekdays (c_weekday time))
  | WeekdayFull => nth_name weekdays (c_weekday time)
  | MonthShort => take 3 (nth_name months (c_month time - 1))
  | MonthFull => nth_name months (c_month time - 1)
  | Day => two (c_day time)
  | MonthPadded => two (c_month time)
  | MonthPlain => Strings.fmt_dec (c_month time)
  | YearShort => two (c_year time `mod` 100)
  | Year => Strings.fmt_dec (c_year time)
  | Hour24 => two (c_hour time)
  | Hour12 => two (on_twelve (c_hour time))
  | AmPm => if c_hour time <? 12 then str "AM" else str "PM"
  | Minute => two (c_minute time)
  | Second => two (c_second time)
  | Epoch => Strings.fmt_dec (Z.quot (m_time msg) (10 ^ 9))
  | SourceWidth => to_width width (m_source msg)
  | PercentSign => str "%"
  | Nothing => []
  end.

(** A letter that is not in the list stands for nothing. *)
Definition by_letter (msg : LogMessage) (key width : Z) : list Z :=
  match stands_for key (diverging ++ documented) with
  | Some m => shown msg width m
  | None => []
  end.
End meaning.

(** *** Patterns piece by piece

    What a pattern is made of, as the configuration file describes it: text,
    letters, letters with a width, and names in brackets. *)

Inductive piece :=
  | Literal (s : list Z)
  | Directive (key : Z)
  | Sized (key length : Z)
  | Named (name : list Z).

Definition show (p : piece) : list Z :=
  match p with
  | Literal s => s
  | Directive key => [PERCENT; key]
  | Sized key length => [PERCENT; key; OPEN] ++ Strings.fmt_dec length ++ [CLOSE]
  | Named name => [PERCENT; OPEN] ++ name ++ [CLOSE]
  end.

Definition pattern_of (ps : list piece) : list Z := concat (map show ps).

(** Text has no percent sign, and a letter without a width is not followed by an
    opening bracket, which would begin one. *)
Fixpoint pieces_ok (ps : list piece) : Prop :=
  match ps with
  | [] => True
  | p :: ps =>
      match p with
      | Literal s => s ≠ [] ∧ PERCENT ∉ s
      | Directive key => key ≠ OPEN ∧ head (pattern_of ps) ≠ Some OPEN
      | Sized key length => key ≠ OPEN ∧ 0 <= length < 2 ^ 32
      | Named name => CLOSE ∉ name
      end ∧ pieces_ok ps
  end.

(** What [Format] makes of a piece. *)
Definition expanded (msg : LogMessage) (p : piece) : list Z :=
  match p with
  | Literal s => s
  | Directive key => expand msg key 0
  | Sized key length => expand msg key length
  | Named _ => []
  end.

Definition rendered (msg : LogMessage) (actions : list PatternAction) : list Z :=
  concat (map (λ pa, pa_prepend pa ++ expand msg (pa_key pa) (pa_length pa)) actions).

Lemma Format_rendered actions msg text :
  actions ≠ [] → Format actions msg text = rendered msg actions.
Proof.
  intros Hne. unfold Format, rendered. destruct actions as [|pa actions]; [done|].
  assert (∀ l acc, foldl (λ text pa, text ++ pa_prepend pa ++ expand msg (pa_key pa) (pa_length pa)) acc l =
    acc ++ concat (map (λ pa, pa_prepend pa ++ expand msg (pa_key pa) (pa_length pa)) l)) as E.
  { clear. induction l as [|x l IH]; intros acc; cbn; [by rewrite app_nil_r|].
    by rewrite IH, <- !app_assoc. }
  by rewrite E.
Qed.

Lemma parse_literal s prepend actions rest :
  PERCENT ∉ s → parse prepend None actions (s ++ rest) = parse (prepend ++ s) None actions rest.
Proof.
  clear. revert prepend. induction s as [|c s IH]; intros prepend Hs; cbn [app]; [by rewrite app_nil_r|].
  apply not_elem_of_cons in Hs as [Hc Hs]. cbn [parse]. rewrite (proj2 (Z.eqb_neq c PERCENT)) by done.
  cbn [negb]. rewrite IH by done. by rewrite <- app_assoc.
Qed.

Lemma parse_inside b collected s prepend actions rest :
  CLOSE ∉ s →
  parse prepend (Some (b, collected)) actions (s ++ CLOSE :: rest) =
  parse prepend (Some (b, collected ++ s)) actions (CLOSE :: rest).
Proof.
  clear. revert collected. induction s as [|c s IH]; intros collected Hs; cbn [app]; [by rewrite app_nil_r|].
  apply not_elem_of_cons in Hs as [Hc Hs]. cbn [parse]. rewrite (proj2 (Z.eqb_neq c CLOSE)) by done.
  change (parse prepend (Some (b, collected ++ [c])) actions (s ++ CLOSE :: rest) =
    parse prepend (Some (b, collected ++ c :: s)) actions (CLOSE :: rest)).
  rewrite IH by done. by rewrite <- app_assoc.
Qed.

Lemma parse_number length :
  0 <= length < 2 ^ 64 →
  CLOSE ∉ Strings.fmt_dec length ∧
  Strings.FromString_int (Strings.mkInt false 64) (Strings.fmt_dec length) 10 = Some length.
Proof.
  clear. intros Hl. destruct (Strings.fmt_dec_text (Strings.mkInt false 64) length) as [E D].
  - cbn. lia.
  - unfold Strings.int_min, Strings.int_max. cbn. lia.
  - split; [|done]. intros C%D. unfold CLOSE in C. lia.
Qed.

#[local] Hint Resolve fmt_a fmt_A fmt_b fmt_B fmt_d fmt_m fmt_Om fmt_y fmt_Y fmt_OH fmt_OI fmt_p
  fmt_OM fmt_OS : fmt_time.

Lemma sized_to_width width s : 0 <= width → sized width s = to_width width s.
Proof.
  clear. intros Hw. unfold sized, to_width, zlen. destruct (Z.eqb_spec width 0) as [->|Hne].
  - rewrite (proj2 (Z.ltb_ge _ _)) by lia. done.
  - cbn [negb andb]. destruct (Z.ltb_spec (Z.of_nat (length s)) width).
    + replace (length s - Z.to_nat width)%nat with 0%nat by lia. cbn [drop]. f_equal. f_equal. lia.
    + replace (Z.to_nat width - length s)%nat with 0%nat by lia. cbn [replicate]. rewrite app_nil_r.
      case_match eqn:E; [f_equal; lia|]. apply Z.ltb_ge in E.
      by replace (length s - Z.to_nat width)%nat with 0%nat by lia.
Qed.

Lemma expand_letter `{!FmtTimeLaws} msg key width :
  instant (m_time msg) → 0 < priority (m_level msg) → 0 <= width →
  expand msg key width = by_letter msg key width.
Proof.
  intros Ht Hl Hw. unfold by_letter, expand, time_format, diverging, documented. cbn [app stands_for].
  repeat match goal with
  | |- context [key =? letter ?c] => let k := eval vm_compute in (letter c) in change (letter c) with k
  end.
  repeat match goal with
  | |- context [key =? ?c] => destruct (Z.eqb_spec key c) as [->|_]; [cbn [Z.eqb Pos.eqb]|]
  end; [..|done].
  all: cbn [shown].
  all: lazymatch goal with
       | |- fmt_time _ _ = _ => by auto with fmt_time
       | |- sized _ _ = _ => by apply sized_to_width
       | |- (if _ then _ else _) = _ => case_bool_decide as E; [by rewrite E|done]
       | |- context [m_level] => by destruct (m_level msg)
       | |- _ => reflexivity
       end.
Qed.

(** What a piece stands for. *)
Definition render `{!FmtTimeLaws} (msg : LogMessage) (p : piece) : list Z :=
  match p with
  | Literal s => s
  | Directive key => by_letter msg key 0
  | Sized key width => by_letter msg key width
  | Named _ => []
  end.

Lemma expanded_render `{!FmtTimeLaws} msg ps :
  instant (m_time msg) → 0 < priority (m_level msg) → pieces_ok ps →
  map (expanded msg) ps = map (render msg) ps.
Proof.
  intros Ht Hl. induction ps as [|p ps IH]; [done|]. intros [Hp Hok]. cbn [map]. rewrite IH by done.
  f_equal. destruct p; cbn [expanded render]; try done; apply expand_letter; lia || done.
Qed.

Lemma parse_directive key prepend actions rest :
  key ≠ OPEN → head rest ≠ Some OPEN →
  parse prepend None actions (PERCENT :: key :: rest) =
  parse [] None (actions ++ [mkAction key 0 [] prepend]) rest.
Proof.
  clear. intros Hk Hr. cbn [parse]. rewrite Z.eqb_refl. cbn [negb]. rewrite (proj2 (Z.eqb_neq _ _) Hk).
  destruct rest as [|next rest]; [done|]. cbn in Hr. rewrite (proj2 (Z.eqb_neq next OPEN)) by congruence.
  done.
Qed.

Lemma parse_pieces ps prepend actions :
  pieces_ok ps →
  ∃ actions', parse prepend None actions (pattern_of ps) = Ret (actions ++ actions') ∧
    (∀ msg, rendered msg actions' = prepend ++ concat (map (expanded msg) ps)) ∧
    (actions' = [] → ps = []).
Proof.
  revert prepend actions. induction ps as [|p ps IH]; intros prepend actions Hok.
  { cbn. case_bool_decide as E.
    - exists []. rewrite app_nil_r. by subst.
    - eexists. split; [done|]. split; [|done]. intros msg. cbn. by rewrite !app_nil_r. }
  destruct Hok as [Hp Hok]. change (pattern_of (p :: ps)) with (show p ++ pattern_of ps).
  destruct p as [s|key|key length|name]; cbn [show].
  - destruct Hp as [Hne Hs]. rewrite parse_literal by done.
    destruct (IH (prepend ++ s) actions Hok) as (acts & E & R & N). exists acts. rewrite E.
    split; [done|]. split; [|].
    + intros msg. rewrite R. by rewrite <- app_assoc.
    + intros ->. specialize (R (mkMessage [] [] LogLevel.Info 0 [] 0 [])). cbn in R.
      destruct prepend, s; done.
  - destruct Hp as [Hk Hh]. cbn [app]. rewrite parse_directive by done.
    destruct (IH [] (actions ++ [mkAction key 0 [] prepend]) Hok) as (acts & E & R & N).
    eexists. rewrite E, <- app_assoc. split; [done|]. split; [|done].
    intros msg. cbn. rewrite <- app_assoc. f_equal. f_equal. apply R.
  - destruct Hp as [Hk Hl]. destruct (parse_number length ltac:(lia)) as [Hc Hn].
    cbn [app]. rewrite <- app_assoc. cbn [app].
    assert (parse prepend None actions (PERCENT :: key :: OPEN :: Strings.fmt_dec length ++
        CLOSE :: pattern_of ps) =
      parse [] None (actions ++ [mkAction key length [] prepend]) (pattern_of ps)) as ->.
    { transitivity (parse prepend (Some (Number key, [])) actions
        (Strings.fmt_dec length ++ CLOSE :: pattern_of ps)).
      - cbn [parse]. rewrite Z.eqb_refl. cbn [negb]. by rewrite (proj2 (Z.eqb_neq _ _) Hk).
      - rewrite parse_inside by done. cbn [parse app]. by rewrite Z.eqb_refl, Hn. }
    destruct (IH [] (actions ++ [mkAction key length [] prepend]) Hok) as (acts & E & R & N).
    eexists. rewrite E, <- app_assoc. split; [done|]. split; [|done].
    intros msg. cbn. rewrite <- app_assoc. f_equal. f_equal. apply R.
  - cbn [app]. rewrite <- app_assoc. cbn [app].
    assert (parse prepend None actions (PERCENT :: OPEN :: name ++ CLOSE :: pattern_of ps) =
      parse [] None (actions ++ [mkAction 120 0 name prepend]) (pattern_of ps)) as ->.
    { transitivity (parse prepend (Some (Property, [])) actions (name ++ CLOSE :: pattern_of ps)).
      - reflexivity.
      - rewrite parse_inside by done. reflexivity. }
    destruct (IH [] (actions ++ [mkAction 120 0 name prepend]) Hok) as (acts & E & R & N).
    eexists. rewrite E, <- app_assoc. split; [done|]. split; [|done].
    intros msg. cbn. rewrite <- app_assoc. f_equal. apply R.
Qed.

(** C35: a pattern is accepted and a message is formatted with it piece by piece.
    Text stands for itself, and a letter for what [WarheadDiscord.conf.dist] says
    ([documented]), with five exceptions ([diverging]): [%H] shows the hour of a
    clock of twelve hours and [%h] that of a clock of twenty-four, the file says the
    reverse; [%n] keeps the leading zero; [%p] shows [Info]; and [%%] nothing.  Of
    the letters only [%v] heeds a width: its text is padded behind or keeps its last
    bytes; width 0 is none.  A name in brackets stands for nothing, and so does a
    letter the file does not list.  The message has a priority from 1 to 7 and a
    time of 64 bits. *)
Theorem pattern_rendered `{!FmtTimeLaws} (ps : list piece) (Hok : pieces_ok ps) (Hne : ps ≠ []) :
  ∃ actions, ParsePattern (pattern_of ps) = Ret actions ∧
    ∀ msg text, instant (m_time msg) → 0 < priority (m_level msg) →
      Format actions msg text = concat (map (render msg) ps).
Proof.
  destruct (parse_pieces ps [] [] Hok) as (acts & E & R & N). cbn [app] in E.
  assert (acts ≠ []) as Na by (intros ->; by apply Hne, N).
  exists acts. split.
  - unfold ParsePattern. rewrite bool_decide_eq_false_2, E.
    + by destruct acts.
    + intros Ep. rewrite Ep in E. cbn in E. injection E as <-. done.
  - intros msg text Ht Hl. rewrite Format_rendered, <- expanded_render by done. apply R.
Qed.
End format.
End Pattern.

(** ** Channels *)

Module ChannelType.
Inductive t := Console | File | DB | Discord | Max.
Definition value (c : t) : Z :=
  match c with Console => 1 | File => 2 | DB => 3 | Discord => 4 | Max => 5 end.
End ChannelType.

(** [_logFile]: the path of the stream and whether it could be opened. *)
Record FileState := mkFileState {
  fs_logsDir : list Z;
  fs_fileName : list Z;
  fs_logFile : option (list Z * bool);
  fs_isDynamicFileName : bool;
  fs_isFlush : bool;
  fs_isOpenModeAppend : bool;
  fs_isAddTimestamp : bool
}.

(** What the two classes of channels add to [Channel]. *)
Inductive sink :=
  | ConsoleSink (colors : list Z) (enableColors : bool)
  | FileSink (f : FileState).

Record Channel := mkChannelOf {
  lc_type : ChannelType.t;
  lc_name : list Z;
  lc_level : LogLevel.t;
  lc_pattern : list Z;
  lc_actions : list PatternAction;
  lc_sink : sink
}.

(** A channel at work, and what has left the process. *)
Record writer := mkWriter { w_channel : Channel; w_out : list output }.

Module LogChannels.
Section channels.
Context `{LogHost}.

(** The constructor of the base class. *)
Definition Channel_new (type : ChannelType.t) (name : list Z) (level : LogLevel.t) (pattern : list Z)
    (s : sink) : outcome LogError Channel :=
  match Pattern.ParsePattern pattern with
  | Ret actions => Ret (mkChannelOf type name level pattern actions s)
  | Throw e => Throw e
  | AssertFail => AssertFail
  | UB => UB
  end.

Definition SetLevel (level : LogLevel.t) (c : Channel) : Channel :=
  mkChannelOf (lc_type c) (lc_name c) level (lc_pattern c) (lc_actions c) (lc_sink c).

(** [_pattern] is replaced before it is parsed. *)
Definition SetPattern (pattern : list Z) : M LogError Channel () := λ c,
  if bool_decide (pattern = []) then (Throw (Exception (str "Pattern is empty")), c)
  else
    let moved actions :=
      mkChannelOf (lc_type c) (lc_name c) (lc_level c) pattern actions (lc_sink c) in
    match Pattern.parse [] None [] pattern with
    | Ret [] => (Throw (Exception (str "ParsePattern: Error at parse pattern '" ++ pattern ++ str "'")), moved [])
    | Ret actions => (Ret (), moved actions)
    | Throw e => (Throw e, moved [])
    | AssertFail => (AssertFail, moved [])
    | UB => (UB, moved [])
    end.

(** *** The console *)

Definition CC_DEFAULT : Z := 39.
Definition InitDefaultColors : list Z :=
  [CC_DEFAULT; 0x011f; 0x011f; 0x011f; 0x0121; CC_DEFAULT; 0x25; 0x25].

Definition ParseColor (color : list Z) : option Z :=
  if Strings.StringEqualI color (str "default") then Some CC_DEFAULT
  else if Strings.StringEqualI color (str "black") then Some 0x1e
  else if Strings.StringEqualI color (str "red") then Some 0x1f
  else if Strings.StringEqualI color (str "green") then Some 0x20
  else if Strings.StringEqualI color (str "brown") then Some 0x21
  else if Strings.StringEqualI color (str "blue") then Some 0x22
  else if Strings.StringEqualI color (str "magenta") then Some 0x23
  else if Strings.StringEqualI color (str "cyan") then Some 0x24
  else if Strings.StringEqualI color (str "gray") then Some 0x25
  else if Strings.StringEqualI color (str "darkGray") then Some 0x011e
  else if Strings.StringEqualI color (str "lightRed") then Some 0x011f
  else if Strings.StringEqualI color (str "lightGreen") then Some 0x0120
  else if Strings.StringEqualI color (str "yellow") then Some 0x0121
  else if Strings.StringEqualI color (str "lightBlue") then Some 0x0122
  else if Strings.StringEqualI color (str "lightMagenta") then Some 0x0123
  else if Strings.StringEqualI color (str "lightCyan") then Some 0x0124
  else if Strings.StringEqualI color (str "white") then Some 0x0125
  else None.

(** [_colors[0]] stays. *)
Definition SetColors (colors : list Z) (old : list Z) : outcome LogError (list Z) :=
  let colorTokens := Strings.Tokenize colors 32 true in
  if negb (zlen colorTokens =? MAX_LOG_LEVEL - 1)
  then Throw (Exception (str "WindowsConsoleChannel::SetColors: Invalid colors size. Size " ++
         Strings.fmt_dec (zlen colorTokens) ++ str ". Colors '" ++ colors ++ str "'"))
  else match mapM ParseColor colorTokens with
       | Some parsed => Ret (take 1 old ++ parsed)
       | None => Throw (Exception (str "Invalid color value"))
       end.

Definition with_colors (colors : list Z) (c : Channel) : outcome LogError Channel :=
  match SetColors colors InitDefaultColors with
  | Ret v => Ret (mkChannelOf (lc_type c) (lc_name c) (lc_level c) (lc_pattern c) (lc_actions c)
                    (ConsoleSink v true))
  | Throw e => Throw e
  | AssertFail => AssertFail
  | UB => UB
  end.

Definition ConsoleChannel (name : list Z) (level : LogLevel.t) (pattern : list Z)
    (options : list (list Z)) : outcome LogError Channel :=
  match Channel_new ChannelType.Console name level pattern (ConsoleSink InitDefaultColors true) with
  | Ret c =>
      if 4 <? zlen options
      then Throw (Exception (str "Incorrect options count (" ++ Strings.fmt_dec (zlen options) ++ str ")"))
      else match options !! 3%nat with
           | Some colors => with_colors colors c
           | None => Ret c
           end
  | r => r
  end.

(** The other constructor, with the colors themselves. *)
Definition ConsoleChannel_colors (name : list Z) (level : LogLevel.t) (pattern colors : list Z)
    : outcome LogError Channel :=
  match Channel_new ChannelType.Console name level pattern (ConsoleSink InitDefaultColors true) with
  | Ret c => if bool_decide (colors = []) then Ret c else with_colors colors c
  | r => r
  end.

Definition put (o : output) : M LogError writer () := modify (λ w, mkWriter (w_channel w) (w_out w ++ [o])).

Definition CSI : list Z := [27; 91].

(** The codes around a line. *)
Definition color_on (colors : list Z) (level : LogLevel.t) : list Z :=
  let color := default 0 (colors !! Z.to_nat (LogLevel.value level)) in
  (if negb (Z.land color 0x100 =? 0) then CSI ++ str "1m" else []) ++
  CSI ++ Strings.fmt_dec (Z.land color 0xff) ++ str "m".
Definition color_off : list Z := CSI ++ str "0m".

Definition ConsoleChannel_Write (colors : list Z) (enableColors : bool) (msg : LogMessage)
    : M LogError writer () :=
  c ← gets w_channel;
  if LogLevel.value (lc_level c) <? LogLevel.value (m_level msg) then skip
  else
    let text := Pattern.Format (lc_actions c) msg (m_text msg) in
    put (Console ((if enableColors : bool then color_on colors (m_level msg) else []) ++ text ++
                  (if enableColors then color_off else []) ++ [10])).

(** *** Files *)

Definition get_bool (what : list Z) (default : bool) (options : list (list Z)) (i : nat)
    : outcome LogError bool :=
  match options !! i with
  | None => Ret default
  | Some v =>
      match Strings.FromString_bool v false with
      | Some b => Ret b
      | None => Throw (Exception (str "Incorrect option for " ++ what ++ str " '" ++ v ++ str "'"))
      end
  end.

Fixpoint contains_hole (s : list Z) : bool :=
  match s with
  | 123 :: (125 :: _) => true
  | _ :: s => contains_hole s
  | [] => false
  end.

Definition FileChannel (logsDir name : list Z) (level : LogLevel.t) (pattern : list Z)
    (options : list (list Z)) : outcome LogError Channel :=
  match Channel_new ChannelType.File name level pattern (ConsoleSink [] false) with
  | Ret c =>
      if zlen options <? 4
      then Throw (Exception (str "Incorrect options count (" ++ Strings.fmt_dec (zlen options) ++ str ")"))
      else
        let fileName := default [] (options !! 3%nat) in
        match get_bool (str "open mode") true options 4, get_bool (str "flush") true options 5,
              get_bool (str "add timestamp") false options 6 with
        | Ret append, Ret flush, Ret timestamp =>
            Ret (mkChannelOf (lc_type c) (lc_name c) (lc_level c) (lc_pattern c) (lc_actions c)
              (FileSink (mkFileState logsDir fileName None (contains_hole fileName) flush append timestamp)))
        | Throw e, _, _ => Throw e
        | _, Throw e, _ => Throw e
        | _, _, Throw e => Throw e
        | _, _, _ => UB
        end
  | r => r
  end.

Definition set_file (f : FileState) (c : Channel) : Channel :=
  mkChannelOf (lc_type c) (lc_name c) (lc_level c) (lc_pattern c) (lc_actions c) (FileSink f).
Definition with_name (name : list Z) (f : FileState) : FileState :=
  mkFileState (fs_logsDir f) name (fs_logFile f) (fs_isDynamicFileName f) (fs_isFlush f)
    (fs_isOpenModeAppend f) (fs_isAddTimestamp f).
Definition with_stream (s : option (list Z * bool)) (f : FileState) : FileState :=
  mkFileState (fs_logsDir f) (fs_fileName f) s (fs_isDynamicFileName f) (fs_isFlush f)
    (fs_isOpenModeAppend f) (fs_isAddTimestamp f).

(** Before the last dot, or at the end. *)
Definition insert_stamp (timeStamp fileName : list Z) : list Z :=
  match list_find (λ c, c = 46) (rev fileName) with
  | Some (i, _) =>
      let dot_pos := (length fileName - S i)%nat in
      take dot_pos fileName ++ timeStamp ++ drop dot_pos fileName
  | None => fileName ++ timeStamp
  end.

(** [OpenFile] and [CloseFile] on the members of the file channel. *)
Definition OpenFile (now : Z) (f : FileState) : bool * FileState * list output :=
  match fs_logFile f with
  | Some (_, is_open) => (is_open, f, [])
  | None =>
      let f :=
        if fs_isAddTimestamp f
        then with_name (insert_stamp (str "_" ++ put_time now (str "%Y-%m-%d_%H_%M_%S")) (fs_fileName f)) f
        else f in
      let file := fs_logsDir f ++ fs_fileName f in
      let is_open := can_open file in
      (is_open, with_stream (Some (file, is_open)) f,
       if is_open then [Opened file (fs_isOpenModeAppend f)] else [])
  end.
Definition CloseFile (f : FileState) : FileState := with_stream None f.

Definition written (file text : list Z) : list output :=
  if can_write file then [Written file (text ++ [10])] else [].

Definition FileChannel_Write (now : Z) (f : FileState) (msg : LogMessage) : M LogError writer () := λ w,
  let c := w_channel w in
  if fs_isDynamicFileName f && bool_decide (m_option msg = [])
  then (Throw (Exception (str "Empty option for dynamic file '" ++ fs_fileName f ++ str "'")), w)
  else
    let text := Pattern.Format (lc_actions c) msg (m_text msg) in
    let failed f out :=
      (Throw (Exception (str "Cannot open file '" ++ fs_fileName f ++ str "'")),
       mkWriter (set_file f c) (w_out w ++ out)) in
    if fs_isDynamicFileName f then
      match fmt_format (fs_fileName f) (m_option msg) with
      | None => (Throw format_error, w)
      | Some fileName =>
          let '(ok, f, out) := OpenFile now (with_name fileName f) in
          if negb ok then failed f out
          else (Ret (), mkWriter (set_file (CloseFile f) c)
                  (w_out w ++ out ++ written (default [] (fst <$> fs_logFile f)) text))
      end
    else
      let '(ok, f, out) := OpenFile now f in
      if negb ok then failed f out
      else
        let file := default [] (fst <$> fs_logFile f) in
        (if can_write file then Ret ()
         else Throw (Exception (str "Incorrect write to file '" ++ fs_fileName f ++ str "'")),
         mkWriter (set_file f c) (w_out w ++ out ++ written file text)).

(** [Channel::Write], by the class of the channel. *)
Definition Write (now : Z) (msg : LogMessage) : M LogError writer () :=
  c ← gets w_channel;
  match lc_sink c with
  | ConsoleSink colors enableColors => ConsoleChannel_Write colors enableColors msg
  | FileSink f => FileChannel_Write now f msg
  end.
End channels.
End LogChannels.

(** ** Witness *)

(** A host whose clock prints the conversion it is asked for, and whose disk has no
    directory [/gone/]. *)
Definition demo_host : LogHost := {|
  fmt_time conversion _ := conversion;
  fmt_format f o :=
    match list_find (λ c, c = 123) f with
    | Some (i, _) => Some (take i f ++ o ++ drop (i + 2) f)
    | None => Some f
    end;
  put_time _ _ := str "now";
  can_open p := negb (bool_decide (take 6 p = str "/gone/"));
  can_write _ := true;
  is_dir _ := true;
  create_directory _ := true
|}.
(** The time of the calendar, in a place that keeps universal time. *)
Definition utc (t : Z) : Pattern.Civil :=
  let seconds := t / 10 ^ 9 in
  let days := seconds / 86400 in
  let era := (days + 719468) / 146097 in
  let doe := (days + 719468) `mod` 146097 in
  let yoe := (doe - doe / 1460 + doe / 36524 - doe / 146096) / 365 in
  let doy := doe - (365 * yoe + yoe / 4 - yoe / 100) in
  let mp := (5 * doy + 2) / 153 in
  let month := if mp <? 10 then mp + 3 else mp - 9 in
  Pattern.mkCivil (yoe + era * 400 + (if month <=? 2 then 1 else 0)) month
    (doy - (153 * mp + 2) / 5 + 1) ((days + 4) `mod` 7)
    ((seconds / 3600) `mod` 24) ((seconds / 60) `mod` 60) (seconds `mod` 60).

(** The conversions by their letter; behind an [O] the same. *)
Definition utc_conversion (c : Pattern.Civil) (key : Z) : list Z :=
  match find (λ x, x.1 =? key)
    [(97, take 3 (Pattern.nth_name Pattern.weekdays (Pattern.c_weekday c)));
     (65, Pattern.nth_name Pattern.weekdays (Pattern.c_weekday c));
     (98, take 3 (Pattern.nth_name Pattern.months (Pattern.c_month c - 1)));
     (66, Pattern.nth_name Pattern.months (Pattern.c_month c - 1));
     (100, Pattern.two (Pattern.c_day c)); (109, Pattern.two (Pattern.c_month c));
     (121, Pattern.two (Pattern.c_year c `mod` 100)); (89, Strings.fmt_dec (Pattern.c_year c));
     (72, Pattern.two (Pattern.c_hour c)); (73, Pattern.two (Pattern.on_twelve (Pattern.c_hour c)));
     (112, if Pattern.c_hour c <? 12 then str "AM" else str "PM");
     (77, Pattern.two (Pattern.c_minute c)); (83, Pattern.two (Pattern.c_second c))] with
  | Some x => x.2
  | None => []
  end.
Definition utc_time (conversion : list Z) (t : Z) : list Z :=
  match conversion with
  | [_; _; _; key; _] => utc_conversion (utc t) key
  | [_; _; _; _; key; _] => utc_conversion (utc t) key
  | _ => []
  end.

Definition utc_host : LogHost := {|
  fmt_time := utc_time;
  fmt_format := @fmt_format demo_host;
  put_time := @put_time demo_host;
  can_open := @can_open demo_host;
  can_write _ := true;
  is_dir _ := true;
  create_directory _ := true
|}.

#[local] Instance utc_laws : Pattern.FmtTimeLaws (H := utc_host).
Proof. by refine (@Pattern.Build_FmtTimeLaws utc_host utc _ _ _ _ _ _ _ _ _ _ _ _ _ _). Defined.

Definition demo_pieces : list Pattern.piece :=
  [Pattern.Literal (str "["); Pattern.Directive 72; Pattern.Literal (str ":"); Pattern.Directive 77;
   Pattern.Literal (str "] "); Pattern.Sized 118 6; Pattern.Literal (str "|"); Pattern.Named (str "tag");
   Pattern.Directive 37; Pattern.Directive 116].

(** One in the afternoon of the second of March 2023: the hour that is shown is 01,
    and of the doubled percent sign nothing. *)
Lemma pattern_rendered_witness :
  ∃ actions, Pattern.ParsePattern (str "[%H:%M] %v[6]|%[tag]%%%t") = Ret actions ∧
    ∀ text, Pattern.Format (H := utc_host) actions
      (mkMessage (str "server.loading") (str "hi") LogLevel.Info 1677762300000000000 [] 0 []) text =
      str "[01:05] oading|hi".
Proof.
  destruct (Pattern.pattern_rendered (H := utc_host) demo_pieces) as (actions & E & F).
  - repeat split; try discriminate; try (cbn; lia); try (apply (bool_decide_eq_true_1 (_ ∉ _)); vm_compute; reflexivity).
  - discriminate.
  - exists actions. split; [exact E|]. intros text. rewrite F.
    + vm_compute. reflexivity.
    + unfold Pattern.instant. cbn. lia.
    + cbn. lia.
Defined.

(** The date of the same moment. *)
Example date_of_a_moment :
  match Pattern.ParsePattern (str "%W %w %d %B %b %m %n %Y %y %h %A") with
  | Ret actions => Pattern.Format (H := utc_host) actions
      (mkMessage [] [] LogLevel.Info 1677762300000000000 [] 0 []) []
  | _ => []
  end = str "Thursday Thu 02 March Mar 03 03 2023 23 13 PM".
Proof. vm_compute. reflexivity. Qed.
