(* ===== verification/LogRegistry.v ===== *)
(** * LogRegistry: loggers, and which message goes to which channel

    Model of [Log.h], [Log.cpp] and [Logger.cpp] ([src/src/common/Logging]) over the
    channels of [Logging.v], and of [FileUtil.cpp].  Channels are shared between
    the registry and the loggers: both hold the number of a channel in one store. *)

From S2P Require Import Prelude Utf8 Strings Config Files Logging.
Open Scope Z_scope.

Record Logger := mkLogger {
  lg_name : list Z;
  lg_level : LogLevel.t;
  lg_channels : list nat
}.

Record Log := mkLog {
  _loggers : gmap (list Z) Logger;
  _channels : gmap (list Z) nat;
  l_store : list Channel;
  _channelsCreateFunction : gmap Z ChannelType.t;
  highestLogLevel : LogLevel.t;
  _logsDir : list Z;
  _isUseDefaultLogs : bool;
  l_out : list output
}.

Module File.
Section file.
Context `{LogHost}.

Definition CorrectDirPath (path : list Z) : list Z :=
  if bool_decide (path = []) then path
  else
    let path := map (λ c, if c =? 92 then 47 else c) path in
    if default 0 (last path) =? 47 then path else path ++ [47].

(** A failure to create the directory is caught. *)
Definition CreateDirIfNeed (path : list Z) : bool :=
  bool_decide (path = []) || is_dir path || create_directory path.
End file.
End File.

Module Logs.
Section logs.
Context `{Host : LogHost} {W : MapOrder}.

Abbreviation Run := (M LogError Log).

Definition LOGGER_ROOT : list Z := str "root".
Definition LOGGER_GM : list Z := str "commands.gm".
Definition PREFIX_LOGGER : list Z := str "Logger.".
Definition PREFIX_CHANNEL : list Z := str "LogChannel.".
Definition PREFIX_LOGGER_LENGTH : nat := 7.
Definition PREFIX_CHANNEL_LENGTH : nat := 11.

Definition set_loggers (v : gmap (list Z) Logger) (s : Log) : Log :=
  mkLog v (_channels s) (l_store s) (_channelsCreateFunction s) (highestLogLevel s) (_logsDir s)
    (_isUseDefaultLogs s) (l_out s).
Definition set_channels (v : gmap (list Z) nat) (s : Log) : Log :=
  mkLog (_loggers s) v (l_store s) (_channelsCreateFunction s) (highestLogLevel s) (_logsDir s)
    (_isUseDefaultLogs s) (l_out s).
Definition set_store (v : list Channel) (s : Log) : Log :=
  mkLog (_loggers s) (_channels s) v (_channelsCreateFunction s) (highestLogLevel s) (_logsDir s)
    (_isUseDefaultLogs s) (l_out s).
Definition set_create (v : gmap Z ChannelType.t) (s : Log) : Log :=
  mkLog (_loggers s) (_channels s) (l_store s) v (highestLogLevel s) (_logsDir s)
    (_isUseDefaultLogs s) (l_out s).
Definition set_highest (v : LogLevel.t) (s : Log) : Log :=
  mkLog (_loggers s) (_channels s) (l_store s) (_channelsCreateFunction s) v (_logsDir s)
    (_isUseDefaultLogs s) (l_out s).
Definition set_logsDir (v : list Z) (s : Log) : Log :=
  mkLog (_loggers s) (_channels s) (l_store s) (_channelsCreateFunction s) (highestLogLevel s) v
    (_isUseDefaultLogs s) (l_out s).
Definition set_default (v : bool) (s : Log) : Log :=
  mkLog (_loggers s) (_channels s) (l_store s) (_channelsCreateFunction s) (highestLogLevel s)
    (_logsDir s) v (l_out s).
Definition say (o : output) (s : Log) : Log :=
  mkLog (_loggers s) (_channels s) (l_store s) (_channelsCreateFunction s) (highestLogLevel s)
    (_logsDir s) (_isUseDefaultLogs s) (l_out s ++ [o]).

Definition print {E} (text : list Z) : M E Log () := modify (say (Notice text)).

Definition level_le (a b : LogLevel.t) : bool := LogLevel.value a <=? LogLevel.value b.

(** ** Finding loggers and channels *)

Definition HasLogger (type : list Z) (s : Log) : option Logger := _loggers s !! type.
Definition HasChannel (name : list Z) (s : Log) : option nat := _channels s !! name.

(** [type.substr(0, type.find_last_of('.'))], or the root. *)
Definition parent (type : list Z) : list Z :=
  match list_find (λ c, c = 46) (rev type) with
  | Some (i, _) => take (length type - S i) type
  | None => LOGGER_ROOT
  end.

(** The recursion, with the nested calls there is room for. *)
Fixpoint GetLoggerByType_loop (stack : nat) (type : list Z) (s : Log) :
    outcome Empty_set (option Logger) :=
  match stack with
  | O => UB
  | S stack =>
      match HasLogger type s with
      | Some logger => Ret (Some logger)
      | None => if bool_decide (type = LOGGER_ROOT) then Ret None
                else GetLoggerByType_loop stack (parent type) s
      end
  end.

(** A parent is shorter, or the root. *)
Definition GetLoggerByType (type : list Z) (s : Log) : outcome Empty_set (option Logger) :=
  GetLoggerByType_loop (S (S (length type))) type s.

Definition ShouldLog (filter : list Z) (level : LogLevel.t) : M Empty_set Log bool := λ s,
  if negb (level_le level (highestLogLevel s)) then (Ret false, s)
  else
    (logger ← lift (GetLoggerByType filter s);
     mret (match logger with
           | Some logger => negb (bool_decide (lg_level logger = LogLevel.Disabled)) &&
                            level_le level (lg_level logger)
           | None => false
           end)) s.

(** ** Writing *)

(** [channel->Write]: the channel is changed where it is stored. *)
Definition write_to (now : Z) (msg : LogMessage) (id : nat) : Run () := λ s,
  match l_store s !! id with
  | None => (UB, s)
  | Some c =>
      let '(o, w) := LogChannels.Write now msg (mkWriter c (l_out s)) in
      (o, mkLog (_loggers s) (_channels s) (<[id := w_channel w]> (l_store s))
            (_channelsCreateFunction s) (highestLogLevel s) (_logsDir s) (_isUseDefaultLogs s) (w_out w))
  end.

Definition Logger_Write (now : Z) (logger : Logger) (msg : LogMessage) : Run () :=
  if negb (level_le (m_level msg) (lg_level logger)) then skip
  else
    for_each (λ id,
      level ← gets (λ s, lc_level <$> l_store s !! id);
      match level with
      | None => undefined
      | Some level => if negb (level_le (m_level msg) level) then skip else write_to now msg id
      end) (lg_channels logger).

(** [DeleteChannel] erases the first channel of the name, and all pointers to it. *)
Definition Logger_DeleteChannel (name : list Z) (s : Log) (logger : Logger) : Logger :=
  match list_find (λ id, lc_name <$> l_store s !! id = Some name) (lg_channels logger) with
  | Some (_, id) => mkLogger (lg_name logger) (lg_level logger)
                      (List.filter (λ i, negb (bool_decide (i = id))) (lg_channels logger))
  | None => logger
  end.

(** [Log::Write]; only [Exception]s are caught. *)
Definition Write (now : Z) (msg : LogMessage) : Run () := λ s,
  match GetLoggerByType (m_source msg) s with
  | Ret (Some logger) =>
      match Logger_Write now logger msg s with
      | (Throw (Exception e), s) => print (str "Error at write: " ++ e) s
      | r => r
      end
  | Ret None => (Ret (), s)
  | Throw e => match e with end
  | AssertFail => (AssertFail, s)
  | UB => (UB, s)
  end.

Definition _OutMessage (now : Z) (filter : list Z) (level : LogLevel.t) (file : list Z) (line : Z)
    (message : list Z) : Run () :=
  Write now (mkMessage filter message level now file line []).

Definition OutCommand (now account : Z) (message : list Z) : Run () := λ s,
  match ShouldLog LOGGER_GM LogLevel.Info s with
  | (Ret true, s) =>
      Write now (mkMessage LOGGER_GM message LogLevel.Info now [] 0 (Strings.fmt_dec account)) s
  | (Ret false, s) => (Ret (), s)
  | (Throw e, s) => match e with end
  | (AssertFail, s) => (AssertFail, s)
  | (UB, s) => (UB, s)
  end.

(** The macros [LOG_*]: [message] is what [fmt::format] makes of the arguments, or
    nothing when it throws; [wrong] is the text that is logged then. *)
Definition LOG (now : Z) (filter : list Z) (level : LogLevel.t) (file : list Z) (line : Z)
    (message : option (list Z)) (wrong : list Z) : Run () := λ s,
  match ShouldLog filter level s with
  | (Ret true, s) =>
      let caught := _OutMessage now (str "server") LogLevel.Error file line wrong in
      match message with
      | None => caught s
      | Some message =>
          match _OutMessage now filter level file line message s with
          | (Throw format_error, s) => caught s
          | r => r
          end
      end
  | (Ret false, s) => (Ret (), s)
  | (Throw e, s) => match e with end
  | (AssertFail, s) => (AssertFail, s)
  | (UB, s) => (UB, s)
  end.

(** ** Setting up *)

(** A constructor that may throw, inside a [try] that prints [e]. *)
Definition guarded (what : list Z) (made : outcome LogError Channel) (use : Channel → Run ()) : Run () :=
  match made with
  | Ret c => use c
  | Throw (Exception e) => print (what ++ e ++ [10])
  | Throw format_error => throw format_error
  | AssertFail => assert_ false
  | UB => undefined
  end.

(** [std::make_shared]: a new place in the store. *)
Definition allocate (c : Channel) : Run nat := λ s,
  (Ret (length (l_store s)), set_store (l_store s ++ [c]) s).

Definition Clear (s : Log) : Log := set_channels ∅ (set_loggers ∅ s).

Definition RegisterChannel (type : ChannelType.t) : Run () :=
  _ ← assert_ (ChannelType.value type <? ChannelType.value ChannelType.Max);
  itr ← gets (λ s, _channelsCreateFunction s !! i8 (u8 (ChannelType.value type)));
  _ ← assert_ (bool_decide (itr = None));
  modify (λ s, set_create (<[i8 (u8 (ChannelType.value type)) := type]> (_channelsCreateFunction s)) s).

(** The constructor; the instance is static, so the level starts as 0. *)
Definition empty : Log := mkLog ∅ ∅ [] ∅ LogLevel.Disabled [] false [].
Definition new : Run () :=
  _ ← RegisterChannel ChannelType.Console; RegisterChannel ChannelType.File.

(** [Tokenize(tokens[1], ' ')] into channels of the logger. *)
Fixpoint add_channels (loggerName : list Z) (names : list (list Z)) (logger : Logger) : Run Logger :=
  match names with
  | [] => mret logger
  | name :: names =>
      channel ← gets (HasChannel name);
      match channel with
      | Some id =>
          add_channels loggerName names (mkLogger (lg_name logger) (lg_level logger) (lg_channels logger ++ [id]))
      | None =>
          _ ← print (str "Error while configuring Channel '" ++ name ++ str "' in Logger " ++
                loggerName ++ str ". Channel does not exist" ++ [10]);
          add_channels loggerName names logger
      end
  end.

Definition CreateLoggerFromConfig (cfg : ConfigMgr) (configLoggerName : list Z) : Run () :=
  if bool_decide (configLoggerName = []) then skip
  else
    has ← gets (HasLogger configLoggerName);
    match has with
    | Some _ => print (str "Log::CreateLoggerFromConfig: " ++ configLoggerName ++ str " is exist" ++ [10])
    | None =>
        let options := Config.GetOption_str configLoggerName [] cfg in
        let loggerName := drop PREFIX_LOGGER_LENGTH configLoggerName in
        let tokens := Strings.Tokenize options 44 true in
        if bool_decide (options = []) then
          print (str "Log::CreateLoggerFromConfig: Missing config option Logger." ++ loggerName ++ [10])
        else if negb (zlen tokens =? LOGGER_OPTIONS) then
          print (str "Log::CreateLoggerFromConfig: Bad config options for Logger (" ++ loggerName ++
            str ")" ++ [10])
        else
          match Strings.FromString_int (Strings.mkInt false 8) (default [] (tokens !! 0%nat)) 10 with
          | Some loggerLevel =>
              if MAX_LOG_LEVEL <=? loggerLevel then
                print (str "Log::CreateLoggerFromConfig: Wrong Log Level for logger " ++ loggerName ++ [10])
              else
                let level := LogLevel.of_value loggerLevel in
                _ ← modify (λ s, if level_le level (highestLogLevel s) then s else set_highest level s);
                logger ← add_channels loggerName
                  (Strings.Tokenize (default [] (tokens !! 1%nat)) 32 false) (mkLogger loggerName level []);
                modify (λ s, match _loggers s !! loggerName with
                             | Some _ => s
                             | None => set_loggers (<[loggerName := logger]> (_loggers s)) s
                             end)
          | None =>
              print (str "Log::CreateLoggerFromConfig: Wrong Log Level for logger " ++ loggerName ++ [10])
          end
    end.

(** The function registered for a type. *)
Definition create (type : ChannelType.t) (logsDir name : list Z) (level : LogLevel.t)
    (pattern : list Z) (options : list (list Z)) : outcome LogError Channel :=
  match type with
  | ChannelType.File => LogChannels.FileChannel logsDir name level pattern options
  | _ => LogChannels.ConsoleChannel name level pattern options
  end.

Definition CreateChannelsFromConfig (cfg : ConfigMgr) (logChannelName : list Z) : Run () :=
  if bool_decide (logChannelName = []) then skip
  else
    has ← gets (HasChannel logChannelName);
    match has with
    | Some _ => print (str "Log::CreateChannelsFromConfig: " ++ logChannelName ++ str " is exist" ++ [10])
    | None =>
        let options := Config.GetOption_str logChannelName [] cfg in
        let channelName := drop PREFIX_CHANNEL_LENGTH logChannelName in
        let tokens := Strings.Tokenize options 44 true in
        if (zlen tokens <? 3) || (MAX_CHANNEL_OPTIONS <? zlen tokens) then
          print (str "Log::CreateChannelsFromConfig: Wrong config option for " ++ logChannelName ++ [10])
        else
          match Strings.FromString_int (Strings.mkInt true 8) (default [] (tokens !! 0%nat)) 10 with
          | None => print (str "Log::CreateChannelsFromConfig: Wrong channel type for " ++ logChannelName ++ [10])
          | Some channelType =>
              createFunction ← gets (λ s, _channelsCreateFunction s !! channelType);
              match createFunction with
              | None =>
                  print (str "Log::CreateChannelsFromConfig: Undefined type '" ++
                    default [] (tokens !! 0%nat) ++ str "' for " ++ logChannelName ++ [10])
              | Some type =>
                  match Strings.FromString_int (Strings.mkInt false 8) (default [] (tokens !! 1%nat)) 10 with
                  | Some loggerLevel =>
                      if MAX_LOG_LEVEL <=? loggerLevel then
                        print (str "Log::CreateChannelsFromConfig: Wrong Log Level for " ++ logChannelName ++ [10])
                      else
                        let pattern := default [] (tokens !! 2%nat) in
                        if bool_decide (pattern = []) then
                          print (str "Log::CreateChannelsFromConfig: Empty pattern for " ++ logChannelName ++ [10])
                        else
                          logsDir ← gets _logsDir;
                          guarded (str "Log::CreateChannelsFromConfig: Error at create channel ")
                            (create type logsDir logChannelName (LogLevel.of_value loggerLevel) pattern tokens)
                            (λ c,
                              id ← allocate c;
                              modify (λ s, match _channels s !! channelName with
                                           | Some _ => s
                                           | None => set_channels (<[channelName := id]> (_channels s)) s
                                           end))
                  | None =>
                      print (str "Log::CreateChannelsFromConfig: Wrong Log Level for " ++ logChannelName ++ [10])
                  end
              end
          end
    end.

Definition ReadChannelsFromConfig (cfg : ConfigMgr) : Run () :=
  match Config.GetKeysByString PREFIX_CHANNEL cfg with
  | [] => print (str "Log::ReadChannelsFromConfig - Not found channels, change config file!" ++ [10])
  | keys => for_each (CreateChannelsFromConfig cfg) keys
  end.

Definition ReadLoggersFromConfig (cfg : ConfigMgr) : Run () :=
  match Config.GetKeysByString PREFIX_LOGGER cfg with
  | [] => print (str "Log::ReadLoggersFromConfig - Not found loggers, change config file!" ++ [10])
  | keys =>
      _ ← for_each (CreateLoggerFromConfig cfg) keys;
      has ← gets (HasLogger LOGGER_ROOT);
      match has with
      | Some _ => skip
      | None => print (str "Log::ReadLoggersFromConfig - Logger 'root' not found!" ++ [10] ++
                  str "Please change or add 'Logger.root' option in config file!" ++ [10])
      end
  end.

Definition LoadFromConfig (cfg : ConfigMgr) : Run () :=
  _ ← modify (set_highest LogLevel.Fatal);
  _ ← modify (set_logsDir (File.CorrectDirPath (Config.GetOption_str (str "LogsDir") [] cfg)));
  dir ← gets _logsDir;
  _ ← assert_ (File.CreateDirIfNeed dir);
  _ ← modify Clear;
  _ ← ReadChannelsFromConfig cfg;
  ReadLoggersFromConfig cfg.

Definition Initialize (cfg : ConfigMgr) : Run () :=
  default_logs ← gets _isUseDefaultLogs;
  if (default_logs : bool) then skip else LoadFromConfig cfg.

Definition UsingDefaultLogs (value : bool) : Run () :=
  _ ← modify (set_default value);
  if negb value then skip
  else
    _ ← modify Clear;
    _ ← modify (set_highest LogLevel.Debug);
    guarded (str "Log::UsingDefaultLogs - ")
      (LogChannels.ConsoleChannel_colors (str "Console") LogLevel.Debug (str "[%H:%M:%S] %t")
        (str "lightRed lightRed red brown cyan lightMagenta green"))
      (λ c,
        id ← allocate c;
        _ ← modify (λ s, set_channels (<[str "Console" := id]> (_channels s)) s);
        modify (λ s, set_loggers (<[str "root" := mkLogger (str "root") LogLevel.Debug [id]]> (_loggers s)) s)).

Definition SetLoggerLevel (name : list Z) (level : LogLevel.t) : Run () :=
  if level_le LogLevel.Max level then skip
  else
    _ ← modify (λ s, if level_le level (highestLogLevel s) then s else set_highest level s);
    modify (λ s, match HasLogger name s with
                 | Some l => set_loggers (<[name := mkLogger (lg_name l) level (lg_channels l)]> (_loggers s)) s
                 | None => s
                 end).

Definition SetChannelLevel (name : list Z) (level : LogLevel.t) : Run () :=
  if level_le LogLevel.Max level then skip
  else modify (λ s, match HasChannel name s with
                    | Some id => set_store (alter (LogChannels.SetLevel level) id (l_store s)) s
                    | None => s
                    end).

(** ** The logger of a message

    The names a message is looked up under: its source, what stands before each
    dot of it from the last one on, and the root. *)

Fixpoint dotted (before type : list Z) : list (list Z) :=
  match type with
  | [] => []
  | c :: type => (if c =? 46 then [before] else []) ++ dotted (before ++ [c]) type
  end.
Definition prefixes (type : list Z) : list (list Z) := rev (dotted [] type).
Definition ancestors (type : list Z) : list (list Z) := type :: prefixes type ++ [LOGGER_ROOT].

Definition nearest (type : list Z) (s : Log) : option Logger :=
  head (omap (λ name, HasLogger name s) (ancestors type)).

Lemma dotted_app before a b : dotted before (a ++ b) = dotted before a ++ dotted (before ++ a) b.
Proof.
  clear. revert before. induction a as [|c a IH]; intros before; cbn [app dotted]; [by rewrite app_nil_r|].
  by rewrite IH, <- !app_assoc.
Qed.

Lemma dotted_none before b : 46 ∉ b → dotted before b = [].
Proof.
  clear. revert before. induction b as [|c b IH]; intros before H; [done|].
  apply not_elem_of_cons in H as [Hc H]. cbn [dotted]. rewrite (proj2 (Z.eqb_neq c 46)) by done.
  by apply IH.
Qed.

Lemma parent_cases type :
  (46 ∉ type ∧ prefixes type = [] ∧ parent type = LOGGER_ROOT) ∨
  (prefixes type = parent type :: prefixes (parent type) ∧ (length (parent type) < length type)%nat).
Proof.
  clear. unfold parent. destruct (list_find (λ c, c = 46) (rev type)) as [[i c]|] eqn:E.
  - right. apply list_find_Some in E as (Hi & -> & Hlast).
    pose proof (take_drop_middle _ _ _ Hi) as Er. pose proof (lookup_lt_Some _ _ _ Hi) as Hlt.
    set (b := take i (rev type)) in *. set (a := drop (S i) (rev type)) in *.
    assert (46 ∉ b) as Hb.
    { intros (n & Hn)%list_elem_of_lookup_1. apply lookup_take_Some in Hn as [Hn Hlt'].
      by apply (Hlast n 46). }
    assert (length b = i) as Hl by (apply length_take_le; lia). clearbody a b.
    assert (type = rev a ++ 46 :: rev b) as ->.
    { rewrite <- (rev_involutive type), <- Er, rev_app_distr. cbn. by rewrite <- app_assoc. }
    assert (length (rev a ++ 46%Z :: rev b) - S i = length (rev a))%nat as ->.
    { rewrite length_app. cbn [length]. rewrite (length_rev b). lia. }
    rewrite take_app_length. split; [|rewrite length_app; cbn; lia].
    unfold prefixes. rewrite dotted_app. cbn [dotted]. rewrite Z.eqb_refl, app_nil_l, (dotted_none _ (rev b)).
    + by rewrite rev_app_distr.
    + rewrite list_elem_of_In, <- in_rev. by rewrite <- list_elem_of_In.
  - left. apply list_find_None in E. rewrite Forall_forall in E.
    assert (46 ∉ type) as H by (intros H; apply (E 46); [|done]; rewrite list_elem_of_In, <- in_rev; by apply list_elem_of_In).
    split; [done|]. split; [|done]. unfold prefixes. by rewrite dotted_none.
Qed.

Lemma GetLoggerByType_nearest type s : GetLoggerByType type s = Ret (nearest type s).
Proof.
  unfold GetLoggerByType.
  assert (∀ n type, (length type < n)%nat → GetLoggerByType_loop (S n) type s = Ret (nearest type s)) as G;
    [|by apply G; lia].
  clear type. intros n. induction n as [|n IH]; intros type Hn; [lia|]. cbn [GetLoggerByType_loop].
  unfold nearest, ancestors. cbn [omap list_omap].
  destruct (HasLogger type s) as [lg|] eqn:E; [done|]. cbn [head].
  case_bool_decide as R.
  { subst type. change (prefixes LOGGER_ROOT) with ([] : list (list Z)).
    cbn [app omap list_omap]. by rewrite E. }
  destruct (parent_cases type) as [(_ & -> & ->)|[-> L]].
  - cbn [omap list_omap app]. by destruct (HasLogger LOGGER_ROOT s).
  - specialize (IH (parent type) ltac:(lia)). cbn [GetLoggerByType_loop] in IH. exact IH.
Qed.

(** ** Levels *)

(** No logger is more talkative than the level messages are sieved with first. *)
Definition levels_ok (s : Log) : Prop :=
  ∀ name logger, _loggers s !! name = Some logger →
    LogLevel.value (lg_level logger) <= LogLevel.value (highestLogLevel s).

(** What may be done with the registry. *)
Inductive log_op :=
  | OpInitialize (cfg : ConfigMgr)
  | OpLoadFromConfig (cfg : ConfigMgr)
  | OpUsingDefaultLogs (value : bool)
  | OpSetLoggerLevel (name : list Z) (level : LogLevel.t)
  | OpSetChannelLevel (name : list Z) (level : LogLevel.t)
  | OpRegisterChannel (type : ChannelType.t)
  | OpLog (now : Z) (filter : list Z) (level : LogLevel.t) (file : list Z) (line : Z)
      (message : option (list Z)) (wrong : list Z)
  | OpCommand (now account : Z) (message : list Z).

Definition run_op (op : log_op) : Run () :=
  match op with
  | OpInitialize cfg => Initialize cfg
  | OpLoadFromConfig cfg => LoadFromConfig cfg
  | OpUsingDefaultLogs value => UsingDefaultLogs value
  | OpSetLoggerLevel name level => SetLoggerLevel name level
  | OpSetChannelLevel name level => SetChannelLevel name level
  | OpRegisterChannel type => RegisterChannel type
  | OpLog now filter level file line message wrong => LOG now filter level file line message wrong
  | OpCommand now account message => OutCommand now account message
  end.

Lemma preserves_print text : preserves levels_ok (print text : Run ()).
Proof. by apply preserves_modify. Qed.

Lemma preserves_allocate c : preserves levels_ok (allocate c).
Proof. by intros s. Qed.

Lemma levels_ok_higher level s :
  levels_ok s → levels_ok (if level_le level (highestLogLevel s) then s else set_highest level s) ∧
  LogLevel.value level <=
    LogLevel.value (highestLogLevel (if level_le level (highestLogLevel s) then s else set_highest level s)).
Proof.
  intros Hs. unfold level_le. destruct (Z.leb_spec (LogLevel.value level) (LogLevel.value (highestLogLevel s))).
  - done.
  - split; [|done]. intros name logger Hl. specialize (Hs name logger Hl). cbn. lia.
Qed.

Lemma levels_ok_insert name logger s :
  levels_ok s → LogLevel.value (lg_level logger) <= LogLevel.value (highestLogLevel s) →
  levels_ok (set_loggers (<[name := logger]> (_loggers s)) s).
Proof.
  intros Hs Hl n l. cbn. rewrite lookup_insert_Some. intros [[<- <-]|[_ ?]]; [done|eauto].
Qed.

Lemma levels_ok_empty s : _loggers s = ∅ → levels_ok s.
Proof. intros E n l. by rewrite E, lookup_empty. Qed.

#[local] Hint Resolve preserves_print preserves_allocate : preserves.
#[local] Hint Extern 3 (levels_ok _ → levels_ok _) => (intros ?; repeat case_match; assumption) : preserves.

Lemma preserves_write_to now msg id : preserves levels_ok (write_to now msg id).
Proof.
  intros s Hs. unfold write_to. destruct (l_store s !! id); [|done].
  by destruct (LogChannels.Write now msg _) as [o w].
Qed.
#[local] Hint Resolve preserves_write_to : preserves.

Lemma preserves_Logger_Write now logger msg : preserves levels_ok (Logger_Write now logger msg).
Proof. unfold Logger_Write. auto 10 with preserves. Qed.

Lemma preserves_Write now msg : preserves levels_ok (Write now msg).
Proof.
  intros s Hs. unfold Write. destruct (GetLoggerByType (m_source msg) s) as [[logger|]|[]| |]; try done.
  pose proof (preserves_Logger_Write now logger msg s Hs) as H.
  by destruct (Logger_Write now logger msg s) as [[|[]| |] s'].
Qed.

Lemma ShouldLog_state filter level s : (ShouldLog filter level s).2 = s.
Proof.
  unfold ShouldLog. rewrite GetLoggerByType_nearest. by destruct (negb _).
Qed.

Lemma preserves_LOG now filter level file line message wrong :
  preserves levels_ok (LOG now filter level file line message wrong).
Proof.
  intros s Hs. unfold LOG. pose proof (ShouldLog_state filter level s) as E.
  destruct (ShouldLog filter level s) as [[[]|[]| |] s']; cbn in E; subst s'; try done.
  destruct message as [message|]; [|by apply preserves_Write].
  pose proof (preserves_Write now (mkMessage filter message level now file line []) s Hs) as H.
  unfold _OutMessage. destruct (Write now (mkMessage filter message level now file line []) s)
    as [[|[]| |] s']; cbn [snd] in H; try done. by apply preserves_Write.
Qed.

Lemma preserves_OutCommand now account message : preserves levels_ok (OutCommand now account message).
Proof.
  intros s Hs. unfold OutCommand. pose proof (ShouldLog_state LOGGER_GM LogLevel.Info s) as E.
  destruct (ShouldLog LOGGER_GM LogLevel.Info s) as [[[]|[]| |] s']; cbn in E; subst s'; try done.
  by apply preserves_Write.
Qed.

Lemma preserves_guarded what made use :
  (∀ c, preserves levels_ok (use c)) → preserves levels_ok (guarded what made use).
Proof. intros Hu. unfold guarded. destruct made as [c|[e|]| |]; auto with preserves. Qed.

Lemma preserves_add_channels loggerName names logger :
  preserves levels_ok (add_channels loggerName names logger).
Proof.
  revert logger. induction names as [|name names IH]; intros logger; cbn [add_channels]; auto 10 with preserves.
Qed.

Lemma add_channels_state loggerName names logger s :
  ∃ logger' s', add_channels loggerName names logger s = (Ret logger', s') ∧
    lg_level logger' = lg_level logger ∧ highestLogLevel s' = highestLogLevel s.
Proof.
  revert logger s. induction names as [|name names IH]; intros logger s; cbn [add_channels].
  { by exists logger, s. }
  rewrite bind_gets. destruct (HasChannel name s).
  - destruct (IH (mkLogger (lg_name logger) (lg_level logger) (lg_channels logger ++ [n])) s)
      as (l' & s' & E & L & H). by exists l', s'.
  - unfold print. rewrite bind_modify.
    destruct (IH logger (say (Notice (str "Error while configuring Channel '" ++ name ++ str "' in Logger " ++
      loggerName ++ str ". Channel does not exist" ++ [10])) s)) as (l' & s' & E & L & H).
    by exists l', s'.
Qed.

Lemma preserves_add_logger level loggerName names :
  preserves levels_ok (
    _ ← modify (λ s, if level_le level (highestLogLevel s) then s else set_highest level s);
    logger ← add_channels loggerName names (mkLogger loggerName level []);
    modify (λ s, match _loggers s !! loggerName with
                 | Some _ => s
                 | None => set_loggers (<[loggerName := logger]> (_loggers s)) s
                 end) : Run ()).
Proof.
  intros s Hs. rewrite bind_modify. destruct (levels_ok_higher level s Hs) as [H1 H2].
  set (s1 := if level_le level (highestLogLevel s) then s else set_highest level s) in *.
  destruct (add_channels_state loggerName names (mkLogger loggerName level []) s1)
    as (logger & s2 & E & L & Eh).
  pose proof (preserves_add_channels loggerName names (mkLogger loggerName level []) s1 H1) as H3.
  rewrite E in H3. cbn [snd] in H3. rewrite (bind_run _ _ _ _ _ E). cbn [snd modify].
  destruct (_loggers s2 !! loggerName); [done|]. apply levels_ok_insert; [done|].
  rewrite L, Eh. done.
Qed.

Lemma preserves_CreateLogger cfg name : preserves levels_ok (CreateLoggerFromConfig cfg name).
Proof.
  unfold CreateLoggerFromConfig. case_bool_decide; [auto with preserves|].
  apply preserves_bind; [auto with preserves|]. intros [|]; [auto with preserves|].
  case_bool_decide; [auto with preserves|]. case_match; [auto with preserves|].
  case_match; [|auto with preserves]. case_match; [auto with preserves|]. apply preserves_add_logger.
Qed.

Lemma preserves_CreateChannels cfg name : preserves levels_ok (CreateChannelsFromConfig cfg name).
Proof.
  unfold CreateChannelsFromConfig. case_bool_decide; [auto with preserves|].
  apply preserves_bind; [auto with preserves|]. intros [|]; [auto with preserves|].
  do 2 (case_match; [auto with preserves|]); [|auto with preserves].
  apply preserves_bind; [auto with preserves|]. intros [type|]; [|auto with preserves].
  case_match; [|auto with preserves]. case_match; [auto with preserves|].
  case_bool_decide; [auto with preserves|]. apply preserves_bind; [auto with preserves|]. intros logsDir.
  apply preserves_guarded. intros c. apply preserves_bind; [auto with preserves|]. auto with preserves.
Qed.

Lemma preserves_ReadChannels cfg : preserves levels_ok (ReadChannelsFromConfig cfg).
Proof.
  unfold ReadChannelsFromConfig. case_match; [auto with preserves|].
  apply preserves_for_each. intros name. apply preserves_CreateChannels.
Qed.

Lemma preserves_ReadLoggers cfg : preserves levels_ok (ReadLoggersFromConfig cfg).
Proof.
  unfold ReadLoggersFromConfig. case_match; [auto with preserves|].
  apply preserves_bind; [|auto with preserves].
  apply preserves_for_each. intros name. apply preserves_CreateLogger.
Qed.

Lemma LoadFromConfig_levels cfg s o s' :
  LoadFromConfig cfg s = (o, s') → o ≠ AssertFail → levels_ok s'.
Proof.
  unfold LoadFromConfig. rewrite !bind_modify, bind_gets. set (s1 := set_logsDir _ _).
  destruct (File.CreateDirIfNeed (_logsDir s1)).
  - intros E _. rewrite (bind_run _ _ s1 () s1), bind_modify in E by done.
    assert (preserves levels_ok (_ ← ReadChannelsFromConfig cfg; ReadLoggersFromConfig cfg)) as P.
    { apply preserves_bind; [apply preserves_ReadChannels|]. intros []. apply preserves_ReadLoggers. }
    specialize (P (Clear s1) (levels_ok_empty (Clear s1) eq_refl)). by rewrite E in P.
  - intros [= <- <-]. done.
Qed.

Lemma UsingDefaultLogs_levels value : preserves levels_ok (UsingDefaultLogs value).
Proof.
  intros s Hs. unfold UsingDefaultLogs. rewrite bind_modify. destruct value; cbn [negb]; [|done].
  rewrite !bind_modify. set (s1 := set_highest LogLevel.Debug _).
  assert (levels_ok s1 ∧ highestLogLevel s1 = LogLevel.Debug) as [Hs1 E1].
  { split; [|done]. by apply levels_ok_empty. }
  unfold guarded. destruct (LogChannels.ConsoleChannel_colors _ _ _ _) as [c|[e|]| |]; try done.
  unfold allocate. cbn. apply levels_ok_insert; [done|]. done.
Qed.

Lemma SetLoggerLevel_levels name level : preserves levels_ok (SetLoggerLevel name level).
Proof.
  intros s Hs. unfold SetLoggerLevel. case_match; [done|]. rewrite bind_modify.
  destruct (levels_ok_higher level s Hs) as [H1 H2]. set (s1 := if level_le _ _ then _ else _) in *.
  cbn [modify snd]. destruct (HasLogger name s1); [|done]. by apply levels_ok_insert.
Qed.

(** The registry from its constructor on, while the process runs: whatever
    operation is called next, and whether it throws. *)
Inductive reachable : Log → Prop :=
  | reach_new s : new empty = (Ret (), s) → reachable s
  | reach_op op s o s' : reachable s → run_op op s = (o, s') → o ≠ AssertFail → o ≠ UB → reachable s'.

Lemma reachable_levels s : reachable s → levels_ok s.
Proof.
  induction 1 as [s E|op s o s' _ IH E Na _].
  - injection E as <-. by apply levels_ok_empty.
  - assert (∀ m : Run (), preserves levels_ok m → m s = (o, s') → levels_ok s') as P.
    { intros m Hm Em. specialize (Hm s IH). by rewrite Em in Hm. }
    destruct op as [cfg|cfg|v|n l|n l|t|now f l file line m w|now a m]; cbn [run_op] in E.
    + unfold Initialize in E. rewrite bind_gets in E. destruct (_isUseDefaultLogs s).
      * by injection E as <- <-.
      * by eapply LoadFromConfig_levels.
    + by eapply LoadFromConfig_levels.
    + eapply P; [apply UsingDefaultLogs_levels|done].
    + eapply P; [apply SetLoggerLevel_levels|done].
    + eapply P; [|done]. unfold SetChannelLevel. auto with preserves.
    + eapply P; [|done]. unfold RegisterChannel. auto 10 with preserves.
    + eapply P; [apply preserves_LOG|done].
    + eapply P; [apply preserves_OutCommand|done].
Qed.

Lemma ShouldLog_run filter level s :
  levels_ok s →
  ShouldLog filter level s =
    (Ret (match nearest filter s with
          | Some logger => negb (bool_decide (lg_level logger = LogLevel.Disabled)) &&
                           level_le level (lg_level logger)
          | None => false
          end), s).
Proof.
  intros Hs. unfold ShouldLog. rewrite GetLoggerByType_nearest.
  destruct (level_le level (highestLogLevel s)) eqn:E; cbn [negb]; [done|].
  destruct (nearest filter s) as [logger|] eqn:En; [|done]. f_equal. f_equal. symmetry.
  apply andb_false_iff. right. unfold nearest in En. apply head_Some_elem_of in En.
  apply list_elem_of_omap in En as (name & _ & Hl). specialize (Hs name logger Hl).
  unfold level_le in *. apply Z.leb_gt in E. apply Z.leb_gt. lia.
Qed.

(** Whatever has been done with the registry, [ShouldLog] says that a message
    is wanted exactly when the logger found for its source (under the source
    itself, what stands before its dots, or the root) is not disabled and its
    level lets the message in: the sieve by the highest level never hides a
    message a logger asks for, and looking for the logger ends. *)
Theorem should_log_exact (filter : list Z) (level : LogLevel.t) (s : Log) (Hs : reachable s) :
  ShouldLog filter level s =
    (Ret (match nearest filter s with
          | Some logger => negb (bool_decide (lg_level logger = LogLevel.Disabled)) &&
                           level_le level (lg_level logger)
          | None => false
          end), s).
Proof.
  by apply ShouldLog_run, reachable_levels.
Qed.

(** ** Delivery to channels *)

(** Where a file channel writes: the file that is open, or the one it will open. *)
Definition path_of (now : Z) (f : FileState) : list Z :=
  match fs_logFile f with
  | Some (file, _) => file
  | None =>
      fs_logsDir f ++
      (if fs_isAddTimestamp f
       then LogChannels.insert_stamp (str "_" ++ put_time now (str "%Y-%m-%d_%H_%M_%S")) (fs_fileName f)
       else fs_fileName f)
  end.

(** What a message leaves in a channel whose level lets it in. *)
Definition line (now : Z) (msg : LogMessage) (c : Channel) : option output :=
  if negb (level_le (m_level msg) (lc_level c)) then None
  else
    let text := Pattern.Format (lc_actions c) msg (m_text msg) in
    Some (match lc_sink c with
          | ConsoleSink colors enableColors =>
              Console ((if enableColors : bool then LogChannels.color_on colors (m_level msg) else []) ++
                       text ++ (if enableColors then LogChannels.color_off else []) ++ [10])
          | FileSink f => Written (path_of now f) (text ++ [10])
          end).

(** A channel that can do its work: a console, or a file of a fixed name that is
    open or can be opened, and can be written. *)
Definition works (now : Z) (c : Channel) : Prop :=
  match lc_sink c with
  | ConsoleSink _ _ => True
  | FileSink f =>
      fs_isDynamicFileName f = false ∧ can_write (path_of now f) = true ∧
      match fs_logFile f with
      | Some (_, is_open) => is_open = true
      | None => can_open (path_of now f) = true
      end
  end.

(** The same channel, its file open. *)
Definition opened_by (now : Z) (c c' : Channel) : Prop :=
  c' = c ∨
  ∃ f f', lc_sink c = FileSink f ∧ fs_logFile f = None ∧ c' = LogChannels.set_file f' c ∧
    fs_logFile f' = Some (path_of now f, true) ∧ fs_isDynamicFileName f' = fs_isDynamicFileName f.

Definition is_opening (o : output) : bool := match o with Opened _ _ => true | _ => false end.

(** The state after some deliveries: [out] has left the process and files may have
    been opened. *)
Record grown (now : Z) (s : Log) (out : list output) (s' : Log) : Prop := {
  gr_out : l_out s' = l_out s ++ out;
  gr_store id c : l_store s !! id = Some c → ∃ c', l_store s' !! id = Some c' ∧ opened_by now c c';
  gr_loggers : _loggers s' = _loggers s;
  gr_channels : _channels s' = _channels s;
  gr_level : highestLogLevel s' = highestLogLevel s
}.

Lemma opened_by_line now msg c c' : opened_by now c c' → line now msg c' = line now msg c.
Proof.
  intros [->|(f & f' & E & E1 & -> & E2 & _)]; [done|]. unfold line. cbn [LogChannels.set_file lc_level
    lc_actions lc_sink]. rewrite E. unfold path_of. by rewrite E2.
Qed.

Lemma opened_by_works now c c' : opened_by now c c' → works now c → works now c'.
Proof.
  intros [->|(f & f' & E & E1 & -> & E2 & E3)]; [done|]. unfold works. cbn [LogChannels.set_file lc_sink].
  rewrite E, E2, E3. intros (H1 & H2 & _). split; [done|]. split; [|done].
  unfold path_of at 1. by rewrite E2.
Qed.

Lemma opened_by_trans now c1 c2 c3 : opened_by now c1 c2 → opened_by now c2 c3 → opened_by now c1 c3.
Proof.
  intros [->|(f & f' & E & E1 & -> & E2 & E3)]; [done|].
  intros [->|(g & g' & G & G1 & _)]; [right; by exists f, f'|].
  cbn in G. injection G as <-. by rewrite E2 in G1.
Qed.

Lemma grown_refl now s : grown now s [] s.
Proof. split; try done; [by rewrite app_nil_r|]. intros id c E. exists c. split; [done|by left]. Qed.

Lemma grown_trans now s1 s2 s3 out1 out2 :
  grown now s1 out1 s2 → grown now s2 out2 s3 → grown now s1 (out1 ++ out2) s3.
Proof.
  intros [A1 A2 A3 A4 A5] [B1 B2 B3 B4 B5]. split; try congruence; [by rewrite B1, A1, app_assoc|].
  intros id c (c1 & E1 & O1)%A2. destruct (B2 id c1 E1) as (c2 & E2 & O2). exists c2.
  split; [done|]. by eapply opened_by_trans.
Qed.

(** One channel at work. *)
Lemma channel_writes now msg c out :
  level_le (m_level msg) (lc_level c) = true → works now c →
  ∃ c' o, LogChannels.Write now msg (mkWriter c out) = (Ret (), mkWriter c' (out ++ o)) ∧
    opened_by now c c' ∧ List.filter (λ x, negb (is_opening x)) o = option_list (line now msg c).
Proof.
  intros Hl Hw. unfold LogChannels.Write. rewrite bind_gets. cbn [w_channel]. unfold line, works in *.
  rewrite Hl. cbn [negb]. destruct (lc_sink c) as [colors en|f] eqn:Es.
  - unfold LogChannels.ConsoleChannel_Write. rewrite bind_gets. cbn [w_channel].
    unfold level_le in Hl. rewrite (proj2 (Z.ltb_ge _ _)) by (by apply Z.leb_le).
    eexists c, _. split; [done|]. split; [by left|done].
  - destruct Hw as (Hd & Hcw & Ho). unfold LogChannels.FileChannel_Write. cbn [w_channel w_out].
    rewrite Hd. cbn [andb]. unfold LogChannels.OpenFile, path_of in *.
    destruct (fs_logFile f) as [[file ok]|] eqn:Ef.
    + subst ok. cbn [negb]. rewrite Ef. cbn [fmap option_fmap option_map default fst id].
      unfold LogChannels.written. rewrite Hcw. eexists _, _. split; [done|]. split; [|done].
      left. unfold LogChannels.set_file. rewrite <- Es. by destruct c.
    + set (g := if fs_isAddTimestamp f then LogChannels.with_name _ f else f).
      assert (fs_logsDir g ++ fs_fileName g = path_of now f) as Eg
        by (unfold g, path_of; rewrite Ef; by destruct (fs_isAddTimestamp f)).
      assert (can_open (path_of now f) = true) as Ho' by (unfold path_of; by rewrite Ef).
      assert (can_write (path_of now f) = true) as Hcw' by (unfold path_of; by rewrite Ef).
      rewrite Eg, Ho'. cbn [negb LogChannels.with_stream fs_logFile fmap option_fmap option_map default fst id].
      unfold LogChannels.written. rewrite Hcw'. eexists _, _. split; [done|]. split.
      * right. exists f. eexists. split; [done|]. split; [done|]. split; [done|]. split; [done|].
        unfold g. by destruct (fs_isAddTimestamp f).
      * cbn. unfold path_of. by rewrite Ef.
Qed.

Lemma write_to_grown now msg id c s :
  l_store s !! id = Some c → works now c →
  ∃ out s', (if negb (level_le (m_level msg) (lc_level c)) then skip else write_to now msg id) s =
    (Ret (), s') ∧ grown now s out s' ∧
    List.filter (λ x, negb (is_opening x)) out = option_list (line now msg c).
Proof.
  intros E Hw. destruct (level_le (m_level msg) (lc_level c)) eqn:Hl; cbn [negb].
  - destruct (channel_writes now msg c (l_out s) Hl Hw) as (c' & o & Ew & Ho & El).
    unfold write_to. rewrite E, Ew. eexists o, _. split; [done|]. split; [|done].
    split; try done. cbn [l_store]. intros id' c0 E'. destruct (decide (id' = id)) as [->|].
    + exists c'. rewrite list_lookup_insert_eq by (by eapply lookup_lt_Some). split; [done|].
      congruence.
    + exists c0. rewrite list_lookup_insert_ne by done. split; [done|by left].
  - exists [], s. split; [done|]. split; [apply grown_refl|]. unfold line. by rewrite Hl.
Qed.

Definition lines (now : Z) (msg : LogMessage) (ids : list nat) (s : Log) : list output :=
  omap (λ id, c ← l_store s !! id; line now msg c) ids.

Lemma lines_grown now msg ids s s' out :
  grown now s out s' → Forall (λ id, is_Some (l_store s !! id)) ids →
  lines now msg ids s' = lines now msg ids s.
Proof.
  intros G F. unfold lines. induction F as [|id ids [c E] F IH]; [done|]. cbn [omap list_omap].
  destruct (gr_store _ _ _ _ G id c E) as (c' & E' & O). rewrite E, E'. cbn [mbind option_bind].
  rewrite (opened_by_line _ _ _ _ O). by destruct (line now msg c); rewrite IH.
Qed.

Lemma all_write now msg ids s :
  Forall (λ id, ∃ c, l_store s !! id = Some c ∧ works now c) ids →
  ∃ out s', for_each (λ id,
      level ← gets (λ s, lc_level <$> l_store s !! id);
      match level with
      | None => undefined
      | Some level => if negb (level_le (m_level msg) level) then skip else write_to now msg id
      end) ids s = (Ret (), s') ∧ grown now s out s' ∧
    List.filter (λ x, negb (is_opening x)) out = lines now msg ids s.
Proof.
  intros F. match goal with |- context [for_each ?g ids s] => set (f := g) end.
  revert s F. induction ids as [|id ids IH]; intros s F.
  { exists [], s. split; [done|]. split; [apply grown_refl|done]. }
  apply Forall_cons in F as [(c & E & Hw) F].
  destruct (write_to_grown now msg id c s E Hw) as (out1 & s1 & E1 & G1 & L1).
  assert (f id s = (Ret (), s1)) as Ef by (unfold f; rewrite bind_gets, E; exact E1).
  destruct (IH s1) as (out2 & s2 & E2 & G2 & L2).
  { eapply Forall_impl; [exact F|]. intros id' (c' & E' & W'). cbn.
    destruct (gr_store _ _ _ _ G1 id' c' E') as (c2 & Ec2 & O). exists c2. split; [done|].
    by eapply opened_by_works. }
  exists (out1 ++ out2), s2. cbn [for_each]. rewrite (bind_run _ _ _ _ _ Ef).
  split; [done|]. split; [by eapply grown_trans|]. rewrite List.filter_app, L1, L2.
  rewrite (lines_grown _ _ _ _ _ _ G1)
    by (eapply Forall_impl; [exact F|]; intros ? (? & ? & _); by eexists).
  unfold lines. cbn [omap list_omap]. rewrite E. cbn [mbind option_bind].
  by destruct (line now msg c).
Qed.

(** C34: a message that is logged reaches the channels of the logger found for its
    source, provided that all of them work (each is a console, or a file of a fixed
    name that can be opened and written; one that fails keeps those behind it from
    the message, [failing_channel_silences_rest]): each whose level lets it in, in
    the order the logger names them, once for every time it names it, and formatted
    with the pattern of each.  A file is opened when it is first needed.  A message
    that is not wanted reaches none; and nothing else changes. *)
Theorem log_delivered (now : Z) (filter : list Z) (level : LogLevel.t) (file : list Z) (line_ : Z)
    (message wrong : list Z) (s : Log) (logger : Logger)
    (Hs : reachable s) (Hn : nearest filter s = Some logger)
    (Hworks : Forall (λ id, ∃ c, l_store s !! id = Some c ∧ works now c) (lg_channels logger)) :
  let wanted := negb (bool_decide (lg_level logger = LogLevel.Disabled)) && level_le level (lg_level logger) in
  let msg := mkMessage filter message level now file line_ [] in
  ∃ out s', LOG now filter level file line_ (Some message) wrong s = (Ret (), s') ∧ grown now s out s' ∧
    List.filter (λ o, negb (is_opening o)) out = (if wanted then lines now msg (lg_channels logger) s else []) ∧
    (wanted = false → s' = s).
Proof.
  cbn zeta. assert (∀ b, ShouldLog filter level s = (Ret b, s) →
    LOG now filter level file line_ (Some message) wrong s =
    if b then match _OutMessage now filter level file line_ message s with
              | (Throw format_error, s) => _OutMessage now (str "server") LogLevel.Error file line_ wrong s
              | r => r
              end else (Ret (), s)) as G.
  { intros b E. unfold LOG. rewrite E. by destruct b. }
  assert (ShouldLog filter level s = (Ret (negb (bool_decide (lg_level logger = LogLevel.Disabled)) &&
    level_le level (lg_level logger)), s)) as E.
  { by rewrite ShouldLog_run, Hn by (by apply reachable_levels). }
  rewrite (G _ E). destruct (_ && _) eqn:Ew.
  2:{ exists [], s. split; [done|]. split; [apply grown_refl|done]. }
  apply andb_prop in Ew as [_ Ew].
  destruct (all_write now (mkMessage filter message level now file line_ []) (lg_channels logger) s Hworks)
    as (out & s' & E1 & G1 & L1).
  exists out, s'. split; [|split; [done|]; split; [done|done]].
  unfold _OutMessage, Write. rewrite GetLoggerByType_nearest. cbn [m_source]. rewrite Hn.
  unfold Logger_Write.
  change (level_le (m_level _) (lg_level logger)) with (level_le level (lg_level logger)).
  rewrite Ew. cbn [negb]. by rewrite E1.
Qed.
End logs.
End Logs.

(** ** Witnesses and examples *)

#[local] Existing Instance demo_host.
#[local] Instance demo_map_order : MapOrder := λ m, (map_to_list m).*1.

(** The settings of [WarheadDiscord.conf.dist], quotes removed, with one logger
    more. *)
Definition shipped : ConfigMgr := mkConfig [] (list_to_map
  [(str "LogsDir", str "/logs");
   (str "LogChannel.Console", str "1,5,[%H:%M:%S] %t,lightRed lightRed red brown cyan lightMagenta green");
   (str "LogChannel.Discord", str "2,5,[%Y-%m-%d %H:%M:%S] %t,Discord.log");
   (str "Logger.root", str "5,Console Discord");
   (str "Logger.sql", str "3,Console")]) false [].

Definition set_up : Log := (Logs.LoadFromConfig shipped (Logs.new Logs.empty).2).2.

Lemma set_up_reachable : Logs.reachable set_up.
Proof.
  eapply (Logs.reach_op (Logs.OpLoadFromConfig shipped) (Logs.new Logs.empty).2 (Ret ())).
  - by apply Logs.reach_new.
  - assert ((Logs.LoadFromConfig shipped (Logs.new Logs.empty).2).1 = Ret ()) as E
      by (vm_compute; reflexivity).
    unfold set_up. cbn [Logs.run_op]. destruct (Logs.LoadFromConfig _ _) as [o s].
    cbn [fst] in E. by subst o.
  - discriminate.
  - discriminate.
Qed.

Lemma should_log_exact_witness :
  Logs.ShouldLog (str "sql.updates") LogLevel.Error set_up = (Ret true, set_up) ∧
  Logs.ShouldLog (str "sql.updates") LogLevel.Info set_up = (Ret false, set_up) ∧
  Logs.ShouldLog (str "server.loading") LogLevel.Info set_up = (Ret true, set_up).
Proof.
  split; [|split]; rewrite (Logs.should_log_exact _ _ set_up set_up_reachable);
    (match goal with |- (Ret ?b, _) = (Ret ?c, _) => assert (b = c) as -> by (vm_compute; reflexivity) end);
    reflexivity.
Defined.

(** The shipped root logger: the console and a file, which is opened for it. *)
Lemma log_delivered_witness :
  let logger := mkLogger (str "root") LogLevel.Info
    [default O (_channels set_up !! str "Console"); default O (_channels set_up !! str "Discord")] in
  ∃ out s', Logs.LOG 0 (str "server.loading") LogLevel.Info [] 7 (Some (str "hi")) [] set_up = (Ret (), s') ∧
    Logs.grown 0 set_up out s' ∧
    List.filter (λ o, negb (Logs.is_opening o)) out =
      [Console (LogChannels.color_on [0; 0; 0; 0; 0; 0x24] LogLevel.Info ++
                str "[{:%OI}:{:%OM}:{:%OS}] hi" ++ LogChannels.color_off ++ [10]);
       Written (str "/logs/Discord.log") (str "[{:%Y}-{:%m}-{:%d} {:%OI}:{:%OM}:{:%OS}] hi" ++ [10])].
Proof.
  intros logger.
  assert (Logs.nearest (str "server.loading") set_up = Some logger) as En by (vm_compute; reflexivity).
  destruct (Logs.log_delivered 0 (str "server.loading") LogLevel.Info [] 7 (str "hi") [] set_up logger
    set_up_reachable En) as (out & s' & E & G & L & _).
  - constructor; [|constructor; [|constructor]]; eexists; (split; [vm_compute; reflexivity|]);
      repeat split; vm_compute; reflexivity.
  - exists out, s'. split; [exact E|]. split; [exact G|]. rewrite L. vm_compute. reflexivity.
Defined.

(** The file channel writes too, and opens its file when it is first needed. *)
Example shipped_root_logs_twice :
  l_out (Logs.LOG 0 (str "server.loading") LogLevel.Info [] 7 (Some (str "hi")) [] set_up).2 =
  l_out set_up ++
  [Console (LogChannels.color_on [0; 0; 0; 0; 0; 0x24] LogLevel.Info ++
            str "[{:%OI}:{:%OM}:{:%OS}] hi" ++ LogChannels.color_off ++ [10]);
   Opened (str "/logs/Discord.log") true;
   Written (str "/logs/Discord.log") (str "[{:%Y}-{:%m}-{:%d} {:%OI}:{:%OM}:{:%OS}] hi" ++ [10])].
Proof. vm_compute. reflexivity. Qed.

(** The hour of a pattern is that of a clock of twelve hours, and a doubled percent
    sign stands for nothing; the configuration file promises otherwise. *)
Example hour_of_twelve `{Host : LogHost} (msg : LogMessage) :
  Pattern.expand msg 72 0 = fmt_time (str "{:%OI}") (m_time msg) ∧
  Pattern.expand msg 104 0 = fmt_time (str "{:%OH}") (m_time msg) ∧
  Pattern.expand msg Pattern.PERCENT 0 = [].
Proof. done. Qed.

(** A file channel with a name that depends on the message keeps the first name. *)
Definition dynamic_channel : writer :=
  match LogChannels.FileChannel (str "/logs/") (str "gm") LogLevel.Info (str "%t")
    [str "2"; str "5"; str "%t"; str "gm_{}.log"] with
  | Ret c => mkWriter c []
  | _ => mkWriter (mkChannelOf ChannelType.File [] LogLevel.Info [] [] (ConsoleSink [] false)) []
  end.

Definition command_of (account : Z) (text : string) : LogMessage :=
  mkMessage (str "commands.gm") (str text) LogLevel.Info 0 [] 0 (Strings.fmt_dec account).

Example dynamic_name_sticks :
  w_out ((_ ← LogChannels.Write 0 (command_of 5 "first"); LogChannels.Write 0 (command_of 6 "second"))
    dynamic_channel).2 =
  [Opened (str "/logs/gm_5.log") true; Written (str "/logs/gm_5.log") (str "first" ++ [10]);
   Opened (str "/logs/gm_5.log") true; Written (str "/logs/gm_5.log") (str "second" ++ [10])].
Proof. vm_compute. reflexivity. Qed.

(** A file that cannot be opened keeps the channels behind it from the message. *)
Definition broken : ConfigMgr := mkConfig [] (list_to_map
  [(str "LogsDir", str "/gone");
   (str "LogChannel.Console", str "1,5,%t"); (str "LogChannel.Discord", str "2,5,%t,Discord.log");
   (str "Logger.root", str "5,Discord Console")]) false [].

Example failing_channel_silences_rest :
  let s := (Logs.LoadFromConfig broken (Logs.new Logs.empty).2).2 in
  Logs.LOG 0 (str "server") LogLevel.Error [] 7 (Some (str "hi")) [] s =
  (Ret (), Logs.say (Notice (str "Error at write: Cannot open file 'Discord.log'"))
     (Logs.set_store (l_store (Logs.LOG 0 (str "server") LogLevel.Error [] 7 (Some (str "hi")) [] s).2) s)).
Proof. vm_compute. reflexivity. Qed.
