(* ===== verification/IPLocation.v ===== *)
(** * IPLocation: the country of an address

    Model of [IpLocationStore] ([src/src/common/IPLocation/IPLocation.cpp]): the
    database file is read into a vector sorted by the first address of a range,
    which is searched by halves.  The contents of the file, the address a text
    stands for (Boost) and the order [std::sort] gives to equal elements are
    arguments. *)

From Stdlib Require Import Sorted.
From S2P Require Import Prelude Utf8 Strings Config.
Open Scope Z_scope.

Record IpLocationRecord := mkLocation {
  IpFrom : Z;
  IpTo : Z;
  CountryCode : list Z;
  CountryName : list Z
}.

(** A stream: what is left to read, and whether reading has met the end. *)
Record stream := mkStream { st_rest : list Z; st_eof : bool }.

Module IpLocation.

(** [std::getline] with a delimiter: it fails when nothing is left. *)
Fixpoint until (delim : Z) (s : list Z) : list Z * option (list Z) :=
  match s with
  | [] => ([], None)
  | c :: s => if c =? delim then ([], Some s)
              else let '(line, rest) := until delim s in (c :: line, rest)
  end.

Definition getline (delim : Z) (st : stream) : option (list Z * stream) :=
  if st_eof st then None
  else match until delim (st_rest st) with
       | (line, Some rest) => Some (line, mkStream rest false)
       | ([], None) => None
       | (line, None) => Some (line, mkStream [] true)
       end.

(** [erase] of what [std::remove] leaves behind. *)
Definition remove_char (c : Z) (s : list Z) : list Z := List.filter (λ x, negb (x =? c)) s.

Definition QUOTE : Z := 34.

(** The four texts of a line as they are cleaned, and the record they make. *)
Definition to_record (ipFrom ipTo countryCode countryName : list Z) : option IpLocationRecord :=
  let countryName := remove_char QUOTE (remove_char 10 (remove_char 13 countryName)) in
  let ipFrom := remove_char QUOTE ipFrom in
  let ipTo := remove_char QUOTE ipTo in
  let countryCode := Strings.GetLowerString (remove_char QUOTE countryCode) in
  match Strings.FromString_int (Strings.mkInt false 32) ipFrom 10,
        Strings.FromString_int (Strings.mkInt false 32) ipTo 10 with
  | Some IpFrom, Some IpTo => Some (mkLocation IpFrom IpTo countryCode countryName)
  | _, _ => None
  end.

(** The loop over the lines. *)
Fixpoint read_records (fuel : nat) (st : stream) (store : list IpLocationRecord) :
    list IpLocationRecord :=
  match fuel with
  | O => store
  | S fuel =>
      if st_eof st then store
      else
        match (ipFrom ← getline 44 st;
               ipTo ← getline 44 ipFrom.2;
               countryCode ← getline 44 ipTo.2;
               countryName ← getline 10 countryCode.2;
               Some (ipFrom.1, ipTo.1, countryCode.1, countryName.1, countryName.2)) with
        | None => store
        | Some (ipFrom, ipTo, countryCode, countryName, st) =>
            read_records fuel st
              (match to_record ipFrom ipTo countryCode countryName with
               | Some r => store ++ [r]
               | None => store
               end)
        end
  end.

(** [std::is_sorted] with [a.IpFrom < b.IpTo]: no element is less than the one in
    front of it. *)
Fixpoint is_sorted (store : list IpLocationRecord) : bool :=
  match store with
  | a :: (b :: _) as store' => negb (IpFrom b <? IpTo a) && is_sorted store'
  | _ => true
  end.

Section store.
Context (sort : list IpLocationRecord → list IpLocationRecord).
Context (address_to_uint : list Z → option Z).

(** [Load], with the contents of the files that can be opened; [None] is the end
    of the process by the assertion. *)
Definition Load (files : list Z → option (list Z)) (cfg : ConfigMgr) :
    outcome Empty_set (list IpLocationRecord) :=
  let databaseFilePath := Config.GetOption_str (str "IPLocationFile") [] cfg in
  if bool_decide (databaseFilePath = []) then Ret []
  else match files databaseFilePath with
       | None => Ret []
       | Some bytes =>
           let store := sort (read_records (S (length bytes)) (mkStream bytes false) []) in
           if is_sorted store then Ret store else AssertFail
       end.

(** [std::upper_bound], by halves: the index of the first element [comp] holds
    for, among the [len] elements from [first] on. *)
Fixpoint upper_bound (fuel : nat) (comp : IpLocationRecord → bool) (store : list IpLocationRecord)
    (first len : nat) : nat :=
  match fuel with
  | O => first
  | S fuel =>
      match len with
      | O => first
      | S _ =>
          let half := Nat.div2 len in
          match store !! (first + half)%nat with
          | Some r => if comp r then upper_bound fuel comp store first half
                      else upper_bound fuel comp store (S (first + half)) (len - half - 1)
          | None => first
          end
      end
  end.

(** [make_address_v4] throws for a text that is no such address. *)
Definition GetLocationRecord (ipAddress : list Z) (store : list IpLocationRecord) :
    outcome () (option IpLocationRecord) :=
  match address_to_uint ipAddress with
  | None => Throw ()
  | Some ip =>
      let itr := upper_bound (length store) (λ loc, ip <? IpTo loc) store 0 (length store) in
      match store !! itr with
      | None => Ret None
      | Some r => if ip <? IpFrom r then Ret None else Ret (Some r)
      end
  end.

(** ** Searching *)

(** The search ends at the point where [comp] begins to hold. *)
Lemma upper_bound_spec fuel comp store first len p :
  (len <= fuel)%nat → (first + len <= length store)%nat → (first <= p <= first + len)%nat →
  (∀ i r, store !! i = Some r → comp r = bool_decide (p <= i)%nat) →
  upper_bound fuel comp store first len = p.
Proof.
  revert first len. induction fuel as [|fuel IH]; intros first len Hf Hl Hp Hc; cbn [upper_bound]; [lia|].
  destruct len as [|n]; [lia|]. set (half := Nat.div2 (S n)).
  assert (half < S n)%nat as Hh by (apply Nat.lt_div2; lia).
  destruct (lookup_lt_is_Some_2 store (first + half)) as [r Er]; [lia|]. rewrite Er, (Hc _ _ Er).
  case_bool_decide; apply IH; lia || done.
Qed.

Lemma is_sorted_next store i a b :
  is_sorted store = true → store !! i = Some a → store !! S i = Some b → IpTo a <= IpFrom b.
Proof.
  revert i. induction store as [|x store IH]; intros i Hs Ha Hb; [done|].
  destruct store as [|y store]; [by destruct i|]. cbn [is_sorted] in Hs.
  apply andb_prop in Hs as [Hxy Hs]. destruct i as [|i].
  - injection Ha as <-. injection Hb as <-. apply negb_true_iff, Z.ltb_ge in Hxy. lia.
  - by apply (IH i).
Qed.

(** A row of the IP2Location file names the first and the last address of a range;
    the search serves it without its last one. *)
Definition range_ok (r : IpLocationRecord) : Prop := 0 <= IpFrom r <= IpTo r ∧ IpTo r < 2 ^ 32.
Definition contains (ip : Z) (r : IpLocationRecord) : Prop := IpFrom r <= ip <= IpTo r.
Definition served (ip : Z) (r : IpLocationRecord) : Prop := contains ip r ∧ ip ≠ IpTo r.

Lemma is_sorted_before store i j a b :
  is_sorted store = true → Forall range_ok store → store !! i = Some a → store !! j = Some b →
  (i < j)%nat → IpTo a <= IpFrom b.
Proof.
  intros Hs F Ha Hb Hij. revert b Hb. induction Hij as [|j Hij IH]; intros b Hb.
  - by eapply is_sorted_next.
  - destruct (lookup_lt_is_Some_2 store j) as [c Hc]; [apply lookup_lt_Some in Hb; lia|].
    specialize (IH c Hc). pose proof (is_sorted_next store j c b Hs Hc Hb).
    rewrite Forall_forall in F. destruct (F c) as [? _]; [by eapply list_elem_of_lookup_2|]. lia.
Qed.

(** In a store that passed the check, the record found is the one whose range has
    the address, not as its last. *)
Lemma GetLocationRecord_spec text ip store :
  address_to_uint text = Some ip → is_sorted store = true → Forall range_ok store →
  match GetLocationRecord text store with
  | Ret (Some r) => r ∈ store ∧ served ip r
  | Ret None => Forall (λ r, ¬ served ip r) store
  | _ => False
  end.
Proof.
  intros E Hs F. unfold GetLocationRecord. rewrite E.
  set (comp := λ loc, ip <? IpTo loc).
  assert (∃ p, (p <= length store)%nat ∧ ∀ i r, store !! i = Some r → comp r = bool_decide (p <= i)%nat)
    as (p & Hp & Hc).
  { destruct (list_find comp store) as [[p r]|] eqn:Ef.
    - apply list_find_Some in Ef as (Hp & Hr & Hbefore). exists p.
      split; [apply lookup_lt_Some in Hp; lia|]. intros i x Hx. case_bool_decide as D.
      + apply Is_true_eq_true in Hr.
        destruct (decide (p = i)) as [->|]; [rewrite Hp in Hx; by injection Hx as <-|].
        pose proof (is_sorted_before store p i r x Hs F Hp Hx ltac:(lia)) as Hle.
        rewrite Forall_forall in F. destruct (F x) as [? _]; [by eapply list_elem_of_lookup_2|].
        unfold comp in *. apply Z.ltb_lt. apply Z.ltb_lt in Hr. lia.
      + apply not_true_iff_false. intros Ht. apply (Hbefore i x Hx); [lia|by apply Is_true_eq_left].
    - apply list_find_None in Ef. exists (length store). split; [done|]. intros i x Hx.
      rewrite bool_decide_eq_false_2 by (apply lookup_lt_Some in Hx; lia).
      rewrite Forall_forall in Ef. apply not_true_iff_false. intros Ht.
      apply (Ef x); [by eapply list_elem_of_lookup_2|by apply Is_true_eq_left]. }
  rewrite (upper_bound_spec _ _ _ _ _ p) by (done || lia).
  destruct (store !! p) as [r|] eqn:Er.
  - pose proof (Hc p r Er) as Hr. rewrite bool_decide_eq_true_2 in Hr by lia.
    unfold comp in Hr. apply Z.ltb_lt in Hr. destruct (Z.ltb_spec ip (IpFrom r)).
    + apply Forall_forall. intros x [i Hx]%list_elem_of_lookup_1 [[H1 H1'] H2'].
      assert (ip < IpTo x) as H2 by lia.
      pose proof (Hc i x Hx) as Hi. unfold comp in Hi. rewrite (proj2 (Z.ltb_lt _ _)) in Hi by done.
      symmetry in Hi. apply bool_decide_eq_true in Hi.
      destruct (decide (p = i)) as [->|]; [rewrite Er in Hx; injection Hx as <-; lia|].
      pose proof (is_sorted_before store p i r x Hs F Er Hx ltac:(lia)). lia.
    + split; [by eapply list_elem_of_lookup_2|]. unfold served, contains. lia.
  - apply lookup_ge_None in Er. apply Forall_forall. intros x [i Hx]%list_elem_of_lookup_1 [[H1 H1'] H2'].
    assert (ip < IpTo x) as H2 by lia.
    pose proof (Hc i x Hx) as Hi. unfold comp in Hi. rewrite (proj2 (Z.ltb_lt _ _)) in Hi by done.
    symmetry in Hi. apply bool_decide_eq_true in Hi. apply lookup_lt_Some in Hx. lia.
Qed.

(** ** A database file

    A row of the file with its texts in quotation marks, and the record it is read
    as. *)

Definition quoted (s : list Z) : list Z := QUOTE :: s ++ [QUOTE].
Definition csv_line (r : IpLocationRecord) : list Z :=
  quoted (Strings.fmt_dec (IpFrom r)) ++ 44 :: quoted (Strings.fmt_dec (IpTo r)) ++
  44 :: quoted (CountryCode r) ++ 44 :: quoted (CountryName r) ++ [10].
Definition csv (rows : list IpLocationRecord) : list Z := concat (map csv_line rows).

Definition record_of (r : IpLocationRecord) : IpLocationRecord :=
  mkLocation (IpFrom r) (IpTo r) (Strings.GetLowerString (CountryCode r)) (CountryName r).

Definition texts_ok (r : IpLocationRecord) : Prop :=
  QUOTE ∉ CountryCode r ∧ 44 ∉ CountryCode r ∧
  QUOTE ∉ CountryName r ∧ 10 ∉ CountryName r ∧ 13 ∉ CountryName r.

Lemma until_app delim line rest : delim ∉ line → until delim (line ++ delim :: rest) = (line, Some rest).
Proof.
  clear. induction line as [|c line IH]; intros H; cbn [app until]; [by rewrite Z.eqb_refl|].
  apply not_elem_of_cons in H as [Hc H]. rewrite (proj2 (Z.eqb_neq c delim)), IH by done. done.
Qed.

Lemma getline_app delim line rest :
  delim ∉ line → getline delim (mkStream (line ++ delim :: rest) false) = Some (line, mkStream rest false).
Proof. clear. intros H. unfold getline. cbn. rewrite until_app by done. by destruct line. Qed.

Lemma remove_char_none c s : c ∉ s → remove_char c s = s.
Proof.
  clear. induction s as [|x s IH]; intros H; [done|]. apply not_elem_of_cons in H as [Hx H].
  unfold remove_char in *. cbn [List.filter]. rewrite (proj2 (Z.eqb_neq x c)) by done. cbn [negb].
  by rewrite IH.
Qed.

Lemma remove_char_app c a b : remove_char c (a ++ b) = remove_char c a ++ remove_char c b.
Proof. apply List.filter_app. Qed.

Lemma remove_quotes s : QUOTE ∉ s → remove_char QUOTE (quoted s) = s.
Proof.
  clear. intros H. change (remove_char QUOTE (s ++ [QUOTE]) = s).
  rewrite remove_char_app, (remove_char_none _ s H). apply app_nil_r.
Qed.

Lemma not_in_quoted c s : c ≠ QUOTE → c ∉ s → c ∉ quoted s.
Proof.
  clear. intros Hq Hs. unfold quoted. rewrite elem_of_cons, elem_of_app, list_elem_of_singleton. tauto.
Qed.

Lemma dec_text v : 0 <= v < 2 ^ 32 →
  Strings.FromString_int (Strings.mkInt false 32) (Strings.fmt_dec v) 10 = Some v ∧
  QUOTE ∉ Strings.fmt_dec v ∧ 44 ∉ Strings.fmt_dec v.
Proof.
  clear. intros Hv. destruct (Strings.fmt_dec_text (Strings.mkInt false 32) v) as [E D].
  - cbn. lia.
  - unfold Strings.int_min, Strings.int_max. cbn. lia.
  - split; [done|]. split; intros C%D; unfold QUOTE in *; lia.
Qed.

Lemma read_four a b c n rest :
  44 ∉ a → 44 ∉ b → 44 ∉ c → 10 ∉ n →
  (ipFrom ← getline 44 (mkStream (a ++ 44 :: b ++ 44 :: c ++ 44 :: n ++ 10 :: rest) false);
   ipTo ← getline 44 ipFrom.2;
   countryCode ← getline 44 ipTo.2;
   countryName ← getline 10 countryCode.2;
   Some (ipFrom.1, ipTo.1, countryCode.1, countryName.1, countryName.2)) =
  Some (a, b, c, n, mkStream rest false).
Proof.
  clear. intros Ha Hb Hc Hn.
  rewrite (getline_app 44 a) by done. cbn [mbind option_bind fst snd].
  rewrite (getline_app 44 b) by done. cbn [mbind option_bind fst snd].
  rewrite (getline_app 44 c) by done. cbn [mbind option_bind fst snd].
  by rewrite (getline_app 10 n) by done.
Qed.

Lemma read_records_csv rows fuel store :
  Forall range_ok rows → Forall texts_ok rows → (length rows < fuel)%nat →
  read_records fuel (mkStream (csv rows) false) store = store ++ map record_of rows.
Proof.
  clear. intros R T. revert fuel store. induction rows as [|r rows IH]; intros fuel store Hf;
    (destruct fuel as [|fuel]; [cbn in Hf; lia|]); cbn [read_records st_eof].
  { by rewrite app_nil_r. }
  inversion R as [|? ? [[Hr0 Hr1] Hr2] R']; subst. inversion T as [|? ? (C1 & C2 & N1 & N2 & N3) T']; subst.
  destruct (dec_text (IpFrom r)) as (F1 & F2 & F3); [lia|].
  destruct (dec_text (IpTo r)) as (G1 & G2 & G3); [lia|].
  assert (csv (r :: rows) = quoted (Strings.fmt_dec (IpFrom r)) ++ 44 ::
    quoted (Strings.fmt_dec (IpTo r)) ++ 44 :: quoted (CountryCode r) ++ 44 ::
    quoted (CountryName r) ++ 10 :: csv rows) as ->.
  { unfold csv. cbn [map concat]. unfold csv_line.
    repeat (rewrite <- app_assoc; cbn [app]). done. }
  set (a := Strings.fmt_dec (IpFrom r)) in *. set (b := Strings.fmt_dec (IpTo r)) in *. clearbody a b.
  assert (44 ≠ QUOTE ∧ 10 ≠ QUOTE ∧ 13 ≠ QUOTE) as (Q1 & Q2 & Q3) by (by unfold QUOTE).
  rewrite (read_four (quoted a) (quoted b) (quoted (CountryCode r)) (quoted (CountryName r)) (csv rows)
    (not_in_quoted _ _ Q1 F3) (not_in_quoted _ _ Q1 G3) (not_in_quoted _ _ Q1 C2) (not_in_quoted _ _ Q2 N2)).
  unfold to_record.
  rewrite (remove_char_none 13 (quoted _) (not_in_quoted _ _ Q3 N3)).
  rewrite (remove_char_none 10 (quoted _) (not_in_quoted _ _ Q2 N2)).
  rewrite !remove_quotes by done. rewrite F1, G1. rewrite IH by (done || (cbn in Hf; lia)).
  cbn [map]. by rewrite <- app_assoc.
Qed.

(** Ranges that do not meet, in any order. *)
Definition disjoint_rows (rows : list IpLocationRecord) : Prop :=
  ∀ i j r r', rows !! i = Some r → rows !! j = Some r' → i ≠ j →
    IpTo r < IpFrom r' ∨ IpTo r' < IpFrom r.

Lemma contains_unique rows ip r r' :
  disjoint_rows rows → r ∈ rows → r' ∈ rows → contains ip r → contains ip r' → r = r'.
Proof.
  clear. intros D [i Hi]%list_elem_of_lookup_1 [j Hj]%list_elem_of_lookup_1 H H'.
  unfold contains in *. destruct (decide (i = j)) as [->|Hij]; [congruence|].
  destruct (D i j r r' Hi Hj Hij); lia.
Qed.

Context (sort_ok : ∀ l, sort l ≡ₚ l ∧ StronglySorted (λ a b, IpFrom a <= IpFrom b) (sort l)).

Lemma sorted_is_sorted store :
  StronglySorted (λ a b, IpFrom a <= IpFrom b) store →
  NoDup (map IpFrom store) →
  (∀ a b, a ∈ store → b ∈ store → IpFrom a < IpFrom b → IpTo a <= IpFrom b) →
  is_sorted store = true.
Proof.
  clear. induction 1 as [|a store S IH F]; intros N H; [done|].
  destruct store as [|b store]; [done|]. inversion N as [|? ? Na N']; subst.
  change (negb (IpFrom b <? IpTo a) && is_sorted (b :: store) = true).
  rewrite IH; [|done|].
  - rewrite andb_true_r. apply negb_true_iff, Z.ltb_ge. apply H; [by left|by right; left|].
    inversion F; subst. assert (IpFrom a ≠ IpFrom b); [|lia].
    intros E. apply Na. rewrite E. by left.
  - intros x y Hx Hy. apply H; by right.
Qed.

Lemma store_sorted rows :
  Forall range_ok rows → disjoint_rows rows → is_sorted (sort (map record_of rows)) = true.
Proof using sort_ok.
  intros R D. destruct (sort_ok (map record_of rows)) as [P S].
  apply sorted_is_sorted; [done|..].
  - rewrite P, map_map. apply NoDup_fmap_2_strong.
    + intros x y [i Hx]%list_elem_of_lookup_1 [j Hy]%list_elem_of_lookup_1 E.
      destruct (decide (i = j)) as [->|Hij]; [congruence|]. rewrite Forall_lookup in R.
      destruct (R i x Hx) as [? _], (R j y Hy) as [? _].
      change (IpFrom x = IpFrom y) in E. destruct (D i j x y Hx Hy Hij); lia.
    + apply NoDup_alt. intros i j x Hx Hy. destruct (decide (i = j)) as [->|Hij]; [done|].
      rewrite Forall_lookup in R. destruct (R i x Hx) as [? _]. destruct (D i j x x Hx Hy Hij); lia.
  - intros a b Ha Hb Hab. rewrite P in Ha, Hb.
    apply list_elem_of_fmap in Ha as (x & -> & [i Hx]%list_elem_of_lookup_1).
    apply list_elem_of_fmap in Hb as (y & -> & [j Hy]%list_elem_of_lookup_1). cbn in *.
    rewrite Forall_lookup in R. destruct (R i x Hx) as [? _], (R j y Hy) as [? _].
    destruct (decide (i = j)) as [->|Hij]; [rewrite Hx in Hy; injection Hy as <-; lia|].
    destruct (D i j x y Hx Hy Hij); lia.
Qed.

Lemma found_among rows text ip :
  Forall range_ok rows → disjoint_rows rows → address_to_uint text = Some ip →
  match GetLocationRecord text (sort (map record_of rows)) with
  | Ret (Some r) => ∃ row, r = record_of row ∧ row ∈ rows ∧ served ip row
  | Ret None => ∀ row, row ∈ rows → ¬ served ip row
  | _ => False
  end.
Proof using sort_ok.
  intros R D E. destruct (sort_ok (map record_of rows)) as [P _].
  assert (Forall range_ok (sort (map record_of rows))) as F.
  { rewrite P. apply Forall_fmap. eapply Forall_impl; [exact R|]. done. }
  pose proof (GetLocationRecord_spec text ip _ E (store_sorted rows R D) F) as G.
  destruct (GetLocationRecord text _) as [[r|]|[]| |]; try done.
  - destruct G as [Hin Hc]. rewrite P in Hin. apply list_elem_of_fmap in Hin as (row & -> & Hin).
    by exists row.
  - rewrite P, Forall_map, Forall_forall in G. exact G.
Qed.

(** C36: a database file of ranges that do not meet, in any order, first and last
    address inclusive, is read without the assertion failing.  An address is then
    given the country of the range that contains it, with its code in small letters,
    unless it is the last address of the range; the last address of a range, that of
    a range of one address among them, is given none, and neither is an address in
    no range.  A text that is no address throws. *)
Theorem country_found (files : list Z → option (list Z)) (cfg : ConfigMgr) (path : list Z)
    (rows : list IpLocationRecord)
    (Hpath : Config.GetOption_str (str "IPLocationFile") [] cfg = path) (Hne : path ≠ [])
    (Hfile : files path = Some (csv rows)) (Hranges : Forall range_ok rows)
    (Htexts : Forall texts_ok rows) (Hrows : disjoint_rows rows) :
  ∃ store, Load files cfg = Ret store ∧
    ∀ text,
      match address_to_uint text with
      | None => GetLocationRecord text store = Throw ()
      | Some ip =>
          (∀ row, row ∈ rows → contains ip row →
            GetLocationRecord text store =
            Ret (if bool_decide (ip = IpTo row) then None else Some (record_of row))) ∧
          ((∀ row, row ∈ rows → ¬ contains ip row) → GetLocationRecord text store = Ret None)
      end.
Proof using sort_ok.
  exists (sort (map record_of rows)). pose proof (store_sorted rows Hranges Hrows) as Hs. split.
  - unfold Load. rewrite Hpath, bool_decide_eq_false_2, Hfile by done.
    assert (length rows < S (length (csv rows)))%nat as Hl.
    { clear. induction rows as [|r rows IH]; [cbn; lia|]. unfold csv in *. cbn [map concat length] in *.
      rewrite length_app. unfold csv_line at 1, quoted at 1. cbn [app length]. lia. }
    rewrite read_records_csv by done. cbn [app]. by rewrite Hs.
  - intros text. destruct (address_to_uint text) as [ip|] eqn:E; [|by unfold GetLocationRecord; rewrite E].
    pose proof (found_among rows text ip Hranges Hrows E) as G.
    destruct (GetLocationRecord text _) as [[r|]|[]| |]; try done.
    + destruct G as (row & -> & Hin & Hc & Hne'). split; [|intros H; by destruct (H row Hin)].
      intros row' Hin' Hc'. rewrite (contains_unique rows ip row' row) by done.
      by rewrite bool_decide_eq_false_2.
    + split; [|done]. intros row Hin Hc. case_bool_decide as D; [done|]. by destruct (G row Hin).
Qed.
End store.
End IpLocation.

(** ** Witnesses *)

Definition demo_rows : list IpLocationRecord :=
  [mkLocation 200 299 (str "DE") (str "Germany, West"); mkLocation 100 199 (str "RU") (str "Russia");
   mkLocation 300 300 (str "FR") (str "France")].

(** Insertion by the first address. *)
Fixpoint demo_insert (r : IpLocationRecord) (l : list IpLocationRecord) : list IpLocationRecord :=
  match l with
  | [] => [r]
  | x :: l' => if IpFrom r <=? IpFrom x then r :: l else x :: demo_insert r l'
  end.
Definition demo_sort (l : list IpLocationRecord) : list IpLocationRecord := foldr demo_insert [] l.

Lemma demo_insert_perm r l : demo_insert r l ≡ₚ r :: l.
Proof.
  induction l as [|x l IH]; [done|]. cbn. destruct (IpFrom r <=? IpFrom x); [done|].
  rewrite IH. apply Permutation_swap.
Qed.

Lemma demo_sort_ok l :
  demo_sort l ≡ₚ l ∧ StronglySorted (λ a b, IpFrom a <= IpFrom b) (demo_sort l).
Proof.
  induction l as [|r l [P S]]; [split; [done|constructor]|].
  change (demo_sort (r :: l)) with (demo_insert r (demo_sort l)). split.
  - by rewrite demo_insert_perm, P.
  - clear P. generalize dependent (demo_sort l). intros l0 S. induction S as [|x l' S IH F]; cbn; [by repeat constructor|].
    destruct (Z.leb_spec (IpFrom r) (IpFrom x)).
    + constructor; [by constructor|]. constructor; [lia|]. eapply Forall_impl; [exact F|].
      cbn. intros y Hy. lia.
    + constructor; [done|]. rewrite demo_insert_perm. constructor; [lia|done].
Qed.

Definition demo_location_conf : ConfigMgr :=
  mkConfig [] {[str "IPLocationFile" := str "/db.csv"]} false [].
Definition demo_address (text : list Z) : option Z :=
  if bool_decide (text = str "0.0.0.250") then Some 250
  else if bool_decide (text = str "0.0.0.199") then Some 199
  else if bool_decide (text = str "0.0.1.44") then Some 300
  else if bool_decide (text = str "0.0.1.45") then Some 301 else None.

(** An address inside a range, the last of one, the only of one, and one behind
    them all. *)
Lemma country_found_witness :
  ∃ store, IpLocation.Load demo_sort (λ _, Some (IpLocation.csv demo_rows)) demo_location_conf = Ret store ∧
    let find text := IpLocation.GetLocationRecord demo_address (str text) store in
    find "0.0.0.250"%string = Ret (Some (mkLocation 200 299 (str "de") (str "Germany, West"))) ∧
    find "0.0.0.199"%string = Ret None ∧ find "0.0.1.44"%string = Ret None ∧
    find "0.0.1.45"%string = Ret None ∧ find "here"%string = Throw ().
Proof.
  destruct (IpLocation.country_found demo_sort demo_address demo_sort_ok
    (λ _, Some (IpLocation.csv demo_rows)) demo_location_conf (str "/db.csv") demo_rows) as (store & E & F).
  - reflexivity.
  - discriminate.
  - reflexivity.
  - repeat constructor; cbn; lia.
  - repeat constructor; apply (bool_decide_eq_true_1 (_ ∉ _)); vm_compute; reflexivity.
  - intros [|[|[|i]]] [|[|[|j]]] r r'; cbn; intros; simplify_eq; cbn; lia.
  - exists store. split; [exact E|]. cbv zeta. split; [|split; [|split; [|split]]].
    + apply (proj1 (F (str "0.0.0.250")) (mkLocation 200 299 (str "DE") (str "Germany, West"))).
      * by left.
      * unfold IpLocation.contains. cbn. lia.
    + apply (proj1 (F (str "0.0.0.199")) (mkLocation 100 199 (str "RU") (str "Russia"))).
      * by right; left.
      * unfold IpLocation.contains. cbn. lia.
    + apply (proj1 (F (str "0.0.1.44")) (mkLocation 300 300 (str "FR") (str "France"))).
      * by right; right; left.
      * unfold IpLocation.contains. cbn. lia.
    + apply (proj2 (F (str "0.0.1.45"))). intros row Hin.
      repeat (apply elem_of_cons in Hin as [->|Hin]; [unfold IpLocation.contains; cbn; lia|]). by inversion Hin.
    + exact (F (str "here")).
Defined.

(** The store of these rows: the last address of a range and the only address of one
    have no country. *)
Example last_address_has_none :
  let load := IpLocation.Load demo_sort (λ _, Some (IpLocation.csv demo_rows)) demo_location_conf in
  match load with
  | Ret store => (IpLocation.GetLocationRecord demo_address (str "0.0.0.199") store,
                  IpLocation.GetLocationRecord demo_address (str "0.0.1.44") store) = (Ret None, Ret None)
  | _ => False
  end.
Proof. vm_compute. reflexivity. Qed.
