(* ===== verification/Fetcher.v ===== *)
(** * Fetcher: which update files are applied to the database

    Model of [UpdateFetcher.h] and [UpdateFetcher.cpp] under
    [src/src/database/Updater].  The three callbacks an [UpdateFetcher] is built
    with are the interface [UpdateTarget]; what the table [updates] of the database
    is to them is stated by [BookKeeping].  Log messages are left out. *)

From S2P Require Import Prelude Utf8 Strings BigNumber Srp6 Statements Fields Files.
Open Scope Z_scope.

(** [_apply] executes a query, [_applyFile] has a file executed and throws when
    that fails, [_retrieve] answers the rows of a query, if there is one. *)
Class UpdateTarget := {
  DB : Type;
  db_apply : list Z → DB → DB;
  db_applyFile : path → DB → bool * DB;
  db_retrieve : list Z → DB → option (list Field * list (list Field))
}.

Record AppliedFileEntry := mkApplied {
  af_name : list Z;
  af_hash : list Z;
  af_state : State;
  af_timestamp : Z
}.

(** The arguments of the constructor besides the callbacks. *)
Record UpdateFetcher := mkFetcher {
  _sourceDirectory : path;
  _dbModuleName : list Z;
  _setDirectories : option (list (list Z));
  _modulesList : list Z
}.

Record UpdateResult := mkResult { updated : Z; recent : Z; archived : Z }.

Inductive UpdateMode := MODE_APPLY | MODE_REHASH.

#[export] Instance UpdateMode_eq_dec : EqDecision UpdateMode.
Proof. solve_decision. Defined.

(** The four arguments of [Update]. *)
Record Flags := mkFlags {
  redundancyChecks : bool;
  allowRehash : bool;
  archivedRedundancy : bool;
  cleanDeadReferencesMaxCount : Z
}.

(** What [Update] works on: the database, the copy of the table, the count, the
    readings of the clock still to come (in nanoseconds), and the files given to
    [_applyFile] so far. *)
Record progress `{UpdateTarget} := mkProgress {
  u_db : DB;
  u_applied : gmap (list Z) AppliedFileEntry;
  u_imported : Z;
  u_clock : list Z;
  u_files : list path
}.

Module Sql.

Definition StateConvert (state : State) : list Z :=
  match state with
  | RELEASED => str "RELEASED"
  | CUSTOM => str "CUSTOM"
  | MODULE => str "MODULE"
  | ARCHIVED => str "ARCHIVED"
  end.

Definition StateConvert_text (state : list Z) : State :=
  if bool_decide (state = str "RELEASED") then RELEASED
  else if bool_decide (state = str "CUSTOM") then CUSTOM
  else if bool_decide (state = str "MODULE") then MODULE
  else ARCHIVED.

Definition quoted (name : list Z) : list Z := [34] ++ name ++ [34].

Definition UpdateEntry (entry : AppliedFileEntry) (speed : Z) : list Z :=
  str "REPLACE INTO `updates` (`name`, `hash`, `state`, `speed`) VALUES (" ++
  quoted (af_name entry) ++ str ", " ++ quoted (af_hash entry) ++ str ", '" ++
  StateConvert (af_state entry) ++ str "', " ++ Strings.fmt_dec speed ++ str ")".

Definition RenameEntry_delete (to : list Z) : list Z :=
  str "DELETE FROM `updates` WHERE `name`=" ++ quoted to.
Definition RenameEntry_update (from to : list Z) : list Z :=
  str "UPDATE `updates` SET `name`=" ++ quoted to ++ str " WHERE `name`=" ++ quoted from.

Fixpoint names_in (names : list (list Z)) : list Z :=
  match names with
  | [] => []
  | [name] => quoted name
  | name :: names => quoted name ++ str ", " ++ names_in names
  end.

Definition CleanUp (names : list (list Z)) : list Z :=
  str "DELETE FROM `updates` WHERE `name` IN(" ++ names_in names ++ str ")".

Definition UpdateState (name : list Z) (state : State) : list Z :=
  str "UPDATE `updates` SET `state`='" ++ StateConvert state ++ str "' WHERE `name`=" ++
  quoted name.

Definition SELECT_INCLUDE : list Z := str "SELECT `path`, `state` FROM `updates_include`".
Definition SELECT_UPDATES : list Z :=
  str "SELECT `name`, `hash`, `state`, UNIX_TIMESTAMP(`timestamp`) FROM `updates` ORDER BY `name` ASC".

Lemma StateConvert_back s : StateConvert_text (StateConvert s) = s.
Proof. by destruct s. Qed.
End Sql.

#[global] Arguments Sql.UpdateEntry : simpl never.
#[global] Arguments Sql.RenameEntry_delete : simpl never.
#[global] Arguments Sql.RenameEntry_update : simpl never.
#[global] Arguments Sql.CleanUp : simpl never.
#[global] Arguments Sql.UpdateState : simpl never.

Module Fetcher.
Section fetcher.
Context `{FileSystem} `{OpenSSL} `{Floats} `{T : UpdateTarget}.
(** The order in which an unordered map is walked, and the nested calls there is
    room for when a number is read. *)
Context (order : gmap (list Z) AppliedFileEntry → list (list Z * AppliedFileEntry)).
Context (stack : nat).

Abbreviation Run := (M UpdateException progress).

Definition set_db (v : DB) (s : progress) : progress :=
  mkProgress _ v (u_applied s) (u_imported s) (u_clock s) (u_files s).
Definition set_applied (v : gmap (list Z) AppliedFileEntry) (s : progress) : progress :=
  mkProgress _ (u_db s) v (u_imported s) (u_clock s) (u_files s).
Definition set_imported (v : Z) (s : progress) : progress :=
  mkProgress _ (u_db s) (u_applied s) v (u_clock s) (u_files s).
Definition set_clock (v : list Z) (s : progress) : progress :=
  mkProgress _ (u_db s) (u_applied s) (u_imported s) v (u_files s).
Definition set_files (v : list path) (s : progress) : progress :=
  mkProgress _ (u_db s) (u_applied s) (u_imported s) (u_clock s) v.

Definition _apply (sql : list Z) : Run () := modify (λ s, set_db (db_apply sql (u_db s)) s).
Definition _applyFile (p : path) : Run () := λ s,
  let '(ok, db) := db_applyFile p (u_db s) in
  let s := set_files (u_files s ++ [p]) (set_db db s) in
  (if ok then Ret () else Throw (mkUpdateException (str "update failed")), s).
Definition erase (name : list Z) : Run () :=
  modify (λ s, set_applied (delete name (u_applied s)) s).

(** [fields[i]]; the array has the length of the row. *)
Definition field (i : nat) (fields : list Field) : Run Field := λ s,
  (match fields !! i with Some f => Ret f | None => UB end, s).
Definition get_text (i : nat) (fields : list Field) : Run (list Z) :=
  f ← field i fields; lift (Fields.GetDataString f).

(** ** The directories and the files *)

Definition ReceiveIncludedDirectories_row (fetcher : UpdateFetcher) (fields : list Field) :
    Run (list (path * State)) :=
  p ← get_text 0 fields;
  state ← get_text 1 fields;
  let p := if bool_decide (take 1 p = str "$") then _sourceDirectory fetcher ++ drop 1 p else p in
  mret (if is_directory p then [(p, Sql.StateConvert_text state)] else []).

Fixpoint ReceiveIncludedDirectories_rows (fetcher : UpdateFetcher) (rows : list (list Field)) :
    Run (list (path * State)) :=
  match rows with
  | [] => mret []
  | row :: rows =>
      ds ← ReceiveIncludedDirectories_row fetcher row;
      ds' ← ReceiveIncludedDirectories_rows fetcher rows;
      mret (ds ++ ds')
  end.

Definition set_directory (fetcher : UpdateFetcher) (directory : list Z) : list (path * State) :=
  let p := _sourceDirectory fetcher ++ directory in
  if is_directory p then [(p, Sql.StateConvert_text (str "MODULE"))] else [].

Definition module_directory (fetcher : UpdateFetcher) (itr : list Z) : list (path * State) :=
  let p := _sourceDirectory fetcher ++ str "/modules/" ++ itr ++ str "/sql/" ++
           _dbModuleName fetcher in
  if is_directory p then [(p, MODULE)] else [].

Definition ReceiveIncludedDirectories (fetcher : UpdateFetcher) : Run (list (path * State)) :=
  match _setDirectories fetcher with
  | Some directories => mret (concat (map (set_directory fetcher) directories))
  | None =>
      result ← gets (λ s, db_retrieve Sql.SELECT_INCLUDE (u_db s));
      match result with
      | None => mret []
      | Some (row, rows) =>
          directories ← ReceiveIncludedDirectories_rows fetcher (row :: rows);
          mret (directories ++ concat (map (module_directory fetcher)
                  (Strings.Tokenize (_modulesList fetcher) 44 true)))
      end
  end.

Definition list_files (directories : list (path * State)) : Run LocaleFileStorage := λ s,
  (match Files.FillFileList directories [] with
   | (Ret _, files) => Ret files
   | (Throw e, _) => Throw e
   | (AssertFail, _) => AssertFail
   | (UB, _) => UB
   end, s).

Definition GetFileList (fetcher : UpdateFetcher) : Run LocaleFileStorage :=
  directories ← ReceiveIncludedDirectories fetcher; list_files directories.

(** ** What was applied *)

Definition ReceiveAppliedFiles_row (map : gmap (list Z) AppliedFileEntry) (fields : list Field) :
    Run (gmap (list Z) AppliedFileEntry) :=
  name ← get_text 0 fields;
  hash ← get_text 1 fields;
  state ← get_text 2 fields;
  f ← field 3 fields;
  timestamp ← lift (Fields.GetData (Datatypes.S stack) TUInt64 f []).1;
  mret (match map !! name with
        | Some _ => map
        | None => <[name := mkApplied name hash (Sql.StateConvert_text state) timestamp]> map
        end).

Fixpoint ReceiveAppliedFiles_rows (map : gmap (list Z) AppliedFileEntry)
    (rows : list (list Field)) : Run (gmap (list Z) AppliedFileEntry) :=
  match rows with
  | [] => mret map
  | row :: rows => map ← ReceiveAppliedFiles_row map row; ReceiveAppliedFiles_rows map rows
  end.

Definition ReceiveAppliedFiles : Run (gmap (list Z) AppliedFileEntry) :=
  result ← gets (λ s, db_retrieve Sql.SELECT_UPDATES (u_db s));
  match result with
  | None => mret ∅
  | Some (row, rows) => ReceiveAppliedFiles_rows ∅ (row :: rows)
  end.

Definition ReadSQLUpdate (p : path) : Run (list Z) := λ s,
  (match read_file p with
   | Some update => Ret update
   | None => Throw (mkUpdateException (str "Opening the sql update failed!"))
   end, s).

(** ** One file *)

Definition next_reading : Run Z := λ s,
  match u_clock s with
  | [] => (Ret 0, s)
  | t :: ts => (Ret t, set_clock ts s)
  end.

Definition Apply (p : path) : Run Z :=
  begin ← next_reading;
  _ ← _applyFile p;
  now ← next_reading;
  mret (u32 ((now - begin) `quot` 1000000)).

Definition RenameEntry (from to : list Z) : Run () :=
  _ ← _apply (Sql.RenameEntry_delete to); _apply (Sql.RenameEntry_update from to).

Definition hash_of_text (update : list Z) : list Z :=
  Strings.ByteArrayToHexStr (SHA1 update) false.

(** The end of [ApplyUpdateFile], for a file that is applied or given a hash. *)
Definition finish (sqlFile : LocaleFileEntry) (hash : list Z) (mode : UpdateMode) (known : bool) :
    Run () :=
  let name := Files.name_of sqlFile in
  speed ← match mode with MODE_APPLY => Apply sqlFile.1 | MODE_REHASH => mret 0 end;
  _ ← _apply (Sql.UpdateEntry (mkApplied name hash sqlFile.2 0) speed);
  _ ← (if known then erase name else skip);
  if bool_decide (mode = MODE_APPLY)
  then modify (λ s, set_imported (u64 (u_imported s + 1)) s) else skip.

(** An applied file that is not looked at. *)
Definition skipped (flags : Flags) (applied state : State) : bool :=
  negb (redundancyChecks flags) ||
  (negb (archivedRedundancy flags) && bool_decide (applied = ARCHIVED) &&
   bool_decide (state = ARCHIVED)).

Definition ApplyUpdateFile (flags : Flags) (available : LocaleFileStorage)
    (hashToName : gmap (list Z) (list Z)) (sqlFile : LocaleFileEntry) : Run () :=
  let name := Files.name_of sqlFile in
  iter ← gets (λ s, u_applied s !! name);
  if match iter with Some e => skipped flags (af_state e) sqlFile.2 | None => false end
  then erase name
  else
    update ← ReadSQLUpdate sqlFile.1;
    let hash := hash_of_text update in
    match iter with
    | None =>
        match hashToName !! hash with
        | Some old =>
            if bool_decide (old ∈ map Files.name_of available)
            then finish sqlFile hash MODE_APPLY false
            else _ ← RenameEntry old name; erase old
        | None => finish sqlFile hash MODE_APPLY false
        end
    | Some e =>
        if allowRehash flags && bool_decide (af_hash e = []) then
          finish sqlFile hash MODE_REHASH true
        else if negb (bool_decide (af_hash e = hash)) then finish sqlFile hash MODE_APPLY true
        else
          _ ← (if negb (bool_decide (af_state e = sqlFile.2))
               then _apply (Sql.UpdateState name sqlFile.2) else skip);
          erase name
    end.

(** ** All of them *)

(** Filling [hashToName]: the first name met for a hash stays. *)
Fixpoint hash_to_name (entries : list (list Z * AppliedFileEntry))
    (map : gmap (list Z) (list Z)) : gmap (list Z) (list Z) :=
  match entries with
  | [] => map
  | (name, e) :: entries =>
      hash_to_name entries
        (match map !! af_hash e with Some _ => map | None => <[af_hash e := name]> map end)
  end.

Definition is_released (e : LocaleFileEntry) : bool :=
  bool_decide (e.2 = RELEASED) || bool_decide (e.2 = ARCHIVED).

Definition CleanUp (names : list (list Z)) : Run () :=
  if bool_decide (names = []) then skip else _apply (Sql.CleanUp names).

(** The names of [toCleanup]: it is filled only when the cleanup is enabled. *)
Definition to_cleanup (flags : Flags) (applied : gmap (list Z) AppliedFileEntry) : list (list Z) :=
  let size := Z.of_nat (map_size applied) in
  let max := cleanDeadReferencesMaxCount flags in
  let doCleanup := (max <? 0) || (size <=? u64 max) in
  if doCleanup
  then (order (filter (λ p, af_state p.2 ≠ MODULE) applied)).*1 else [].

Definition count (p : State → bool) (applied : gmap (list Z) AppliedFileEntry) : Z :=
  zlen (List.filter (λ e, p (af_state e.2)) (order applied)).

Definition Update (fetcher : UpdateFetcher) (flags : Flags) : Run UpdateResult :=
  available ← GetFileList fetcher;
  if bool_decide (is_Some (_setDirectories fetcher)) && bool_decide (available = [])
  then mret (mkResult 0 0 0)
  else
    applied ← ReceiveAppliedFiles;
    _ ← modify (λ s, set_imported 0 (set_applied applied s));
    let countRecentUpdates := count (λ st, bool_decide (st = RELEASED)) applied in
    let countArchivedUpdates := count (λ st, bool_decide (st ≠ RELEASED)) applied in
    let hashToName := hash_to_name (order applied) ∅ in
    let one := ApplyUpdateFile flags available hashToName in
    _ ← for_each (λ e, if is_released e then one e else skip) available;
    _ ← for_each (λ e, if bool_decide (e.2 = CUSTOM) then one e else skip) available;
    _ ← for_each (λ e, if bool_decide (e.2 = MODULE) then one e else skip) available;
    left ← gets u_applied;
    _ ← (if negb (bool_decide (left = ∅)) && bool_decide (_setDirectories fetcher = None)
         then CleanUp (to_cleanup flags left) else skip);
    imported ← gets u_imported;
    mret (mkResult imported countRecentUpdates countArchivedUpdates).
End fetcher.
End Fetcher.
