(* ===== verification/Updates.v ===== *)
(** * Updates: every update file is applied once

    What an [UpdateFetcher] ([Fetcher.v]) promises: the files it applies, their
    order, and that a run that is repeated or was broken off applies no file
    twice.  The promises of the database are the laws of [BookKeeping]. *)

From S2P Require Import Prelude Utf8 Strings BigNumber Srp6 Timer Statements Fields Files Fetcher.
Open Scope Z_scope.

(** The table [updates]: hash and state by name. *)
Abbreviation table := (gmap (list Z) (list Z * State)).

(** The table behind a database, and the names that the server takes as they are
    and tells apart: at most 200 characters, no quotes, one case. *)
Class BookKeeping `{UpdateTarget} := {
  updates : DB → table;
  plain : list Z → Prop
}.

Definition tidy `{BookKeeping} (d : DB) : Prop := ∀ name, is_Some (updates d !! name) → plain name.

Definition row_is `{Floats} (e : list Z * (list Z * State)) (row : list Field) : Prop :=
  ∃ f0 f1 f2 f3 rest, row = f0 :: f1 :: f2 :: f3 :: rest ∧
    Fields.GetDataString f0 = Ret e.1 ∧ Fields.GetDataString f1 = Ret e.2.1 ∧
    Fields.GetDataString f2 = Ret (Sql.StateConvert e.2.2) ∧
    ∀ stack, ∃ v, (Fields.GetData (S stack) TUInt64 f3 []).1 = Ret v.

(** What the server does with the statements of the fetcher; a file that is
    applied leaves the table alone. *)
Class BookKeepingLaws `{BookKeeping} `{Floats} : Prop := {
  select_updates d : tidy d →
    match db_retrieve Sql.SELECT_UPDATES d with
    | None => updates d = ∅
    | Some (row, rows) => ∃ entries, entries ≡ₚ map_to_list (updates d) ∧
        Forall2 row_is entries (row :: rows)
    end;
  replace_entry d name digest state speed : tidy d → plain name →
    zlen digest = 20 → Forall is_byte digest → 0 <= speed < 2 ^ 32 →
    let hash := Strings.ByteArrayToHexStr digest false in
    updates (db_apply (Sql.UpdateEntry (mkApplied name hash state 0) speed) d) =
    <[name := (hash, state)]> (updates d);
  delete_entry d name : tidy d → plain name →
    updates (db_apply (Sql.RenameEntry_delete name) d) = delete name (updates d);
  rename_entry d from to : tidy d → plain from → plain to → updates d !! to = None →
    updates (db_apply (Sql.RenameEntry_update from to) d) =
    match updates d !! from with
    | Some e => <[to := e]> (delete from (updates d))
    | None => updates d
    end;
  set_state d name state : tidy d → plain name →
    updates (db_apply (Sql.UpdateState name state) d) =
    alter (λ e, (e.1, state)) name (updates d);
  delete_entries d names : tidy d → Forall plain names → names ≠ [] →
    updates (db_apply (Sql.CleanUp names) d) = filter (λ p, p.1 ∉ names) (updates d);
  file_leaves_table p d : updates (db_applyFile p d).2 = updates d
}.

Module Updates.
Import Files Fetcher.

(** The order in which the files are gone through. *)
Definition passes (available : LocaleFileStorage) : LocaleFileStorage :=
  List.filter is_released available ++
  List.filter (λ e, bool_decide (e.2 = CUSTOM)) available ++
  List.filter (λ e, bool_decide (e.2 = MODULE)) available.

Lemma passes_perm available : passes available ≡ₚ available.
Proof.
  unfold passes, is_released. induction available as [|[p st] l IH]; [done|]. cbn [List.filter snd].
  destruct st; repeat (case_bool_decide; try done); cbn [orb app].
  - by constructor.
  - rewrite <- Permutation_middle. by constructor.
  - rewrite (app_assoc (List.filter _ l)), <- Permutation_middle, <- app_assoc. by constructor.
  - by constructor.
Qed.

Section updates.
Context `{FileSystem} `{OpenSSL} `{Floats} `{BookKeeping}.

Definition hash_of (p : path) : list Z := hash_of_text (default [] (read_file p)).

#[local] Arguments hash_of : simpl never.
#[local] Arguments hash_of_text : simpl never.

Definition view (applied : gmap (list Z) AppliedFileEntry) : table :=
  (λ e, (af_hash e, af_state e)) <$> applied.

(** A name for every hash of the table. *)
Definition chooses (tbl : table) (hashToName : gmap (list Z) (list Z)) : Prop :=
  (∀ hash old, hashToName !! hash = Some old → ∃ st, tbl !! old = Some (hash, st)) ∧
  (∀ old hash st, tbl !! old = Some (hash, st) → is_Some (hashToName !! hash)).

(** A file is applied when it is unknown and not another one renamed, or when it
    has changed. *)
Definition needs (flags : Flags) (available : LocaleFileStorage) (tbl : table)
    (hashToName : gmap (list Z) (list Z)) (f : LocaleFileEntry) : bool :=
  match tbl !! name_of f with
  | Some (hash, st) =>
      negb (skipped flags st f.2) && negb (allowRehash flags && bool_decide (hash = [])) &&
      negb (bool_decide (hash = hash_of f.1))
  | None =>
      match hashToName !! hash_of f.1 with
      | Some old => bool_decide (old ∈ map name_of available)
      | None => true
      end
  end.

Definition settled (flags : Flags) (tbl : table) (f : LocaleFileEntry) : Prop :=
  ∃ hash st, tbl !! name_of f = Some (hash, st) ∧
    (skipped flags st f.2 = true ∨ hash = hash_of f.1).

Lemma settled_needs flags available tbl hashToName f :
  settled flags tbl f → needs flags available tbl hashToName f = false.
Proof.
  unfold needs. intros (hash & st & -> & [->|E]); [done|].
  by rewrite (bool_decide_eq_true_2 _ E), !andb_false_r.
Qed.

(** ** One file *)

Section one_file.
Context (flags : Flags) (available : LocaleFileStorage) (hashToName : gmap (list Z) (list Z)).
Context (T0 : table).

Abbreviation names := (map name_of available).
Abbreviation tbl_of s := (updates (u_db s)).

Record inv (done rest : LocaleFileStorage) (s : progress) : Prop := {
  i_tidy : tidy (u_db s);
  i_rest f : f ∈ rest → tbl_of s !! name_of f = T0 !! name_of f;
  i_done f : f ∈ done → settled flags (tbl_of s) f;
  i_old old : old ∉ names → tbl_of s !! old = T0 !! old ∨
    ∃ g, g ∈ done ∧ T0 !! name_of g = None ∧ hashToName !! hash_of g.1 = Some old;
  i_applied f : f ∈ rest → view (u_applied s) !! name_of f = T0 !! name_of f;
  i_known name : is_Some (u_applied s !! name) → is_Some (T0 !! name);
  i_gone f : f ∈ done → u_applied s !! name_of f = None
}.

(** Whatever is done for a file concerns its own entry, or moves one that no
    file has. *)
Lemma inv_step done f rest s s' :
  inv done (f :: rest) s →
  NoDup (map name_of (done ++ f :: rest)) → (∀ g, g ∈ done ++ f :: rest → g ∈ available) →
  tidy (u_db s') → settled flags (tbl_of s') f →
  (∀ n, n ∈ names → n ≠ name_of f → tbl_of s' !! n = tbl_of s !! n) →
  (∀ old, old ∉ names → tbl_of s' !! old = tbl_of s !! old ∨
    (T0 !! name_of f = None ∧ hashToName !! hash_of f.1 = Some old)) →
  u_applied s' !! name_of f = None →
  (∀ n, n ∈ names → n ≠ name_of f → u_applied s' !! n = u_applied s !! n) →
  (∀ n, is_Some (u_applied s' !! n) → is_Some (u_applied s !! n)) →
  inv (done ++ [f]) rest s'.
Proof.
  intros [] ND Sub Ty St Tn To Af An Ak.
  assert (∀ g, g ∈ done ++ rest → name_of g ∈ names ∧ name_of g ≠ name_of f) as Hn.
  { intros g Hg. split.
    - apply list_elem_of_fmap_2, Sub. set_solver.
    - intros E. rewrite <- Permutation_middle in ND. cbn [map] in ND.
      apply NoDup_cons in ND as [ND _]. apply ND. rewrite <- E. by apply list_elem_of_fmap_2. }
  constructor.
  - done.
  - intros g Hg. destruct (Hn g) as [? ?]; [set_solver|]. rewrite Tn by done. apply i_rest0. set_solver.
  - intros g [Hg|Hg%list_elem_of_singleton]%elem_of_app; [|by subst].
    destruct (Hn g) as [? ?]; [set_solver|]. unfold settled. rewrite Tn by done. by apply i_done0.
  - intros old Ho. destruct (To old Ho) as [->|[? ?]].
    + destruct (i_old0 old Ho) as [|(g & ? & ?)]; [by left|]. right. exists g. set_solver.
    + right. exists f. set_solver.
  - intros g Hg. destruct (Hn g) as [? ?]; [set_solver|]. unfold view. rewrite lookup_fmap, An by done.
    rewrite <- lookup_fmap. apply i_applied0. set_solver.
  - eauto.
  - intros g [Hg|Hg%list_elem_of_singleton]%elem_of_app; [|by subst].
    destruct (Hn g) as [? ?]; [set_solver|]. rewrite An by done. by apply i_gone0.
Qed.

Context {OL : OpenSSLLaws _} {KL : BookKeepingLaws}.
Context (Hread : ∀ f, f ∈ available → is_Some (read_file f.1)).
Context (Hplain : ∀ f, f ∈ available → plain (name_of f)).
Context (Htidy : ∀ name, is_Some (T0 !! name) → plain name).
Context (Hchoice : chooses T0 hashToName).
Context (Hfresh : ∀ f g, f ∈ available → g ∈ available →
  T0 !! name_of f = None → T0 !! name_of g = None → hash_of f.1 = hash_of g.1 → f = g).

#[local] Set Default Proof Using "All".

(** Statements that only add plain names keep the table tidy. *)
Lemma tidy_from d d' :
  tidy d → (∀ n, is_Some (updates d' !! n) → is_Some (updates d !! n) ∨ plain n) → tidy d'.
Proof. intros Ty Hn n Hs. destruct (Hn n Hs); auto. Qed.

Lemma Apply_run p s :
  match Apply p s with
  | (Ret _ as o, s') | (Throw _ as o, s') =>
      tbl_of s' = tbl_of s ∧ u_applied s' = u_applied s ∧ u_imported s' = u_imported s ∧
      u_files s' = u_files s ++ [p] ∧
      match o with Ret speed => 0 <= speed < 2 ^ 32 | _ => True end
  | _ => False
  end.
Proof.
  unfold Apply, next_reading, _applyFile, mbind, M_bind.
  destruct (u_clock s) as [|t [|t' ts]] eqn:Et; cbn [u_db set_clock u_clock];
    pose proof (file_leaves_table p (u_db s)) as E; cbn [u_db set_clock];
    destruct (db_applyFile p (u_db s)) as [[] d]; cbn in *; rewrite ?Et; repeat split; try done; apply wrap_range; lia.
Qed.

Lemma finish_run f mode known s :
  f ∈ available → tidy (u_db s) →
  match finish f (hash_of f.1) mode known s with
  | (Ret _, s') =>
      tbl_of s' = <[name_of f := (hash_of f.1, f.2)]> (tbl_of s) ∧
      u_applied s' = (if known then delete (name_of f) (u_applied s) else u_applied s) ∧
      u_files s' = u_files s ++ (if bool_decide (mode = MODE_APPLY) then [f.1] else []) ∧
      u_imported s' =
        (if bool_decide (mode = MODE_APPLY) then u64 (u_imported s + 1) else u_imported s)
  | (Throw _, s') =>
      mode = MODE_APPLY ∧ tbl_of s' = tbl_of s ∧ u_files s' = u_files s ++ [f.1]
  | _ => False
  end.
Proof.
  intros Hf Ty. unfold finish.
  assert (∀ speed s1, tbl_of s1 = tbl_of s → 0 <= speed < 2 ^ 32 →
    updates (db_apply (Sql.UpdateEntry (mkApplied (name_of f) (hash_of f.1) f.2 0) speed) (u_db s1)) =
    <[name_of f := (hash_of f.1, f.2)]> (tbl_of s)) as R.
  { intros speed s1 E Hsp. unfold hash_of, hash_of_text. rewrite replace_entry, E; try done.
    - intros n. rewrite E. apply Ty.
    - by apply Hplain.
    - apply SHA1_length.
    - apply SHA1_bytes. }
  destruct mode.
  - rewrite (bool_decide_eq_true_2 (MODE_APPLY = _)) by done.
    pose proof (Apply_run f.1 s) as A. unfold mbind at 1, M_bind at 1.
    destruct (Apply f.1 s) as [[speed|e| |] s1]; try done; destruct A as (E1 & E2 & E3 & E4 & E5); [|done].
    unfold _apply. rewrite bind_modify.
    destruct known; unfold mbind, M_bind, erase; cbn; rewrite R, E2, E3, E4 by done; done.
  - rewrite (bool_decide_eq_false_2 (MODE_REHASH = _)) by done.
    rewrite bind_ret_l. unfold _apply. rewrite bind_modify.
    destruct known; unfold mbind, M_bind, erase; cbn; rewrite R, ?app_nil_r by done; done.
Qed.
Lemma hash_text f update : read_file f = Some update → hash_of_text update = hash_of f.
Proof. unfold hash_of. by intros ->. Qed.

(** A file that is recorded: its entry is set, and it is taken from the copy. *)
Lemma inv_recorded done f rest s s' e :
  inv done (f :: rest) s →
  NoDup (map name_of (done ++ f :: rest)) → (∀ g, g ∈ done ++ f :: rest → g ∈ available) →
  tbl_of s' = <[name_of f := e]> (tbl_of s) → skipped flags e.2 f.2 = true ∨ e.1 = hash_of f.1 →
  (u_applied s' = delete (name_of f) (u_applied s) ∨
   (u_applied s' = u_applied s ∧ u_applied s !! name_of f = None)) →
  inv (done ++ [f]) rest s'.
Proof.
  intros I ND Sub Et Hs Ea.
  assert (f ∈ available) as Hf by (apply Sub; set_solver).
  eapply (inv_step done f rest s s' I ND Sub).
  - eapply tidy_from; [apply I|]. rewrite Et. intros n Hn.
    destruct (decide (n = name_of f)) as [->|]; [right; auto|left].
    by rewrite lookup_insert_ne in Hn.
  - exists e.1, e.2. rewrite Et, lookup_insert_eq. by destruct e.
  - intros n _ N. by rewrite Et, lookup_insert_ne.
  - intros old Ho. left. rewrite Et, lookup_insert_ne; [done|]. intros <-.
    apply Ho. by apply list_elem_of_fmap_2.
  - destruct Ea as [->|[-> ?]]; [apply lookup_delete_eq|done].
  - intros n _ N. destruct Ea as [->|[-> _]]; [by rewrite lookup_delete_ne|done].
  - intros n. destruct Ea as [->|[-> _]]; [|done].
    rewrite lookup_delete_is_Some. by intros [_ ?].
Qed.

(** An entry that stays. *)
Lemma inv_erased done f rest s s' e :
  inv done (f :: rest) s →
  NoDup (map name_of (done ++ f :: rest)) → (∀ g, g ∈ done ++ f :: rest → g ∈ available) →
  tbl_of s' = tbl_of s → T0 !! name_of f = Some e →
  skipped flags e.2 f.2 = true ∨ e.1 = hash_of f.1 →
  u_applied s' = delete (name_of f) (u_applied s) →
  inv (done ++ [f]) rest s'.
Proof.
  intros I ND Sub Et E0 Hs Ea. eapply (inv_recorded done f rest s s' e I ND Sub); auto.
  rewrite Et. symmetry. apply insert_id. rewrite <- E0. apply I. by left.
Qed.

(** An entry of a file that is gone, given to a new file. *)
Lemma inv_renamed done f rest s old :
  inv done (f :: rest) s →
  NoDup (map name_of (done ++ f :: rest)) → (∀ g, g ∈ done ++ f :: rest → g ∈ available) →
  T0 !! name_of f = None → hashToName !! hash_of f.1 = Some old → old ∉ names →
  inv (done ++ [f]) rest
    ((_ ← RenameEntry old (name_of f); erase old : M UpdateException progress ()) s).2.
Proof.
  intros I ND Sub E0 Eh Ho.
  assert (f ∈ available) as Hf by (apply Sub; set_solver).
  assert (name_of f ∈ names) as Hn by (by apply list_elem_of_fmap_2).
  destruct (proj1 Hchoice _ _ Eh) as [st Eo].
  assert (tbl_of s !! old = Some (hash_of f.1, st)) as Es.
  { destruct (i_old _ _ _ I old Ho) as [->|(g & Hg & G0 & Gh)]; [done|].
    destruct (proj1 Hchoice _ _ Gh) as [st' Eo'].
    assert (g = f) as -> by (apply Hfresh; [apply Sub; set_solver|done..|congruence]).
    rewrite map_app in ND. cbn [map] in ND. apply NoDup_app in ND as (_ & X & _).
    destruct (X (name_of f)); [by apply list_elem_of_fmap_2|by left]. }
  set (d1 := db_apply (Sql.RenameEntry_delete (name_of f)) (u_db s)).
  assert (updates d1 = tbl_of s) as E1.
  { unfold d1. rewrite delete_entry by (first [by auto|apply I]). apply delete_id.
    rewrite <- E0. apply I. by left. }
  assert (tidy d1) as T1 by (eapply tidy_from; [apply I|]; rewrite E1; auto).
  set (d2 := db_apply (Sql.RenameEntry_update old (name_of f)) d1).
  assert (updates d2 = <[name_of f := (hash_of f.1, st)]> (delete old (tbl_of s))) as E2.
  { assert (plain old) by (apply Htidy; by rewrite Eo).
    unfold d2. rewrite rename_entry, E1, Es by (rewrite ?E1, <- ?E0; first [by auto|apply I; by left]).
    done. }
  change (inv (done ++ [f]) rest (set_applied (delete old (u_applied s)) (set_db d2 (set_db d1 s)))).
  eapply (inv_step done f rest s); try done; cbn [u_db u_applied set_applied set_db].
  - eapply tidy_from; [apply I|]. rewrite E2. intros n Hs.
    destruct (decide (n = name_of f)) as [->|]; [right; auto|left].
    rewrite lookup_insert_ne, lookup_delete_is_Some in Hs by done. by destruct Hs.
  - exists (hash_of f.1), st. rewrite E2, lookup_insert_eq. auto.
  - intros n Hi N. rewrite E2, lookup_insert_ne by done. apply lookup_delete_ne. by intros ->.
  - intros old' Ho'. destruct (decide (old' = old)) as [->|]; [by right|left].
    assert (name_of f ≠ old') as N by (by intros <-).
    rewrite E2, lookup_insert_ne by done. by apply lookup_delete_ne.
  - destruct (decide (old = name_of f)) as [->|]; [done|]. rewrite lookup_delete_ne by done.
    pose proof (i_applied _ _ _ I f ltac:(by left)) as A. rewrite E0 in A.
    unfold view in A. rewrite lookup_fmap in A. by destruct (u_applied s !! name_of f).
  - intros n Hi N. apply lookup_delete_ne. by intros ->.
  - intros n. rewrite lookup_delete_is_Some. by intros [_ ?].
Qed.
(** What is known of a file's entry where the file is its turn. *)
Lemma turn_entry done f rest s :
  inv done (f :: rest) s →
  match u_applied s !! name_of f with
  | Some e => T0 !! name_of f = Some (af_hash e, af_state e)
  | None => T0 !! name_of f = None
  end.
Proof.
  intros I. pose proof (i_applied _ _ _ I f ltac:(by left)) as A.
  unfold view in A. rewrite lookup_fmap in A. by destruct (u_applied s !! name_of f).
Qed.

Definition todo : LocaleFileEntry → bool := needs flags available T0 hashToName.

(** The turn of a file. *)
Definition turn_ok (done : LocaleFileStorage) (f : LocaleFileEntry) (rest : LocaleFileStorage)
    (s : progress) (r : outcome UpdateException () * progress) : Prop :=
  match r with
  | (Ret _, s') =>
      inv (done ++ [f]) rest s' ∧
      u_files s' = u_files s ++ (if todo f then [f.1] else []) ∧
      u_imported s' = (if todo f then u64 (u_imported s + 1) else u_imported s)
  | (Throw _, s') =>
      todo f = true ∧ u_files s' = u_files s ++ [f.1] ∧ tbl_of s' = tbl_of s
  | _ => False
  end.

Lemma turn_applied done f rest s known :
  inv done (f :: rest) s →
  NoDup (map name_of (done ++ f :: rest)) → (∀ g, g ∈ done ++ f :: rest → g ∈ available) →
  known = bool_decide (is_Some (u_applied s !! name_of f)) → todo f = true →
  turn_ok done f rest s (finish f (hash_of f.1) MODE_APPLY known s).
Proof.
  intros I ND Sub Ek Ht. assert (f ∈ available) as Hf by (apply Sub; set_solver).
  pose proof (finish_run f MODE_APPLY known s Hf (i_tidy _ _ _ I)) as F.
  unfold turn_ok. rewrite Ht.
  destruct (finish f _ MODE_APPLY known s) as [[[]|e| |] s']; try done; [|naive_solver].
  destruct F as (E1 & E2 & E3 & E4). split; [|done].
  eapply inv_recorded; try done; [by right|]. rewrite E2, Ek.
  destruct (u_applied s !! name_of f) as [e|] eqn:B.
  - left. by rewrite bool_decide_eq_true_2.
  - right. rewrite bool_decide_eq_false_2; [done|]. by intros [].
Qed.

Lemma ApplyUpdateFile_turn done f rest s :
  inv done (f :: rest) s →
  NoDup (map name_of (done ++ f :: rest)) → (∀ g, g ∈ done ++ f :: rest → g ∈ available) →
  turn_ok done f rest s (ApplyUpdateFile flags available hashToName f s).
Proof.
  intros I ND Sub. assert (f ∈ available) as Hf by (apply Sub; set_solver).
  destruct (Hread f Hf) as [update Eu]. pose proof (turn_entry _ _ _ _ I) as Te.
  unfold ApplyUpdateFile. rewrite bind_gets.
  destruct (u_applied s !! name_of f) as [e|] eqn:Ea.
  - destruct (skipped flags (af_state e) f.2) eqn:Es.
    { unfold turn_ok, todo, needs, erase, modify. rewrite Te, Es. cbn. rewrite app_nil_r.
      split; [|done]. by eapply (inv_erased _ _ _ _ _ (af_hash e, af_state e)); [..|by left|]. }
    rewrite (bind_run (ReadSQLUpdate f.1) _ s update s) by (unfold ReadSQLUpdate; by rewrite Eu).
    rewrite (hash_text _ _ Eu).
    destruct (allowRehash flags && bool_decide (af_hash e = [])) eqn:Er.
    { assert (todo f = false) as Ht.
      { unfold todo, needs. by rewrite Te, Er, andb_false_r. }
      pose proof (finish_run f MODE_REHASH true s Hf (i_tidy _ _ _ I)) as F.
      unfold turn_ok. rewrite Ht.
      destruct (finish f _ MODE_REHASH true s) as [[[]|e'| |] s']; try done; [|naive_solver].
      destruct F as (E1 & E2 & E3 & E4). split; [|done].
      eapply (inv_recorded _ _ _ _ _ (hash_of f.1, f.2)); try done; [by right|by left]. }
    destruct (decide (af_hash e = hash_of f.1)) as [Eh|Eh];
      [rewrite (bool_decide_eq_true_2 _ Eh)|rewrite (bool_decide_eq_false_2 _ Eh)]; cbn [negb].
    2:{ apply turn_applied; try done; [by rewrite Ea|].
        unfold todo, needs. by rewrite Te, Es, Er, bool_decide_eq_false_2. }
    assert (todo f = false) as Ht.
    { unfold todo, needs. rewrite Te, Eh, (bool_decide_eq_true_2 (hash_of f.1 = hash_of f.1)) by done. apply andb_false_r. }
    unfold turn_ok, erase. rewrite Ht.
    destruct (bool_decide (af_state e = f.2)); cbn [negb].
    + rewrite (bind_run skip _ s () s) by done. cbn. rewrite app_nil_r. split; [|done].
      by eapply (inv_erased _ _ _ _ _ (af_hash e, af_state e)); [..|by right|].
    + unfold _apply. rewrite bind_modify. cbn. rewrite app_nil_r. split; [|done].
      eapply (inv_recorded _ _ _ _ _ (af_hash e, f.2)); try done; [|by right|by left].
      cbn [u_db set_applied set_db]. rewrite set_state; [|apply I|auto].
      apply map_eq. intros n. destruct (decide (n = name_of f)) as [->|N].
      * rewrite lookup_alter_eq, lookup_insert_eq, (i_rest _ _ _ I), Te by (by left). done.
      * by rewrite lookup_alter_ne, lookup_insert_ne.
  - rewrite (bind_run (ReadSQLUpdate f.1) _ s update s) by (unfold ReadSQLUpdate; by rewrite Eu).
    rewrite (hash_text _ _ Eu).
    destruct (hashToName !! hash_of f.1) as [old|] eqn:Eh.
    2:{ apply turn_applied; try done; [by rewrite Ea|]. unfold todo, needs. by rewrite Te, Eh. }
    case_bool_decide as Eo.
    + apply turn_applied; try done; [by rewrite Ea|]. unfold todo, needs.
      by rewrite Te, Eh, bool_decide_eq_true_2.
    + assert (todo f = false) as Ht.
      { unfold todo, needs. by rewrite Te, Eh, bool_decide_eq_false_2. }
      pose proof (inv_renamed done f rest s old I ND Sub Te Eh Eo) as R.
      unfold turn_ok. rewrite Ht. cbn. cbn in R. rewrite app_nil_r. done.
Qed.

(** All files from some point on. *)
Lemma files_turns files done s :
  inv done files s → NoDup (map name_of (done ++ files)) →
  (∀ g, g ∈ done ++ files → g ∈ available) →
  match for_each (ApplyUpdateFile flags available hashToName) files s with
  | (Ret _, s') =>
      inv (done ++ files) [] s' ∧ u_files s' = u_files s ++ map fst (List.filter todo files) ∧
      (0 <= u_imported s < 2 ^ 64 →
        u_imported s' = u64 (u_imported s + zlen (List.filter todo files)))
  | (Throw _, s') => ∃ f pre post, List.filter todo files = pre ++ f :: post ∧
      u_files s' = u_files s ++ map fst (pre ++ [f]) ∧
      tbl_of s' !! name_of f = T0 !! name_of f ∧
      ∀ g, g ∈ done ++ pre → settled flags (tbl_of s') g
  | _ => False
  end.
Proof.
  revert done s. induction files as [|f files IH]; intros done s I ND Sub; cbn [for_each List.filter].
  { cbn. rewrite !app_nil_r. split; [done|]. split; [done|]. intros. rewrite Z.add_0_r.
    by rewrite wrap_small. }
  pose proof (ApplyUpdateFile_turn done f files s I ND Sub) as Tn.
  unfold mbind, M_bind.
  destruct (ApplyUpdateFile flags available hashToName f s) as [[[]|e| |] s1]; try done.
  - destruct Tn as (I1 & F1 & C1). rewrite (cons_middle f done files), (app_assoc done [f] files) in ND, Sub.
    specialize (IH (done ++ [f]) s1 I1 ND Sub).
    destruct (for_each _ files s1) as [[[]|e| |] s2]; try done.
    + destruct IH as (I2 & F2 & C2). rewrite <- app_assoc in I2. split; [done|]. split.
      * rewrite F2, F1, <- app_assoc. by destruct (todo f).
      * intros R. rewrite C2.
        -- rewrite C1. destruct (todo f); [|done]. rewrite zlen_cons. unfold wrap.
           rewrite Zplus_mod_idemp_l. f_equal. lia.
        -- rewrite C1. destruct (todo f); [apply wrap_range; lia|done].
    + destruct IH as (g & pre & post & E & F2 & Tg & St). rewrite E.
      exists g, (if todo f then f :: pre else pre), post. rewrite F2, F1, <- app_assoc.
      split; [by destruct (todo f)|]. split; [by destruct (todo f)|]. split; [done|].
      intros g' Hg'. apply St. destruct (todo f); set_solver.
  - destruct Tn as (Ht & F1 & E1). rewrite Ht. exists f, [], (List.filter todo files).
    split; [done|]. split; [done|]. rewrite E1. split; [apply I; by left|].
    rewrite app_nil_r. apply I.
Qed.
End one_file.

#[local] Set Default Proof Using "Type".
(** ** The copy of the table *)

Section whole_run.
Context {OL : OpenSSLLaws _} {KL : BookKeepingLaws}.
Context (order : gmap (list Z) AppliedFileEntry → list (list Z * AppliedFileEntry)).
Context (order_list : ∀ m, order m ≡ₚ map_to_list m).
Context (stack : nat).

#[local] Set Default Proof Using "Type".

Lemma ReceiveAppliedFiles_row_is m e row s :
  row_is e row → m !! e.1 = None →
  ∃ timestamp, ReceiveAppliedFiles_row stack m row s =
    (Ret (<[e.1 := mkApplied e.1 e.2.1 e.2.2 timestamp]> m), s).
Proof.
  intros (f0 & f1 & f2 & f3 & rest & -> & E0 & E1 & E2 & E3) Em. destruct (E3 stack) as [v Ev].
  exists v. unfold ReceiveAppliedFiles_row, get_text, field, lift, mbind, M_bind. cbn [lookup list_lookup].
  by rewrite E0, E1, E2, Ev, Em, Sql.StateConvert_back.
Qed.

Lemma ReceiveAppliedFiles_rows_view entries rows m s :
  Forall2 row_is entries rows → NoDup entries.*1 → (∀ n, n ∈ entries.*1 → m !! n = None) →
  ∃ m', ReceiveAppliedFiles_rows stack m rows s = (Ret m', s) ∧
    view m' = list_to_map entries ∪ view m.
Proof.
  intros F. revert m. induction F as [|[name [hash st]] row entries rows R F IH]; intros m ND Em.
  { exists m. split; [done|]. cbn. by rewrite (left_id_L ∅ (∪)). }
  cbn [fmap list_fmap] in ND, Em. apply NoDup_cons in ND as [N ND].
  destruct (ReceiveAppliedFiles_row_is m _ row s R) as [timestamp E]; [apply Em; by left|].
  cbn [ReceiveAppliedFiles_rows]. rewrite (bind_run _ _ _ _ _ E). cbn [fst snd] in *.
  destruct (IH (<[name := mkApplied name hash st timestamp]> m) ND) as (m' & E' & V).
  { intros n Hn. rewrite lookup_insert_ne by (intros <-; done). apply Em. by right. }
  exists m'. split; [done|]. rewrite V. unfold view. rewrite fmap_insert. cbn.
  rewrite <- insert_union_l. symmetry. rewrite insert_union_r; [done|].
  by apply not_elem_of_list_to_map_1.
Qed.

Lemma ReceiveAppliedFiles_view s :
  tidy (u_db s) → ∃ applied, ReceiveAppliedFiles stack s = (Ret applied, s) ∧
    view applied = updates (u_db s).
Proof using KL.
  intros Ty. unfold ReceiveAppliedFiles. rewrite bind_gets.
  pose proof (select_updates _ Ty) as L.
  destruct (db_retrieve _ _) as [[row rows]|].
  - destruct L as (entries & P & F).
    assert (NoDup entries.*1) as ND by (rewrite P; apply NoDup_fst_map_to_list).
    destruct (ReceiveAppliedFiles_rows_view entries (row :: rows) ∅ s F ND) as (m & E & V);
      [intros; apply lookup_empty|].
    exists m. split; [done|]. rewrite V. unfold view. rewrite fmap_empty, (right_id_L ∅ (∪)).
    rewrite (list_to_map_proper entries (map_to_list (updates (u_db s)))) by done.
    apply list_to_map_to_list.
  - exists ∅. split; [done|]. rewrite L. apply fmap_empty.
Qed.

Lemma hash_to_name_entries entries m :
  (∀ hash old, hash_to_name entries m !! hash = Some old →
    m !! hash = Some old ∨ ∃ e, (old, e) ∈ entries ∧ af_hash e = hash) ∧
  (∀ hash, is_Some (m !! hash) → is_Some (hash_to_name entries m !! hash)) ∧
  (∀ old e, (old, e) ∈ entries → is_Some (hash_to_name entries m !! af_hash e)).
Proof.
  revert m. induction entries as [|[name e] entries IH]; intros m; cbn [hash_to_name].
  { split; [by left|]. split; [done|]. intros ? ? []%elem_of_nil. }
  set (m' := match m !! af_hash e with Some _ => m | None => _ end).
  destruct (IH m') as (I1 & I2 & I3).
  assert (∀ hash old, m' !! hash = Some old → m !! hash = Some old ∨ (old = name ∧ af_hash e = hash)) as A.
  { intros hash old. unfold m'. destruct (m !! af_hash e); [by left|].
    rewrite lookup_insert_Some. naive_solver. }
  assert (∀ hash, is_Some (m !! hash) ∨ hash = af_hash e → is_Some (m' !! hash)) as B.
  { intros hash. unfold m'. destruct (m !! af_hash e) eqn:E.
    - intros [? | ->]; [done|by rewrite E].
    - rewrite lookup_insert_is_Some. intros [? | ->]; [|by left].
      destruct (decide (af_hash e = hash)); [by left|by right]. }
  split; [|split].
  - intros hash old Hh. destruct (I1 _ _ Hh) as [Hm|(e' & Hin & Eh)].
    { apply A in Hm as [Hm|(-> & Eh)]; [by left|right]. exists e. split; [by left|done]. }
    right. exists e'. split; [by right|done].
  - intros hash Hs. apply I2, B. by left.
  - intros old e' [E|Hin]%elem_of_cons; [simplify_eq; apply I2, B; by right|by eapply I3].
Qed.

Lemma hash_to_name_chooses applied : chooses (view applied) (hash_to_name (order applied) ∅).
Proof using order_list.
  destruct (hash_to_name_entries (order applied) ∅) as (A & _ & B).
  assert (∀ old e, (old, e) ∈ order applied ↔ applied !! old = Some e) as M.
  { intros old e. rewrite order_list. apply elem_of_map_to_list. }
  unfold view. split.
  - intros hash old Hh. destruct (A _ _ Hh) as [E|(e & Hin & <-)]; [by rewrite lookup_empty in E|].
    exists (af_state e). apply M in Hin. by rewrite lookup_fmap, Hin.
  - intros old hash st Ho. rewrite lookup_fmap in Ho.
    destruct (applied !! old) as [e|] eqn:E; [|done]. cbn in Ho. simplify_eq.
    eapply B. by apply M.
Qed.

(** The three loops of [Update] go through the passes. *)
Lemma three_loops (one : LocaleFileEntry → M UpdateException progress ()) available {A}
    (k : M UpdateException progress A) s :
  (_ ← for_each (λ e, if is_released e then one e else skip) available;
   _ ← for_each (λ e, if bool_decide (e.2 = CUSTOM) then one e else skip) available;
   _ ← for_each (λ e, if bool_decide (e.2 = MODULE) then one e else skip) available; k) s =
  (_ ← for_each one (passes available); k) s.
Proof.
  unfold passes, mbind, M_bind. rewrite for_each_filter, for_each_app. unfold mbind, M_bind.
  destruct (for_each one (List.filter is_released available) s) as [[[]|e| |] s1]; try done.
  rewrite for_each_filter, for_each_app. unfold mbind, M_bind.
  destruct (for_each one _ s1) as [[[]|e| |] s2]; try done. by rewrite for_each_filter.
Qed.
(** ** The cleanup *)

Lemma to_cleanup_known flags applied n :
  n ∈ to_cleanup order flags applied → is_Some (applied !! n).
Proof using order_list.
  unfold to_cleanup. destruct (_ || _); [|by intros ?%elem_of_nil].
  intros (p & -> & Hp)%list_elem_of_fmap. rewrite order_list in Hp. destruct p as [name e].
  apply elem_of_map_to_list in Hp. apply map_lookup_filter_Some in Hp as [Hp _]. by eexists.
Qed.

Lemma CleanUp_run names s :
  tidy (u_db s) → Forall plain names →
  ∃ s', CleanUp names s = (Ret (), s') ∧ u_files s' = u_files s ∧ u_imported s' = u_imported s ∧
    ∀ n, n ∉ names → updates (u_db s') !! n = updates (u_db s) !! n.
Proof using KL.
  intros Ty P. unfold CleanUp. case_bool_decide as E; [by eexists|].
  eexists. split; [reflexivity|]. split; [done|]. split; [done|]. intros n Hn.
  cbn [u_db set_db]. rewrite delete_entries by done. apply option_eq. intros e.
  rewrite map_lookup_filter_Some. naive_solver.
Qed.

(** ** A whole run *)

Definition readable (available : LocaleFileStorage) : Prop :=
  ∀ f, f ∈ available → is_Some (read_file f.1) ∧ plain (name_of f).

(** No two new files hold the same. *)
Definition no_copies (available : LocaleFileStorage) (tbl : table) : Prop :=
  ∀ f g, f ∈ available → g ∈ available → tbl !! name_of f = None → tbl !! name_of g = None →
    hash_of f.1 = hash_of g.1 → f = g.

(** What a run has done. *)
Definition run_ok (flags : Flags) (available : LocaleFileStorage) (tbl : table)
    (hashToName : gmap (list Z) (list Z)) (s : progress)
    (r : outcome UpdateException UpdateResult * progress) : Prop :=
  let needed := List.filter (needs flags available tbl hashToName) (passes available) in
  match r with
  | (Ret result, s') =>
      u_files s' = u_files s ++ map fst needed ∧ updated result = u64 (zlen needed) ∧
      ∀ f, f ∈ available → settled flags (updates (u_db s')) f
  | (Throw _, s') => ∃ f pre post, needed = pre ++ f :: post ∧
      u_files s' = u_files s ++ map fst (pre ++ [f]) ∧
      updates (u_db s') !! name_of f = tbl !! name_of f ∧
      ∀ g, g ∈ pre → settled flags (updates (u_db s')) g
  | _ => False
  end.

Lemma GetFileList_names fetcher s available s' :
  GetFileList fetcher s = (Ret available, s') → NoDup (map name_of available).
Proof.
  intros (directories & s1 & _ & E)%bind_ret_inv. unfold list_files in E.
  pose proof (FillFileList_files directories []) as F.
  pose proof (add_files (included directories) [] (Sorted.SSorted_nil _)) as A. rewrite <- F in A.
  destruct (FillFileList directories []) as [[[]|e| |] files]; try done.
  simplify_eq. apply ordered_unique, A.
Qed.

Lemma Update_run fetcher flags s available :
  GetFileList fetcher s = (Ret available, s) → tidy (u_db s) → readable available →
  no_copies available (updates (u_db s)) →
  ∃ hashToName, chooses (updates (u_db s)) hashToName ∧
    run_ok flags available (updates (u_db s)) hashToName s (Update order stack fetcher flags s).
Proof using OL KL order_list.
  intros El Ty Rd Nc. destruct (ReceiveAppliedFiles_view s Ty) as (applied & Ea & Va).
  pose proof (hash_to_name_chooses applied) as Ch. rewrite Va in Ch.
  exists (hash_to_name (order applied) ∅). split; [done|].
  unfold Update. rewrite (bind_run _ _ _ _ _ El).
  destruct (bool_decide (is_Some (_setDirectories fetcher)) && bool_decide (available = [])) eqn:E0.
  { apply andb_true_iff in E0 as [_ ->%bool_decide_eq_true]. cbn. rewrite app_nil_r.
    split; [done|]. split; [done|]. by intros f ?%elem_of_nil. }
  rewrite (bind_run _ _ _ _ _ Ea), bind_modify, three_loops.
  set (s1 := set_imported 0 (set_applied applied s)). unfold mbind at 1, M_bind at 1.
  assert (NoDup (map name_of ([] ++ passes available))) as ND.
  { cbn [app]. rewrite (passes_perm available). by eapply GetFileList_names. }
  assert (∀ g, g ∈ [] ++ passes available → g ∈ available) as Sub.
  { cbn [app]. intros g. by rewrite (passes_perm available). }
  assert (inv flags available (hash_to_name (order applied) ∅) (updates (u_db s)) []
    (passes available) s1) as I.
  { constructor; cbn [u_db u_applied s1 set_imported set_applied]; auto.
    - intros f []%elem_of_nil.
    - by intros; rewrite Va.
    - intros name. rewrite <- Va. unfold view. by rewrite lookup_fmap, fmap_is_Some.
    - intros f []%elem_of_nil. }
  pose proof (files_turns flags available _ (updates (u_db s)) (λ f Hf, proj1 (Rd f Hf))
    (λ f Hf, proj2 (Rd f Hf)) Ty Ch Nc (passes available) [] s1 I ND Sub) as R.
  destruct (for_each _ (passes available) s1) as [[[]|e| |] s2]; try done.
  destruct R as (I2 & F2 & C2). cbn [app] in I2. rewrite bind_gets.
  assert (∀ f, f ∈ available → f ∈ passes available) as Sub' by (intros f; by rewrite (passes_perm available)).
  assert (∃ s3, (if negb (bool_decide (u_applied s2 = ∅)) && bool_decide (_setDirectories fetcher = None)
      then CleanUp (to_cleanup order flags (u_applied s2)) else skip) s2 = (Ret (), s3) ∧
    u_files s3 = u_files s2 ∧ u_imported s3 = u_imported s2 ∧
    ∀ f, f ∈ available → updates (u_db s3) !! name_of f = updates (u_db s2) !! name_of f)
    as (s3 & E3 & F3 & C3 & T3).
  { destruct (_ && bool_decide (_setDirectories fetcher = None)); [|by eexists].
    destruct (CleanUp_run (to_cleanup order flags (u_applied s2)) s2) as (s3 & E & F & C & T).
    - apply I2.
    - apply Forall_forall. intros n Hn%to_cleanup_known. by apply Ty, I2.
    - exists s3. repeat split; try done. intros f Hf. apply T. intros Hn%to_cleanup_known.
      rewrite (i_gone _ _ _ _ _ _ _ I2 f (Sub' f Hf)) in Hn. by destruct Hn. }
  rewrite (bind_run _ _ _ _ _ E3), bind_gets. cbn. rewrite F3, F2, C3, C2 by done.
  split; [done|]. split; [by rewrite Z.add_0_l|]. intros f Hf. unfold settled. rewrite T3 by done.
  apply (i_done _ _ _ _ _ _ _ I2). auto.
Qed.

(** C11: every update file is applied once, provided that every file can be read,
    that no two new files hold the same (of two that hold what a file that is gone
    held, the second is neither applied nor recorded, [second_rename_loses_file]),
    and that no name has a quote.  A run applies exactly the files that need it:
    those the table [updates] does not know, unless their contents are those of an
    entry whose file is gone and which is then renamed, and those whose hash has
    changed, unless the flags leave files of their state unchecked or have a
    missing hash only filled in.  It applies first the released and archived ones,
    then the custom ones, then those of modules, each in the order of their names;
    it reports their number, and then every file is in the table with its hash or
    is one that the flags leave unchecked.  A run broken off by a file that cannot
    be applied has recorded all files before it, and not that one.  A later run
    with the same files applies none. *)
Theorem update_applies_once (fetcher : UpdateFetcher) (flags : Flags) (s : progress)
    (available : LocaleFileStorage)
    (Hl : GetFileList fetcher s = (Ret available, s)) (Ht : tidy (u_db s))
    (Hr : readable available) (Hc : no_copies available (updates (u_db s))) :
  (∃ hashToName, chooses (updates (u_db s)) hashToName ∧
    run_ok flags available (updates (u_db s)) hashToName s (Update order stack fetcher flags s)) ∧
  ∀ result s' s2, Update order stack fetcher flags s = (Ret result, s') →
    u_db s2 = u_db s' → tidy (u_db s2) → GetFileList fetcher s2 = (Ret available, s2) →
    ∃ result2 s3, Update order stack fetcher flags s2 = (Ret result2, s3) ∧
      updated result2 = 0 ∧ u_files s3 = u_files s2.
Proof using OL KL order_list.
  destruct (Update_run fetcher flags s available Hl Ht Hr Hc) as (h & Ch & R).
  split; [by exists h|]. intros result s' s2 E Ed Ty El. rewrite E in R.
  destruct R as (_ & _ & St). rewrite <- Ed in St.
  destruct (Update_run fetcher flags s2 available El Ty Hr) as (h2 & _ & R2).
  { intros f g Hf _ Ef. destruct (St f Hf) as (hash & st & Es & _). by rewrite Ef in Es. }
  assert (List.filter (needs flags available (updates (u_db s2)) h2) (passes available) = []) as En.
  { assert (∀ f, f ∈ passes available → needs flags available (updates (u_db s2)) h2 f = false) as N.
    { intros f. rewrite (passes_perm available). intros Hf. by apply settled_needs, St. }
    revert N. generalize (passes available). clear. intros l N.
    induction l as [|x l IH]; [done|]. cbn. rewrite N by (by left). apply IH. intros. apply N. by right. }
  unfold run_ok in R2. rewrite En in R2.
  destruct (Update order stack fetcher flags s2) as [[result2|e| |] s3]; try done.
  - destruct R2 as (F & C & _). exists result2, s3. cbn in F. by rewrite app_nil_r in F.
  - destruct R2 as (f & pre & post & X & _). by destruct pre.
Qed.
End whole_run.
End updates.
End Updates.

(** ** Witnesses

    A server that keeps the table and understands the statements of the fetcher,
    and a source directory with three files. *)

Fixpoint toy_odd (l : list (list Z)) : list (list Z) :=
  match l with x :: _ :: l => x :: toy_odd l | _ => [] end.

Definition toy_state_of (s : list Z) : option State :=
  match Strings.split 39 s with [_; st; _] => Some (Sql.StateConvert_text st) | _ => None end.

Definition toy_execute (sql : list Z) (d : table) : table :=
  match Strings.split 34 sql with
  | a :: rest =>
      if bool_decide (a = str "DELETE FROM `updates` WHERE `name` IN(")
      then filter (λ p, p.1 ∉ toy_odd rest) d
      else match rest with
      | [name; _] =>
          match toy_state_of a with
          | Some st => alter (λ e, (e.1, st)) name d
          | None => delete name d
          end
      | [x; _; y; c] =>
          match toy_state_of c with
          | Some st => <[x := (y, st)]> d
          | None => match d !! y with Some e => <[x := e]> (delete y d) | None => d end
          end
      | _ => d
      end
  | [] => d
  end.

Definition toy_field (s : list Z) : Field :=
  mkField (Some (s ++ [0])) (zlen s) false (Some (demo_column [] [] FieldInt64)).

Definition toy_row (e : list Z * (list Z * State)) : list Field :=
  [toy_field e.1; toy_field e.2.1; toy_field (Sql.StateConvert e.2.2); toy_field (str "1")].

Definition toy_retrieve (sql : list Z) (d : table) : option (list Field * list (list Field)) :=
  if bool_decide (sql = Sql.SELECT_INCLUDE) then
    Some ([toy_field (str "$/u"); toy_field (str "RELEASED")],
          [[toy_field (str "$/c"); toy_field (str "CUSTOM")]])
  else match map toy_row (map_to_list d) with [] => None | row :: rows => Some (row, rows) end.

#[local] Instance toy_target : UpdateTarget := {|
  DB := table;
  db_apply := toy_execute;
  db_applyFile p d := (negb (bool_decide (p = str "/s/u/bad.sql")), d);
  db_retrieve := toy_retrieve
|}.

#[local] Instance toy_books : BookKeeping := {|
  updates (d : DB) := d;
  plain name := 34 ∉ name
|}.

(** A character that a constant text does not hold, by computation. *)
Ltac no_char := first [assumption | apply (bool_decide_eq_true_1 _); vm_compute; reflexivity].

Lemma split_quoted a name rest :
  34 ∉ a → 34 ∉ name →
  Strings.split 34 (a ++ Sql.quoted name ++ rest) = a :: name :: Strings.split 34 rest.
Proof.
  intros Ha Hn. unfold Sql.quoted. rewrite <- !app_assoc. cbn [app].
  rewrite Strings.split_app by done. f_equal. by rewrite Strings.split_app.
Qed.

Lemma hex_plain digest : Forall is_byte digest → 34 ∉ Strings.ByteArrayToHexStr digest false.
Proof.
  intros F Hin. rewrite Strings.ByteArrayToHexStr_spec in Hin. unfold Strings.hex in Hin.
  apply list_elem_of_In, in_concat in Hin as (t & Ht & Hin). apply in_map_iff in Ht as (b & <- & Hb).
  rewrite Forall_forall in F. specialize (F b (proj2 (list_elem_of_In _ _) Hb)).
  pose proof (byte_forall (λ b, negb (existsb (Z.eqb 34) (Strings.hex_byte b))) eq_refl b F) as N.
  apply negb_true_iff in N. assert (existsb (Z.eqb 34) (Strings.hex_byte b) = true) as E; [|congruence].
  apply existsb_exists. exists 34. by split.
Qed.

Lemma digits_plain c v : 0 <= v < 2 ^ 32 → ¬ Strings.is_digit c → c ∉ Strings.fmt_dec v.
Proof.
  intros Hv Hc Hin. destruct (Timer.fmt_dec_digits v) as (_ & F & _); [lia|].
  rewrite Forall_forall in F. by apply Hc, F.
Qed.

Lemma toy_odd_names names :
  Forall (λ name, 34 ∉ name) names → names ≠ [] →
  toy_odd (Strings.split 34 (drop 1 (Sql.names_in names ++ str ")"))) = names.
Proof.
  intros F N. destruct names as [|name names]; [done|]. clear N. revert name F.
  induction names as [|name' names IH]; intros name F; inversion F as [|? ? F1 F2]; subst.
  - cbn [Sql.names_in]. unfold Sql.quoted. rewrite <- !app_assoc. cbn [app].
    rewrite skipn_cons, drop_0, Strings.split_app by done. reflexivity.
  - assert (Sql.names_in (name :: name' :: names) = Sql.quoted name ++ str ", " ++ Sql.names_in (name' :: names))
      as -> by done.
    assert (∃ r, Sql.names_in (name' :: names) = 34 :: r) as [r Er] by (destruct names; by eexists).
    specialize (IH name' F2). rewrite Er in *. unfold Sql.quoted.
    rewrite <- !app_assoc. cbn [app] in *. rewrite skipn_cons, drop_0 in *. rewrite Strings.split_app by done.
    change (str ", " ++ 34 :: r ++ str ")") with (str ", " ++ 34 :: (r ++ str ")")).
    rewrite Strings.split_app by no_char. cbn [toy_odd]. by rewrite IH.
Qed.

Lemma toy_state_text st a b :
  39 ∉ a → 39 ∉ b → toy_state_of (a ++ str "'" ++ Sql.StateConvert st ++ str "'" ++ b) = Some st.
Proof.
  intros Ha Hb. unfold toy_state_of. change (str "'") with [39]. cbn [app].
  rewrite Strings.split_app, (Strings.split_app 39 (Sql.StateConvert st)), (Strings.split_alone 39 b)
    by (first [assumption|destruct st; no_char]).
  by rewrite Sql.StateConvert_back.
Qed.

Lemma toy_replace d name digest state speed :
  34 ∉ name → Forall is_byte digest → 0 <= speed < 2 ^ 32 →
  let hash := Strings.ByteArrayToHexStr digest false in
  toy_execute (Sql.UpdateEntry (mkApplied name hash state 0) speed) d = <[name := (hash, state)]> d.
Proof.
  intros Hn Hd Hs hash. unfold toy_execute, Sql.UpdateEntry. cbn [af_name af_hash af_state].
  rewrite split_quoted by no_char.
  rewrite bool_decide_eq_false_2 by done.
  rewrite (split_quoted (str ", ") hash); [|no_char|exact (hex_plain digest Hd)].
  rewrite Strings.split_alone.
  - change (str ", '") with (str ", " ++ str "'"). change (str "', ") with (str "'" ++ str ", ").
    rewrite <- !app_assoc. rewrite toy_state_text; [done|no_char|].
    rewrite !not_elem_of_app. repeat split; [no_char| |no_char].
    apply digits_plain; [done|]. by intros [??].
  - rewrite !not_elem_of_app. repeat split; [no_char|destruct state; no_char|no_char| |no_char].
    apply digits_plain; [done|]. by intros [??].
Qed.

Lemma toy_field_text s : Fields.GetDataString (toy_field s) = Ret s.
Proof.
  unfold Fields.GetDataString, Fields.bytes, toy_field. cbn [value data_length].
  rewrite zlen_app. rewrite (proj2 (Z.leb_le _ _)) by zlen_lia. by rewrite ztake_app_exact.
Qed.

#[local] Existing Instance toy_floats.

#[local] Instance toy_books_laws : BookKeepingLaws.
Proof.
  split; cbn [DB updates plain toy_books toy_target db_apply db_retrieve db_applyFile].
  - intros d _. unfold toy_retrieve. rewrite bool_decide_eq_false_2 by done.
    destruct (map_to_list d) as [|e entries] eqn:E; cbn [map].
    + by apply map_to_list_empty_iff.
    + exists (e :: entries). split; [by rewrite <- E|]. change (toy_row e :: map toy_row entries) with
        (map toy_row (e :: entries)). clear E. apply Forall2_fmap_r, Forall_Forall2_diag, Forall_forall.
      intros [name [hash st]] _. unfold row_is, toy_row. do 5 eexists. split; [reflexivity|].
      rewrite !toy_field_text. repeat split. intros stack. by eexists.
  - intros d name digest state speed _ Hn _ Hd Hs. by apply toy_replace.
  - intros d name _ Hn. unfold toy_execute, Sql.RenameEntry_delete.
    rewrite <- (app_nil_r (Sql.quoted name)), split_quoted by no_char.
    reflexivity.
  - intros d from to _ Hf Ht _. unfold toy_execute, Sql.RenameEntry_update.
    rewrite split_quoted by no_char.
    rewrite <- (app_nil_r (Sql.quoted from)), split_quoted by no_char.
    reflexivity.
  - intros d name state _ Hn. unfold toy_execute, Sql.UpdateState.
    rewrite <- (app_nil_r (Sql.quoted name)). 
    change (str "UPDATE `updates` SET `state`='") with (str "UPDATE `updates` SET `state`=" ++ str "'").
    change (str "' WHERE `name`=") with (str "'" ++ str " WHERE `name`=").
    rewrite !app_assoc. rewrite <- (app_assoc _ (Sql.quoted name) []).
    rewrite split_quoted by (rewrite ?not_elem_of_app; repeat split; first [no_char|destruct state; no_char]).
    rewrite bool_decide_eq_false_2 by (by destruct state).
    cbn [Strings.split]. rewrite <- !app_assoc, toy_state_text by (no_char). done.
  - intros d names _ Hn N. unfold toy_execute, Sql.CleanUp.
    pose proof (toy_odd_names names Hn N) as O.
    assert (∃ r, Sql.names_in names = 34 :: r) as [r Er].
    { destruct names as [|? [|? ?]]; [done|by eexists..]. }
    rewrite Er in *. cbn [app] in *. rewrite skipn_cons, drop_0 in O.
    rewrite Strings.split_app by (no_char).
    rewrite bool_decide_eq_true_2 by done. by rewrite O.
  - done.
Qed.

#[local] Instance toy_files : FileSystem := {|
  is_directory p := bool_decide (p ∈ [str "/s/u"; str "/s/c"; str "/s/u/deep"]);
  directory_iterator p :=
    if bool_decide (p = str "/s/u")
    then [str "/s/u/b.sql"; str "/s/u/deep"; str "/s/u/read.me"; str "/s/u/a.sql"]
    else if bool_decide (p = str "/s/c") then [str "/s/c/c.sql"]
    else if bool_decide (p = str "/s/u/deep") then [str "/s/u/deep/d.sql"] else [];
  read_file p := Some (drop 5 p)
|}.

#[local] Existing Instance SRP6.toy_openssl.
#[local] Existing Instance SRP6.toy_openssl_laws.

(** [a.sql] is unchanged, [b.sql] is new, [c.sql] has changed, and [d.sql] was
    [old.sql]. *)
Definition toy_table : table :=
  <[str "a.sql" := (Updates.hash_of (str "/s/u/a.sql"), RELEASED)]>
  (<[str "c.sql" := (str "00", CUSTOM)]>
  (<[str "old.sql" := (Updates.hash_of (str "/s/u/deep/d.sql"), RELEASED)]> ∅)).

Definition toy_fetcher : UpdateFetcher := mkFetcher (str "/s") (str "db_discord") None [].
Definition toy_flags : Flags := mkFlags true true false 3.
Definition toy_progress (d : table) : progress := mkProgress toy_target d ∅ 0 [5000000; 12000000] [].
Definition toy_available : LocaleFileStorage :=
  [(str "/s/u/a.sql", RELEASED); (str "/s/u/b.sql", RELEASED); (str "/s/c/c.sql", CUSTOM);
   (str "/s/u/deep/d.sql", RELEASED)].

Definition toy_update (d : table) : outcome UpdateException UpdateResult * progress :=
  Fetcher.Update map_to_list 0 toy_fetcher toy_flags (toy_progress d).

Lemma tidy_by_computation (d : table) :
  bool_decide (map_Forall (λ name _, 34 ∉ name) d) = true → tidy d.
Proof.
  intros H%bool_decide_eq_true name [e E]. exact (H name e E).
Qed.

Definition toy_table_after : table :=
  <[str "a.sql" := (Updates.hash_of (str "/s/u/a.sql"), RELEASED)]>
  (<[str "b.sql" := (Updates.hash_of (str "/s/u/b.sql"), RELEASED)]>
  (<[str "c.sql" := (Updates.hash_of (str "/s/c/c.sql"), CUSTOM)]>
  (<[str "d.sql" := (Updates.hash_of (str "/s/u/deep/d.sql"), RELEASED)]> ∅))).

Lemma update_applies_once_witness :
  ∃ result s', toy_update toy_table = (Ret result, s') ∧
    u_files s' = [str "/s/u/b.sql"; str "/s/c/c.sql"] ∧ result = mkResult 2 2 1 ∧
    updates (u_db s') = toy_table_after ∧
    ∃ result2 s3, toy_update (u_db s') = (Ret result2, s3) ∧ updated result2 = 0 ∧ u_files s3 = [].
Proof.
  assert (tidy (u_db (toy_progress toy_table))) as Ty.
  { apply tidy_by_computation. vm_compute. reflexivity. }
  assert (Fetcher.GetFileList toy_fetcher (toy_progress toy_table) =
    (Ret toy_available, toy_progress toy_table)) as El
    by vm_cast_no_check (eq_refl (Ret (E := UpdateException) toy_available, toy_progress toy_table)).
  assert (Updates.readable toy_available) as Rd.
  { intros f Hf. split; [by eexists|]. revert f Hf. apply Forall_forall.
    apply (bool_decide_eq_true_1 (Forall (λ f : LocaleFileEntry, 34 ∉ Files.name_of f) toy_available)).
    vm_compute. reflexivity. }
  assert (Updates.no_copies toy_available (updates (u_db (toy_progress toy_table)))) as Nc.
  { assert (Forall (λ f : LocaleFileEntry, Forall (λ g : LocaleFileEntry,
      toy_table !! Files.name_of f = None → toy_table !! Files.name_of g = None →
      Updates.hash_of f.1 = Updates.hash_of g.1 → f = g) toy_available) toy_available) as F
      by (apply (bool_decide_eq_true_1 _); vm_compute; reflexivity).
    intros f g Hf Hg. rewrite Forall_forall in F. specialize (F f Hf).
    rewrite Forall_forall in F. exact (F g Hg). }
  destruct (Updates.update_applies_once map_to_list (λ m, reflexivity _) 0 toy_fetcher toy_flags
    (toy_progress toy_table) toy_available El Ty Rd Nc) as [_ Later].
  assert (∃ s', toy_update toy_table = (Ret (mkResult 2 2 1), s') ∧
    u_files s' = [str "/s/u/b.sql"; str "/s/c/c.sql"] ∧ updates (u_db s') = toy_table_after)
    as (s' & E & F & D).
  { assert (((toy_update toy_table).1, u_files (toy_update toy_table).2,
      updates (u_db (toy_update toy_table).2)) =
      (Ret (mkResult 2 2 1), [str "/s/u/b.sql"; str "/s/c/c.sql"], toy_table_after)) as E
      by vm_cast_no_check (eq_refl (Ret (E := UpdateException) (mkResult 2 2 1),
           [str "/s/u/b.sql"; str "/s/c/c.sql"], toy_table_after)).
    destruct (toy_update toy_table) as [o s']. cbn [fst snd] in E.
    apply pair_equal_spec in E as [E E3]. apply pair_equal_spec in E as [-> E2].
    exists s'. exact (conj eq_refl (conj E2 E3)). }
  exists (mkResult 2 2 1), s'. split; [exact E|]. split; [exact F|]. split; [reflexivity|].
  split; [exact D|].
  apply (Later _ s' (toy_progress (u_db s')) E eq_refl).
  - change (u_db s') with (updates (u_db s')). rewrite D. apply tidy_by_computation.
    vm_compute. reflexivity.
  - change (u_db s') with (updates (u_db s')). rewrite D.
    vm_cast_no_check (eq_refl (Ret (E := UpdateException) toy_available, toy_progress toy_table_after)).
Defined.

(** Two new files with the contents of one that is gone: the second one is taken
    for the first again, and is neither applied nor recorded in this run. *)
Definition copies : FileSystem := {|
  is_directory p := bool_decide (p = str "/s/u");
  directory_iterator _ := [str "/s/u/one.sql"; str "/s/u/two.sql"];
  read_file _ := Some (str "x")
|}.

Example second_rename_loses_file :
  let hash := Updates.hash_of (H := copies) (str "/s/u/one.sql") in
  let d : table := <[str "old.sql" := (hash, RELEASED)]> ∅ in
  let '(o, s) := Fetcher.Update (H := copies) map_to_list 0 toy_fetcher toy_flags (toy_progress d) in
  o = Ret (mkResult 0 1 0) ∧ u_files s = [] ∧
  updates (u_db s) !! str "one.sql" = Some (hash, RELEASED) ∧
  updates (u_db s) !! str "two.sql" = None.
Proof.
  assert (let r := Fetcher.Update (H := copies) map_to_list 0 toy_fetcher toy_flags
      (toy_progress (<[str "old.sql" := (Updates.hash_of (H := copies) (str "/s/u/one.sql"), RELEASED)]> ∅)) in
    (r.1, u_files r.2, updates (u_db r.2)) = (Ret (mkResult 0 1 0), [],
      <[str "one.sql" := (Updates.hash_of (H := copies) (str "/s/u/one.sql"), RELEASED)]> ∅)) as E
    by vm_cast_no_check (eq_refl (Ret (E := UpdateException) (mkResult 0 1 0), [] : list path,
      <[str "one.sql" := (Updates.hash_of (H := copies) (str "/s/u/one.sql"), RELEASED)]> (∅ : table))).
  cbv zeta in *. destruct (Fetcher.Update _ _ _ _ _) as [o s]. cbn [fst snd] in E.
  apply pair_equal_spec in E as [E ->]. apply pair_equal_spec in E as [-> ->].
  split; [reflexivity|]. split; [reflexivity|]. split; vm_compute; reflexivity.
Qed.
