(* ===== verification/Updater.v ===== *)
(** * Updater: creating, filling and updating a database

    Model of [DBUpdater.h] and [DBUpdater.cpp] under [src/src/database/Updater] and
    of [BuiltInConfig.cpp] ([src/src/common/Configuration]).  Files of SQL are
    executed by the external client [mysql]; the calls made of it are recorded.
    The variant for systems other than Windows and MySQL 8 is modelled. *)

From S2P Require Import Prelude Utf8 Strings BigNumber Srp6 Timer Statements Fields Results MySQL Config Files Fetcher.
Open Scope Z_scope.

(** The server, the client process and what else the operating system is asked.
    [StartProcess] gives the exit status; [write_file] fails when the file cannot
    be opened. *)
Class Client := {
  Db : Type;
  query_execute : list Z → Db → Db;
  query_retrieve : list Z → Db → option (list Field * list (list Field));
  StartProcess : path → list (list Z) → path → Db → Z * Db;
  write_file : path → list Z → Db → option Db;
  remove_file : path → Db → Db;
  is_regular_file : path → bool;
  SearchExecutableInPath : list Z → path;
  absolute : path → path
}.

(** What the build has written into [GitRevision]. *)
Record GitRevision := mkGit {
  git_CMakeCommand : list Z;
  git_BuildDirectory : list Z;
  git_SourceDirectory : list Z;
  git_MySQLExecutable : list Z
}.

Module BuiltInConfig.

Definition GetStringWithDefaultValueFromFunction (key getter : list Z) (cfg : ConfigMgr) : list Z :=
  let value := Config.GetOption_str key [] cfg in
  if bool_decide (value = []) then getter else value.

Definition GetCMakeCommand (git : GitRevision) : ConfigMgr → list Z :=
  GetStringWithDefaultValueFromFunction (str "CMakeCommand") (git_CMakeCommand git).
Definition GetBuildDirectory (git : GitRevision) : ConfigMgr → list Z :=
  GetStringWithDefaultValueFromFunction (str "BuildDirectory") (git_BuildDirectory git).
Definition GetSourceDirectory (git : GitRevision) : ConfigMgr → list Z :=
  GetStringWithDefaultValueFromFunction (str "SourceDirectory") (git_SourceDirectory git).
Definition GetMySQLExecutable (git : GitRevision) : ConfigMgr → list Z :=
  GetStringWithDefaultValueFromFunction (str "MySQLExecutable") (git_MySQLExecutable git).
End BuiltInConfig.

(** One call of the client. *)
Record call_of_client := mkCall {
  cc_executable : path;
  cc_args : list (list Z);
  cc_input : path
}.

(** [corrected_path()], the server, and the calls so far. *)
Record host `{Client} := mkHost {
  h_corrected_path : path;
  h_db : Db;
  h_calls : list call_of_client
}.

Module DBUpdater.
Section updater.
Context `{FileSystem} `{OpenSSL} `{Floats} `{C : Client}.
Context (order : gmap (list Z) AppliedFileEntry → list (list Z * AppliedFileEntry)).
Context (stack : nat).
Context (git : GitRevision) (cfg : ConfigMgr) (info : MySQLConnectionInfo).

Abbreviation Run := (M UpdateException host).

Definition set_corrected_path (v : path) (h : host) : host := mkHost _ v (h_db h) (h_calls h).
Definition set_db (v : Db) (h : host) : host := mkHost _ (h_corrected_path h) v (h_calls h).

Definition GetCorrectedMySQLExecutable (h : host) : path :=
  if negb (bool_decide (h_corrected_path h = [])) then h_corrected_path h
  else BuiltInConfig.GetMySQLExecutable git cfg.

Definition CheckExecutable : Run bool :=
  exe ← gets GetCorrectedMySQLExecutable;
  if is_regular_file exe then mret true
  else
    let exe := SearchExecutableInPath (str "mysql") in
    if negb (bool_decide (exe = [])) && is_regular_file exe
    then _ ← modify (set_corrected_path (absolute exe)); mret true
    else mret false.

Definition GetConfigEntry : list Z := str "Updates.Discord".
Definition GetTableName : list Z := str "Discord".
Definition GetDBModuleName : list Z := str "db_discord".
Definition DATABASE_LOGIN : Z := 1.
Definition IsEnabled (updateMask : Z) : bool := negb (Z.land updateMask DATABASE_LOGIN =? 0).

Definition GetBaseFilesDirectory : path :=
  BuiltInConfig.GetSourceDirectory git cfg ++ str "/sql/base/db_" ++
  Strings.GetLowerString GetTableName ++ str "/".

(** ** The client *)

(** The character behind the end of a [std::string] is 0. *)
Definition ApplyFile_args (database : list Z) : list (list Z) :=
  let port_or_socket := ci_port_or_socket info in
  [str "-h" ++ ci_host info; str "-u" ++ ci_user info] ++
  (if negb (bool_decide (ci_password info = [])) then [str "-p" ++ ci_password info] else []) ++
  (if negb (Strings.in_range 48 (default 0 (head port_or_socket)) 57)
   then [str "-P0"; str "--protocol=SOCKET"; str "-S" ++ port_or_socket]
   else [str "-P" ++ port_or_socket]) ++
  [str "--default-character-set=utf8"; str "--max-allowed-packet=1GB"] ++
  (if bool_decide (ci_ssl info = str "ssl") then [str "--ssl-mode=REQUIRED"] else []) ++
  (if negb (bool_decide (database = [])) then [database] else []).

Definition ApplyFile_to (database : list Z) (p : path) : Run () := λ h,
  let exe := GetCorrectedMySQLExecutable h in
  let args := ApplyFile_args database in
  let '(ret, db) := StartProcess exe args p (h_db h) in
  (if ret =? 0 then Ret () else Throw (mkUpdateException (str "update failed")),
   mkHost _ (h_corrected_path h) db (h_calls h ++ [mkCall exe args p])).

Definition ApplyFile : path → Run () := ApplyFile_to (ci_database info).

(** A [try] around [ApplyFile] that answers [false] for the exception. *)
Definition attempt (m : Run ()) : Run bool := λ h,
  match m h with
  | (Ret _, h) => (Ret true, h)
  | (Throw _, h) => (Ret false, h)
  | (AssertFail, h) => (AssertFail, h)
  | (UB, h) => (UB, h)
  end.

Definition Retrieve (query : list Z) (h : host) : option (list Field * list (list Field)) :=
  query_retrieve query (h_db h).
Definition Apply (query : list Z) (h : host) : host := set_db (query_execute query (h_db h)) h.

(** The database as the fetcher sees it. *)
Definition target : UpdateTarget := {|
  DB := host;
  db_apply := Apply;
  db_applyFile p h := match ApplyFile p h with (Ret _, h) => (true, h) | (_, h) => (false, h) end;
  db_retrieve := Retrieve
|}.

(** ** Creating a database *)

Definition CREATE_TABLE : path := str "create_table.sql".

(** [answer] is the line read from the console. *)
Definition Create (answer : list Z) : Run bool :=
  if negb (bool_decide (answer = [])) && negb (bool_decide (take 1 answer = str "y"))
  then mret false
  else
    written ← gets (λ h, write_file CREATE_TABLE (str "CREATE DATABASE `" ++ ci_database info ++
      str "` DEFAULT CHARACTER SET UTF8MB4 COLLATE utf8mb4_general_ci;" ++ [10; 10]) (h_db h));
    match written with
    | None => mret false
    | Some db =>
        _ ← modify (set_db db);
        ok ← attempt (ApplyFile_to [] CREATE_TABLE);
        _ ← modify (λ h, set_db (remove_file CREATE_TABLE (h_db h)) h);
        mret ok
    end.

(** ** Updating it *)

Definition CheckUpdateTable (tableName : list Z) : Run bool :=
  checkTable ← gets (Retrieve (str "SHOW TABLES LIKE '" ++ tableName ++ str "'"));
  match checkTable with
  | Some _ => mret true
  | None => attempt (ApplyFile (GetBaseFilesDirectory ++ tableName ++ str ".sql"))
  end.

Definition flags : Flags :=
  mkFlags (Config.GetOption_bool (str "Updates.Redundancy") true cfg)
    (Config.GetOption_bool (str "Updates.AllowRehash") true cfg)
    (Config.GetOption_bool (str "Updates.ArchivedRedundancy") false cfg)
    (Config.GetOption_int (Strings.mkInt true 32) (str "Updates.CleanDeadRefMaxCount") 3 cfg).

Definition run_fetcher (fetcher : UpdateFetcher) (clock : list Z) : Run bool := λ h,
  match Fetcher.Update (T := target) order stack fetcher flags (mkProgress target h ∅ 0 clock []) with
  | (Ret _, s) => (Ret true, u_db s)
  | (Throw _, s) => (Ret false, u_db s)
  | (AssertFail, s) => (AssertFail, u_db s)
  | (UB, s) => (UB, u_db s)
  end.

(** Both overloads: with the list of modules, and with directories that are
    given. *)
Definition Update (setDirectories : option (list (list Z))) (modulesList : list Z)
    (clock : list Z) : Run bool :=
  exe ← CheckExecutable;
  if negb exe then mret false
  else
    let sourceDirectory := BuiltInConfig.GetSourceDirectory git cfg in
    if negb (is_directory sourceDirectory) then mret false
    else
      updates ← CheckUpdateTable (str "updates");
      if negb updates then mret false
      else
        include ← CheckUpdateTable (str "updates_include");
        if negb include then mret false
        else run_fetcher (mkFetcher sourceDirectory GetDBModuleName setDirectories modulesList) clock.

(** ** Filling an empty one *)

Definition is_sql (p : path) : bool := bool_decide (Path.extension p = str ".sql").

Fixpoint apply_files (files : list path) : Run bool :=
  match files with
  | [] => mret true
  | p :: files =>
      if negb (is_sql p) then apply_files files
      else ok ← attempt (ApplyFile p); if (ok : bool) then apply_files files else mret false
  end.

(** [GetRowCount] of a result that is there is not 0 ([Pool.Query] gives up empty
    ones). *)
Definition Populate : Run bool :=
  result ← gets (Retrieve (str "SHOW TABLES"));
  match result with
  | Some _ => mret true
  | None =>
      exe ← CheckExecutable;
      if negb exe then mret false
      else if negb (is_directory GetBaseFilesDirectory) then mret false
      else
        let files := directory_iterator GetBaseFilesDirectory in
        if bool_decide (List.filter is_sql files = []) then mret false
        else apply_files files
  end.

(** ** What filling leaves behind *)

(** The exit statuses of the client when it is given the files one after another,
    up to the first that is not 0, and the server then. *)
Fixpoint outcomes (exe : path) (args : list (list Z)) (files : list path) (db : Db) : list Z * Db :=
  match files with
  | [] => ([], db)
  | p :: files =>
      let '(status, db) := StartProcess exe args p db in
      if status =? 0 then let '(l, db) := outcomes exe args files db in (0 :: l, db)
      else ([status], db)
  end.

(** The state after the files were given to the client. *)
Definition given (exe : path) (args : list (list Z)) (files : list path) (h : host) : host :=
  let '(statuses, db) := outcomes exe args files (h_db h) in
  mkHost _ (h_corrected_path h) db
    (h_calls h ++ map (mkCall exe args) (take (length statuses) files)).

Lemma ApplyFile_to_run database p h :
  ApplyFile_to database p h =
  (let '(status, db) := StartProcess (GetCorrectedMySQLExecutable h) (ApplyFile_args database) p (h_db h) in
   (if status =? 0 then Ret () else Throw (mkUpdateException (str "update failed")),
    mkHost _ (h_corrected_path h) db
      (h_calls h ++ [mkCall (GetCorrectedMySQLExecutable h) (ApplyFile_args database) p]))).
Proof. reflexivity. Qed.

Lemma apply_files_given files h :
  let exe := GetCorrectedMySQLExecutable h in
  let args := ApplyFile_args (ci_database info) in
  let statuses := (outcomes exe args (List.filter is_sql files) (h_db h)).1 in
  apply_files files h = (Ret (forallb (Z.eqb 0) statuses), given exe args (List.filter is_sql files) h).
Proof.
  revert h. induction files as [|p files IH]; intros h; cbn [apply_files List.filter].
  { unfold given. cbn. rewrite app_nil_r. by destruct h. }
  destruct (is_sql p); cbn [negb]; [|apply IH]. cbn zeta. unfold given. cbn [outcomes].
  unfold mbind, M_bind, attempt, ApplyFile. rewrite ApplyFile_to_run.
  set (exe := GetCorrectedMySQLExecutable h) in *. set (args := ApplyFile_args (ci_database info)) in *.
  destruct (StartProcess exe args p (h_db h)) as [status db] eqn:E. cbn [fst snd].
  destruct (Z.eqb_spec status 0) as [->|N].
  - rewrite IH. unfold given. cbn [h_db h_corrected_path h_calls].
    change (GetCorrectedMySQLExecutable _) with exe. fold args.
    destruct (outcomes exe args (List.filter is_sql files) db) as [l db'].
    cbn [fst snd length take map forallb Z.eqb andb]. by rewrite <- app_assoc.
  - cbn [fst snd length take map forallb]. destruct (Z.eqb_spec 0 status); [by subst|]. done.
Qed.

(** An empty database is filled by giving the client every [.sql] file of the
    base directory, in the order of the directory and with the arguments for this
    database, up to the first one it does not accept; filling succeeds exactly when
    all were accepted.  A database with a table is left alone, and without a client,
    a base directory or a file in it nothing is run. *)
Theorem populate_exact (h : host) :
  let files := List.filter is_sql (directory_iterator GetBaseFilesDirectory) in
  let '(found, h1) := CheckExecutable h in
  let exe := GetCorrectedMySQLExecutable h1 in
  let args := ApplyFile_args (ci_database info) in
  match Retrieve (str "SHOW TABLES") h with
  | Some _ => Populate h = (Ret true, h)
  | None =>
      if match found with Ret b => b | _ => false end && is_directory GetBaseFilesDirectory
         && negb (bool_decide (files = []))
      then Populate h = (Ret (forallb (Z.eqb 0) (outcomes exe args files (h_db h1)).1),
                         given exe args files h1)
      else Populate h = (Ret false, h1) ∧ h_db h1 = h_db h ∧ h_calls h1 = h_calls h
  end.
Proof.
  cbn zeta. unfold Populate. rewrite bind_gets.
  assert (∃ b h1, CheckExecutable h = (Ret b, h1) ∧ h_db h1 = h_db h ∧ h_calls h1 = h_calls h)
    as (b & h1 & E & Ed & Ec).
  { unfold CheckExecutable. rewrite bind_gets. case_match; [by eexists _, _|].
    case_match; [|by eexists _, _]. rewrite bind_modify. by eexists _, _. }
  rewrite E. destruct (Retrieve (str "SHOW TABLES") h); [done|].
  rewrite (bind_run _ _ _ _ _ E). destruct b; [|done].
  cbn [negb andb]. destruct (is_directory GetBaseFilesDirectory); [|done]. cbn [negb andb].
  case_bool_decide; [done|]. cbn [negb]. exact (apply_files_given _ h1).
Qed.
End updater.
End DBUpdater.
