(* ===== verification/Channels.v ===== *)
(** * Channels: the channels of a guild the relay writes to

    Model of [DiscordBot::CheckChannels] and [DiscordBot::CheckBotInGuild]
    ([src/src/server/Bot/DiscordBot.cpp]) and of the names of channels there.
    What the library DPP answers to its synchronous calls is an argument; [None]
    stands for a [dpp::rest_exception].  The maps of the library are the lists of
    their entries in the order in which they are walked. *)

From S2P Require Import Prelude Utf8 Strings Enums.
Open Scope Z_scope.

(** What is read of a [dpp::channel]. *)
Record channel := mkChannel {
  ch_id : Z;
  ch_name : list Z;
  ch_is_category : bool;
  ch_is_text : bool;
  ch_parent_id : Z
}.

(** A channel that is to be created: [parent] is not set for a category. *)
Record new_channel := mkNew {
  nc_guild_id : Z;
  nc_name : list Z;
  nc_category : bool;
  nc_parent_id : option Z
}.

(** [DiscordChannelsList]: an array; [None] is an element that was never given a
    value. *)
Abbreviation DiscordChannelsList := (list (option Z)).

(** The work of the callback: the answers to [channel_create_sync] still to come
    and the calls of it so far. *)
Record creating := mkCreating {
  cr_answers : list (option Z);
  cr_calls : list new_channel
}.

#[export] Instance DiscordChannelType_eq_dec : EqDecision DiscordChannelType.t.
Proof. solve_decision. Defined.

Module Channels.

Definition DEFAULT_CATEGORY_NAME : list Z := str "core-logs".

(** The channel types in the order of their values, with their names. *)
Definition types : list DiscordChannelType.t :=
  [DiscordChannelType.ServerStatus; DiscordChannelType.Commands; DiscordChannelType.ChatSay;
   DiscordChannelType.ChatChannel; DiscordChannelType.LoginPlayer; DiscordChannelType.LoginGM;
   DiscordChannelType.LoginAdmin].

Definition GetChannelName (type : DiscordChannelType.t) : list Z :=
  match type with
  | DiscordChannelType.ServerStatus => str "server-status"
  | DiscordChannelType.Commands => str "commands"
  | DiscordChannelType.ChatSay => str "chat-say"
  | DiscordChannelType.ChatChannel => str "chat-channel"
  | DiscordChannelType.LoginPlayer => str "login-player"
  | DiscordChannelType.LoginGM => str "login-gm"
  | DiscordChannelType.LoginAdmin => str "login-admin"
  | DiscordChannelType.MaxType => []
  end.

Definition GetDiscordChannelType (channelName : list Z) : DiscordChannelType.t :=
  if bool_decide (channelName = str "server-status") then DiscordChannelType.ServerStatus
  else if bool_decide (channelName = str "commands") then DiscordChannelType.Commands
  else if bool_decide (channelName = str "chat-say") then DiscordChannelType.ChatSay
  else if bool_decide (channelName = str "chat-channel") then DiscordChannelType.ChatChannel
  else if bool_decide (channelName = str "login-player") then DiscordChannelType.LoginPlayer
  else if bool_decide (channelName = str "login-gm") then DiscordChannelType.LoginGM
  else if bool_decide (channelName = str "login-admin") then DiscordChannelType.LoginAdmin
  else DiscordChannelType.MaxType.

Definition index (type : DiscordChannelType.t) : nat := Z.to_nat (DiscordChannelType.value type).

(** [channelsList], a local array without an initializer. *)
Definition uninitialized : DiscordChannelsList :=
  replicate (Z.to_nat DEFAULT_CHANNELS_COUNT) None.

(** ** The steps of [CheckChannels] *)

Fixpoint GetCategory (channels : list channel) : Z :=
  match channels with
  | [] => 0
  | c :: channels =>
      if negb (ch_is_category c) then GetCategory channels
      else if bool_decide (ch_name c = DEFAULT_CATEGORY_NAME) then i64 (ch_id c)
      else GetCategory channels
  end.

(** [channel_create_sync]; without an answer it throws. *)
Definition channel_create_sync (c : new_channel) : M Empty_set creating (option Z) := λ s,
  (Ret (default None (head (cr_answers s))),
   mkCreating (tail (cr_answers s)) (cr_calls s ++ [c])).

Definition CreateCategory (guildID : Z) : M Empty_set creating Z :=
  created ← channel_create_sync (mkNew (u64 guildID) DEFAULT_CATEGORY_NAME true None);
  mret (match created with Some id => i64 id | None => 0 end).

Definition GetTextChannel (findCategoryID : Z) (channelList : DiscordChannelsList) (c : channel) :
    DiscordChannelsList :=
  if negb (ch_is_text c) || negb (ch_parent_id c =? u64 findCategoryID) then channelList
  else
    let channelType := GetDiscordChannelType (ch_name c) in
    if bool_decide (channelType = DiscordChannelType.MaxType) then channelList
    else <[index channelType := Some (i64 (ch_id c))]> channelList.

Definition GetTextChannels (channels : list channel) (findCategoryID : Z)
    (channelList : DiscordChannelsList) : DiscordChannelsList :=
  foldl (GetTextChannel findCategoryID) channelList channels.

(** The loop of [CreateTextChannel] from the types [ts] on; reading an element
    that has no value is undefined. *)
Fixpoint CreateTextChannel (guildID findCategoryID : Z) (ts : list DiscordChannelType.t)
    (channelList : DiscordChannelsList) : M Empty_set creating DiscordChannelsList :=
  match ts with
  | [] => mret channelList
  | t :: ts =>
      match channelList !! index t with
      | Some (Some id) =>
          if negb (id =? 0) then CreateTextChannel guildID findCategoryID ts channelList
          else
            created ← channel_create_sync
              (mkNew (u64 guildID) (GetChannelName t) false (Some (u64 findCategoryID)));
            CreateTextChannel guildID findCategoryID ts
              (match created with
               | Some id => <[index t := Some (i64 id)]> channelList
               | None => channelList
               end)
      | _ => undefined
      end
  end.

(** The callback of [CheckChannels]: what [execute] is called with. *)
Definition CheckChannels (guildID : Z) (channels_get_sync : option (list channel)) :
    M Empty_set creating DiscordChannelsList :=
  match channels_get_sync with
  | None => mret uninitialized
  | Some channels =>
      findCategoryID ← (if bool_decide (channels = []) then CreateCategory guildID else mret 0);
      let findCategoryID :=
        if findCategoryID =? 0 then GetCategory channels else findCategoryID in
      findCategoryID ← (if findCategoryID =? 0 then CreateCategory guildID else mret findCategoryID);
      if findCategoryID =? 0 then mret uninitialized
      else CreateTextChannel guildID findCategoryID types
             (GetTextChannels channels findCategoryID uninitialized)
  end.

(** The callback of [CheckBotInGuild]: what [execute] is called with, if it is;
    an exception stays in the future of the callback, which nobody reads. *)
Definition CheckBotInGuild (guildID : Z) (current_user_get_guilds_sync : option (list Z)) :
    option bool :=
  guilds ← current_user_get_guilds_sync;
  Some (negb (bool_decide (guilds = [])) && bool_decide (u64 guildID ∈ guilds)).

(** ** What is found

    The channel of a type: the last text channel of the category that has its
    name. *)

Definition belongs (category : Z) (t : DiscordChannelType.t) (c : channel) : bool :=
  ch_is_text c && (ch_parent_id c =? u64 category) && bool_decide (ch_name c = GetChannelName t).

Definition found (channels : list channel) (category : Z) (t : DiscordChannelType.t) : option Z :=
  (λ c, i64 (ch_id c)) <$> last (List.filter (belongs category t) channels).

Lemma type_of_name name t : t ≠ DiscordChannelType.MaxType →
  GetDiscordChannelType name = t ↔ name = GetChannelName t.
Proof.
  intros N. unfold GetDiscordChannelType. split.
  - repeat case_bool_decide; intros <-; done.
  - intros ->. by destruct t.
Qed.

Lemma types_named t : t ∈ types → t ≠ DiscordChannelType.MaxType.
Proof. intros Ht%list_elem_of_In ->. cbn in Ht. intuition discriminate. Qed.

Lemma index_inj t t' : index t = index t' → t = t'.
Proof. by destruct t, t'. Qed.

Lemma index_lt t : t ≠ DiscordChannelType.MaxType → (index t < 7)%nat.
Proof. destruct t; unfold index; cbn; try done; lia. Qed.

Lemma GetTextChannel_spec category l c t :
  t ≠ DiscordChannelType.MaxType → length l = 7%nat →
  length (GetTextChannel category l c) = 7%nat ∧
  GetTextChannel category l c !! index t =
    if belongs category t c then Some (Some (i64 (ch_id c))) else l !! index t.
Proof.
  intros N L. unfold GetTextChannel, belongs.
  destruct (ch_is_text c), (ch_parent_id c =? u64 category); cbn [negb orb andb]; try done.
  case_bool_decide as E; cbn [negb].
  { split; [done|]. case_bool_decide as E'; [|done].
    apply type_of_name in E'; [|done]. congruence. }
  split; [by rewrite length_insert|]. case_bool_decide as E'.
  - apply type_of_name in E'; [|done]. rewrite E'. apply list_lookup_insert_eq. rewrite L.
    by apply index_lt.
  - apply list_lookup_insert_ne. intros X%index_inj. apply E'. by apply type_of_name.
Qed.

Lemma GetTextChannels_spec channels category l t :
  t ≠ DiscordChannelType.MaxType → length l = 7%nat →
  length (GetTextChannels channels category l) = 7%nat ∧
  GetTextChannels channels category l !! index t =
    match found channels category t with Some id => Some (Some id) | None => l !! index t end.
Proof.
  intros N. unfold GetTextChannels, found. revert l.
  induction channels as [|c channels IH]; intros l L; cbn [foldl List.filter]; [done|].
  destruct (GetTextChannel_spec category l c t N L) as [L' E].
  destruct (IH _ L') as [L2 E2]. split; [done|]. rewrite E2, E.
  destruct (belongs category t c); [|done].
  destruct (List.filter (belongs category t) channels) as [|c' cs] eqn:F; [done|].
  change (last (c :: c' :: cs)) with (last (c' :: cs)).
  destruct (last (c' :: cs)) eqn:G; [done|]. by apply last_None in G.
Qed.

(** ** What [CheckChannels] does *)

Definition missing (channels : list channel) (category : Z) (t : DiscordChannelType.t) : bool :=
  bool_decide (found channels category t = None).

Lemma CreateTextChannel_spec guildID channels category ts l s :
  Forall (λ t, t ≠ DiscordChannelType.MaxType) ts → length l = 7%nat →
  (∀ t, t ∈ ts → l !! index t = Some (found channels category t)) →
  (∀ t id, found channels category t = Some id → id ≠ 0) →
  CreateTextChannel guildID category ts l s =
  if existsb (missing channels category) ts then (UB, s) else (Ret l, s).
Proof.
  intros N L E Z0. induction ts as [|t ts IH]; [done|]. inversion N; subst.
  cbn [CreateTextChannel existsb]. rewrite (E t) by (by left). unfold missing at 1.
  destruct (found channels category t) as [id|] eqn:F.
  - rewrite bool_decide_eq_false_2 by done. cbn [orb].
    rewrite (proj2 (Z.eqb_neq id 0)) by eauto. cbn [negb]. apply IH; [done|].
    intros t' Ht'. apply E. by right.
  - by rewrite bool_decide_eq_true_2.
Qed.

(** Ids are those of Discord: not 0, and of 63 bits. *)
Definition ids_ok (channels : list channel) : Prop :=
  Forall (λ c, 0 < ch_id c < 2 ^ 63) channels.

Lemma found_ok channels category t id :
  ids_ok channels → found channels category t = Some id → 0 < id.
Proof.
  unfold found. intros I. destruct (last _) as [c|] eqn:E; [|done]. intros [= <-].
  apply last_Some in E as [l E]. assert (In c (List.filter (belongs category t) channels)) as Hin
    by (rewrite E; apply in_app_iff; right; by left).
  apply filter_In in Hin as [Hin _]. unfold ids_ok in I. rewrite List.Forall_forall in I.
  specialize (I c Hin). rewrite swrap_small; [|lia|]; cbn; lia.
Qed.

(** C19: what is delivered when the category exists: if all seven channels are
    there, exactly their ids, in the order of the types, without a call that
    creates anything.  If one is missing it is not created, as the code means to:
    the array has never been given a value at its place, and reading it is
    undefined. *)
Theorem check_channels (guildID : Z) (channels : list channel) (s : creating)
    (Hids : ids_ok channels) (Hcat : 0 < GetCategory channels) :
  CheckChannels guildID (Some channels) s =
  if existsb (missing channels (GetCategory channels)) types then (UB, s)
  else (Ret (map (found channels (GetCategory channels)) types), s).
Proof.
  unfold CheckChannels. rewrite bool_decide_eq_false_2 by (by intros ->). rewrite bind_ret_l.
  cbn [Z.eqb]. rewrite (proj2 (Z.eqb_neq (GetCategory channels) 0)) by lia.
  rewrite bind_ret_l, (proj2 (Z.eqb_neq (GetCategory channels) 0)) by lia.
  set (category := GetCategory channels).
  assert (∀ t, t ≠ DiscordChannelType.MaxType →
    GetTextChannels channels category uninitialized !! index t = Some (found channels category t)) as E.
  { intros t N. destruct (GetTextChannels_spec channels category uninitialized t N eq_refl) as [_ ->].
    destruct (found channels category t); [done|]. by destruct t. }
  assert (length (GetTextChannels channels category uninitialized) = 7%nat) as L
    by (by apply (GetTextChannels_spec channels category uninitialized DiscordChannelType.Commands)).
  rewrite (CreateTextChannel_spec guildID channels).
  - destruct (existsb _ types); [done|]. f_equal. f_equal.
    apply list_eq. intros i. destruct (decide (i < 7)%nat) as [Hi|Hi].
    + destruct (lookup_lt_is_Some_2 types i Hi) as [t Et].
      rewrite list_lookup_fmap, Et. cbn [fmap option_fmap option_map].
      rewrite <- E by (by eapply types_named, list_elem_of_lookup_2). f_equal.
      do 7 (destruct i as [|i]; [by injection Et as <-|]). cbn in Hi. lia.
    + rewrite !lookup_ge_None_2; [done|rewrite length_map; cbn; lia|lia].
  - by repeat constructor.
  - done.
  - intros t Ht. by apply E, types_named.
  - intros t id F. pose proof (found_ok _ _ _ _ Hids F). lia.
Qed.
End Channels.

(** ** Witnesses *)

Definition demo_channels (names : list (list Z)) : list channel :=
  mkChannel 100 (str "general") false true 0 ::
  mkChannel 200 (str "core-logs") true false 0 ::
  imap (λ i name, mkChannel (300 + Z.of_nat i) name false true 200) names.

Lemma check_channels_witness :
  let all := demo_channels (map Channels.GetChannelName (rev Channels.types)) in
  let six := demo_channels (map Channels.GetChannelName (tail Channels.types)) in
  let s := mkCreating [Some 400] [] in
  Channels.CheckChannels 7 (Some all) s =
    (Ret [Some 306; Some 305; Some 304; Some 303; Some 302; Some 301; Some 300], s) ∧
  Channels.CheckChannels 7 (Some six) s = (UB, s).
Proof.
  cbn zeta. split.
  - rewrite Channels.check_channels; [vm_compute; reflexivity| |vm_compute; reflexivity].
    by repeat constructor.
  - rewrite Channels.check_channels; [vm_compute; reflexivity| |vm_compute; reflexivity].
    by repeat constructor.
Defined.

(** The guild has no category and the bot may not create one: the array that is
    delivered was never given a value. *)
Example no_category_is_undefined :
  (Channels.CheckChannels 7 (Some [mkChannel 100 (str "general") false true 0])
    (mkCreating [] [])).1 = Ret Channels.uninitialized.
Proof. vm_compute. reflexivity. Qed.
