(* ===== verification/Bot.v ===== *)
(** * Bot: the guilds the bot serves and its slash commands

    Model of [DiscordBot.h] and [DiscordBot.cpp] ([src/src/server/Bot]) and of
    [ChatCommandHandler.cpp] ([src/src/server/ChatCommands]); the channels of a
    guild are in [Channels.v].  Calls on the library DPP are recorded; what it
    answers and the events it delivers are arguments.  A [snowflake] is an
    unsigned number of 64 bits; ids the server keeps are signed. *)

From S2P Require Import Prelude MessageBuffer Utf8 Strings BigNumber Srp6 Timer Enums ByteBuffer Wire Packets.
From S2P Require Import Queues Async Socket Session DiscordSocket World Accounts Channels.
Open Scope Z_scope.

(** ** The handler of slash commands *)

(** A [dpp::slashcommand]: an option with its choices, by their names. *)
Record slashcommand := mkSlash {
  sc_name : list Z;
  sc_description : list Z;
  sc_options : list (list Z * list (list Z));
  sc_application_id : Z
}.

Module CommandHandler.
Section handler.
(** What is done for an event. *)
Context {Invoke : Type}.

Record t := mk { _commands : list slashcommand; _commandInvoke : gmap (list Z) Invoke }.

Definition new : t := mk [] ∅.

Definition AddSlashCommand (command : slashcommand) (h : t) : t :=
  mk (_commands h ++ [command]) (_commandInvoke h).

Definition AddCommand (commandName description : list Z) (params : list (list Z * list (list Z)))
    (invoke : Invoke) : M Empty_set t () :=
  itr ← gets (λ h, _commandInvoke h !! commandName);
  _ ← assert_ (bool_decide (itr = None));
  _ ← modify (λ h, mk (_commands h) (<[commandName := invoke]> (_commandInvoke h)));
  modify (AddSlashCommand (mkSlash commandName description params 0)).

Definition SetApplicaionID (me : Z) (h : t) : t :=
  mk (map (λ c, if sc_application_id c =? 0
                then mkSlash (sc_name c) (sc_description c) (sc_options c) me else c) (_commands h))
     (_commandInvoke h).

(** The command to run, if it is known. *)
Definition TryExecuteCommand (command_name : list Z) (h : t) : option Invoke :=
  _commandInvoke h !! command_name.
End handler.
Arguments t : clear implicits.
End CommandHandler.

(** ** Data *)

Record DiscordClients := mkClient {
  GuildID : Z;
  GuildName : list Z;
  MembersCount : Z;
  InviteDate : Z
}.

(** What is read of a [dpp::guild]; the creation time is the whole seconds of the
    [double] the library gives. *)
Record guild := mkGuild {
  g_id : Z;
  g_name : list Z;
  g_member_count : Z;
  g_icon_url : list Z;
  g_creation_time : Z
}.

Record embed := mkEmbed {
  em_color : Z;
  em_author : option (list Z * list Z * list Z);
  em_footer : option (list Z * list Z);
  em_title : list Z;
  em_description : list Z;
  em_fields : list EmbedField;
  em_timestamp : Z
}.

(** The calls on the cluster, in order. *)
Inductive cluster_call :=
  | CreateText (channel : Z) (content : list Z)
  | CreateEmbed (channel : Z) (e : embed)
  | BulkCommands (guild : Z)
  | OnReady
  | OnLog
  | OnReadyCommands
  | OnSlashCommand
  | OnGuildCreate
  | OnGuildDelete
  | OnGuildMemberAdd
  | StartCluster.

(** The statements on the table [clients]. *)
Inductive client_statement :=
  | DISCORD_INS_CLIENT (guildID : Z) (guildName : list Z) (membersCount inviteDate atStartup : Z)
  | DELETE_CLIENT (guildID : Z)
  | TRUNCATE_CLIENTS.

Record DiscordBot := mkBot {
  b_isEnable : bool;
  b_bot : bool;  (** the cluster exists *)
  b_guilds : gmap Z DiscordClients;
  b_calls : list cluster_call;
  b_db : list client_statement;
  b_checks : nat  (** callbacks of [CheckClients] that were started *)
}.

Module Bot.

Definition OWNER_ID : Z := 365169287926906883.
Definition OWNER_MENTION : list Z := str "<@365169287926906883>".
Definition WARHEAD_GUILD_ID : Z := 572275951879192588.
Definition LOGS_CHANNEL_GUILD_ADD_ID : Z := 981904498991714324.
Definition LOGS_CHANNEL_GUILD_DELETE_ID : Z := 981904522546933760.
Definition LOGS_CHANNEL_OTHER_ID : Z := 981628140772270160.

Section bot.
(** [TimeToHumanReadable], a call of the C library, and the order in which the
    cache is walked. *)
Context (TimeToHumanReadable : Z → list Z) (order : gmap Z DiscordClients → list Z).

Abbreviation Run := (M Empty_set DiscordBot).

Definition new : DiscordBot := mkBot false false ∅ [] [] 0.

Definition set_guilds (v : gmap Z DiscordClients) (b : DiscordBot) : DiscordBot :=
  mkBot (b_isEnable b) (b_bot b) v (b_calls b) (b_db b) (b_checks b).
Definition call (c : cluster_call) (b : DiscordBot) : DiscordBot :=
  mkBot (b_isEnable b) (b_bot b) (b_guilds b) (b_calls b ++ [c]) (b_db b) (b_checks b).
Definition Execute (stmt : client_statement) (b : DiscordBot) : DiscordBot :=
  mkBot (b_isEnable b) (b_bot b) (b_guilds b) (b_calls b) (b_db b ++ [stmt]) (b_checks b).
Definition set_enable (v : bool) (b : DiscordBot) : DiscordBot :=
  mkBot v (b_bot b) (b_guilds b) (b_calls b) (b_db b) (b_checks b).

(** A call through [_bot]; without a cluster the pointer is null. *)
Definition on_cluster (c : cluster_call) : Run () :=
  there ← gets b_bot; if (there : bool) then modify (call c) else undefined.

(** ** Messages *)

Definition SendDefaultMessage (channelID : Z) (message : list Z) : Run () :=
  enabled ← gets b_isEnable;
  if negb enabled then skip else on_cluster (CreateText (u64 channelID) message).

Definition SendEmbedMessage (channelID : Z) (e : option embed) : Run () :=
  enabled ← gets b_isEnable;
  match e with
  | Some e => if negb enabled then skip else on_cluster (CreateEmbed (u64 channelID) e)
  | None => skip
  end.

(** [`{}`] *)
Definition ticked (s : list Z) : list Z := str "`" ++ s ++ str "`".

(** [embed::add_field]; a field is not inline by default. *)
Definition add_field (name value : list Z) : EmbedField := mkEmbedField name value false.

(** The conversion of a [double] that does not fit is undefined. *)
Definition LogAddClient (now guildID : Z) (color : DiscordMessageColor.t) (icon guildName : list Z)
    (membersCount creationDate : Z) : Run () :=
  if negb ((0 <=? creationDate) && (creationDate <? 2 ^ 32)) then undefined
  else
    SendEmbedMessage LOGS_CHANNEL_GUILD_ADD_ID (Some (mkEmbed
      (DiscordMessageColor.value color) (Some (guildName, [], icon))
      (Some (str "ID: " ++ Strings.fmt_dec guildID, []))
      (str "**Новая гильдия**") []
      [add_field (str "Название") (ticked guildName);
       add_field (str "Количество участников") (ticked (Strings.fmt_dec membersCount));
       add_field (str "Дата создания") (ticked (TimeToHumanReadable creationDate) ++ str " | " ++
          ticked (Time.ToTimeString (1000000 * (now - creationDate)) 3 ShortText))]
      now)).

Definition LogDeleteClient (now guildID : Z) (color : DiscordMessageColor.t)
    (icon guildName : list Z) : Run () :=
  SendEmbedMessage LOGS_CHANNEL_GUILD_DELETE_ID (Some (mkEmbed
    (DiscordMessageColor.value color) (Some (guildName, [], icon))
    (Some (str "ID: " ++ Strings.fmt_dec guildID, []))
    (str "**Выход из гильдии**") []
    [add_field (str "Название") (ticked guildName)] now)).

(** ** The cache of clients and its table *)

Definition HasClient (guildID : Z) (b : DiscordBot) : bool :=
  bool_decide (is_Some (b_guilds b !! guildID)).
Definition GetClient (guildID : Z) (b : DiscordBot) : option DiscordClients :=
  b_guilds b !! guildID.

Definition CreateCommands (guildID : Z) : Run () := on_cluster (BulkCommands (u64 guildID)).

Definition AddClient (guildID : Z) (guildName : list Z) (membersCount inviteDate : Z)
    (atStartup : bool) : Run () :=
  has ← gets (HasClient guildID);
  if (has : bool) then skip
  else
    _ ← CreateCommands guildID;
    _ ← modify (λ b, set_guilds
          (<[guildID := mkClient guildID guildName membersCount inviteDate]> (b_guilds b)) b);
    modify (Execute (DISCORD_INS_CLIENT guildID guildName membersCount inviteDate
      (if atStartup then 1 else 0))).

Definition DeleteClient (guildID : Z) : Run () :=
  has ← gets (HasClient guildID);
  if negb has then skip
  else
    _ ← modify (λ b, set_guilds (delete guildID (b_guilds b)) b);
    modify (Execute (DELETE_CLIENT guildID)).

Definition DeleteAllClients : Run () :=
  _ ← modify (set_guilds ∅); modify (Execute TRUNCATE_CLIENTS).

(** [emplace] keeps the first row of an id. *)
Definition LoadClients (rows : option (list DiscordClients)) : Run () :=
  _ ← modify (set_guilds ∅);
  match rows with
  | None => skip
  | Some rows =>
      for_each (λ row, modify (λ b,
        match b_guilds b !! GuildID row with
        | Some _ => b
        | None => set_guilds (<[GuildID row := row]> (b_guilds b)) b
        end)) rows
  end.

(** ** The callback of [CheckClients] *)

(** One guild the bot is in; the state besides is [_saveClientIds]. *)
Definition check_guild (now : Z) (g : guild) (saved : list Z) : Run (list Z) :=
  let guildID := i64 (g_id g) in
  has ← gets (HasClient guildID);
  if (has : bool) then
    _ ← CreateCommands guildID; mret (List.filter (λ id, negb (id =? guildID)) saved)
  else
    _ ← AddClient guildID (g_name g) (g_member_count g) now true;
    _ ← LogAddClient now guildID DiscordMessageColor.Orange (g_icon_url g) (g_name g)
          (g_member_count g) (g_creation_time g);
    mret saved.

Fixpoint check_guilds (now : Z) (gs : list guild) (saved : list Z) : Run (list Z) :=
  match gs with
  | [] => mret saved
  | g :: gs => saved ← check_guild now g saved; check_guilds now gs saved
  end.

Definition drop_client (now guildID : Z) : Run () :=
  clientInfo ← gets (GetClient guildID);
  match clientInfo with
  | None => skip
  | Some info =>
      _ ← LogDeleteClient now guildID DiscordMessageColor.Orange [] (GuildName info);
      DeleteClient guildID
  end.

Definition ConfigureGuildInviteHooks : Run () :=
  _ ← on_cluster OnGuildCreate; _ ← on_cluster OnGuildDelete; on_cluster OnGuildMemberAdd.

(** [None]: the call of the library throws, and the exception stays in the future
    of the callback. *)
Definition CheckClients (now : Z) (current_user_get_guilds_sync : option (list guild)) : Run () :=
  match current_user_get_guilds_sync with
  | None => skip
  | Some [] => DeleteAllClients
  | Some guilds =>
      saved ← gets (λ b, order (b_guilds b));
      saved ← check_guilds now guilds saved;
      _ ← for_each (drop_client now) saved;
      ConfigureGuildInviteHooks
  end.

(** ** The events of the hooks *)

Definition on_guild_create (now : Z) (created : guild) (cancelled : bool) : Run () :=
  let guildID := i64 (g_id created) in
  has ← gets (HasClient guildID);
  if (has : bool) || cancelled then skip
  else
    _ ← AddClient guildID (g_name created) (g_member_count created) now false;
    LogAddClient now guildID DiscordMessageColor.Indigo (g_icon_url created) (g_name created)
      (g_member_count created) (g_creation_time created).

Definition on_guild_delete (now : Z) (deleted : guild) (cancelled : bool) : Run () :=
  let guildID := i64 (g_id deleted) in
  has ← gets (HasClient guildID);
  if negb has || cancelled then skip
  else
    _ ← DeleteClient guildID;
    LogDeleteClient now guildID DiscordMessageColor.Indigo (g_icon_url deleted) (g_name deleted).

Definition on_guild_member_add (now user_id : Z) (guild_name : list Z) (cancelled : bool) : Run () :=
  if cancelled then skip
  else if user_id =? OWNER_ID then
    SendEmbedMessage LOGS_CHANNEL_OTHER_ID (Some (mkEmbed
      (DiscordMessageColor.value DiscordMessageColor.Indigo) None None
      (str "Создатель, я увидел тебя!")
      (OWNER_MENTION ++ str ", я увидел тебя в гильдии: " ++ guild_name) [] now))
  else skip.

(** ** Starting *)

Definition ConfigureLogs : Run () :=
  enabled ← gets b_isEnable;
  if negb enabled then skip else _ ← on_cluster OnReady; on_cluster OnLog.

(** The hooks [ConfigureCommands] sets; the commands it adds are below. *)
Definition ConfigureCommands_hooks : Run () :=
  enabled ← gets b_isEnable;
  if negb enabled then skip else _ ← on_cluster OnReadyCommands; on_cluster OnSlashCommand.

Definition Start (enable : bool) (botToken : list Z) (rows : option (list DiscordClients)) :
    Run () :=
  _ ← modify (set_enable enable);
  if negb enable then skip
  else if bool_decide (botToken = []) then modify (set_enable false)
  else
    _ ← modify (λ b, mkBot (b_isEnable b) true (b_guilds b) (b_calls b) (b_db b) (b_checks b));
    _ ← LoadClients rows;
    _ ← ConfigureLogs;
    _ ← ConfigureCommands_hooks;
    _ ← on_cluster StartCluster;
    modify (λ b, mkBot (b_isEnable b) (b_bot b) (b_guilds b) (b_calls b) (b_db b) (S (b_checks b))).

(** [Test], which [SetInitialDiscordSettings] calls after [Start]. *)
Definition Test : Run () := on_cluster OnGuildMemberAdd.
End bot.

(** ** The cache and the table stay in step

    What the statements make of the table: a second row of a guild is refused by
    the primary key. *)

Definition apply_statement (t : gmap Z DiscordClients) (stmt : client_statement) :
    gmap Z DiscordClients :=
  match stmt with
  | DISCORD_INS_CLIENT id name members date _ =>
      match t !! id with Some _ => t | None => <[id := mkClient id name members date]> t end
  | DELETE_CLIENT id => delete id t
  | TRUNCATE_CLIENTS => ∅
  end.

Definition table_of (t : gmap Z DiscordClients) (stmts : list client_statement) :
    gmap Z DiscordClients := foldl apply_statement t stmts.

(** What may happen to the bot once it has started. *)
Inductive bot_event :=
  | Checked (now : Z) (answer : option (list guild))
  | GuildCreated (now : Z) (created : guild) (cancelled : bool)
  | GuildDeleted (now : Z) (deleted : guild) (cancelled : bool)
  | MemberAdded (now user_id : Z) (guild_name : list Z) (cancelled : bool)
  | SaysText (channelID : Z) (message : list Z)
  | SaysEmbed (channelID : Z) (e : option embed).

Section in_step.
Context (human : Z → list Z) (order : gmap Z DiscordClients → list Z).

Definition run_event (e : bot_event) : M Empty_set DiscordBot () :=
  match e with
  | Checked now answer => CheckClients human order now answer
  | GuildCreated now g c => on_guild_create human now g c
  | GuildDeleted now g c => on_guild_delete now g c
  | MemberAdded now u n c => on_guild_member_add now u n c
  | SaysText ch m => SendDefaultMessage ch m
  | SaysEmbed ch e => SendEmbedMessage ch e
  end.

(** The well-formedness of the bot: every client stands under its own id, and the
    cache is what the statements have made of the table. *)
Definition in_step (t0 : gmap Z DiscordClients) (b : DiscordBot) : Prop :=
  table_of t0 (b_db b) = b_guilds b ∧
  ∀ id c, b_guilds b !! id = Some c → GuildID c = id.

Lemma steady_call t0 c : preserves (in_step t0) (on_cluster c).
Proof. intros b Hb. unfold on_cluster. rewrite bind_gets. by destruct (b_bot b). Qed.

Create HintDb bot.
#[local] Hint Resolve steady_call : bot.

Lemma steady_message t0 ch e : preserves (in_step t0) (SendEmbedMessage ch e).
Proof. unfold SendEmbedMessage. auto 8 with bot preserves. Qed.
Lemma steady_text t0 ch m : preserves (in_step t0) (SendDefaultMessage ch m).
Proof. unfold SendDefaultMessage. auto 8 with bot preserves. Qed.
#[local] Hint Resolve steady_message steady_text : bot.

Lemma steady_log_add t0 now id c i n m d : preserves (in_step t0) (LogAddClient human now id c i n m d).
Proof. unfold LogAddClient. auto 8 with bot preserves. Qed.
Lemma steady_log_delete t0 now id c i n : preserves (in_step t0) (LogDeleteClient now id c i n).
Proof. unfold LogDeleteClient. auto 8 with bot preserves. Qed.
Lemma steady_commands t0 id : preserves (in_step t0) (CreateCommands id).
Proof. unfold CreateCommands. auto 8 with bot preserves. Qed.
#[local] Hint Resolve steady_log_add steady_log_delete steady_commands : bot.

Lemma on_cluster_run c b : b_bot b = true → on_cluster c b = (Ret (), call c b).
Proof. intros E. unfold on_cluster. by rewrite bind_gets, E. Qed.

Lemma two_calls c1 c2 b :
  b_bot b = true → b_isEnable b = true →
  (enabled ← gets b_isEnable;
   if negb enabled then skip else _ ← on_cluster c1; on_cluster c2 : M Empty_set DiscordBot ()) b =
  (Ret (), call c2 (call c1 b)).
Proof.
  intros B E. rewrite bind_gets, E. cbn [negb].
  rewrite (bind_run _ _ _ _ _ (on_cluster_run c1 b B)). by apply on_cluster_run.
Qed.

Lemma CreateCommands_run id b :
  CreateCommands id b = if b_bot b then (Ret (), call (BulkCommands (u64 id)) b) else (UB, b).
Proof. unfold CreateCommands, on_cluster. rewrite bind_gets. by destruct (b_bot b). Qed.

Lemma steady_add t0 id name members date startup : preserves (in_step t0) (AddClient id name members date startup).
Proof.
  intros b [E W]. unfold AddClient. rewrite bind_gets. unfold HasClient. case_bool_decide as D; [done|].
  unfold mbind, M_bind. rewrite CreateCommands_run. destruct (b_bot b); [|done].
  apply eq_None_not_Some in D. split; cbn.
  - unfold table_of in *. rewrite foldl_app, E. cbn. by rewrite D.
  - intros id' c. rewrite lookup_insert_Some. intros [[<- <-]|[_ ?]]; [done|eauto].
Qed.

Lemma steady_delete t0 id : preserves (in_step t0) (DeleteClient id).
Proof.
  intros b [E W]. unfold DeleteClient. rewrite bind_gets. destruct (HasClient id b); cbn [negb]; [|done].
  rewrite bind_modify. split; cbn.
  - unfold table_of in *. by rewrite foldl_app, E.
  - intros id' c. rewrite lookup_delete_Some. intros [_ ?]. eauto.
Qed.

Lemma steady_delete_all t0 : preserves (in_step t0) DeleteAllClients.
Proof.
  intros b _. unfold DeleteAllClients. rewrite bind_modify. split; cbn; [|done].
  unfold table_of. by rewrite foldl_app.
Qed.
#[local] Hint Resolve steady_add steady_delete steady_delete_all : bot.

Lemma steady_check t0 now gs saved : preserves (in_step t0) (check_guilds human now gs saved).
Proof.
  revert saved. induction gs as [|g gs IH]; intros saved; cbn [check_guilds]; [auto with bot preserves|].
  apply preserves_bind; [|auto]. unfold check_guild. auto 8 with bot preserves.
Qed.

Lemma steady_event t0 e : preserves (in_step t0) (run_event e).
Proof.
  destruct e as [now [[|g gs]|]|now g c|now g c|now u n c| |]; cbn [run_event]; auto with bot preserves.
  - unfold CheckClients. apply preserves_bind; [auto with bot preserves|]. intros saved.
    apply preserves_bind; [apply steady_check|]. intros saved'. apply preserves_bind.
    + apply preserves_for_each. intros id. unfold drop_client. auto 10 with bot preserves.
    + intros []. unfold ConfigureGuildInviteHooks. auto 10 with bot preserves.
  - unfold on_guild_create. auto 10 with bot preserves.
  - unfold on_guild_delete. auto 10 with bot preserves.
  - unfold on_guild_member_add. auto 10 with bot preserves.
Qed.

(** Loading the rows of a table. *)
Lemma LoadClients_rows rows b :
  (∀ c c', c ∈ rows → c' ∈ rows → GuildID c = GuildID c' → c = c') →
  ∃ b', LoadClients (Some rows) b = (Ret (), b') ∧ b_db b' = b_db b ∧ b_bot b' = b_bot b ∧
    b_isEnable b' = b_isEnable b ∧
    (∀ id c, b_guilds b' !! id = Some c ↔ c ∈ rows ∧ GuildID c = id).
Proof.
  clear human order. intros U. unfold LoadClients. rewrite bind_modify.
  set (step := λ row, modify _).
  assert (∀ l b, (∀ id c, b_guilds b !! id = Some c → c ∈ rows ∧ GuildID c = id) →
    (∀ c, c ∈ l → c ∈ rows) →
    ∃ b', for_each step l b = (Ret (), b') ∧ b_db b' = b_db b ∧ b_bot b' = b_bot b ∧
      b_isEnable b' = b_isEnable b ∧
      ∀ id c, b_guilds b' !! id = Some c ↔
        b_guilds b !! id = Some c ∨ (c ∈ l ∧ GuildID c = id)) as G.
  { clear b. induction l as [|r l IH]; intros b Hb Hl.
    { exists b. repeat split; auto. intros [?|[?%elem_of_nil _]]; done. }
    set (b1 := match b_guilds b !! GuildID r with
               | Some _ => b
               | None => set_guilds (<[GuildID r := r]> (b_guilds b)) b
               end).
    cbn [for_each]. rewrite (bind_run (step r) _ b () b1) by done.
    assert (∀ id c, b_guilds b1 !! id = Some c ↔
      b_guilds b !! id = Some c ∨ (c = r ∧ GuildID r = id)) as E1.
    { intros id c. unfold b1. destruct (b_guilds b !! GuildID r) as [c0|] eqn:E0; cbn.
      - split; [by left|]. intros [?|[-> <-]]; [done|].
        destruct (Hb _ _ E0) as [Hc0 Ec0]. rewrite E0. f_equal. apply U; [done|apply Hl; by left|done].
      - rewrite lookup_insert_Some. split; [naive_solver|]. intros [H|[-> <-]]; [|by left].
        right. split; [|done]. intros <-. congruence. }
    destruct (IH b1) as (b' & R & D & B & En & S').
    - intros id c [?|[-> <-]]%E1; [by apply Hb|]. split; [apply Hl; by left|done].
    - intros c Hc. apply Hl. by right.
    - assert (b_db b1 = b_db b ∧ b_bot b1 = b_bot b ∧ b_isEnable b1 = b_isEnable b) as (? & ? & ?)
        by (unfold b1; by destruct (b_guilds b !! GuildID r)).
      exists b'. split; [done|]. split; [congruence|]. split; [congruence|]. split; [congruence|].
      intros id c. rewrite S', E1, elem_of_cons. naive_solver. }
  destruct (G rows (set_guilds ∅ b)) as (b' & R & D & B & En & S'); [done..|].
  exists b'. split; [done|]. split; [done|]. split; [done|]. split; [done|].
  intros id c. rewrite S'. cbn. rewrite lookup_empty. naive_solver.
Qed.

(** C15: the guilds in the cache of the bot are the rows of its table, each under
    its own id, from the start on and through whatever the bot hears: checks of
    the guilds with any answer, invitations, removals, and messages, in any order
    and however they end. *)
Theorem clients_in_step (t0 : gmap Z DiscordClients) (rows : list DiscordClients)
    (token : list Z) (es : list bot_event)
    (Hrows : ∀ id c, t0 !! id = Some c ↔ c ∈ rows ∧ GuildID c = id) (Htoken : token ≠ []) :
  ∃ b, Start true token (Some rows) new = (Ret (), b) ∧ b_guilds b = t0 ∧
    in_step t0 (foldl (λ b e, (run_event e b).2) b es).
Proof.
  destruct (LoadClients_rows rows
    (mkBot true true ∅ [] [] 0)) as (b & E & D & B & En & G).
  { intros c c' Hc Hc' Eid. assert (t0 !! GuildID c = Some c) as E1 by (by apply Hrows).
    assert (t0 !! GuildID c = Some c') as E2 by (by apply Hrows). congruence. }
  assert (b_guilds b = t0) as Et.
  { apply map_eq. intros id. apply option_eq. intros c. by rewrite G, Hrows. }
  eexists. split; [|split].
  - unfold Start. rewrite bind_modify. cbn [negb]. rewrite bool_decide_eq_false_2 by done.
    rewrite bind_modify. cbn [b_isEnable b_guilds b_calls b_db b_checks set_enable new].
    rewrite (bind_run _ _ _ _ _ E).
    unfold ConfigureLogs, ConfigureCommands_hooks.
    rewrite (bind_run _ _ _ _ _ (two_calls OnReady OnLog b B En)).
    rewrite (bind_run _ _ _ _ _ (two_calls OnReadyCommands OnSlashCommand
      (call OnLog (call OnReady b)) B En)).
    rewrite (bind_run _ _ _ _ _ (on_cluster_run StartCluster (call OnSlashCommand (call OnReadyCommands
      (call OnLog (call OnReady b)))) B)). reflexivity.
  - done.
  - assert (∀ b', in_step t0 b' → in_step t0 (foldl (λ b e, (run_event e b).2) b' es)) as S'.
    { clear. induction es as [|e es IH]; intros b' Hb; [done|]. cbn. by apply IH, steady_event. }
    apply S'. split; cbn.
    + by rewrite D, Et.
    + rewrite Et. intros id c Hc. by apply Hrows in Hc as [_ ?].
Qed.
End in_step.

(** ** The check of all guilds *)

Section checked.
Context (human : Z → list Z) (order : gmap Z DiscordClients → list Z).
Context (order_keys : ∀ m id, id ∈ order m ↔ is_Some (m !! id)).

#[local] Set Default Proof Using "Type".

(** The guilds that were given the commands. *)
Definition commands_of (calls : list cluster_call) : list Z :=
  omap (λ c, match c with BulkCommands g => Some g | _ => None end) calls.

Definition key (g : guild) : Z := i64 (g_id g).
Definition client_of (now : Z) (g : guild) : DiscordClients :=
  mkClient (key g) (g_name g) (g_member_count g) now.

(** Guilds as the library delivers them. *)
Definition guilds_ok (gs : list guild) : Prop :=
  NoDup (map g_id gs) ∧ Forall (λ g, 0 < g_id g < 2 ^ 63 ∧ 0 <= g_creation_time g < 2 ^ 32) gs.

Definition running (b : DiscordBot) : Prop := b_bot b = true ∧ b_isEnable b = true.

(** The cache and the commands after a step that adds some of each. *)
Definition moved (b b' : DiscordBot) (guilds : gmap Z DiscordClients) (commands : list Z) : Prop :=
  running b' ∧ b_guilds b' = guilds ∧
  commands_of (b_calls b') = commands_of (b_calls b) ++ commands.

Lemma key_id g : 0 < g_id g < 2 ^ 63 → key g = g_id g.
Proof. intros. unfold key. apply swrap_small; cbn; lia. Qed.

Lemma message_moved ch e b :
  running b → ∃ b', SendEmbedMessage ch (Some e) b = (Ret (), b') ∧ moved b b' (b_guilds b) [].
Proof.
  intros [B E]. unfold SendEmbedMessage. rewrite bind_gets, E. cbn [negb].
  rewrite on_cluster_run by done. eexists. split; [done|]. split; [done|]. split; [done|].
  unfold commands_of. cbn. by rewrite omap_app.
Qed.

Lemma moved_trans b b' b'' gs gs' cs cs' :
  moved b b' gs cs → moved b' b'' gs' cs' → moved b b'' gs' (cs ++ cs').
Proof. intros (_ & _ & E1) (R & G & E2). split; [done|]. split; [done|]. by rewrite E2, E1, app_assoc. Qed.

Lemma check_guild_moved now g saved b :
  running b → 0 < g_id g < 2 ^ 63 → 0 <= g_creation_time g < 2 ^ 32 →
  ∃ b', check_guild human now g saved b =
      (Ret (if HasClient (key g) b then List.filter (λ id, negb (id =? key g)) saved else saved), b') ∧
    moved b b' (if HasClient (key g) b then b_guilds b
                else <[key g := client_of now g]> (b_guilds b)) [g_id g].
Proof.
  intros R Hid Hc. destruct R as [B E]. unfold check_guild. rewrite bind_gets. fold (key g).
  assert (u64 (key g) = g_id g) as Eid by (rewrite key_id by done; apply wrap_small; lia).
  assert (CreateCommands (key g) b = (Ret (), call (BulkCommands (g_id g)) b)) as C
    by (by rewrite CreateCommands_run, B, Eid).
  destruct (HasClient (key g) b) eqn:H.
  - rewrite (bind_run _ _ _ _ _ C). eexists. split; [done|]. split; [done|]. split; [done|].
    unfold commands_of. cbn. by rewrite omap_app.
  - set (b1 := Execute (DISCORD_INS_CLIENT (key g) (g_name g) (g_member_count g) now 1)
      (set_guilds (<[key g := client_of now g]> (b_guilds b))
      (call (BulkCommands (g_id g)) b))).
    assert (AddClient (key g) (g_name g) (g_member_count g) now true b = (Ret (), b1)) as A.
    { unfold AddClient. rewrite bind_gets, H, (bind_run _ _ _ _ _ C), bind_modify. done. }
    rewrite (bind_run _ _ _ _ _ A). unfold LogAddClient.
    rewrite (proj2 (Z.leb_le _ _)), (proj2 (Z.ltb_lt _ _)) by lia. cbn [andb negb].
    edestruct (message_moved LOGS_CHANNEL_GUILD_ADD_ID) as (b2 & M & Mv); [|
      rewrite (bind_run _ _ _ _ _ M); exists b2; split; [done|]]; [done|].
    destruct Mv as (R2 & G2 & C2). split; [done|]. split; [done|].
    rewrite C2, app_nil_r. unfold commands_of. cbn. by rewrite omap_app.
Qed.

Definition lookup_guild (gs : list guild) (id : Z) : option guild :=
  List.find (λ g, key g =? id) gs.

Lemma saved_without b g saved :
  (∀ id, id ∈ saved → is_Some (b_guilds b !! id)) → 0 < g_id g < 2 ^ 63 →
  (if HasClient (key g) b then List.filter (λ id, negb (id =? key g)) saved else saved) =
  List.filter (λ id, negb (id =? g_id g)) saved.
Proof.
  intros Hs Hid. rewrite key_id by done. unfold HasClient. case_bool_decide as D; [done|].
  induction saved as [|x l IH]; [done|]. cbn. destruct (Z.eqb_spec x (g_id g)) as [->|]; cbn [negb].
  - destruct D. apply Hs. by left.
  - f_equal. apply IH. intros id Hi. apply Hs. by right.
Qed.

Lemma filter_none (l : list Z) : List.filter (λ id, negb (bool_decide (id ∈ []))) l = l.
Proof. induction l as [|x l IH]; [done|]. cbn. by rewrite IH. Qed.

Lemma filter_twice x xs (l : list Z) :
  List.filter (λ id, negb (bool_decide (id ∈ xs))) (List.filter (λ id, negb (id =? x)) l) =
  List.filter (λ id, negb (bool_decide (id ∈ x :: xs))) l.
Proof.
  induction l as [|y l IH]; [done|]. cbn [List.filter].
  destruct (Z.eqb_spec y x) as [->|N]; cbn [negb].
  - rewrite (bool_decide_eq_true_2 (x ∈ x :: xs)) by (by left). done.
  - cbn [List.filter]. rewrite IH. by rewrite (bool_decide_ext (y ∈ x :: xs) (y ∈ xs)) by (clear -N; set_solver).
Qed.

Lemma check_guilds_moved now gs saved b :
  running b → guilds_ok gs → (∀ id, id ∈ saved → is_Some (b_guilds b !! id)) →
  ∃ b' guilds, check_guilds human now gs saved b =
      (Ret (List.filter (λ id, negb (bool_decide (id ∈ map g_id gs))) saved), b') ∧
    moved b b' guilds (map g_id gs) ∧
    ∀ id, guilds !! id = match b_guilds b !! id with
                         | Some c => Some c
                         | None => client_of now <$> lookup_guild gs id
                         end.
Proof.
  revert saved b. induction gs as [|g gs IH]; intros saved b R [ND F] Hs; cbn [check_guilds].
  { exists b, (b_guilds b). split; [|split].
    - cbn [map]. by rewrite filter_none.
    - split; [done|]. split; [done|]. by rewrite app_nil_r.
    - intros id. cbn. by destruct (b_guilds b !! id). }
  cbn [map] in ND. apply NoDup_cons in ND as [N ND]. inversion F as [|? ? [Fi Fc] F']; subst.
  destruct (check_guild_moved now g saved b R Fi Fc) as (b1 & E1 & M1).
  rewrite (bind_run _ _ _ _ _ E1).
  set (saved1 := if HasClient (key g) b then _ else saved).
  set (g1 := if HasClient (key g) b then b_guilds b else _) in M1.
  assert (b_guilds b1 = g1) as G1 by apply M1.
  assert (∀ id, id ∈ saved1 → is_Some (b_guilds b1 !! id)) as Hs1.
  { intros id Hid. assert (id ∈ saved) as Hid'.
    { unfold saved1 in Hid. destruct (HasClient (key g) b); [|done].
      apply list_elem_of_In, filter_In in Hid as [Hid _]. by apply list_elem_of_In. }
    rewrite G1. unfold g1. destruct (HasClient (key g) b); [by apply Hs|].
    apply lookup_insert_is_Some'. right. by apply Hs. }
  destruct (IH saved1 b1 (proj1 M1) (conj ND F') Hs1) as (b2 & guilds & E2 & M2 & L2).
  exists b2, guilds. rewrite E2. split; [|split].
  - f_equal. f_equal. rewrite (saved_without b g saved Hs Fi : saved1 = _). apply filter_twice.
  - exact (moved_trans _ _ _ _ _ _ _ M1 M2).
  - intros id. rewrite L2, G1. unfold g1, lookup_guild. cbn [List.find].
    destruct (HasClient (key g) b) eqn:H.
    + destruct (b_guilds b !! id) eqn:E; [done|]. destruct (Z.eqb_spec (key g) id) as [<-|]; [|done].
      unfold HasClient in H. rewrite E in H. apply bool_decide_eq_true in H as [? ?]. done.
    + destruct (Z.eqb_spec (key g) id) as [<-|Ne].
      * rewrite lookup_insert_eq. unfold HasClient in H. apply bool_decide_eq_false, eq_None_not_Some in H.
        by rewrite H.
      * rewrite lookup_insert_ne by done. done.
Qed.
Lemma drop_client_moved now id b :
  running b → ∃ b', drop_client now id b = (Ret (), b') ∧ moved b b' (delete id (b_guilds b)) [].
Proof.
  intros R. unfold drop_client, GetClient. rewrite bind_gets.
  destruct (b_guilds b !! id) as [c|] eqn:E.
  - destruct (message_moved LOGS_CHANNEL_GUILD_DELETE_ID (mkEmbed
      (DiscordMessageColor.value DiscordMessageColor.Orange) (Some (GuildName c, [], []))
      (Some (str "ID: " ++ Strings.fmt_dec id, [])) (str "**Выход из гильдии**") []
      [add_field (str "Название") (ticked (GuildName c))] now) b R) as (b1 & E1 & R1 & G1 & C1).
    unfold LogDeleteClient. rewrite (bind_run _ _ _ _ _ E1).
    unfold DeleteClient, HasClient. rewrite bind_gets, G1, E, bool_decide_eq_true_2 by done.
    cbn [negb]. rewrite bind_modify. eexists. split; [done|]. split; [done|].
    cbn. rewrite G1. split; [done|]. exact C1.
  - eexists. split; [done|]. split; [done|]. rewrite app_nil_r. split; [|done].
    symmetry. by apply delete_id.
Qed.

Lemma drop_clients_moved now l b :
  running b → ∃ b' guilds, for_each (drop_client now) l b = (Ret (), b') ∧ moved b b' guilds [] ∧
    ∀ id, guilds !! id = if bool_decide (id ∈ l) then None else b_guilds b !! id.
Proof.
  clear human order order_keys.
  revert b. induction l as [|x l IH]; intros b R; cbn [for_each].
  { exists b, (b_guilds b). split; [done|]. split; [|done]. split; [done|]. by rewrite app_nil_r. }
  destruct (drop_client_moved now x b R) as (b1 & E1 & M1). rewrite (bind_run _ _ _ _ _ E1).
  destruct (IH b1 (proj1 M1)) as (b2 & guilds & E2 & M2 & L2).
  exists b2, guilds. split; [done|]. split; [exact (moved_trans _ _ _ _ _ _ _ M1 M2)|].
  intros id. rewrite L2. destruct M1 as (_ & -> & _).
  destruct (decide (id = x)) as [->|N].
  - rewrite lookup_delete_eq, (bool_decide_eq_true_2 (x ∈ x :: l)) by (by left).
    by case_bool_decide.
  - rewrite lookup_delete_ne by done.
    by rewrite (bool_decide_ext (id ∈ x :: l) (id ∈ l)) by (rewrite elem_of_cons; tauto).
Qed.

Lemma lookup_guild_in gs id :
  guilds_ok gs → match lookup_guild gs id with
                 | Some g => g ∈ gs ∧ g_id g = id
                 | None => id ∉ map g_id gs
                 end.
Proof.
  intros [_ F]. unfold lookup_guild. destruct (List.find _ gs) as [g|] eqn:E.
  - apply find_some in E as [I E%Z.eqb_eq]. apply list_elem_of_In in I. split; [done|].
    rewrite Forall_forall in F. rewrite <- E. symmetry. by apply key_id, F.
  - intros (g & -> & I)%list_elem_of_fmap. rewrite Forall_forall in F. destruct (F g I) as [Fi _].
    apply list_elem_of_In in I. apply (find_none _ _ E) in I. rewrite key_id in I by done.
    by apply Z.eqb_neq in I.
Qed.

(** A check of guilds, up to the hooks. *)
Lemma CheckClients_moved now gs b :
  running b → guilds_ok gs → gs ≠ [] →
  ∃ b' guilds, CheckClients human order now (Some gs) b =
      (Ret (), call OnGuildMemberAdd (call OnGuildDelete (call OnGuildCreate b'))) ∧
    moved b b' guilds (map g_id gs) ∧
    ∀ id, guilds !! id =
      g ← lookup_guild gs id; Some (default (client_of now g) (b_guilds b !! id)).
Proof using order_keys.
  intros Hrun Hgs Hsome. unfold CheckClients. destruct gs as [|g0 gs0] eqn:Egs; [done|].
  rewrite <- Egs in *. clear g0 gs0 Egs Hsome. rewrite bind_gets.
  destruct (check_guilds_moved now gs (order (b_guilds b)) b Hrun Hgs) as (b1 & g1 & E1 & M1 & L1).
  { intros id. apply order_keys. }
  rewrite (bind_run _ _ _ _ _ E1). set (saved := List.filter _ _).
  destruct (drop_clients_moved now saved b1 (proj1 M1)) as (b2 & g2 & E2 & M2 & L2).
  rewrite (bind_run _ _ _ _ _ E2).
  pose proof (moved_trans _ _ _ _ _ _ _ M1 M2) as M. rewrite app_nil_r in M.
  pose proof M as ((B2 & _) & _). unfold ConfigureGuildInviteHooks.
  rewrite (bind_run _ _ _ _ _ (on_cluster_run _ b2 B2)).
  rewrite (bind_run _ _ _ _ _ (on_cluster_run _ (call _ b2) B2)).
  rewrite on_cluster_run by done. exists b2, g2. split; [done|]. split; [done|].
  intros id. rewrite L2. destruct M1 as (_ & -> & _). rewrite L1.
  pose proof (lookup_guild_in gs id Hgs) as Hid.
  assert (id ∈ saved ↔ is_Some (b_guilds b !! id) ∧ id ∉ map g_id gs) as Es.
  { unfold saved. rewrite list_elem_of_In, filter_In, negb_true_iff, bool_decide_eq_false.
    by rewrite <- list_elem_of_In, order_keys. }
  destruct (lookup_guild gs id) as [g|] eqn:Eg; cbn.
  - destruct Hid as [Hg <-]. rewrite bool_decide_eq_false_2.
    + by destruct (b_guilds b !! g_id g).
    + rewrite Es. intros [_ N]. apply N. by apply list_elem_of_fmap_2.
  - case_bool_decide as D; [done|]. destruct (b_guilds b !! id) as [c|]; [|done].
    destruct D. apply Es. by split; [exists c|].
Qed.

Lemma CheckClients_HasClient now gs b id :
  running b → guilds_ok gs → id ∈ map g_id gs →
  HasClient id (CheckClients human order now (Some gs) b).2 = true.
Proof using order_keys.
  intros R Hgs Hid. destruct (CheckClients_moved now gs b R Hgs) as (b' & guilds & -> & (_ & E & _) & L).
  { intros ->. by apply elem_of_nil in Hid. }
  apply bool_decide_eq_true_2. cbn. rewrite E, L.
  pose proof (lookup_guild_in gs id Hgs) as H. destruct (lookup_guild gs id); [|done]. cbn. by eexists.
Qed.

(** C16: a check of the guilds leaves in the cache exactly the guilds the library
    names: a client known before keeps what was known of it, a new one gets the
    name and size just heard, and the ones left are dropped.  Every guild is given
    the commands, once and in the order of the answer, and the hooks for
    invitations are set last. *)
Theorem check_clients_exact (now : Z) (gs : list guild) (b : DiscordBot)
    (Hrun : running b) (Hgs : guilds_ok gs) (Hsome : gs ≠ []) :
  ∃ b' calls, CheckClients human order now (Some gs) b = (Ret (), b') ∧ running b' ∧
    (∀ id, b_guilds b' !! id =
      g ← lookup_guild gs id;
      Some (default (client_of now g) (b_guilds b !! id))) ∧
    commands_of (b_calls b') = commands_of (b_calls b) ++ map g_id gs ∧
    b_calls b' = calls ++ [OnGuildCreate; OnGuildDelete; OnGuildMemberAdd].
Proof using order_keys.
  destruct (CheckClients_moved now gs b Hrun Hgs Hsome) as (b' & guilds & E & (R & G & C) & L).
  eexists _, (b_calls b'). split; [exact E|]. split; [done|]. split; [|split].
  - intros id. cbn. by rewrite G, L.
  - cbn. rewrite <- !app_assoc. unfold commands_of in *. rewrite omap_app, C. cbn.
    by rewrite !app_nil_r.
  - cbn. by rewrite <- !app_assoc.
Qed.
End checked.
End Bot.

(** ** Witnesses *)

Module BotSample.
Definition order (m : gmap Z DiscordClients) : list Z := (map_to_list m).*1.

Lemma order_keys m id : id ∈ order m ↔ is_Some (m !! id).
Proof.
  unfold order. rewrite list_elem_of_fmap. split.
  - intros ([i c] & -> & H%elem_of_map_to_list). by exists c.
  - intros [c H]. exists (id, c). split; [done|]. by apply elem_of_map_to_list.
Qed.

Definition old : DiscordClients := mkClient 7 (str "old") 3 100.
Definition gone : DiscordClients := mkClient 9 (str "gone") 5 100.
Definition rows : list DiscordClients := [old; gone].
Definition table : gmap Z DiscordClients := {[7 := old; 9 := gone]}.
Definition guild_of (id : Z) (name : string) : guild := mkGuild id (str name) 10 [] 50.
Definition answer : list guild := [guild_of 8 "new"; guild_of 7 "renamed"].
Definition bot : DiscordBot := mkBot true true table [] [] 0.
End BotSample.

Lemma clients_in_step_witness :
  ∃ b, Bot.Start true (str "token") (Some BotSample.rows) Bot.new = (Ret (), b) ∧
    b_guilds b = BotSample.table ∧
    Bot.in_step BotSample.table (foldl (λ b e, (Bot.run_event (λ _, []) BotSample.order e b).2) b
      [Bot.Checked 200 (Some BotSample.answer); Bot.GuildDeleted 210 (BotSample.guild_of 8 "new") false;
       Bot.GuildCreated 220 (BotSample.guild_of 11 "late") false; Bot.Checked 230 None]).
Proof.
  apply (Bot.clients_in_step (λ _, []) BotSample.order BotSample.table BotSample.rows (str "token")).
  - intros id c. unfold BotSample.table, BotSample.rows. rewrite lookup_insert_Some, lookup_singleton_Some.
    rewrite elem_of_cons, list_elem_of_singleton. split.
    + intros [[<- <-]|(_ & <- & <-)]; (split; [tauto|done]).
    + intros [[-> | ->] <-]; [by left|]. by right.
  - discriminate.
Defined.

Lemma check_clients_exact_witness :
  ∃ b' calls, Bot.CheckClients (λ _, []) BotSample.order 200 (Some BotSample.answer) BotSample.bot =
      (Ret (), b') ∧ Bot.running b' ∧
    (∀ id, b_guilds b' !! id =
      g ← Bot.lookup_guild BotSample.answer id;
      Some (default (Bot.client_of 200 g) (b_guilds BotSample.bot !! id))) ∧
    Bot.commands_of (b_calls b') =
      Bot.commands_of (b_calls BotSample.bot) ++ map g_id BotSample.answer ∧
    b_calls b' = calls ++ [OnGuildCreate; OnGuildDelete; OnGuildMemberAdd].
Proof.
  apply (Bot.check_clients_exact (λ _, []) BotSample.order BotSample.order_keys 200 BotSample.answer
    BotSample.bot).
  - by split.
  - split; [apply (bool_decide_eq_true_1 _); vm_compute; reflexivity|].
    repeat constructor; cbn; lia.
  - discriminate.
Defined.
