(* ===== verification/Relay.v ===== *)
(** * Relay: from a game server's bytes to the channels of its guild

    The parts put together: a connection that is fed the byte stream of a client
    ([DiscordSocket.v], [Framing.v]), the session that works off its packets
    ([Session.v]) and the bot that speaks for it ([Bot.v]).  A client logs in and
    what it says is said in its guild's channels. *)

From S2P Require Import Prelude MessageBuffer Utf8 Strings BigNumber Srp6 Timer Enums ByteBuffer Wire Packets.
From S2P Require Import Queues Async Socket Session DiscordSocket Framing Login Sending World.
From S2P Require Import Accounts Channels Bot.
Open Scope Z_scope.
Import DS.

(** ** What a client sends *)

Inductive client_message :=
  | Hello (p : HelloClient)
  | Say (p : SendDiscordMessage)
  | SayEmbed (p : SendDiscordEmbedMessage).

(** A packet of a client: the header it writes has the layout the server reads,
    the size in network order and the opcode in little-endian order. *)
Definition client_frame (opcode : Z) (payload : list Z) : list Z :=
  Header.DiscordServerPktHeader (zlen payload + 2) opcode ++ payload.

Section client.
Context {H : Host}.

Definition opcode_of (m : client_message) : Z :=
  DiscordCode.value
    match m with
    | Hello _ => DiscordCode.CLIENT_SEND_HELLO
    | Say _ => DiscordCode.CLIENT_SEND_MESSAGE
    | SayEmbed _ => DiscordCode.CLIENT_SEND_MESSAGE_EMBED
    end.

Definition payload_of (m : client_message) : list Z :=
  match m with
  | Hello p => w_bytes hello_wire p
  | Say p => w_bytes message_wire p
  | SayEmbed p => embed_bytes p
  end.

Definition encode_message (m : client_message) : list Z :=
  client_frame (opcode_of m) (payload_of m).

(** What the server takes: a packet of less than ten thousand bytes. *)
Definition fits (payload : list Z) : Prop := zlen payload + 2 < 10000.

Definition message_ok (m : client_message) : Prop :=
  match m with
  | Hello p => w_ok hello_wire p
  | Say p => w_ok message_wire p
  | SayEmbed p => embed_ok p
  end ∧ fits (payload_of m).

Definition auth_bytes (a : AuthSession) : list Z :=
  (au_Account a ++ [0]) ++ (au_Key a ++ [0]) ++ (au_CoreName a ++ [0]) ++ (au_CoreVersion a ++ [0]) ++
  le_bytes 4 (au_ModuleVersion a).

Definition auth_valid (a : AuthSession) : Prop :=
  w_ok string_wire (au_Account a) ∧ w_ok string_wire (au_Key a) ∧ w_ok string_wire (au_CoreName a) ∧
  w_ok string_wire (au_CoreVersion a) ∧ 0 <= au_ModuleVersion a < 2 ^ 32 ∧ fits (auth_bytes a).

Definition encode_auth (a : AuthSession) : list Z :=
  client_frame (DiscordCode.value DiscordCode.CLIENT_AUTH_SESSION) (auth_bytes a).

(** *** Its bytes *)

Lemma frame_is_bytes opcode payload : Forall is_byte payload → Forall is_byte (client_frame opcode payload).
Proof. intros. apply Forall_app. split; [apply Header.server_header_bytes|done]. Qed.

Lemma embed_is_bytes p : embed_ok p → Forall is_byte (embed_bytes p).
Proof.
  intros (Hh & _ & Hf & Ht). unfold embed_bytes. apply Forall_app. split; [by apply wire_bytes|].
  apply Forall_app. split; [|by apply (wire_bytes (W := int_wire 8))].
  clear -Hf. induction Hf as [|f fs H' _ IH]; [constructor|]. cbn [map concat].
  apply Forall_app. split; [by apply (wire_bytes (W := field_wire))|done].
Qed.

Lemma payload_is_bytes m : message_ok m → Forall is_byte (payload_of m).
Proof.
  intros [Hm _]. destruct m; cbn [payload_of] in *; [by apply wire_bytes..|by apply embed_is_bytes].
Qed.

(** A packet as [ReadDataHandler] makes it. *)
Definition packet (opcode : Z) (payload : list Z) : DiscordPacket := mkPacket opcode (mkBB 0 0 payload).
Definition packet_of (m : client_message) : DiscordPacket := packet (opcode_of m) (payload_of m).

Lemma readable_packet payload : Forall is_byte payload → fits payload → BB.readable (mkBB 0 0 payload).
Proof.
  unfold fits. intros Hb Hs. pose proof (zlen_nonneg payload). split; [|done].
  repeat split; cbn; try done; unfold BB.size; cbn; lia.
Qed.

Lemma rest_packet payload : BB.rest (mkBB 0 0 payload) = payload ++ [].
Proof. by rewrite app_nil_r. Qed.

Lemma read_packet {A} (W : Wire A) `{!WireLaws W} a :
  w_ok W a → fits (w_bytes W a) → eval (w_get W) (mkBB 0 0 (w_bytes W a)) = Ret a.
Proof.
  intros Ha Hs. unfold eval. rewrite (wire_get a _ [] Ha); [done| |apply rest_packet].
  apply readable_packet; [by apply wire_bytes|done].
Qed.

Lemma opcode_range m : 0 < opcode_of m < NUM_DISCORD_CODE_HANDLERS.
Proof. by destruct m. Qed.

Lemma packet_of_ok m : message_ok m → Session.packet_ok (packet_of m).
Proof.
  intros Hm. split; [apply opcode_range|]. pose proof (payload_is_bytes m Hm) as Hb.
  destruct Hm as [_ Hs]. unfold fits in Hs. pose proof (zlen_nonneg (payload_of m)).
  repeat split; cbn; try done; unfold BB.size; cbn; lia.
Qed.

(** *** What it asks for: the calls on the bot, for the seven channels *)

Definition wanted (channels : list Z) (m : client_message) : list bot_call :=
  match m with
  | Hello _ => []
  | Say p =>
      let c := Session.channel_of channels (sm_ChannelType p) in
      if c =? 0 then [] else [SendDefaultMessage c (sm_Context p)]
  | SayEmbed p =>
      let c := Session.channel_of channels (se_ChannelType p) in
      if c =? 0 then []
      else [SendEmbedMessage c (Session.mkEmbed (se_Color p) (se_Title p) (se_Description p)
                                  (se_EmbedFields p) (se_Timestamp p))]
  end.

Lemma calls_of_message channels m :
  message_ok m → Session.calls_of channels (packet_of m) = wanted channels m.
Proof.
  intros Hm. pose proof (payload_is_bytes m Hm) as Hb. destruct Hm as [Hm Hs].
  destruct m as [p|p|p]; unfold Session.calls_of, packet_of, packet, wanted; cbn [dp_opcode dp_buf
    opcode_of DiscordCode.value Z.eqb Pos.eqb payload_of] in *; [done| |].
  - change (eval Payload.SendDiscordMessage_Read (mkBB 0 0 (w_bytes message_wire p))) with
      (eval (w_get message_wire) (mkBB 0 0 (w_bytes message_wire p))).
    by rewrite (read_packet message_wire p Hm Hs).
  - unfold eval. rewrite (embed_read_spec p _ [] Hm); [done| |apply rest_packet].
    by apply readable_packet.
Qed.

(** ** The stream of its packets *)

(** A complete packet at the front of the stream is dispatched. *)
Lemma parse_packet f c opcode payload rest :
  0 <= opcode < NUM_DISCORD_CODE_HANDLERS → fits payload →
  parse (S f) c (client_frame opcode payload ++ rest) =
  match Dispatch true opcode (packet opcode payload) c with
  | (Ret ROk, c) => parse f c rest
  | (Ret RError, c) => (Ret SClosed, set_session None c, [])
  | (Ret RWaitingForQuery, c) => (Ret SWaiting, c, rest)
  | (Throw e, c) => (Throw e, c, [])
  | (AssertFail, c) => (AssertFail, c, [])
  | (UB, c) => (UB, c, [])
  end.
Proof.
  unfold fits. intros Ho Hs. pose proof (zlen_nonneg payload). pose proof (zlen_nonneg rest).
  assert (NUM_DISCORD_CODE_HANDLERS < 2 ^ 16) by done. unfold client_frame.
  set (hd := Header.DiscordServerPktHeader (zlen payload + 2) opcode).
  assert (zlen hd = HEADER) as Hl by done. rewrite <- app_assoc. cbn [parse].
  rewrite zlen_app, (proj2 (Z.ltb_ge _ _)) by (rewrite zlen_app; lia).
  assert (ztake HEADER (hd ++ payload ++ rest) = hd) as -> by (by rewrite <- Hl, ztake_app_exact).
  assert (zdrop HEADER (hd ++ payload ++ rest) = payload ++ rest) as ->
    by (by rewrite <- Hl, zdrop_app_exact).
  assert (Header.decode hd = Header.mkHeader (zlen payload + 2) opcode) as ->.
  { unfold hd. rewrite <- (app_nil_r (Header.DiscordServerPktHeader _ _)).
    apply Header.decode_server; lia. }
  unfold Header.IsValidSize, Header.IsValidOpcode. cbn [Header.h_size Header.h_cmd].
  rewrite (proj2 (Z.leb_le _ _)), !(proj2 (Z.ltb_lt _ _)) by lia. cbn [negb orb andb].
  cbv zeta. rewrite Z.add_simpl_r, zlen_app, (proj2 (Z.ltb_ge _ _)) by lia.
  rewrite ztake_app_exact, zdrop_app_exact. reflexivity.
Qed.

(** The packets of an authenticated client go to its session's queue. *)
Definition queued (ms : list client_message) (ses : DiscordSession) : DiscordSession :=
  fold_left (λ ses m, Session.QueuePacket (packet_of m) ses) ms ses.

Lemma Dispatch_message m c ses :
  co_session c = Some ses →
  Dispatch true (opcode_of m) (packet_of m) c =
    (Ret ROk, set_session (Some (Session.QueuePacket (packet_of m) ses)) c).
Proof. intros E. by destruct m; unfold Dispatch; cbn; rewrite E. Qed.

Lemma parse_messages ms : ∀ f c ses,
  co_session c = Some ses → Forall message_ok ms → (length ms < f)%nat →
  parse f c (concat (map encode_message ms)) =
    (Ret SReading, set_session (Some (queued ms ses)) c, []).
Proof.
  induction ms as [|m ms IH]; intros f c ses E Hm Hf; (destruct f as [|f]; [cbn in Hf; lia|]).
  - cbn. destruct c. cbn in E. by subst.
  - apply Forall_cons in Hm as [Hm Hms]. cbn [map concat length] in *.
    unfold encode_message at 1. pose proof (opcode_range m).
    rewrite parse_packet by (lia || apply Hm). fold (packet_of m).
    rewrite (Dispatch_message m c ses E).
    rewrite (IH f _ (Session.QueuePacket (packet_of m) ses)) by (done || lia). done.
Qed.
End client.

(** ** The session works off its queue, the bot speaks *)

(** [session->Update()], the body of [Discord::UpdateSessions], on the session the
    socket holds: both hold the same object. *)
Definition update_session {H : Host} : M exn st bool := λ s,
  match co_session (ds_core s.2) with
  | Some ses =>
      let '(alive, ses) := Session.Update s ses in (alive, on_core (set_session (Some ses)) s)
  | None => (Ret false, s)
  end.

(** So many updates of the server. *)
Fixpoint update_rounds {H : Host} (n : nat) : M exn st () :=
  match n with
  | O => mret ()
  | S n => _ ← update_session; update_rounds n
  end.

(** The calls of the handlers on [sDiscordBot], on the bot. *)
Definition embed_of (e : Session.Embed) : embed :=
  mkEmbed (Session.em_color e) None None (Session.em_title e) (Session.em_description e)
    (Session.em_fields e) (Session.em_timestamp e).

Definition on_bot (c : bot_call) : M Empty_set DiscordBot () :=
  match c with
  | SendDefaultMessage channelID message => Bot.SendDefaultMessage channelID message
  | SendEmbedMessage channelID e => Bot.SendEmbedMessage channelID (Some (embed_of e))
  end.

(** What a message becomes in the channel of its type. *)
Definition said (channels : list Z) (m : client_message) : list cluster_call :=
  match m with
  | Hello _ => []
  | Say p =>
      let c := Session.channel_of channels (sm_ChannelType p) in
      if c =? 0 then [] else [CreateText (u64 c) (sm_Context p)]
  | SayEmbed p =>
      let c := Session.channel_of channels (se_ChannelType p) in
      if c =? 0 then []
      else [CreateEmbed (u64 c) (mkEmbed (se_Color p) None None (se_Title p) (se_Description p)
                                   (se_EmbedFields p) (se_Timestamp p))]
  end.

Definition speaks (cs : list cluster_call) (b : DiscordBot) : DiscordBot :=
  mkBot (b_isEnable b) (b_bot b) (b_guilds b) (b_calls b ++ cs) (b_db b) (b_checks b).

Lemma speaks_nil b : speaks [] b = b.
Proof. destruct b. unfold speaks. cbn. by rewrite app_nil_r. Qed.

Lemma speaks_app cs cs' b : speaks cs' (speaks cs b) = speaks (cs ++ cs') b.
Proof. unfold speaks. cbn. by rewrite app_assoc. Qed.

Lemma wanted_said channels m b :
  Bot.running b → for_each on_bot (wanted channels m) b = (Ret (), speaks (said channels m) b).
Proof.
  intros [Hb He]. destruct m as [p|p|p]; unfold wanted, said; [by rewrite speaks_nil| |];
    (destruct (_ =? 0); [by rewrite speaks_nil|]); cbn [for_each on_bot].
  - unfold Bot.SendDefaultMessage. unfold mbind, M_bind, gets. rewrite He. cbn [negb].
    rewrite Bot.on_cluster_run by done. done.
  - unfold Bot.SendEmbedMessage. unfold mbind, M_bind, gets. rewrite He. cbn [negb].
    rewrite Bot.on_cluster_run by done. done.
Qed.

Lemma all_said channels ms : ∀ b,
  Bot.running b →
  for_each on_bot (concat (map (wanted channels) ms)) b =
    (Ret (), speaks (concat (map (said channels) ms)) b).
Proof.
  induction ms as [|m ms IH]; intros b Hb; cbn [map concat]; [by rewrite speaks_nil|].
  rewrite for_each_app, (bind_run _ _ _ _ _ (wanted_said channels m b Hb)), IH by done.
  by rewrite speaks_app.
Qed.

Section session.
Context {H : Host}.

Lemma processed_processed i j ses :
  Session.processed j (Session.processed i ses) = Session.processed (i + j) ses.
Proof.
  destruct ses as [k ad id gu na la ki ch [q c] out].
  unfold Session.processed, Session.emits, Session.set_recvQueue. cbn.
  rewrite drop_drop, <- app_assoc, <- concat_app, <- map_app. repeat f_equal. symmetry.
  rewrite <- (take_take_drop q i j). done.
Qed.

Lemma queued_exact ms : ∀ ses,
  queued ms ses =
    Session.set_recvQueue
      (PacketQueue.mk (PacketQueue.queue (s_recvQueue ses) ++ map packet_of ms)
         (PacketQueue.canceled (s_recvQueue ses))) ses.
Proof.
  unfold queued. induction ms as [|m ms IH]; intros ses; cbn [fold_left map].
  - rewrite app_nil_r. by destruct ses as [? ? ? ? ? ? ? ? [q c] ?].
  - rewrite IH. unfold Session.QueuePacket, PacketQueue.AddPacket, Session.set_recvQueue. cbn.
    by rewrite <- app_assoc.
Qed.

Lemma update_session_run s ses :
  co_session (ds_core s.2) = Some ses → SocketOps.IsOpen s.1 = true → World.Discord.healthy ses →
  update_session s = (Ret true,
    on_core (set_session (Some (Session.processed
      (Nat.min 101 (length (PacketQueue.queue (s_recvQueue ses)))) ses))) s).
Proof.
  intros E Ho (Hs & Hc & Hq). unfold update_session. rewrite E, Session.session_Update_eq by done.
  change (sock_IsOpen s) with (SocketOps.IsOpen s.1). rewrite Ho. do 2 f_equal.
  destruct ses. cbn in Hs. by subst.
Qed.

Lemma update_rounds_run n : ∀ s ses,
  co_session (ds_core s.2) = Some ses → SocketOps.IsOpen s.1 = true → World.Discord.healthy ses →
  (length (PacketQueue.queue (s_recvQueue ses)) <= 101 * n)%nat →
  update_rounds n s = (Ret (),
    on_core (set_session (Some (Session.processed
      (length (PacketQueue.queue (s_recvQueue ses))) ses))) s).
Proof.
  induction n as [|n IH]; intros s ses E Ho Hh Hn; cbn [update_rounds].
  - replace (length _) with 0%nat by lia. rewrite Session.processed_0. unfold on_core.
    destruct s as [sk [c hb pb z]]. cbn in *. by destruct c; cbn in E; subst.
  - rewrite (bind_run _ _ _ _ _ (update_session_run s ses E Ho Hh)).
    set (k := Nat.min 101 _). set (ses' := Session.processed k ses).
    assert (length (PacketQueue.queue (s_recvQueue ses')) =
      (length (PacketQueue.queue (s_recvQueue ses)) - k)%nat) as El by (cbn; by rewrite length_drop).
    rewrite (IH _ ses'); [|done|done| |].
    + rewrite El. unfold ses'. rewrite processed_processed.
      replace (k + (_ - k))%nat with (length (PacketQueue.queue (s_recvQueue ses))) by lia. done.
    + destruct Hh as (Hs & Hc & Hq). split; [done|]. split; [done|]. by apply Forall_drop.
    + rewrite El. unfold k.
      lia.
Qed.

(** *** What a client says while it is logged in *)

Lemma listening_on_core f s c p :
  listening s c p → listening (on_core f s) (f c) p.
Proof.
  intros [[Ho Hw Hsz Ha Hc Hf] H1 H2 H3 H4]. split; try done. split; try done; cbn; [by rewrite Hc|].
  by inversion Hf; subst; [apply frame_header|eapply frame_payload].
Qed.

(** A session that waits, with nothing left to do. *)
Record at_rest (s : st) (c : Core) (ses : DiscordSession) : Prop := {
  rest_listening : listening s c [];
  rest_session : co_session c = Some ses;
  rest_socket : s_socket ses = true;
  rest_channels : length (s_channels ses) = 7%nat;
  rest_queue : PacketQueue.queue (s_recvQueue ses) = []
}.

(** A client's messages, however the network cuts their bytes, are handled by
    enough updates of the server, in order, and the session is at rest again. *)
Lemma messages_handled (s : st) (c : Core) (ses : DiscordSession) (ms : list client_message)
    (chunks : list (list Z)) (n : nat) :
  at_rest s c ses → Forall message_ok ms → Forall chunk_ok chunks →
  concat chunks = concat (map encode_message ms) → (length ms <= 101 * n)%nat →
  ∃ s' ses', (_ ← feed chunks; update_rounds n) s = (Ret (), s') ∧
    at_rest s' (set_session (Some ses') c) ses' ∧ s_accountId ses' = s_accountId ses ∧
    s_out ses' = s_out ses ++ concat (map (wanted (s_channels ses)) ms).
Proof.
  intros [Hl Es Hs Hc Hq] Hm Hch Ec Hn.
  destruct (feed_spec chunks s c [] Hl) as (s1 & E1 & L1); [by intros _; exists ses|done|].
  cbn [app] in L1. rewrite Ec in L1. unfold parse_stream in L1.
  rewrite (parse_messages ms _ c ses Es Hm) in L1 by (clear; induction ms as [|m ms IH]; cbn; [lia|];
    rewrite !length_app; cbn; lia).
  rewrite (bind_run _ _ _ _ _ E1). set (ses1 := queued ms ses) in *.
  pose proof (queued_exact ms ses : ses1 = _) as Eq. rewrite Hq in Eq. cbn [app] in Eq.
  assert (PacketQueue.queue (s_recvQueue ses1) = map packet_of ms) as Eq1 by (by rewrite Eq).
  assert (World.Discord.healthy ses1) as Hh.
  { split; [by rewrite Eq|]. split; [by rewrite Eq|]. rewrite Eq1. apply Forall_map.
    eapply Forall_impl; [exact Hm|]. apply packet_of_ok. }
  pose proof (rel_core _ _ _ _ (li_rel _ _ _ L1)) as Hcore.
  assert (co_session (ds_core s1.2) = Some ses1) as Es1 by (by rewrite Hcore).
  pose proof (update_rounds_run n s1 ses1 Es1 (rel_open _ _ _ _ (li_rel _ _ _ L1)) Hh) as U.
  rewrite Eq1, length_map in U.
  eexists _, (Session.processed (length ms) ses1). split; [apply U; lia|].
  assert (Session.processed (length ms) ses1 =
    Session.emits (concat (map (wanted (s_channels ses)) ms)) ses) as ->.
  { unfold Session.processed. rewrite Eq1, Eq. cbn.
    rewrite <- (length_map packet_of ms), take_ge, drop_ge by lia. rewrite map_map.
    rewrite (map_ext_Forall _ (wanted (s_channels ses))).
    - by destruct ses as [? ? ? ? ? ? ? ? [q x] ?]; cbn in Hq; subst.
    - eapply Forall_impl; [exact Hm|]. intros m. apply calls_of_message. }
  split; [|done]. split; try done.
  apply (listening_on_core (set_session (Some (Session.emits _ ses))) _ _ [] L1).
Qed.
End session.

(** ** Logging in *)

Section login.
Context {H : Host} {O : OpenSSL}.

(** A connection with nothing to send. *)
Record silent (s : st) : Prop := {
  silent_open : sk_closed s.1 = false;
  silent_write : write_side s.1 = (false, false, []);
  silent_queue : co_bufferQueue (ds_core s.2) = []
}.

Lemma Update_silent now closed results (s s' : st) :
  silent s → ProcessReadyCallbacks now closed results s = (Ret (), s') →
  Update now closed results s = (Ret true, s').
Proof.
  intros [Ho [= Hc Hw Hq] Hb] E. destruct s as [sk [c hb pb z]]. cbn [fst snd ds_core] in *.
  unfold Update, SocketOps.Update. rewrite Ho, Hq, Hw, Hc. cbn [negb orb andb].
  cbn [ds_core ds_sendBufferSize]. rewrite Hb. cbn [pack].
  change (MB.GetActiveSize (MB.new_sized z)) with 0. cbn [Z.ltb Z.compare fold_left].
  replace (set_core (set_bufferQueue [] c) (mkDS c hb pb z)) with (mkDS c hb pb z); [by rewrite E|].
  unfold set_core. cbn. by destruct c; cbn in Hb; subst.
Qed.

Lemma process_one now closed results q (s s' : st) :
  co_queries (ds_core s.2) = [q] →
  InvokeIfReady now closed results q (Ret (), on_core (set_queries []) s) = (true, (Ret (), s')) →
  co_queries (ds_core s'.2) = [] →
  ProcessReadyCallbacks now closed results s = (Ret (), s').
Proof.
  intros Hq E Hq'. unfold ProcessReadyCallbacks, AsyncCallbackProcessor.ProcessReadyCallbacks.
  cbn [snd]. rewrite Hq. cbn [AsyncCallbackProcessor.remove_if fst snd]. rewrite E. cbn [fst snd].
  rewrite Hq'. cbn [app]. f_equal. destruct s' as [sk [c hb pb z]]. cbn in *. unfold on_core, set_core.
  cbn. by destruct c; cbn in Hq'; subst.
Qed.

Lemma AsyncRead_core (s : st) : ds_core (AsyncRead s).2 = ds_core s.2.
Proof. done. Qed.

Lemma AsyncRead_silent (s : st) : silent s → silent (AsyncRead s).
Proof.
  destruct s as [sk d]. intros [Ho Hw Hb]. split; unfold AsyncRead, SocketOps.AsyncRead; cbn in *;
    by destruct (SocketOps.IsOpen sk).
Qed.

Lemma on_core_silent f (s : st) :
  co_bufferQueue (f (ds_core s.2)) = [] → silent s → silent (on_core f s).
Proof. by intros E [Ho Hw Hb]; split. Qed.

Lemma rel_on_core f s c p data : rel s c p data → rel (on_core f s) (f c) p data.
Proof.
  intros [Ho Hw Hsz Ha Hc Hf]. split; try done; cbn; [by rewrite Hc|].
  by inversion Hf; subst; [apply frame_header|eapply frame_payload].
Qed.

(** No row of the address bars it. *)
Lemma CheckIpCallback_clean rows s :
  Forall (λ row, row = (0, 0)) rows → CheckIpCallback rows s = AsyncRead s.
Proof. by induction 1 as [|row rows -> _ IH]. Qed.

(** The client's name and key, read by the server. *)
Lemma read_auth_exact a : auth_valid a →
  Forall is_byte (auth_bytes a) ∧ eval read_auth (mkBB 0 0 (auth_bytes a)) = Ret a.
Proof.
  intros (H1 & H2 & H3 & H4 & H5 & Hs).
  set (W := pair_wire string_wire (pair_wire string_wire (pair_wire string_wire
    (pair_wire string_wire (uint_wire 4))))).
  assert (w_ok W (au_Account a, (au_Key a, (au_CoreName a, (au_CoreVersion a, au_ModuleVersion a))))) as Hok.
  { repeat (split; [done|]). split; [lia|]. exact H5. }
  change (auth_bytes a) with
    (w_bytes W (au_Account a, (au_Key a, (au_CoreName a, (au_CoreVersion a, au_ModuleVersion a))))) in *.
  split; [by apply wire_bytes|]. pose proof (read_packet W _ Hok Hs) as E.
  unfold eval in *. cbn [w_get W pair_wire string_wire uint_wire] in E. unfold read_auth.
  revert E. unfold mbind, M_bind, mret, M_ret.
  repeat match goal with
  | |- context [match ?m ?b with _ => _ end] =>
      match type of (m b) with (outcome exn _ * ByteBuffer)%type => destruct (m b) as [[| | |] ?]; try done end
  end.
  cbn. intros [= -> -> -> -> ->]. by destruct a.
Qed.

(** *** The stages *)

(** The two answers of the bot: it is in the guild, and these are its channels. *)
Definition bot_answers (channels : list Z) : M exn st () := λ s,
  match co_requests (ds_core s.2) with
  | [RBotInGuild auth account] =>
      (Ret (), OnChannels auth account channels (OnBotInGuild auth account true s))
  | _ => (Ret (), s)
  end.

(** [Discord::AddSession]: the new session tells its client. *)
Definition welcome : M exn st () := λ s,
  match co_session (ds_core s.2) with
  | Some ses => (Ret (), Session.SendAuthResponse DiscordAuthResponseCodes.Ok ses s)
  | None => (Ret (), s)
  end.

(** A login: the connection starts, the address is looked up, the client's first
    packet arrives in pieces, its account is looked up, the bot answers. *)
Definition log_in (now : Z) (results : query → option answer) (pieces : list (list Z))
    (channels : list Z) : M exn st () :=
  _ ← modify Start;
  _ ← Update now false results;
  _ ← feed pieces;
  _ ← Update now false results;
  _ ← bot_answers channels;
  welcome.

(** What the database and the bot must say for it, besides that the key is right. *)
Record welcomed (now : Z) (results : query → option answer) (auth : AuthSession) (row : AccountRow)
    (channels : list Z) : Prop := {
  wel_address : ∃ rows, results QIpInfo = Some (AIpInfo rows) ∧ Forall (λ row, row = (0, 0)) rows;
  wel_account : results (QAccountInfo auth) = Some (AAccountInfo (Some row));
  wel_forever : ai_IsPermanentlyBanned (AccountInfo_new now row) = false;
  wel_banned : ai_IsBanned (AccountInfo_new now row) = false;
  wel_channels : length channels = 7%nat
}.

Lemma stage_address clock address os now results rows :
  results QIpInfo = Some (AIpInfo rows) → Forall (λ row, row = (0, 0)) rows →
  ∃ c, let s := AsyncRead ((DS.new clock address os).1, set_core c (DS.new clock address os).2) in
    Update now false results (Start (DS.new clock address os)) = (Ret true, s) ∧
    listening s c [] ∧ silent s ∧
    c = mkCore clock address 0 0 None false [] [] [] [].
Proof.
  intros Er Hr. eexists. cbn zeta.
  set (s0 := ((DS.new clock address os).1, set_core _ (DS.new clock address os).2)).
  assert (listening (AsyncRead s0) _ []) as Hl by (apply AsyncRead_listening; [apply rel_new|done]).
  split; [|split; [exact Hl|split; [|reflexivity]]]; [|by apply AsyncRead_silent].
  apply Update_silent; [done|]. apply (process_one _ _ _ QIpInfo); [done| |done].
  unfold InvokeIfReady. cbn [fst snd]. rewrite Er, (CheckIpCallback_clean _ _ Hr). reflexivity.
Qed.

Lemma parse_auth f c auth :
  co_authed c = false → co_queries c = [] → auth_valid auth →
  parse (S f) c (encode_auth auth) = (Ret SWaiting, set_queries [QAccountInfo auth] c, []).
Proof.
  intros Ha Hq Hau. pose proof (read_auth_exact auth Hau) as [_ Er].
  destruct Hau as (_ & _ & _ & _ & _ & Hs).
  rewrite <- (app_nil_r (encode_auth auth)). unfold encode_auth. rewrite parse_packet by done.
  unfold Dispatch. cbn [DiscordCode.value Z.eqb Pos.eqb]. rewrite Ha. unfold HandleAuthSession, packet.
  cbn [dp_buf]. by rewrite Er, Hq.
Qed.

Lemma stage_hello pieces s c auth :
  listening s c [] → silent s → co_authed c = false → co_queries c = [] → auth_valid auth →
  Forall chunk_ok pieces → concat pieces = encode_auth auth →
  ∃ s', feed pieces s = (Ret (), s') ∧ rel s' (set_queries [QAccountInfo auth] c) [] [] ∧
    write_side s'.1 = (false, false, []) ∧ sk_closed s'.1 = false.
Proof.
  intros Hl [Ho Hw Hb] Ha Hq Hau Hp Ec.
  destruct (feed_spec pieces s c [] Hl) as (s' & E & L); [by unfold core_ok; rewrite Ha|done|].
  exists s'. split; [exact E|]. cbn [app] in L. rewrite Ec in L. unfold parse_stream in L.
  rewrite (parse_auth _ c auth Ha Hq Hau) in L. destruct L as [_ (r & u & Enil & Hrel)].
  symmetry in Enil. apply app_nil in Enil as [-> ->].
  split; [exact Hrel|]. pose proof (feed_write_side pieces s) as W. rewrite E in W. cbn [fst snd] in W.
  split; [by rewrite W|]. pose proof (rel_open _ _ _ _ Hrel) as Hop. unfold SocketOps.IsOpen in Hop.
  by destruct (sk_closed s'.1).
Qed.

Lemma stage_account s c auth row now results channels :
  rel s (set_queries [QAccountInfo auth] c) [] [] → write_side s.1 = (false, false, []) →
  sk_closed s.1 = false → co_bufferQueue c = [] → co_requests c = [] →
  welcomed now results auth row channels →
  CheckKey (au_Account auth) (au_Key auth) (AccountInfo_new now row) = Ret true →
  let account := AccountInfo_new now row in
  let c' := add_request (RBotInGuild auth account) (set_queries [] c) in
  ∃ s', Update now false results s = (Ret true, s') ∧ rel s' c' [] [].
Proof.
  intros Hrel Hw Ho Hb Hr [_ Ha Hf Hn _] Hk account c'.
  pose proof (rel_core _ _ _ _ Hrel) as Ec.
  set (s1 := on_core (set_queries []) s). exists (on_core (add_request (RBotInGuild auth account)) s1).
  split.
  - apply Update_silent; [by split; [| |rewrite Ec]|].
    apply (process_one _ _ _ (QAccountInfo auth)); [by rewrite Ec| |done].
    unfold InvokeIfReady. cbn [fst snd]. rewrite Ha. unfold HandleAuthSessionCallback.
    by rewrite Hf, Hn, Hk.
  - apply (rel_on_core (add_request (RBotInGuild auth account))).
    apply (rel_on_core (set_queries [])) in Hrel. exact Hrel.
Qed.

(** *** The whole login *)

(** The session a login makes. *)
Definition session_of (auth : AuthSession) (row : AccountRow) (channels address : list Z) :
    DiscordSession :=
  Session.new (row_ID row) (row_GuildID row) (au_Account auth) channels address.

Lemma logged_in clock address os now results pieces auth row channels :
  welcomed now results auth row channels →
  CheckKey (au_Account auth) (au_Key auth) (AccountInfo_new now row) = Ret true →
  auth_valid auth → Forall chunk_ok pieces →
  concat pieces = encode_auth auth →
  ∃ s c, log_in now results pieces channels (DS.new clock address os) = (Ret (), s) ∧
    at_rest s c (session_of auth row channels address) ∧
    co_bufferQueue c = [World.Discord.auth_ok] ∧ co_effects c = [EAddSession (row_ID row)].
Proof.
  intros Hwel Hk Hau Hp Ec. destruct (wel_address _ _ _ _ _ Hwel) as (rows & Er & Hrows).
  destruct (stage_address clock address os now results rows Er Hrows) as (c & E1 & L1 & S1 & ->).
  destruct (stage_hello pieces _ _ auth L1 S1) as (s2 & E2 & R2 & W2 & O2); [done..|].
  destruct (stage_account s2 _ auth row now results channels R2 W2 O2) as (s3 & E3 & R3); [done..|].
  unfold log_in. rewrite bind_modify, (bind_run _ _ _ _ _ E1), (bind_run _ _ _ _ _ E2),
    (bind_run _ _ _ _ _ E3).
  pose proof (rel_core _ _ _ _ R3) as C3.
  set (account := AccountInfo_new now row) in *.
  set (s4 := on_core (add_request (RChannels auth account)) s3).
  set (ses := session_of auth row channels address).
  set (f := λ c, add_effect (EAddSession (row_ID row)) (set_session (Some ses) (set_authed true c))).
  assert (bot_answers channels s3 = (Ret (), AsyncRead (on_core f s4))) as E4.
  { unfold bot_answers. rewrite C3. cbn [co_requests add_request set_queries app]. f_equal.
    unfold OnBotInGuild. cbn [negb]. fold s4. unfold OnChannels.
    pose proof (wel_channels _ _ _ _ _ Hwel) as Hl. destruct channels as [|ch chs]; [done|].
    unfold zlen. rewrite Hl. change (Z.of_nat 7 =? DEFAULT_CHANNELS_COUNT) with true. cbn [negb].
    unfold f, ses, session_of. do 2 f_equal. unfold s4, on_core. cbn [fst snd ds_core set_core].
    by rewrite C3. }
  rewrite (bind_run _ _ _ _ _ E4).
  apply (rel_on_core (add_request (RChannels auth account))) in R3. fold s4 in R3.
  apply (rel_on_core f) in R3. apply AsyncRead_listening in R3 as L5; [|done].
  set (s5 := AsyncRead (on_core f s4)) in *. pose proof (li_rel _ _ _ L5) as R5.
  pose proof (rel_core _ _ _ _ R5) as C5. pose proof (rel_open _ _ _ _ R5) as O5.
  unfold welcome. rewrite C5. cbn [f co_session add_effect set_session].
  rewrite World.Discord.SendAuthResponse_ok. change (s_socket ses) with true.
  change (sock_SendPacket World.Discord.auth_ok s5) with (DS.SendPacket World.Discord.auth_ok s5).
  set (g := core_SendPacket true World.Discord.auth_ok).
  assert (DS.SendPacket World.Discord.auth_ok s5 = on_core g s5) as ->
    by (unfold DS.SendPacket, on_core; by rewrite O5).
  eexists _, _. split; [reflexivity|].
  split; [split; [exact (listening_on_core g _ _ _ L5)|done|done| |done]|done].
  apply (wel_channels _ _ _ _ _ Hwel).
Qed.
End login.

(** ** From the account to the channel *)

Section relay.
Context {H : Host} {O : OpenSSL} {OL : OpenSSLLaws O} {W : AccountOrder}.

(** A whole visit: the login, the stream of messages, the updates of the server. *)
Definition visit (now : Z) (results : query → option answer) (pieces : list (list Z))
    (channels : list Z) (stream : list (list Z)) (n : nat) : M exn st () :=
  _ ← log_in now results pieces channels;
  _ ← feed stream;
  update_rounds n.

(** C1: whoever has an account can relay: for an account created with any valid
    name and key, a game server that connects with them, in any case of letters,
    and is barred neither by its address nor by its account, is given a session
    and told so; and then whatever messages it sends, however the network cuts the
    bytes, the bot says exactly these messages, in order, each in the channel of
    its type, as soon as the server made enough updates; after that the
    connection waits for more. *)
Theorem relay_end_to_end (random name key : list Z) (guildID : Z) (realmName : list Z)
    (am : AccountMgr) :
  Accounts.short Accounts.MAX_ACCOUNT_STR name → Accounts.short Accounts.MAX_PASS_STR key →
  Accounts.GetID (map Strings.toupper name) am = 0 →
  ∃ verifier am',
    Accounts.CreateAccount random name key guildID realmName am = (Ret AccountResponceResult.Ok, am') ∧
    am_db am' = am_db am ++ [DISCORD_INS_ACCOUNT (map Strings.toupper name) random verifier guildID
                               (Accounts.realm_of realmName)] ∧
    ∀ clock address os now results auth row channels pieces stream ms n,
      row_Salt row = random → row_Verifier row = verifier →
      map Strings.toupper (au_Account auth) = map Strings.toupper name →
      map Strings.toupper (au_Key auth) = map Strings.toupper key →
      welcomed now results auth row channels → auth_valid auth →
      Forall chunk_ok pieces → concat pieces = encode_auth auth →
      Forall message_ok ms → Forall chunk_ok stream →
      concat stream = concat (map encode_message ms) → (length ms <= 101 * n)%nat →
      ∃ s c ses, visit now results pieces channels stream n (DS.new clock address os) = (Ret (), s) ∧
        at_rest s c ses ∧ s_accountId ses = row_ID row ∧ co_bufferQueue c = [World.Discord.auth_ok] ∧
        ∀ bot, Bot.running bot →
          for_each on_bot (s_out ses) bot = (Ret (), speaks (concat (map (said channels) ms)) bot).
Proof using OL.
  intros Hn Hk Hfree.
  destruct (Accounts.CreateAccount_registers random name key guildID realmName am Hn Hk Hfree)
    as (verifier & _ & E & Hlogin).
  eexists verifier, _. split; [exact E|]. split; [done|].
  intros clock address os now results auth row channels pieces stream ms n Es Ev En Ek Hwel Hau
    Hp Ep Hm Hs Est Hln.
  assert (CheckKey (au_Account auth) (au_Key auth) (AccountInfo_new now row) = Ret true) as Hkey.
  { destruct Hau as ((? & _) & (? & _) & _). by apply Hlogin. }
  destruct (logged_in clock address os now results pieces auth row channels Hwel Hkey Hau Hp Ep)
    as (s1 & c1 & E1 & R1 & B1 & _).
  destruct (messages_handled s1 c1 _ ms stream n R1 Hm Hs Est Hln) as (s2 & ses & E2 & R2 & Eid & Eout).
  unfold visit. rewrite (bind_run _ _ _ _ _ E1).
  exists s2, (set_session (Some ses) c1), ses. split; [exact E2|]. split; [exact R2|].
  split; [by rewrite Eid|]. split; [exact B1|]. intros bot Hbot. rewrite Eout. by apply all_said.
Qed.
End relay.

(** ** At work

    "User" registers, logs in with its name and key in other letters and says
    two things, in bytes that are cut in the middle of packets. *)

#[local] Instance demo_order : AccountOrder := λ m, (map_to_list m).*1.

Definition demo_row (verifier : list Z) : AccountRow :=
  mkAccountRow 5 [1; 2; 3] verifier 77 [] [] [] 0 None None.
Definition demo_results (verifier : list Z) (q : query) : option answer :=
  match q with
  | QIpInfo => Some (AIpInfo [])
  | QAccountInfo _ => Some (AAccountInfo (Some (demo_row verifier)))
  end.
Definition demo_auth : AuthSession := mkAuth (str "uSER") (str "Secret") [] [] 1.
Definition demo_messages : list client_message :=
  [Say (mkSendMessage 0 (str "up")); Hello (mkHello (str "hi")); Say (mkSendMessage 2 (str "on"))].
Definition cut (n : Z) (bytes : list Z) : list (list Z) := [ztake n bytes; zdrop n bytes].
Definition demo_hello : list (list Z) := Eval vm_compute in cut 9 (encode_auth demo_auth).
Definition demo_stream : list (list Z) :=
  Eval vm_compute in cut 12 (concat (map (@encode_message LittleEndian) demo_messages)).

Lemma string_by_computation {H : Host} l :
  forallb (λ b, (1 <=? b) && (b <? 256)) l && Utf8.is_valid l = true → w_ok string_wire l.
Proof.
  rewrite andb_true_iff, forallb_forall. intros [Hb Hv].
  assert (Forall (λ b, 1 <= b < 256) l) as Hf.
  { apply Forall_forall. intros b Hin%list_elem_of_In. specialize (Hb b Hin).
    rewrite andb_true_iff, Z.leb_le, Z.ltb_lt in Hb. lia. }
  split; [|split; [|done]].
  - eapply Forall_impl; [exact Hf|]. unfold is_byte. cbn. lia.
  - intros H0. rewrite Forall_forall in Hf. specialize (Hf 0 H0). cbn in Hf. lia.
Qed.

Lemma relay_end_to_end_witness :
  ∃ verifier am', Accounts.CreateAccount (O := SRP6.toy_openssl) [1; 2; 3] (str "User") (str "secret") 77
      [] Accounts.new = (Ret AccountResponceResult.Ok, am') ∧
    ∃ s c ses, visit (H := LittleEndian) (O := SRP6.toy_openssl) 0 (demo_results verifier) demo_hello
        [11; 12; 13; 14; 15; 16; 17] demo_stream 1 (DS.new [] [] []) = (Ret (), s) ∧
      at_rest (H := LittleEndian) s c ses ∧ s_accountId ses = 5 ∧ co_bufferQueue c = [World.Discord.auth_ok] ∧
      ∀ bot, Bot.running bot → for_each on_bot (s_out ses) bot =
        (Ret (), speaks [CreateText 11 (str "up"); CreateText 13 (str "on")] bot).
Proof.
  destruct (relay_end_to_end (H := LittleEndian) (OL := SRP6.toy_openssl_laws) [1; 2; 3] (str "User")
    (str "secret") 77 [] Accounts.new) as (verifier & am' & E & _ & R);
    [apply short_by_computation; by vm_compute..|by vm_compute|].
  exists verifier, am'. split; [exact E|clear E].
  apply (R [] [] [] 0 (demo_results verifier) demo_auth (demo_row verifier) [11; 12; 13; 14; 15; 16; 17]
    demo_hello demo_stream demo_messages 1%nat);
    [reflexivity..| | | |reflexivity| | |reflexivity|cbn; lia].
  - split; try reflexivity. by exists [].
  - do 4 (split; [apply string_by_computation; by vm_compute|]). by split; [|done].
  - do 2 (constructor; [by split; [apply bytes_by_computation|]|]). constructor.
  - constructor; [|constructor; [|constructor; [|constructor]]]; (split; [|done]).
    + split; [cbn; lia|]. apply string_by_computation; by vm_compute.
    + apply string_by_computation; by vm_compute.
    + split; [cbn; lia|]. apply string_by_computation; by vm_compute.
  - do 2 (constructor; [by split; [apply bytes_by_computation|]|]). constructor.
Defined.
