(* ===== verification/Desk.v ===== *)
(** * Desk: the slash commands of the bot

    Model of [DiscordBot::ConfigureCommands] ([src/src/server/Bot/DiscordBot.cpp]):
    the two commands it registers with the handler of [Bot.v], what each does with
    an event, and the event hook.  The commands work on the cache of guilds of the
    bot and on the accounts of [Accounts.v]; the random draws and the salt, the
    clock, and what the library says of an event are arguments. *)

From S2P Require Import Prelude MessageBuffer Utf8 Strings BigNumber Srp6 Timer Enums ByteBuffer Wire Packets.
From S2P Require Import Queues Async Socket Session DiscordSocket World Accounts Channels Bot.
Open Scope Z_scope.

(** What is read of a [dpp::slashcommand_t]; an option that is no string is
    [None]. *)
Record slash_event := mkSlashEvent {
  ev_command_name : list Z;
  ev_options : list (option (list Z));
  ev_guild_id : Z;
  ev_user_id : Z;
  ev_guild_locale : list Z
}.

(** A reply, and whether it is only shown to the user. *)
Inductive reply :=
  | ReplyText (ephemeral : bool) (content : list Z)
  | ReplyEmbed (ephemeral : bool) (e : embed).

(** [std::get] of an option that holds another type. *)
Inductive DeskError := bad_variant_access.

Record Desk := mkDesk {
  dk_bot : DiscordBot;
  dk_accounts : AccountMgr;
  dk_draws : list Z;
  dk_replies : list reply
}.

(** The functions given to [AddCommand]. *)
Inductive Invoke := AccountCreate | AccountKeyGenerate.

Module DeskCommands.
Section desk.
Context {O : OpenSSL} {W : AccountOrder} (RandomShuffle : list Z → list Z) (salt : list Z) (now : Z).

Abbreviation Run := (M DeskError Desk).

Definition reply_with (r : reply) : Run () :=
  modify (λ s, mkDesk (dk_bot s) (dk_accounts s) (dk_draws s) (dk_replies s ++ [r])).

(** A call on the accounts, and one that draws. *)
Definition on_accounts {A} (m : M Empty_set AccountMgr A) : Run A := λ s,
  let '(o, a) := m (dk_accounts s) in
  lift o (mkDesk (dk_bot s) a (dk_draws s) (dk_replies s)).
Definition drawing {A} (m : M Empty_set (list Z) A) : Run A := λ s,
  let '(o, d) := m (dk_draws s) in
  lift o (mkDesk (dk_bot s) (dk_accounts s) d (dk_replies s)).

(** [std::get<std::string>(options[i].value)]; the index is not checked. *)
Definition get_string (options : list (option (list Z))) (i : nat) : Run (list Z) :=
  match options !! i with
  | None => undefined
  | Some None => throw bad_variant_access
  | Some (Some v) => mret v
  end.

(** The embed both commands answer with. *)
Definition success (title description key : list Z) (ev : slash_event) : reply :=
  ReplyEmbed true (mkEmbed (DiscordMessageColor.value DiscordMessageColor.Teal) None
    (Some (str "Guild ID: " ++ Strings.fmt_dec (ev_guild_id ev) ++ str ". Guild locale: " ++
             ev_guild_locale ev, []))
    title description [Bot.add_field (str "Ваш ключ. Сохраните его!") (Bot.ticked key)] now).

Definition create_error (accountName : list Z) (result : AccountResponceResult.t) : list Z :=
  str "Ошибка при создании аккаунта. " ++
  match result with
  | AccountResponceResult.LongName =>
      str "Имя аккаунта слишком большое. Максимальная длина " ++
      Bot.ticked (Strings.fmt_dec MAX_ACCOUNT_STR) ++ str ". Вы использовали " ++
      Bot.ticked (Strings.fmt_dec (zlen accountName))
  | AccountResponceResult.NameAlreadyExist =>
      str "Аккаунт " ++ Bot.ticked accountName ++ str " уже существует"
  | _ => str "Неизвестная ошибка"
  end.

Definition account_create (ev : slash_event) : Run () :=
  match ev_options ev with
  | [] => skip
  | options =>
      accountName ← get_string options 0;
      coreName ← get_string options 1;
      has ← gets (λ s, Bot.HasClient (i64 (ev_guild_id ev)) (dk_bot s));
      if (ev_guild_id ev =? Bot.WARHEAD_GUILD_ID) && negb (ev_user_id ev =? Bot.OWNER_ID) then
        reply_with (ReplyText true (str "Вы не можете создать аккаунт в этой гильдии, пригласите бота на свой сервер и создайте аккаунт там"))
      else if (has : bool) && negb (ev_user_id ev =? Bot.OWNER_ID) then
        reply_with (ReplyText true (str "Эмм, вы уже создали аккаунт для этой гильдии"))
      else
        key ← drawing (Accounts.GetRandomKey RandomShuffle);
        result ← on_accounts (Accounts.CreateAccount salt accountName key (i64 (ev_guild_id ev)) []);
        match result with
        | AccountResponceResult.Ok =>
            reply_with (success (str "Создание аккаунта для Warhead Discord")
              (str "Вы успешно создали аккаунт: " ++ Bot.ticked accountName) key ev)
        | _ => reply_with (ReplyText true (create_error accountName result))
        end
  end.

Definition generate_error (accountName : list Z) (result : AccountResponceResult.t) : list Z :=
  str "Ошибка при генерации нового ключа для аккаунта. " ++
  match result with
  | AccountResponceResult.LongKey => str "Ошибка при создании нового пароля"
  | AccountResponceResult.NameNotExist => str "Аккаунт " ++ Bot.ticked accountName ++ str " не найден"
  | _ => str "Неизвестная ошибка"
  end.

Definition account_key_generate (ev : slash_event) : Run () :=
  match ev_options ev with
  | [] => skip
  | options =>
      if negb (ev_user_id ev =? Bot.OWNER_ID) then
        reply_with (ReplyText false (str "Что ты хотел сделать? Ахаха"))
      else
        accountName ← get_string options 0;
        newKey ← drawing (Accounts.GetRandomKey RandomShuffle);
        result ← on_accounts (Accounts.ChangeKey salt accountName newKey);
        match result with
        | AccountResponceResult.Ok =>
            reply_with (success (str "Смена ключа для Warhead Discord")
              (str "Вы успешно изменили ключ для аккаунта: " ++ Bot.ticked accountName) newKey ev)
        | _ => reply_with (ReplyText false (generate_error accountName result))
        end
  end.

(** The part of [ConfigureCommands] that fills the handler. *)
Definition ConfigureCommands : M Empty_set (CommandHandler.t Invoke) () :=
  _ ← CommandHandler.AddCommand (str "account-create") (str "Создать аккаунт")
        [(str "name", []); (str "сore_name", [str "WarheadCore"; str "AzerothCore"])] AccountCreate;
  CommandHandler.AddCommand (str "account-key-generate") (str "Создать новый ключ")
        [(str "name", [])] AccountKeyGenerate.

Definition run_invoke (i : Invoke) : slash_event → Run () :=
  match i with AccountCreate => account_create | AccountKeyGenerate => account_key_generate end.

(** The hook for slash commands. *)
Definition on_slashcommand (h : CommandHandler.t Invoke) (ev : slash_event) : Run () :=
  match CommandHandler.TryExecuteCommand (ev_command_name ev) h with
  | Some invoke => run_invoke invoke ev
  | None => skip
  end.

(** ** What the commands do *)

Lemma ConfigureCommands_run :
  ∃ h, ConfigureCommands CommandHandler.new = (Ret (), h) ∧
    ∀ name, CommandHandler.TryExecuteCommand name h =
      if bool_decide (name = str "account-create") then Some AccountCreate
      else if bool_decide (name = str "account-key-generate") then Some AccountKeyGenerate else None.
Proof.
  eexists. split; [reflexivity|]. intros name. unfold CommandHandler.TryExecuteCommand.
  repeat case_bool_decide; subst; [reflexivity..|].
  match goal with |- CommandHandler._commandInvoke ?h !! _ = _ =>
    change (CommandHandler._commandInvoke h) with
      (<[str "account-key-generate" := AccountKeyGenerate]>
        (<[str "account-create" := AccountCreate]> (∅ : gmap (list Z) Invoke))) end.
  by rewrite !lookup_insert_ne, lookup_empty by done.
Qed.

(** The bot, the accounts and the draws are as before. *)
Definition untouched (s s' : Desk) : Prop :=
  dk_bot s' = dk_bot s ∧ dk_accounts s' = dk_accounts s ∧ dk_draws s' = dk_draws s.

Lemma get_string_run options i v s :
  options !! i = Some (Some v) → get_string options i s = (Ret v, s).
Proof. intros E. unfold get_string. by rewrite E. Qed.

Lemma get_string_state options i s : (get_string options i s).2 = s.
Proof. unfold get_string. by destruct (options !! i) as [[?|]|]. Qed.

Lemma stranger_create_idle ev s :
  ev_user_id ev ≠ Bot.OWNER_ID → Bot.HasClient (i64 (ev_guild_id ev)) (dk_bot s) = true →
  untouched s (account_create ev s).2.
Proof.
  intros Hu Hc. unfold account_create. destruct (ev_options ev) as [|o os]; [done|].
  pose proof (get_string_state (o :: os) 0 s) as E0. unfold mbind at 1, M_bind at 1.
  destruct (get_string (o :: os) 0 s) as [[name|e| |] s0]; cbn [fst snd] in *; subst s0; try done.
  pose proof (get_string_state (o :: os) 1 s) as E1. unfold mbind at 1, M_bind at 1.
  destruct (get_string (o :: os) 1 s) as [[core|e| |] s1]; cbn [fst snd] in *; subst s1; try done.
  rewrite bind_gets, Hc, (proj2 (Z.eqb_neq _ _) Hu). cbn [negb andb].
  by rewrite andb_true_r; case_match.
Qed.

Lemma stranger_generate_idle ev s :
  ev_user_id ev ≠ Bot.OWNER_ID → untouched s (account_key_generate ev s).2.
Proof.
  intros Hu. unfold account_key_generate. destruct (ev_options ev) as [|o os]; [done|].
  by rewrite (proj2 (Z.eqb_neq _ _) Hu).
Qed.

(** C17: once the bot has checked its guilds, nobody but its owner can do anything
    with accounts from within one of them: whatever command is used, with whatever
    options, no account is created or changed and no key is drawn. *)
Theorem served_guilds_closed (human : Z → list Z) (order : gmap Z DiscordClients → list Z)
    (gs : list guild) (b : DiscordBot) (ev : slash_event) (s : Desk)
    (Horder : ∀ m id, id ∈ order m ↔ is_Some (m !! id))
    (Hrun : Bot.running b) (Hgs : Bot.guilds_ok gs)
    (Hbot : dk_bot s = (Bot.CheckClients human order now (Some gs) b).2)
    (Hguild : ev_guild_id ev ∈ map g_id gs) (Huser : ev_user_id ev ≠ Bot.OWNER_ID) :
  let h := (ConfigureCommands CommandHandler.new).2 in
  untouched s (on_slashcommand h ev s).2.
Proof.
  destruct ConfigureCommands_run as (h & -> & Eh). cbn [fst snd]. unfold on_slashcommand. rewrite Eh.
  case_bool_decide; [|case_bool_decide; [|done]]; cbn [run_invoke].
  - apply stranger_create_idle; [done|]. rewrite Hbot.
    apply Bot.CheckClients_HasClient; [done..|].
    destruct Hgs as [_ F]. rewrite Forall_forall in F.
    apply list_elem_of_fmap in Hguild as (g & -> & Hg). destruct (F g Hg) as [Hid _].
    change (i64 (g_id g)) with (Bot.key g). rewrite Bot.key_id by done. by apply list_elem_of_fmap_2.
  - by apply stranger_generate_idle.
Qed.

Context {OL : OpenSSLLaws O}.

(** C18: when the owner creates an account with a valid free name, the key shown is
    the key of the account: the salt and verifier stored for the name are the ones
    with which the login check accepts that key, and the account belongs to the
    guild the command came from, always under the realm name of WarheadCore
    whatever core was chosen. *)
Theorem owner_creates (smallChars bigChars : Z) (draws accountName coreName : list Z)
    (ev : slash_event) (s : Desk)
    (Hshuffle : ∀ l, RandomShuffle l ≡ₚ l)
    (Hsmall : 1 <= smallChars < MAX_PASS_STR) (Hbig : 1 <= bigChars <= MAX_PASS_STR - smallChars)
    (Hdraws : Forall (Z.le 0) draws) (Eds : dk_draws s = smallChars :: bigChars :: draws)
    (Hname : Accounts.short MAX_ACCOUNT_STR accountName)
    (Hfree : Accounts.GetID (map Strings.toupper accountName) (dk_accounts s) = 0)
    (Hcommand : ev_command_name ev = str "account-create")
    (Hoptions : ev_options ev = [Some accountName; Some coreName])
    (Huser : ev_user_id ev = Bot.OWNER_ID) :
  ∃ key verifier s',
    on_slashcommand (ConfigureCommands CommandHandler.new).2 ev s = (Ret (), s') ∧
    zlen key = 50 ∧
    dk_replies s' = dk_replies s ++ [success (str "Создание аккаунта для Warhead Discord")
      (str "Вы успешно создали аккаунт: " ++ Bot.ticked accountName) key ev] ∧
    am_db (dk_accounts s') = am_db (dk_accounts s) ++
      [DISCORD_INS_ACCOUNT (map Strings.toupper accountName) salt verifier (i64 (ev_guild_id ev))
         (str "WarheadCore")] ∧
    ∀ now row, row_Salt row = salt → row_Verifier row = verifier →
      DS.CheckKey accountName key (DS.AccountInfo_new now row) = Ret true.
Proof using OL.
  destruct ConfigureCommands_run as (h & -> & Eh). cbn [fst snd]. unfold on_slashcommand.
  rewrite Eh, bool_decide_eq_true_2 by done. cbn [run_invoke].
  destruct (Accounts.GetRandomKey_run RandomShuffle smallChars bigChars draws Hshuffle Hsmall Hdraws Hbig)
    as (key & rest & Ek & Lk & _ & Sk).
  destruct (Accounts.CreateAccount_registers salt accountName key (i64 (ev_guild_id ev)) []
    (dk_accounts s) Hname Sk Hfree) as (verifier & _ & Ec & Hlogin).
  exists key, verifier. eexists. split; [|split; [exact Lk|split; [|split]]].
  - unfold account_create. rewrite Hoptions.
    rewrite (bind_run _ _ _ _ _ (get_string_run [Some accountName; Some coreName] 0 accountName s eq_refl)).
    rewrite (bind_run _ _ _ _ _ (get_string_run [Some accountName; Some coreName] 1 coreName s eq_refl)).
    rewrite bind_gets.
    rewrite Huser, Z.eqb_refl, !andb_false_r.
    rewrite (bind_run _ _ _ key (mkDesk (dk_bot s) (dk_accounts s) rest (dk_replies s)))
      by (unfold drawing; by rewrite Eds, Ek).
    erewrite bind_run by (unfold on_accounts; cbn [dk_accounts]; rewrite Ec; reflexivity).
    reflexivity.
  - reflexivity.
  - reflexivity.
  - intros now' row Es Ev. apply Hlogin; try done; apply Hname || apply Sk.
Qed.
End desk.
End DeskCommands.

(** ** Witnesses *)

#[local] Instance demo_order : AccountOrder := λ m, (map_to_list m).*1.

Definition demo_desk (b : DiscordBot) : Desk := mkDesk b Accounts.new [20; 10; 7; 3] [].
Definition demo_event (user guild : Z) : slash_event :=
  mkSlashEvent (str "account-create") [Some (str "Bot"); Some (str "AzerothCore")] guild user (str "ru").

Lemma served_guilds_closed_witness :
  let b := (Bot.CheckClients (λ _, []) BotSample.order 200 (Some BotSample.answer) BotSample.bot).2 in
  let h := (DeskCommands.ConfigureCommands CommandHandler.new).2 in
  DeskCommands.untouched (demo_desk b)
    (DeskCommands.on_slashcommand (O := SRP6.toy_openssl) (@rev Z) [4; 5] 200 h (demo_event 1 8)
      (demo_desk b)).2.
Proof.
  apply (DeskCommands.served_guilds_closed (O := SRP6.toy_openssl) (@rev Z) [4; 5] 200 (λ _, []) BotSample.order BotSample.answer
    BotSample.bot).
  - exact BotSample.order_keys.
  - by split.
  - split; [apply (bool_decide_eq_true_1 _); vm_compute; reflexivity|].
    repeat constructor; cbn; lia.
  - reflexivity.
  - apply (bool_decide_eq_true_1 _). vm_compute. reflexivity.
  - discriminate.
Defined.

Lemma owner_creates_witness :
  let s := demo_desk BotSample.bot in
  let ev := demo_event Bot.OWNER_ID 7 in
  ∃ key verifier s',
    DeskCommands.on_slashcommand (O := SRP6.toy_openssl) (@rev Z) [4; 5] 200
      (DeskCommands.ConfigureCommands CommandHandler.new).2 ev s = (Ret (), s') ∧
    zlen key = 50 ∧
    dk_replies s' = dk_replies s ++ [DeskCommands.success 200
      (str "Создание аккаунта для Warhead Discord")
      (str "Вы успешно создали аккаунт: " ++ Bot.ticked (str "Bot")) key ev] ∧
    am_db (dk_accounts s') = am_db (dk_accounts s) ++
      [DISCORD_INS_ACCOUNT (map Strings.toupper (str "Bot")) [4; 5] verifier (i64 (ev_guild_id ev))
         (str "WarheadCore")] ∧
    ∀ now row, row_Salt row = [4; 5] → row_Verifier row = verifier →
      DS.CheckKey (O := SRP6.toy_openssl) (str "Bot") key (DS.AccountInfo_new now row) = Ret true.
Proof.
  apply (DeskCommands.owner_creates (OL := SRP6.toy_openssl_laws) (@rev Z) [4; 5] 200 20 10 [7; 3] (str "Bot")
    (str "AzerothCore")).
  - intros l. symmetry. apply Permutation_rev.
  - unfold MAX_PASS_STR. lia.
  - unfold MAX_PASS_STR. lia.
  - repeat constructor; lia.
  - reflexivity.
  - apply short_by_computation; by vm_compute.
  - vm_compute. reflexivity.
  - reflexivity.
  - reflexivity.
  - reflexivity.
Defined.
