(* ===== verification/Main.v ===== *)
(** * Main: the life of the process

    Model of [Main.cpp] ([src/src/app]) and of [SetInitialDiscordSettings]
    ([Discord.cpp]): how the parts are started and stopped, with the exit code, and
    the tasks that run as long as the server does.  What the parts answer when they
    are started is an argument. *)

From Stdlib Require Import Sorted.
From S2P Require Import Prelude Scheduler World.
Open Scope Z_scope.

(** ** Tasks that repeat for ever

    Task [i] is due at [first i], then every [period i]. *)

Module Standing.
Section standing.
Context {handler callable : Type}.
Context (body : handler → Z → option Z → list (command handler callable)).
Context (n : nat) (h : nat → handler) (again : nat → option Z) (first period : nat → Z).

Abbreviation TS := (TaskScheduler handler callable).

Definition task_of (i k : nat) (duration : Z) : Task handler :=
  mkTask (first i + Z.of_nat k * period i) duration None (u32 (Z.of_nat k)) (h i).

(** The [j]-th call of task [i], and the calls of one task. *)
Definition tick (i j : nat) : call callable :=
  CalledTask i (first i + Z.of_nat j * period i) (u32 (Z.of_nat j)).

Definition is_call (i : nat) (c : call callable) : bool :=
  match c with CalledTask m _ _ => Nat.eqb m i | CalledAsync _ => false end.

Definition calls_of (i : nat) (s : TS) : list (call callable) := List.filter (is_call i) (ts_calls s).

(** The scheduler when task [i] was called [k i] times. *)
Record standing (k : nat → nat) (s : TS) : Prop := {
  st_holder i : i ∈ ts_holder s ↔ (i < n)%nat;
  st_nodup : NoDup (ts_holder s);
  st_sorted : Scheduler.due_sorted (ts_tasks s) (ts_holder s);
  st_task i : (i < n)%nat → ∃ duration,
    ts_tasks s !! i = Some (task_of i (k i) duration) ∧ default duration (again i) = period i;
  st_calls i : (i < n)%nat → calls_of i s = map (tick i) (seq 0 (k i));
  st_only : Forall (λ c, ∃ i, (i < n)%nat ∧ is_call i c = true) (ts_calls s);
  st_late i : (i < n)%nat → (0 < k i)%nat →
    first i + Z.of_nat (k i - 1) * period i <= ts_now s;
  st_async : ts_async s = [];
  st_predicate calls : ts_predicate s calls = true
}.

Context (repeats : ∀ i r g, (i < n)%nat → body (h i) r g = [Repeat (again i)]).

Definition bump (i : nat) (k : nat → nat) : nat → nat := λ j, if decide (j = i) then S (k j) else k j.

Lemma end_of_standing k s i :
  standing k s → (i < n)%nat → Scheduler.end_of (ts_tasks s) i = first i + Z.of_nat (k i) * period i.
Proof using.
  intros Hs Hi. destruct (st_task _ _ Hs i Hi) as (d & E & _). unfold Scheduler.end_of. by rewrite E.
Qed.

(** Calling the first task of the queue. *)
Lemma Invoke_standing k s i l :
  standing k s → ts_holder s = i :: l → Scheduler.end_of (ts_tasks s) i <= ts_now s →
  ∃ s', Scheduler.Invoke body i (Scheduler.Pop s) = (Ret (), s') ∧ standing (bump i k) s' ∧
    ts_now s' = ts_now s.
Proof using repeats.
  intros Hs El Hdue. pose proof Hs as [H1 H2 H3 H4 H5 Ho H6 H7 H8].
  assert ((i < n)%nat) as Hi by (apply H1; rewrite El; left).
  pose proof (end_of_standing k s i Hs Hi) as He.
  destruct (H4 i Hi) as (d & Et & Hd). rewrite El in H1, H2, H3.
  apply NoDup_cons in H2 as [Hnot H2]. apply StronglySorted_inv in H3 as [H3 _].
  set (t := task_of i (k i) d) in *.
  set (t' := Scheduler.repeat_task (again i) t).
  assert (t' = task_of i (S (k i)) (period i)) as Et'.
  { unfold t', Scheduler.repeat_task, t, task_of. cbn [t_duration t_end t_group t_repeated t_task].
    rewrite Hd. f_equal; [lia|]. unfold wrap. rewrite Zplus_mod_idemp_l. f_equal. lia. }
  set (s1 := Scheduler.log (CalledTask i (t_end t) (t_repeated t)) (Scheduler.Pop s)).
  set (s' := Scheduler.Push i (Scheduler.alter_task (Scheduler.repeat_task (again i)) i s1)).
  assert (ts_tasks s' = <[i := t']> (ts_tasks s)) as Es'.
  { unfold s', Scheduler.Push, Scheduler.alter_task. cbn [Scheduler.set_queue ts_tasks].
    change (ts_tasks s1) with (ts_tasks s). apply map_eq. intros j.
    destruct (decide (i = j)) as [<-|N].
    - by rewrite lookup_alter_eq, lookup_insert_eq, Et.
    - by rewrite lookup_alter_ne, lookup_insert_ne. }
  assert (ts_holder s' = Scheduler.insert (ts_tasks s') i l) as Eh.
  { unfold s', Scheduler.Push, Scheduler.alter_task. cbn [Scheduler.set_queue ts_tasks ts_holder].
    unfold s1, Scheduler.Pop. cbn [Scheduler.log Scheduler.set_queue ts_holder]. by rewrite El. }
  exists s'. split.
  { unfold Scheduler.Invoke. change (ts_tasks (Scheduler.Pop s)) with (ts_tasks s). rewrite Et.
    change (t_task t) with (h i). rewrite repeats, Scheduler.Repeat_once by done. done. }
  split; [|done].
  assert (Scheduler.insert (ts_tasks s') i l ≡ₚ i :: l) as Hp by apply Scheduler.insert_perm.
  split.
  - intros j. rewrite Eh, Hp. apply H1.
  - rewrite Eh, Hp. by apply NoDup_cons.
  - rewrite Eh. apply Scheduler.insert_sorted. unfold Scheduler.due_sorted in *.
    clear -H3 Es' Hnot. induction H3 as [|m l Hl IH Hm]; [constructor|].
    apply not_elem_of_cons in Hnot as [Hnm Hnot]. constructor; [by apply IH|].
    assert (∀ j, j ≠ i → Scheduler.end_of (ts_tasks s') j = Scheduler.end_of (ts_tasks s) j) as Hj.
    { intros j Hj. unfold Scheduler.end_of. by rewrite Es', lookup_insert_ne by done. }
    rewrite Forall_forall in *. intros j Hin. rewrite !Hj by (done || (intros ->; done)). by apply Hm.
  - intros j Hj. unfold bump. rewrite Es'. destruct (decide (j = i)) as [->|N].
    + exists (period i). rewrite lookup_insert_eq, Et'. split; [done|].
      destruct (again i) as [d'|]; [exact Hd|done].
    + rewrite lookup_insert_ne by done. by apply H4.
  - intros j Hj. unfold calls_of in *.
    change (ts_calls s') with (ts_calls s ++ [CalledTask i (t_end t) (t_repeated t)]).
    rewrite List.filter_app, H5 by done. unfold bump. cbn [List.filter is_call].
    destruct (decide (j = i)) as [->|N].
    + rewrite Nat.eqb_refl, seq_S, map_app. done.
    + rewrite (proj2 (Nat.eqb_neq i j)) by done. by rewrite app_nil_r.
  - change (ts_calls s') with (ts_calls s ++ [CalledTask i (t_end t) (t_repeated t)]).
    apply Forall_app. split; [done|]. constructor; [|constructor]. exists i.
    split; [done|]. apply Nat.eqb_refl.
  - intros j Hj. unfold bump. change (ts_now s') with (ts_now s). destruct (decide (j = i)) as [->|N].
    + intros _. rewrite Nat.sub_1_r, Nat.pred_succ. lia.
    + by apply H6.
  - done.
  - done.
Qed.

(** A loop over the tasks only calls them. *)
Lemma run_tasks_standing fuel : ∀ k s r s',
  standing k s → Scheduler.run_tasks body fuel s = (Ret r, s') →
  ∃ k', standing k' s' ∧ ts_now s' = ts_now s ∧ ∀ i, (k i <= k' i)%nat.
Proof using repeats.
  induction fuel as [|fuel IH]; intros k s r s' Hs; rewrite Scheduler.run_tasks_eq;
    (destruct (ts_holder s) as [|m l] eqn:El; [by intros [= <- <-]; exists k|]);
    (destruct (Z.ltb_spec (ts_now s) (Scheduler.end_of (ts_tasks s) m)) as [L|L];
     [by intros [= <- <-]; exists k|]); [done|].
  destruct (Invoke_standing k s m l Hs El L) as (s1 & E1 & Hs1 & N1).
  rewrite (bind_run _ _ _ _ _ E1). unfold Scheduler.valid.
  rewrite bind_gets, (st_predicate _ _ Hs1). intros E.
  destruct (IH _ _ _ _ Hs1 E) as (k' & Hk & N & Hle). exists k'. split; [done|].
  split; [by rewrite N|]. intros i. specialize (Hle i). unfold bump in Hle. case_decide; lia.
Qed.

Context (period_pos : ∀ i, (i < n)%nat → 0 < period i).
Context (all_repeat : ∀ j r g, ∃ again, body j r g = [Repeat again] ∧ from_option (Z.lt 0) True again).

(** How often a task is called by a time. *)
Definition count (now : Z) (i : nat) : nat :=
  if now <? first i then 0 else S (Z.to_nat ((now - first i) / period i)).

Lemma count_unique now i k :
  (i < n)%nat → now < first i + Z.of_nat k * period i →
  ((0 < k)%nat → first i + Z.of_nat (k - 1) * period i <= now) → k = count now i.
Proof using period_pos.
  intros Hi H1 H2. specialize (period_pos i Hi). unfold count.
  destruct (Z.ltb_spec now (first i)) as [H|H].
  - destruct k; [done|]. specialize (H2 ltac:(lia)). nia.
  - destruct k as [|k]; [lia|]. specialize (H2 ltac:(lia)). rewrite Nat.sub_1_r, Nat.pred_succ in H2.
    f_equal. assert ((now - first i) / period i = Z.of_nat k) as ->; [|lia].
    symmetry. apply (Z.div_unique _ _ _ (now - first i - Z.of_nat k * period i)); nia.
Qed.

Lemma well_behaved_standing : Scheduler.well_behaved body (λ _ : callable, []) 1.
Proof using all_repeat.
  split; [|intros c; constructor]. intros j r g. destruct (all_repeat j r g) as (a & -> & Ha).
  split; [|split; [done|cbn; lia]]. constructor; [|constructor]. by destruct a.
Qed.

Lemma standing_ext k k' s :
  (∀ i, (i < n)%nat → k i = k' i) → standing k s → standing k' s.
Proof using.
  intros E [H1 H2 H3 H4 H5 Ho H6 H7 H8]. split; try done; intros i Hi; rewrite <- E by done; auto.
Qed.

Lemma standing_now k s d : 0 <= d → standing k s → standing k (Scheduler.set_now (ts_now s + d) s).
Proof using.
  intros Hd [H1 H2 H3 H4 H5 Ho H6 H7 H8]. split; try done. intros i Hi Hk. cbn.
  specialize (H6 i Hi Hk). lia.
Qed.

Lemma wf_set_now v s : Scheduler.wf s → Scheduler.wf (handler := handler) (callable := callable) (Scheduler.set_now v s).
Proof using. by intros []; split. Qed.

(** More fuel changes nothing. *)
Lemma run_tasks_mono fuel : ∀ fuel' s r s',
  (fuel <= fuel')%nat → Scheduler.run_tasks body fuel s = (Ret r, s') →
  Scheduler.run_tasks body fuel' s = (Ret r, s').
Proof using.
  induction fuel as [|fuel IH]; intros fuel' s r s' Hf; rewrite !Scheduler.run_tasks_eq;
    (destruct (ts_holder s) as [|m l]; [done|]); (destruct (_ <? _); [done|]); [done|].
  destruct fuel' as [|fuel']; [lia|]. unfold mbind, M_bind.
  destruct (Scheduler.Invoke body m (Scheduler.Pop s)) as [[[]| | |] s1]; try done.
  destruct (Scheduler.valid s1) as [[[]| | |] s2]; try done. apply IH. lia.
Qed.

(** One update calls each task as often as its time has come. *)
Lemma Update_standing k s d :
  standing k s → Scheduler.wf s → 0 <= d →
  ∃ enough s', (∀ fuel, (enough <= fuel)%nat →
      Scheduler.Update body (λ _, []) fuel d s = (Ret true, s')) ∧
    Scheduler.wf s' ∧ ts_now s' = ts_now s + d ∧ standing (count (ts_now s')) s'.
Proof using all_repeat period_pos repeats.
  intros Hs Hw Hd. set (s0 := Scheduler.set_now (ts_now s + d) s).
  assert (standing k s0) as Hs0 by (by apply standing_now).
  assert (∀ fuel, Scheduler.Update body (λ _, []) fuel d s = Scheduler.run_tasks body fuel s0) as EU.
  { intros fuel. unfold Scheduler.Update. rewrite bind_modify. fold s0.
    unfold Scheduler.Dispatch, Scheduler.valid. rewrite bind_gets, (st_predicate _ _ Hs0). cbn [negb].
    assert (Scheduler.run_asyncs (λ _, []) fuel s0 = (Ret true, s0)) as EA
      by (rewrite Scheduler.run_asyncs_eq, (st_async _ _ Hs0); done).
    by rewrite (bind_run _ _ _ _ _ EA). }
  destruct (Scheduler.Dispatch_due body (λ _, []) 1 s0 well_behaved_standing (wf_set_now _ _ Hw))
    as [enough H].
  destruct (H enough (le_n _)) as (r & s' & as_ & new & E & W & _ & _ & _ & _ & R).
  assert (Scheduler.run_tasks body enough s0 = (Ret r, s')) as ER.
  { rewrite <- EU. unfold Scheduler.Update. by rewrite bind_modify. }
  destruct (run_tasks_standing enough k s0 r s' Hs0 ER) as (k' & Hk' & N & _).
  destruct r; [|by rewrite (st_predicate _ _ Hs0) in R]. destruct R as [_ R].
  exists enough, s'. split.
  { intros fuel Hf. rewrite EU. by eapply run_tasks_mono. }
  split; [done|]. split; [exact N|]. apply (standing_ext k'); [|done]. intros i Hi. rewrite N.
  apply count_unique; [done| |].
  - rewrite <- (end_of_standing k' s' i Hk' Hi). rewrite Forall_forall in R. apply R.
    by apply (st_holder _ _ Hk').
  - intros Hp. rewrite <- N. by apply (st_late _ _ Hk').
Qed.

Lemma Updates_standing difftimes : ∀ k s,
  standing k s → Scheduler.wf s → Forall (Z.le 0) difftimes → difftimes ≠ [] →
  ∃ enough s', (∀ fuel, (enough <= fuel)%nat →
      Scheduler.Updates body (λ _, []) fuel difftimes s = (Ret (), s')) ∧
    ts_now s' = ts_now s + fold_right Z.add 0 difftimes ∧ standing (count (ts_now s')) s'.
Proof using all_repeat period_pos repeats.
  induction difftimes as [|d ds IH]; intros k s Hs Hw Hd Hn; [done|].
  apply Forall_cons in Hd as [Hd Hds].
  destruct (Update_standing k s d Hs Hw Hd) as (e1 & s1 & E1 & W1 & N1 & S1).
  cbn [fold_right]. destruct ds as [|d' ds'].
  { exists e1, s1. split; [|split; [cbn; lia|done]]. intros fuel Hf. cbn [Scheduler.Updates].
    by rewrite (bind_run _ _ _ _ _ (E1 fuel Hf)). }
  destruct (IH _ s1 S1 W1 Hds) as (e2 & s2 & E2 & N2 & S2); [done|].
  exists (Nat.max e1 e2), s2. split; [|split; [lia|done]]. intros fuel Hf.
  change (Scheduler.Updates body (λ _, []) fuel (d :: d' :: ds') s) with
    ((_ ← Scheduler.Update body (λ _, []) fuel d; Scheduler.Updates body (λ _, []) fuel (d' :: ds')) s).
  rewrite (bind_run _ _ _ _ _ (E1 fuel ltac:(lia))). apply E2. lia.
Qed.
End standing.
End Standing.

(** ** The tasks of the server *)

Module ServerTasks.
Section tasks.
Context (per_ms : Z).

Inductive task := KeepAlive | TimeDiff.

Definition minutes (n : Z) : Z := n * 60000 * per_ms.
Definition seconds (n : Z) : Z := n * 1000 * per_ms.

(** The lambdas of [SetInitialDiscordSettings]: what they tell the scheduler. *)
Definition body (t : task) (repeated : Z) (group : option Z) : list (command task Empty_set) :=
  match t with
  | KeepAlive => [Repeat None]
  | TimeDiff => [Repeat (Some (minutes 5))]
  end.

Definition schedule_tasks (s : TaskScheduler task Empty_set) : TaskScheduler task Empty_set :=
  Scheduler.apply (Schedule (seconds 15) None TimeDiff)
    (Scheduler.apply (Schedule (minutes 30) None KeepAlive) s).

(** [_scheduler.Update(diff)], for the differences of the update loop. *)
Definition update_scheduler (fuel : nat) (diffs : list Z) : M diverged (TaskScheduler task Empty_set) () :=
  Scheduler.Updates body (λ _, []) fuel (map (λ diff, diff * per_ms) diffs).

Definition handler_of (i : nat) : task := if Nat.eqb i 0 then KeepAlive else TimeDiff.
Definition again_of (i : nat) : option Z := if Nat.eqb i 0 then None else Some (minutes 5).
Definition first_of (start : Z) (i : nat) : Z :=
  if Nat.eqb i 0 then start + minutes 30 else start + seconds 15.
Definition period_of (i : nat) : Z := if Nat.eqb i 0 then minutes 30 else minutes 5.

Abbreviation standing start :=
  (Standing.standing 2 handler_of again_of (first_of start) period_of).

Lemma standing_start start :
  0 < per_ms → standing start (λ _, 0%nat) (schedule_tasks (Scheduler.new start)).
Proof using Type.
  intros Hp.
  set (tasks := <[1%nat := mkTask (start + seconds 15) (seconds 15) None 0 TimeDiff]>
    (<[0%nat := mkTask (start + minutes 30) (minutes 30) None 0 KeepAlive]> ∅) : gmap nat (Task task)).
  assert (schedule_tasks (Scheduler.new start) = mkTS start tasks 2 [1; 0]%nat [] (λ _, true) [])
    as ->.
  { unfold schedule_tasks, Scheduler.apply, Scheduler.ScheduleAt, Scheduler.InsertTask, Scheduler.Push.
    cbn [Scheduler.new Scheduler.set_queue Scheduler.insert ts_now ts_tasks ts_fresh ts_holder ts_async
      ts_predicate ts_calls]. fold tasks.
    unfold Scheduler.end_of. unfold tasks at 2 3. rewrite lookup_insert_eq, lookup_insert_ne,
      lookup_insert_eq by done. cbn.
    destruct (Z.ltb_spec (start + seconds 15) (start + minutes 30)) as [_|H]; [done|].
    unfold seconds, minutes in H. lia. }
  assert (∀ i : nat, (i < 2)%nat → i = 0%nat ∨ i = 1%nat) as Hi by (intros; lia).
  split; cbn [ts_holder ts_tasks ts_calls ts_now ts_async ts_predicate]; try done.
  - intros i. rewrite !elem_of_cons, elem_of_nil. lia.
  - repeat constructor; rewrite ?elem_of_cons, ?elem_of_nil; lia.
  - repeat constructor. unfold Scheduler.end_of. unfold tasks. rewrite lookup_insert_eq,
      lookup_insert_ne, lookup_insert_eq by done. cbn. unfold seconds, minutes. lia.
  - intros i [-> | ->]%Hi; unfold tasks, Standing.task_of, handler_of, first_of, again_of, period_of;
      cbn [Nat.eqb]; [exists (minutes 30)|exists (seconds 15)];
      (split; [|done]); rewrite ?lookup_insert_eq, ?lookup_insert_ne, ?lookup_insert_eq by done;
      cbn; do 2 f_equal; lia.
  - lia.
Qed.

Definition elapsed (diffs : list Z) : Z := fold_right Z.add 0 diffs.

Lemma elapsed_scale diffs :
  fold_right Z.add 0 (map (λ diff, diff * per_ms) diffs) = elapsed diffs * per_ms.
Proof using Type. unfold elapsed. induction diffs as [|d ds IH]; cbn; [done|]. rewrite IH. lia. Qed.

(** How often each task was called after so many milliseconds. *)
Definition keep_alives (ms : Z) : nat := Z.to_nat (ms / 1800000).
Definition time_diffs (ms : Z) : nat :=
  if ms <? 15000 then 0 else S (Z.to_nat ((ms - 15000) / 300000)).

Lemma count_keep_alives start ms : 0 < per_ms → 0 <= ms →
  Standing.count (first_of start) period_of (start + ms * per_ms) 0 = keep_alives ms.
Proof using Type.
  intros Hp Hm. unfold Standing.count, first_of, period_of, keep_alives, minutes. cbn [Nat.eqb].
  replace (start + ms * per_ms - (start + 30 * 60000 * per_ms)) with ((ms - 1 * 1800000) * per_ms) by lia.
  replace (30 * 60000 * per_ms) with (1800000 * per_ms) by lia.
  rewrite Z.div_mul_cancel_r, <- Z.add_opp_r, <- Z.mul_opp_l, Z.div_add by lia.
  destruct (Z.ltb_spec (start + ms * per_ms) (start + 1800000 * per_ms)) as [H|H].
  - rewrite Z.div_small; [done|]. nia.
  - assert (1 <= ms / 1800000); [|lia]. apply Z.div_le_lower_bound; nia.
Qed.

Lemma count_time_diffs start ms : 0 < per_ms → 0 <= ms →
  Standing.count (first_of start) period_of (start + ms * per_ms) 1 = time_diffs ms.
Proof using Type.
  intros Hp Hm. unfold Standing.count, first_of, period_of, time_diffs, minutes, seconds. cbn [Nat.eqb].
  replace (start + ms * per_ms - (start + 15 * 1000 * per_ms)) with ((ms - 15000) * per_ms) by lia.
  replace (5 * 60000 * per_ms) with (300000 * per_ms) by lia.
  rewrite Z.div_mul_cancel_r by lia.
  destruct (Z.ltb_spec (start + ms * per_ms) (start + 15 * 1000 * per_ms)) as [H|H],
    (Z.ltb_spec ms 15000); try done; nia.
Qed.

Definition called (start : Z) (i : nat) (k : nat) : list (call Empty_set) :=
  map (Standing.tick (first_of start) period_of i) (seq 0 k).

(** C23: As long as the server runs, however its updates cut the time, the database
    is pinged once every thirty minutes and the time of the updates is logged after
    fifteen seconds and then every five minutes; the scheduler ends every update
    and calls nothing else. *)
Theorem server_tasks_run (start : Z) (diffs : list Z) :
  0 < per_ms → Forall (Z.le 0) diffs → diffs ≠ [] →
  ∃ enough s, (∀ fuel, (enough <= fuel)%nat →
    update_scheduler fuel diffs (schedule_tasks (Scheduler.new start)) = (Ret (), s)) ∧
  Standing.calls_of 0 s = called start 0 (keep_alives (elapsed diffs)) ∧
  Standing.calls_of 1 s = called start 1 (time_diffs (elapsed diffs)) ∧
  Forall (λ c, ∃ i, (i < 2)%nat ∧ Standing.is_call i c = true) (ts_calls s).
Proof using Type.
  intros Hp Hd Hn. pose proof (standing_start start Hp) as Hs.
  assert (0 <= elapsed diffs) as He.
  { unfold elapsed. clear -Hd. induction Hd; cbn; lia. }
  destruct (Standing.Updates_standing body 2 handler_of again_of (first_of start) period_of) with
    (difftimes := map (λ diff, diff * per_ms) diffs) (k := λ _ : nat, 0%nat)
    (s := schedule_tasks (Scheduler.new start)) as (enough & s & E & N & S); try done.
  - intros i r g Hi. destruct i as [|[|i]]; [done|done|lia].
  - intros i _. unfold period_of, minutes. case_match; lia.
  - intros j r g. destruct j; eexists; (split; [reflexivity|]); cbn; unfold minutes; lia.
  - unfold schedule_tasks. apply Scheduler.wf_apply; [|apply Scheduler.wf_apply; [|apply Scheduler.wf_new]];
      cbn; unfold seconds, minutes; lia.
  - apply Forall_map. eapply Forall_impl; [exact Hd|]. intros d H. cbn. nia.
  - destruct diffs; done.
  - rewrite elapsed_scale in N. cbn in N. rewrite N in S. exists enough, s. split; [exact E|].
    rewrite <- (count_keep_alives start), <- (count_time_diffs start) by done.
    split; [|split]; [by apply (Standing.st_calls _ _ _ _ _ _ _ S); lia..|].
    apply (Standing.st_only _ _ _ _ _ _ _ S).
Qed.
End tasks.
End ServerTasks.

(** Two hours and a half, in updates of up to two hours, on a clock of microseconds. *)
Lemma server_tasks_run_witness :
  ∃ enough s, (∀ fuel, (enough <= fuel)%nat →
    ServerTasks.update_scheduler 1000 fuel [20; 1; 7200000; 0; 1799979]
      (ServerTasks.schedule_tasks 1000 (Scheduler.new 7)) = (Ret (), s)) ∧
  Standing.calls_of 0 s = ServerTasks.called 1000 7 0 5 ∧
  Standing.calls_of 1 s = ServerTasks.called 1000 7 1 30 ∧
  Forall (λ c, ∃ i, (i < 2)%nat ∧ Standing.is_call i c = true) (ts_calls s).
Proof.
  apply (ServerTasks.server_tasks_run 1000 7 [20; 1; 7200000; 0; 1799979]);
    [lia|repeat constructor; lia|done].
Defined.

(** ** The main program *)

(** What the process does to start and stop its parts; a thread is named by its
    number. *)
Inductive event :=
  | RuntimeError
  | LoadAppConfigs (configFile : list Z)
  | InitLogging
  | threadsSetup
  | threadsCleanup
  | RunThread (i : nat)
  | StopIoContext
  | JoinThread (i : nat)
  | Library_Init
  | Library_End
  | LoadDatabases
  | CloseDatabase
  | LoadIPLocation
  | SetInitialDiscordSettings
  | StartDiscordNetwork (bindIp : list Z) (port threads : Z)
  | KickAll
  | UpdateSessions
  | StopNetwork
  | StartFreezeDetector
  | UpdateLoop.

#[global] Instance event_eq_dec : EqDecision event.
Proof. solve_decision. Defined.

Record Process := mkProcess {
  p_events : list event;
  p_stopEvent : bool;
  p_exitCode : Z
}.

Module Program.
Definition new : Process := mkProcess [] false SHUTDOWN_EXIT_CODE.

Abbreviation PM := (M Empty_set Process).

Definition log (e : event) : PM () :=
  modify (λ p, mkProcess (p_events p ++ [e]) (p_stopEvent p) (p_exitCode p)).

Definition StopNow (exitcode : Z) : PM () :=
  modify (λ p, mkProcess (p_events p) true (u8 exitcode)).

(** A [shared_ptr] with a deleter: what is left is deleted when the block ends. *)
Definition scope (deleter : PM ()) (block : PM Z) : PM Z :=
  code ← block; _ ← deleter; mret code.

(** The options of the command line; [None]: an option without its argument. *)
Fixpoint parse_args (argv : list (list Z)) (configFile : list Z) : option (list Z) :=
  match argv with
  | [] => Some configFile
  | arg :: argv =>
      if decide (arg = str "-c") then
        match argv with
        | [] => None
        | file :: argv => parse_args argv file
        end
      else parse_args argv configFile
  end.

Section main.
(** What the parts answer, the options, and what the loop leaves in [_exitCode]. *)
Context (configLoads : list Z → bool) (databasesLoad : bool).
Context (ThreadPool ServerPort NetworkThreads : Z) (BindIP : list Z).
Context (networkStarts : bool) (exitCode : Z).

Definition StartDB : PM bool :=
  _ ← log Library_Init;
  _ ← log LoadDatabases;
  if negb databasesLoad then mret false else mret true.

Definition StopDB : PM () :=
  _ ← log CloseDatabase;
  log Library_End.

Definition SignalHandler (error : bool) : PM () :=
  if negb error then StopNow SHUTDOWN_EXIT_CODE else skip.

(** The deleter of the thread pool, and [reset], after which it has nothing to do. *)
Definition stop_threads (n : nat) : PM () :=
  _ ← log StopIoContext;
  for_each (λ i, log (JoinThread i)) (seq 0 n).

Definition stop_network : PM () :=
  _ ← log KickAll;
  _ ← log UpdateSessions;
  log StopNetwork.

Definition numThreads : nat := Z.to_nat (if ThreadPool <? 1 then 1 else ThreadPool).

(** From the listener socket to the end of the loop; [true]: the threads are gone. *)
Definition serve : PM (Z * bool) :=
  if NetworkThreads <=? 0 then
    _ ← StopNow ERROR_EXIT_CODE; mret (1, false)
  else
    _ ← log (StartDiscordNetwork BindIP ServerPort NetworkThreads);
    if negb networkStarts then
      _ ← StopNow ERROR_EXIT_CODE; mret (1, false)
    else
      _ ← log StartFreezeDetector;
      _ ← log UpdateLoop;
      _ ← StopNow exitCode;
      _ ← stop_threads numThreads;
      code ← gets p_exitCode;
      _ ← stop_network;
      mret (code, true).

(** From the thread pool on. *)
Definition run : PM Z :=
  _ ← for_each (λ i, log (RunThread i)) (seq 0 numThreads);
  started ← StartDB;
  '(code, gone) ←
    (if negb started then mret (1, false)
     else
       _ ← log LoadIPLocation;
       _ ← log SetInitialDiscordSettings;
       r ← serve;
       _ ← StopDB;
       mret r);
  _ ← (if gone : bool then skip else stop_threads numThreads);
  mret code.

Definition main (argv : list (list Z)) (configPath : list Z) : PM Z :=
  match parse_args argv (configPath ++ str "WarheadDiscord.conf") with
  | None => _ ← log RuntimeError; mret 1
  | Some configFile =>
      _ ← log (LoadAppConfigs configFile);
      if negb (configLoads configFile) then mret 1
      else
        _ ← log InitLogging;
        _ ← log threadsSetup;
        scope (log threadsCleanup) run
  end.

(** *** What a piece of the program logs and answers, and the exit code before and
    after *)

Definition runs {A} (m : PM A) (e : Z) (a : A) (events : list event) (e' : Z) : Prop :=
  ∀ p, p_exitCode p = e → ∃ stop, m p = (Ret a, mkProcess (p_events p ++ events) stop e').

Lemma runs_bind {A B} (m : PM A) (f : A → PM B) e a l e1 b l' e' :
  runs m e a l e1 → runs (f a) e1 b l' e' → runs (m ≫= f) e b (l ++ l') e'.
Proof using Type.
  intros H1 H2 p Hp. destruct (H1 p Hp) as [s1 E1].
  destruct (H2 (mkProcess (p_events p ++ l) s1 e1) eq_refl) as [s2 E2].
  exists s2. rewrite (bind_run _ _ _ _ _ E1), E2. cbn. by rewrite <- app_assoc.
Qed.

Lemma runs_ret {A} (a : A) e : runs (mret a) e a [] e.
Proof using Type. intros p <-. exists (p_stopEvent p). rewrite app_nil_r. by destruct p. Qed.

Lemma runs_last {A B} (m : PM A) (f : A → PM B) e a l e1 b :
  runs m e a l e1 → f a = mret b → runs (m ≫= f) e b l e1.
Proof using Type.
  intros H E. rewrite <- (app_nil_r l). apply (runs_bind _ _ _ _ _ _ _ _ _ H). rewrite E. apply runs_ret.
Qed.

Lemma runs_log x e : runs (log x) e () [x] e.
Proof using Type. intros p <-. by eexists. Qed.

Lemma runs_stop c e : runs (StopNow c) e () [] (u8 c).
Proof using Type. intros p _. exists true. by rewrite app_nil_r. Qed.

Lemma runs_code e : runs (gets p_exitCode) e e [] e.
Proof using Type. intros p <-. exists (p_stopEvent p). rewrite app_nil_r. by destruct p. Qed.

Lemma runs_each (f : nat → event) l e : runs (for_each (λ i, log (f i)) l) e () (map f l) e.
Proof using Type.
  induction l as [|i l IH]; [apply runs_ret|].
  apply (runs_bind _ _ _ () [f i] e); [apply runs_log|exact IH].
Qed.

Definition threads (f : nat → event) : list event := map f (seq 0 numThreads).
Definition stopped : list event := [StopIoContext] ++ threads JoinThread.
Definition closed : list event := [CloseDatabase; Library_End].
Definition loaded : list event := [LoadIPLocation; SetInitialDiscordSettings].
Definition network : list event := [StartDiscordNetwork BindIP ServerPort NetworkThreads].

Lemma runs_stop_threads e : runs (stop_threads numThreads) e () stopped e.
Proof using Type. apply (runs_bind _ _ _ ()  _ e); [apply runs_log|apply runs_each]. Qed.

Lemma runs_StopDB e : runs StopDB e () closed e.
Proof using Type. apply (runs_bind _ _ _ () [_] e _ [_]); apply runs_log. Qed.

Lemma runs_stop_network e : runs stop_network e () [KickAll; UpdateSessions; StopNetwork] e.
Proof using Type.
  apply (runs_bind _ _ _ () [_] e _ [_; _]); [apply runs_log|].
  apply (runs_bind _ _ _ () [_] e _ [_]); apply runs_log.
Qed.

(** The server serves, and what [serve] logs. *)
Definition serves : bool := (0 <? NetworkThreads) && networkStarts.
Definition serve_events : list event :=
  if NetworkThreads <=? 0 then []
  else network ++
    (if negb networkStarts then []
     else [StartFreezeDetector; UpdateLoop] ++ stopped ++ [KickAll; UpdateSessions; StopNetwork]).

Lemma runs_serve e :
  ∃ e', runs serve e (if serves then u8 exitCode else 1, serves) serve_events e'.
Proof using Type.
  unfold serve, serves, serve_events. rewrite Z.ltb_antisym.
  destruct (NetworkThreads <=? 0); cbn [negb andb].
  { exists 1. apply (runs_bind _ _ _ () [] 1 _ []); [apply runs_stop|apply runs_ret]. }
  unfold network. destruct networkStarts; cbn [negb];
    [exists (u8 exitCode)|exists 1]; (eapply runs_bind; [apply runs_log|]).
  - apply (runs_bind _ _ _ () [_] e _ (_ :: _)); [apply runs_log|].
    apply (runs_bind _ _ _ () [_] e _ _); [apply runs_log|].
    apply (runs_bind _ _ _ () [] (u8 exitCode) _ (stopped ++ _)); [apply runs_stop|].
    eapply runs_bind; [apply runs_stop_threads|].
    apply (runs_bind _ _ _ (u8 exitCode) [] (u8 exitCode) _ [_; _; _]); [apply runs_code|].
    by eapply runs_last; [apply runs_stop_network|].
  - apply (runs_bind _ _ _ () [] 1 _ []); [apply runs_stop|apply runs_ret].
Qed.

(** The whole of [run]. *)
Definition run_events : list event :=
  threads RunThread ++ [Library_Init; LoadDatabases] ++
  (if negb databasesLoad then stopped
   else loaded ++ serve_events ++ closed ++ (if serves then [] else stopped)).
Definition run_code : Z := if databasesLoad && serves then u8 exitCode else 1.

Lemma runs_run e : ∃ e', runs run e run_code run_events e'.
Proof using Type.
  destruct (runs_serve e) as [e' Hs].
  assert (runs StartDB e databasesLoad [Library_Init; LoadDatabases] e) as Hd.
  { apply (runs_bind _ _ _ () [_] e _ [_]); [apply runs_log|].
    apply (runs_bind _ _ _ () [_] e _ []); [apply runs_log|]. destruct databasesLoad; apply runs_ret. }
  exists (if databasesLoad then e' else e). unfold run, run_code, run_events.
  eapply runs_bind; [apply runs_each|]. eapply runs_bind; [exact Hd|].
  destruct databasesLoad; cbn [negb andb].
  - rewrite !(app_assoc loaded), !(app_assoc (loaded ++ _)).
    apply (runs_bind _ _ _ (if serves then u8 exitCode else 1, serves) _ e').
    + unfold loaded. rewrite <- !app_assoc. apply (runs_bind _ _ _ () [_] e _ (_ :: _)); [apply runs_log|].
      apply (runs_bind _ _ _ () [_] e); [apply runs_log|].
      eapply runs_bind; [exact Hs|]. by eapply runs_last; [apply runs_StopDB|].
    + eapply runs_last; [|done]. destruct serves; [apply runs_ret|apply runs_stop_threads].
  - apply (runs_bind _ _ _ (1, false) [] e); [apply runs_ret|].
    by eapply runs_last; [apply runs_stop_threads|].
Qed.

(** What the whole program logs and returns. *)
Definition main_code (argv : list (list Z)) (configPath : list Z) : Z :=
  match parse_args argv (configPath ++ str "WarheadDiscord.conf") with
  | Some f => if configLoads f then run_code else 1
  | None => 1
  end.
Definition main_events (argv : list (list Z)) (configPath : list Z) : list event :=
  match parse_args argv (configPath ++ str "WarheadDiscord.conf") with
  | Some f => [LoadAppConfigs f] ++
      if configLoads f then [InitLogging; threadsSetup] ++ run_events ++ [threadsCleanup] else []
  | None => [RuntimeError]
  end.

Lemma runs_main argv configPath e :
  ∃ e', runs (main argv configPath) e (main_code argv configPath) (main_events argv configPath) e'.
Proof using Type.
  unfold main, main_code, main_events. destruct (parse_args _ _) as [f|].
  2:{ exists e. apply (runs_bind _ _ _ () [_] e _ []); [apply runs_log|apply runs_ret]. }
  destruct (runs_run e) as [e' Hr]. destruct (configLoads f); cbn [negb].
  - exists e'. eapply runs_bind; [apply runs_log|].
    apply (runs_bind _ _ _ () [_] e _ (_ :: _)); [apply runs_log|].
    apply (runs_bind _ _ _ () [_] e); [apply runs_log|].
    eapply runs_bind; [exact Hr|]. apply (runs_bind _ _ _ () [_] e' _ []); [apply runs_log|apply runs_ret].
  - exists e. by eapply runs_last; [apply runs_log|].
Qed.

Abbreviation times x l := (count_occ event_eq_dec l x).

Lemma times_threads (f : nat → event) i : Inj (=) (=) f →
  times (f i) (threads f) = if decide (i < numThreads)%nat then 1%nat else 0%nat.
Proof using Type.
  intros Hf. unfold threads. rewrite <- (count_occ_map f Nat.eq_dec) by exact Hf.
  case_decide as H; [apply NoDup_count_occ'; [apply seq_NoDup|]|apply count_occ_not_In]; rewrite in_seq; lia.
Qed.

Lemma times_other (f : nat → event) x : (∀ i, f i ≠ x) → times x (threads f) = 0%nat.
Proof using Type.
  intros H. apply count_occ_not_In. unfold threads. rewrite in_map_iff. by intros (i & E & _); apply (H i).
Qed.
(** How the lists above count. *)
Local Ltac count :=
  unfold main_events, main_code, run_events, run_code, serve_events, serves, stopped, closed, loaded,
    network;
  rewrite ?Z.ltb_antisym;
  destruct (parse_args _ _) as [f|];
    [destruct (configLoads f), databasesLoad, (NetworkThreads <=? 0), networkStarts|];
  cbn [negb andb];
  rewrite ?count_occ_app, ?times_threads by (by intros ?? [=]);
  rewrite ?(times_other RunThread), ?(times_other JoinThread) by done;
  repeat match goal with
  | |- context [count_occ _ (?y :: ?l) ?x] =>
      first [ rewrite (@count_occ_cons_neq _ event_eq_dec l y x) by done
            | rewrite (@count_occ_cons_eq _ event_eq_dec l y x) by done ]
  end;
  rewrite ?count_occ_nil.

(** Whatever fails on the way, the process starts and ends each part once: the
    threads, OpenSSL's locks, the network once the server served, and the
    databases once they are loaded; its exit code is that of the shutdown exactly
    when the server served. *)
Theorem main_releases (argv : list (list Z)) (configPath : list Z) :
  ∃ p, main argv configPath new = (Ret (main_code argv configPath), p) ∧
  let n x := times x (p_events p) in
  (∀ i, n (JoinThread i) = n (RunThread i)) ∧ n threadsCleanup = n threadsSetup ∧
  n StopNetwork = n UpdateLoop ∧ (n UpdateLoop <= 1)%nat ∧
  (databasesLoad = true → n CloseDatabase = n LoadDatabases ∧ n Library_End = n Library_Init) ∧
  main_code argv configPath = (if decide (n UpdateLoop = 1%nat) then u8 exitCode else 1).
Proof using Type.
  destruct (runs_main argv configPath SHUTDOWN_EXIT_CODE) as [e' H].
  destruct (H new eq_refl) as [stop E]. eexists. split; [exact E|]. cbn [p_events new app]. clear.
  split; [intros i; count; done|]. split; [count; done|]. split; [count; done|].
  split; [count; lia|]. split; [intros Hd; split; count; done|]. count; by repeat case_decide.
Qed.
End main.
End Program.

(** A server that serves with two threads until it is told to restart, and one
    whose databases do not load: MySQL's library is left as it was started. *)
Example a_life :
  Program.main (λ _, true) true 2 4500 1 (str "0.0.0.0") true 2 [str "-c"; str "my.conf"] [] Program.new =
  (Ret 2, mkProcess
    [LoadAppConfigs (str "my.conf"); InitLogging; threadsSetup; RunThread 0; RunThread 1; Library_Init;
     LoadDatabases; LoadIPLocation; SetInitialDiscordSettings;
     StartDiscordNetwork (str "0.0.0.0") 4500 1; StartFreezeDetector; UpdateLoop; StopIoContext;
     JoinThread 0; JoinThread 1; KickAll; UpdateSessions; StopNetwork; CloseDatabase; Library_End;
     threadsCleanup] true 2).
Proof. by vm_compute. Qed.

Example library_not_ended :
  p_events (exec (Program.main (λ _, true) false 1 4500 1 [] true 0 [] (str "etc/")) Program.new) =
  [LoadAppConfigs (str "etc/WarheadDiscord.conf"); InitLogging; threadsSetup; RunThread 0; Library_Init;
   LoadDatabases; StopIoContext; JoinThread 0; threadsCleanup].
Proof. by vm_compute. Qed.
